(* ===== verification/_CoqProject ===== *)
-Q . S2P
Prelude.v
Asio.v
Instances.v
TimedTable.v
Endpoint.v
PermissionManager.v
ChannelManager.v
RelayAddressGenerator.v
ReservationManager.v
Config.v
Message.v
OpenSSL.v
Stunxx.v
AuthKey.v
Authenticator.v
Allocation.v
AllocationManager.v
StunTurnProcessor.v
Examples.v
ProcessorFacts.v
RequestFacts.v
Server.v
Spec.v
Refinement.v
ServerRefinement.v
Authorisation.v
