(* ===== verification/Prelude.v ===== *)
(** * Verification of the Taser STUN/TURN server

    Taser (sources under src/) is a STUN and TURN server over UDP, written in
    C++ with Boost.Asio coroutines.  A client authenticates with a long-term
    credential and allocates a relayed transport address; its permissions and
    channels say which peers it exchanges data with through that address.
    This library models the server below src/server and proves what makes it
    correct, with the places where it is not.

    ** The program and its parts

    [main.cpp] loads the configuration, makes one [AllocationManager] and one
    [Server], and runs the io_context.  The [Server] owns the socket of the
    clients: its reader receives a datagram, files it under the five-tuple of
    its sender and awaits [StunTurnProcessor::processPacket]; its writer sends
    what was queued by [asyncSend].  The [StunTurnProcessor] demultiplexes the
    packet, authenticates it with the [Authenticator] and runs the handler of
    its method.  The handlers read and change the [AllocationManager]: a map
    from five-tuples to shared [UdpAllocation] objects, with the
    [RelayAddressGenerator] that opens relay sockets and the
    [ReservationManager] that keeps the second port of a pair.  A
    [UdpAllocation] has a [PermissionManager], a [ChannelManager], a socket
    and a queue, and its own reader and writer, which relay between the peers
    and the client.  Allocations, permissions, channels and reservations each
    own a timer whose handler removes them.

    ** The files, in the order of their dependencies

    - [Prelude]: machine integers, bytes and [memcpy], [emplace], the error
      type [result], the state-and-exception monad [M] of the handlers with
      its [preserves] and [wp] calculus, tactics and hint databases.
    - [Asio], [OpenSSL], [Stunxx]: the libraries the server calls, as classes
      of operations ([IpAddress], [OpenSSL], [Stunxx]) with their documented
      laws ([IpAddressLaws], [OpenSSLLaws], [StunxxLaws]); [Asio] also has
      the bookkeeping of timers (which waits are outstanding, which were
      cancelled, when a wait completes and with what error code).
      [Instances], [OpenSSL.toy_ssl] and [Stunxx]'s plain codec are concrete
      instances that satisfy the laws; the witnesses run on them.
    - [TimedTable]: the class of components that keep entries with a timer,
      and the theorems on expiry that follow from it.  [PermissionManager],
      [ChannelManager] and [AllocationManager] are instances.
    - [Endpoint]: core/Endpoint and core/FiveTuple.  [Message]:
      core/Message.hpp.  [Config]: config/Config.hpp over an interface of
      Boost's property tree.  [AuthKey] and [Authenticator]: auth/.
    - [PermissionManager], [ChannelManager]: channel/.
    - [RelayAddressGenerator] (with RelayAllocation), [ReservationManager],
      [Allocation] (with UdpAllocation), [AllocationManager]: allocation/.
    - [StunTurnProcessor]: core/StunTurnProcessor, every handler.
    - [Examples]: a configured processor and its requests, for the witnesses.
    - [ProcessorFacts]: what every packet respects.  [RequestFacts]: what each
      kind of request does.
    - [Server]: core/Server and the executions of the whole server: its
      reader and writer, the readers and writers of the allocations, the
      timers and the failures of the sockets, in any order.
    - [Spec]: an abstract TURN server, leases of relayed addresses and their
      traffic, without objects, timers, queues of coroutines or exceptions.
      [Refinement]: the request handlers implement it.  [ServerRefinement]:
      the running server does.  [Authorisation]: what follows for a client,
      proved of the abstract server and carried over.

    A C++ class is a [Record] of the same name in the file of its component,
    with the fields of the class; a member function is a [Definition] of the
    same name that takes the state and returns the new one.  Clock, random
    numbers and the answers of the operating system are arguments.  A C++
    exception is an [Err] of [result].  Pointers to allocations are keys of a
    heap ([AllocationManager.objects]), so that an allocation outlives its
    entry in the session map as a [shared_ptr] held by a coroutine does.  The
    iteration order of an [unordered_map] is a parameter, of which only that
    it enumerates the map is assumed.

    ** What the theorems show

    - The whole: every step of the server is a transition of the abstract one
      or invisible to it ([ServerRefinement.server_refines],
      [Refinement.processPacket_refines]); in every execution, data of a peer
      reaches a client only on authentic requests of that client
      ([Authorisation.relayed_data_authorised]).
    - Safety: whatever the packet, a handler leaves the state well-formed; it
      ends normally unless the request has one of the listed hazards, which
      raise an exception or are undefined in C++
      ([ProcessorFacts.processPacket_safe]).  No packet touches another
      client's allocation or is answered to anyone but its sender
      ([ProcessorFacts.processPacket_isolated]).  In every execution the
      writer of the server runs until an operation on its own socket fails,
      which ends its reader too; a hazard ends the reader alone
      ([Server.server_keeps_serving]).
    - Authentication: [authenticate] decides exactly the declarative predicate
      [ProcessorFacts.authentic]; requests that are not authentic change
      nothing; nonces round-trip, and only what the server signed is accepted.
    - Requests: for Allocate, Refresh, CreatePermission, ChannelBind, Send and
      ChannelData the exact effect and the exact answer, on every branch.
    - State with a lifetime: permissions, channels and sessions are held
      until their expiry, and are gone once the due handlers have run, by rule
      induction over executions with refreshes, re-armed timers and cancelled
      waits; the channel map stays one to one.
    - Resources: on a configured range without port 0, relayed ports lie in
      the range and have the parity asked for, and a token claims the next
      port once; the loop that draws a token ends; packets for the peers leave
      an allocation in order, and only one whose send fails is lost.
    - Faults: where the code does not do what it means to, a theorem states
      what it does.  A failed send ends the writer of an allocation, and once
      its queue is full the server waits for ever
      ([Server.dead_relay_stalls_server]); an expired allocation never stops
      unless its own socket fails ([AllocationManager.allocation_never_stops]);
      reservations never expire ([AllocationManager.reservation_never_expires]);
      the family check of Refresh is inverted; Send indications need no
      permission; ChannelData relays bytes of earlier datagrams; the even
      rounding wraps at 65535; a nonce whose hash begins with a digit is
      refused.

    ** Bounds and fuel

    - [RelayAddressGenerator.first_success] recurses on the number of
      attempts, [max_retries] (210) as in the code.
    - The loop of [createReservation] draws tokens until one is fresh and has
      no bound in the code.  [fresh_token] gets one draw more than there are
      reservations, which is enough when the tokens drawn are pairwise
      distinct ([createReservation_terminates]).  Otherwise
      [createAllocation] ends with [out_of_fuel], one of the hazards; the
      theorems that compare a handler with the specification, and the one on
      Allocate, assume distinct tokens ([ProcessorFacts.distinct_tokens]).
    - [Authenticator.to_string] has [decimal_fuel], the number of binary
      digits; [decimal_spec] shows that the decimal ones are no more.
    - Ports, sizes, tokens and hashes are integers with their wrap-around
      written out ([u16], [u64]); times are integers in seconds.

    ** Assumptions

    - The laws of the interfaces to Asio, OpenSSL and libstunxx.
    - [ProcessorFacts.decoder_ok], of refinement and authorisation only: an
      integrity attribute whose header the decoder hands out has a value, at
      its place in the packet, and peer addresses fit their arrays and parse.
      The sources rely on it (StunTurnProcessor.cpp, [toAsioAddress] and the
      check of the keyed hash) but no document of theirs says that libstunxx
      guarantees it.  Safety does without: what happens when it fails are the
      hazards.

    ** What is not modelled

    - Logging and [main.cpp]: output and process glue.  The tests.
    - Threads.  The io_context is run by several threads.  Packets of clients
      are processed one at a time, by the one reader of the server, but the
      relays of allocations and the timers may run while a handler does; the
      managers protect their maps by mutexes.  Here a handler, a round of a
      reader or a writer and the completion of a timer are atomic steps, in
      any order.
    - The wait of an allocation for the server.  When its queue of 128 is
      full the reader of the server waits, and so it does for the queue of 15
      of an allocation; the reader of an allocation, which hands its packets
      to the same [asyncSend], never waits here and exceeds the capacity.
    - The failure of binding the socket in the constructor of [Server]: the
      server does not start.
    - The TCP paths beyond [FiveTuple::fromTcp] and [generateTcpAcceptor]:
      nothing in the program calls these.

    ** Plan

    Next are the readers of allocations that wait for the queue of the
    server, and steps of relays and timers inside a handler, at its suspension
    points. *)

From Stdlib Require Import ZArith Lia Strings.Byte.
From stdpp Require Import base gmap list strings.

#[global] Open Scope Z_scope.

(** ** Notation scope and hint databases *)

Declare Scope taser_scope.
Delimit Scope taser_scope with taser.

Create HintDb taser discriminated.
Create Rewrite HintDb taser.
Create HintDb preserves discriminated.

(** ** Machine integers

    A [std::uint16_t], [std::uint64_t] or [std::size_t] is a [Z]; the
    conversions below write the wrap-around of the C++ conversion out. *)

Definition u8 (z : Z) : Z := z mod 2 ^ 8.
Definition u16 (z : Z) : Z := z mod 2 ^ 16.
Definition u64 (z : Z) : Z := z mod 2 ^ 64.

Definition is_u16 (z : Z) : Prop := 0 <= z < 2 ^ 16.
Definition is_u64 (z : Z) : Prop := 0 <= z < 2 ^ 64.

Definition int64_max : Z := 2 ^ 63 - 1.

Lemma u16_range z : is_u16 (u16 z).
Proof. apply Z.mod_pos_bound. lia. Qed.

Lemma u64_range z : is_u64 (u64 z).
Proof. apply Z.mod_pos_bound. lia. Qed.

Lemma u16_small z : is_u16 z -> u16 z = z.
Proof. apply Z.mod_small. Qed.

Lemma u64_small z : is_u64 z -> u64 z = z.
Proof. apply Z.mod_small. Qed.

Lemma lxor_u64 a b : is_u64 a -> is_u64 b -> is_u64 (Z.lxor a b).
Proof.
  unfold is_u64. intros Ha Hb.
  assert (Z.lxor a b = Z.lxor a b mod 2 ^ 64) as ->; [|apply Z.mod_pos_bound; lia].
  rewrite <-Z.land_ones by lia. apply Z.bits_inj_iff'. intros n Hn.
  rewrite Z.land_spec, Z.lxor_spec, Z.testbit_ones by lia.
  destruct (Z.ltb_spec n 64).
  - by rewrite (proj2 (Z.leb_le 0 n)), andb_true_r by lia.
  - rewrite andb_false_r, andb_false_r.
    rewrite <-(Z.mod_small a (2 ^ 64)), <-(Z.mod_small b (2 ^ 64)) by lia.
    by rewrite !Z.mod_pow2_bits_high by lia.
Qed.

#[export] Hint Resolve u16_range u64_range lxor_u64 : taser.
#[export] Hint Extern 5 (_ <= _) => lia : taser.
#[export] Hint Extern 5 (_ < _) => lia : taser.
#[export] Hint Rewrite u16_small u64_small using lia : taser.

(** ** Bytes

    [std::string], [std::span<const std::uint8_t>] and
    [std::vector<std::uint8_t>] are lists of bytes. *)

Abbreviation bytes := (list byte).

#[export] Instance byte_eq_dec : EqDecision byte := Byte.byte_eq_dec.

#[export] Program Instance byte_countable : Countable byte :=
  inj_countable Byte.to_N Byte.of_N _.
Next Obligation. intros b. apply Byte.of_to_N. Qed.

(** The value of a byte, as an unsigned integer. *)
Definition byte_val (b : byte) : Z := Z.of_N (Byte.to_N b).

(** The byte of an integer, modulo 256: [static_cast<std::uint8_t>]. *)
Definition to_byte (z : Z) : byte :=
  default x00 (Byte.of_N (Z.to_N (z mod 256))).

Lemma byte_val_range b : 0 <= byte_val b < 256.
Proof. unfold byte_val. pose proof (Byte.to_N_bounded b). lia. Qed.

Lemma to_byte_val b : to_byte (byte_val b) = b.
Proof.
  unfold to_byte. rewrite Z.mod_small by apply byte_val_range.
  unfold byte_val. by rewrite N2Z.id, Byte.of_to_N.
Qed.

Lemma byte_val_to_byte z : 0 <= z < 256 -> byte_val (to_byte z) = z.
Proof.
  intros Hz. unfold to_byte, byte_val. rewrite Z.mod_small by lia.
  destruct (Byte.of_N (Z.to_N z)) as [b|] eqn:E; simpl.
  - apply Byte.to_of_N in E. lia.
  - apply Byte.of_N_None_iff in E. lia.
Qed.

Lemma byte_val_inj b1 b2 : byte_val b1 = byte_val b2 -> b1 = b2.
Proof. intros H. by rewrite <-(to_byte_val b1), H, to_byte_val. Qed.

#[export] Hint Resolve byte_val_range : taser.

(** [memcpy] of [src] over the front of [dst]; the callers copy no more
    than the destination holds. *)
Definition memcpy (dst src : bytes) : bytes := src ++ drop (length src) dst.

Lemma length_memcpy dst src :
  (length src <= length dst)%nat -> length (memcpy dst src) = length dst.
Proof. intros. unfold memcpy. rewrite length_app, length_drop. lia. Qed.

Lemma take_memcpy dst src : take (length src) (memcpy dst src) = src.
Proof. unfold memcpy. apply take_app_length. Qed.

(** ** Containers *)

(** [std::unordered_map::emplace]: an existing entry is left alone; the
    result is the element the returned iterator designates and the map. *)
Definition emplace {K V} `{Countable K} (k : K) (v : V) (m : gmap K V)
    : V * gmap K V :=
  match m !! k with
  | Some v' => (v', m)
  | None => (v, <[k := v]> m)
  end.

Lemma emplace_fresh {K V} `{Countable K} (k : K) (v : V) (m : gmap K V) :
  m !! k = None -> emplace k v m = (v, <[k := v]> m).
Proof. intros E. unfold emplace. by rewrite E. Qed.

(** [std::ranges::find_if] on the elements in iteration order. *)
Fixpoint find_if {A} (p : A -> bool) (l : list A) : option A :=
  match l with
  | [] => None
  | x :: l => if p x then Some x else find_if p l
  end.

Lemma find_if_Some {A} (p : A -> bool) l x :
  find_if p l = Some x -> x ∈ l /\ p x = true.
Proof.
  induction l as [|y l IH]; simpl; [done|].
  destruct (p y) eqn:E; intros H.
  - simplify_eq. split; [left | done].
  - destruct (IH H). split; [by right | done].
Qed.

Lemma find_if_None {A} (p : A -> bool) l :
  find_if p l = None <-> forall x, x ∈ l -> p x = false.
Proof.
  induction l as [|y l IH]; simpl.
  - split; [intros _ x Hx; by apply elem_of_nil in Hx | done].
  - destruct (p y) eqn:E; split; intros H.
    + done.
    + rewrite (H y) in E; [done | left].
    + intros x [-> | Hx]%elem_of_cons; [done | by apply IH].
    + apply IH. intros x Hx. apply H. by right.
Qed.

(** ** Errors and effects

    A handler of the server is a state transformer that may end with a C++
    exception.  [undefined_behaviour] marks a read or a write outside an
    object, which C++ does not define; [out_of_fuel] marks a loop that the
    bound of the model cut short. *)

Inductive exn : Type :=
| runtime_error (what : string)
| system_error (what : string)
| undefined_behaviour (what : string)
| out_of_fuel.

Inductive result (A : Type) : Type :=
| Ok (a : A)
| Err (e : exn).
Arguments Ok {A} a.
Arguments Err {A} e.

Definition is_ok {A} (r : result A) : bool :=
  match r with Ok _ => true | Err _ => false end.

Lemma Ok_inj {A} (x y : A) : Ok x = Ok y <-> x = y.
Proof. split; congruence. Qed.

Definition M (S A : Type) : Type := S -> S * result A.

#[export] Instance M_ret {S} : MRet (M S) := fun A a s => (s, Ok a).

#[export] Instance M_bind {S} : MBind (M S) := fun A B k m s =>
  match m s with
  | (s', Ok a) => k a s'
  | (s', Err e) => (s', Err e)
  end.

Definition throw {S A} (e : exn) : M S A := fun s => (s, Err e).
Definition get {S} : M S S := fun s => (s, Ok s).
Definition gets {S A} (f : S -> A) : M S A := fun s => (s, Ok (f s)).
Definition modify {S} (f : S -> S) : M S unit := fun s => (f s, Ok tt).

(** [of_option e o]: the call that returned [o] throws [e] on [None]. *)
Definition of_option {S A} (e : exn) (o : option A) : M S A :=
  match o with Some a => mret a | None => throw e end.

(** The value or the exception of a pure computation. *)
Definition of_result {S A} (r : result A) : M S A := fun s => (s, r).

(** Postcondition of a computation from a state, and the invariants a
    computation preserves. *)
Definition wp {S A} (m : M S A) (Q : result A -> S -> Prop) (s : S) : Prop :=
  Q (m s).2 (m s).1.

Definition preserves {S A} (I : S -> Prop) (m : M S A) : Prop :=
  forall s, I s -> I (m s).1.

Section monad_lemmas.
Context {S A B : Type}.
Implicit Types (I : S -> Prop).

Lemma bind_ok (m : M S A) (k : A -> M S B) s s' a :
  m s = (s', Ok a) -> (m ≫= k) s = k a s'.
Proof. intros E. unfold mbind, M_bind. by rewrite E. Qed.

Lemma bind_err (m : M S A) (k : A -> M S B) s s' e :
  m s = (s', Err e) -> (m ≫= k) s = (s', Err e).
Proof. intros E. unfold mbind, M_bind. by rewrite E. Qed.

Lemma preserves_ret I (a : A) : preserves I (mret a : M S A).
Proof. by intros s. Qed.

Lemma preserves_throw I e : preserves I (throw e : M S A).
Proof. by intros s. Qed.

Lemma preserves_gets I (f : S -> A) : preserves I (gets f).
Proof. by intros s. Qed.

Lemma preserves_modify I (f : S -> S) :
  (forall s, I s -> I (f s)) -> preserves I (modify f).
Proof. intros Hf s. apply Hf. Qed.

Lemma preserves_of_option I e (o : option A) :
  preserves I (of_option e o : M S A).
Proof. by destruct o; intros s. Qed.

Lemma preserves_of_result I (r : result A) : preserves I (of_result r : M S A).
Proof. by intros s. Qed.

Lemma preserves_bind I (m : M S A) (k : A -> M S B) :
  preserves I m -> (forall a, preserves I (k a)) -> preserves I (m ≫= k).
Proof.
  intros Hm Hk s Hs. unfold mbind, M_bind.
  specialize (Hm s Hs). destruct (m s) as [s' [a|e]]; [by apply Hk | done].
Qed.

Lemma wp_bind (m : M S A) (k : A -> M S B) Q s :
  wp m (fun r s' => match r with
                    | Ok a => wp (k a) Q s'
                    | Err e => Q (Err e) s'
                    end) s ->
  wp (m ≫= k) Q s.
Proof.
  unfold wp, mbind, M_bind. by destruct (m s) as [s' [a|e]].
Qed.

Lemma wp_mono (m : M S A) (Q Q' : result A -> S -> Prop) s :
  wp m Q s -> (forall r s', Q r s' -> Q' r s') -> wp m Q' s.
Proof. unfold wp. auto. Qed.
End monad_lemmas.

#[export] Hint Resolve preserves_ret preserves_throw preserves_gets
  preserves_of_option preserves_of_result : preserves.

(** ** Tactics *)

(** Case analysis on the scrutinee of every [match] or [if] of the goal. *)
Ltac case_all :=
  repeat match goal with
  | |- context [match ?x with _ => _ end] =>
      let E := fresh "E" in destruct x eqn:E; simplify_eq/=
  end.

(** [lia] on goals with divisions and remainders by constants. *)
Ltac divlia := Z.to_euclidean_division_equations; lia.

(** Booleans of the code, turned into propositions. *)
Ltac bool_hyps :=
  repeat match goal with
  | H : bool_decide _ = true |- _ => apply bool_decide_eq_true in H
  | H : bool_decide _ = false |- _ => apply bool_decide_eq_false in H
  | H : andb _ _ = true |- _ => apply andb_true_iff in H; destruct H
  | H : orb _ _ = false |- _ => apply orb_false_iff in H; destruct H
  | H : negb _ = true |- _ => apply negb_true_iff in H
  | H : negb _ = false |- _ => apply negb_false_iff in H
  | H : (_ <=? _) = true |- _ => apply Z.leb_le in H
  | H : (_ <=? _) = false |- _ => apply Z.leb_gt in H
  | H : (_ <? _) = true |- _ => apply Z.ltb_lt in H
  | H : (_ <? _) = false |- _ => apply Z.ltb_ge in H
  | H : (_ =? _) = true |- _ => apply Z.eqb_eq in H
  | H : (_ =? _) = false |- _ => apply Z.eqb_neq in H
  end.

(** Structural steps of a [preserves] goal. *)
Ltac preserve :=
  repeat first
    [ solve [auto with preserves]
    | apply preserves_bind; [| intros ?]
    | match goal with
      | |- preserves _ (match ?x with _ => _ end) => destruct x
      end ].
