(* ===== verification/Asio.v ===== *)
(** * Interface of Boost.Asio

    The library is not part of the repository.  This file holds what the
    server relies on: the operations of [boost::asio::ip::address] as a
    class with its laws, and the bookkeeping of [boost::asio::steady_timer]
    that a client observes.  No definition of this file models code of the
    repository. *)

From Stdlib Require Import ZArith Lia Strings.Byte.
From stdpp Require Import base gmap list.
From S2P Require Import Prelude.

(** ** Addresses *)

Class IpAddress := {
  Address : Type;
  #[global] address_eq_dec :: EqDecision Address;
  #[global] address_countable :: Countable Address;
  is_v4 : Address -> bool;
  is_v6 : Address -> bool;
  to_v4_bytes : Address -> bytes;
  to_v6_bytes : Address -> bytes;
  from_v4 : bytes -> Address;
  from_v6 : bytes -> Address;
  (** [boost::asio::ip::make_address]; [None] when it throws. *)
  make_address : bytes -> option Address;
  address_to_string : Address -> bytes;
  (** [std::hash<boost::asio::ip::address>] *)
  hash_address : Address -> Z
}.

(** What the documentation of [ip::address] says and the server uses: an
    address is IPv4 or IPv6, the constructors give the family they are
    named after, and the printed form of an address reads back as it. *)
Class IpAddressLaws (ip : IpAddress) : Prop := {
  address_family_total : forall a, is_v6 a = negb (is_v4 a);
  from_v4_is_v4 : forall b, is_v4 (from_v4 b) = true;
  from_v6_is_v6 : forall b, is_v6 (from_v6 b) = true;
  make_address_to_string : forall a, make_address (address_to_string a) = Some a
}.

(** ** Timers *)

(** [boost::system::error_code], as far as a handler looks at it. *)
Inductive error_code : Type :=
| no_error
| operation_aborted
| other_error (value : Z).

#[export] Instance error_code_eq_dec : EqDecision error_code.
Proof. solve_decision. Defined.

(** [if (ec)] *)
Definition failed (ec : error_code) : bool := negb (bool_decide (ec = no_error)).

(** A time point of [std::chrono::steady_clock] is a number of nanoseconds;
    [std::chrono::seconds(n)] is a duration of [n * 10^9] of them. *)
Definition seconds (n : Z) : Z := n * 1000000000.

(** A timer as its owner sees it: the expiry it was set to, and the
    identity of that setting.  [expires_after] and the destruction of the
    timer end the setting, so that the waits begun under it are cancelled. *)
Record steady_timer : Type := {
  timer_id : nat;
  expiry : Z
}.

(** An outstanding [async_wait]: the setting it was begun under, the time it
    is due and what its handler captured. *)
Record wait (K : Type) : Type := {
  wait_id : nat;
  wait_due : Z;
  wait_key : K
}.
Arguments wait_id {K} _.
Arguments wait_due {K} _.
Arguments wait_key {K} _.

#[export] Instance wait_eq_dec {K} `{EqDecision K} : EqDecision (wait K).
Proof. solve_decision. Defined.

(** The waits one owner has begun and whose handler has not run yet. *)
Record timer_service (K : Type) : Type := {
  next_id : nat;
  waits : list (wait K)
}.
Arguments next_id {K} _.
Arguments waits {K} _.

Definition no_timers {K} : timer_service K := {| next_id := 0; waits := [] |}.

Section timers.
Context {K : Type}.

(** The constructor of [steady_timer]: no expiry has been set. *)
Definition new_timer (svc : timer_service K) : steady_timer * timer_service K :=
  ({| timer_id := next_id svc; expiry := 0 |},
   {| next_id := S (next_id svc); waits := waits svc |}).

(** [timer.expires_after(std::chrono::seconds(n))] at time [now]. *)
Definition expires_after (now n : Z) (svc : timer_service K)
    : steady_timer * timer_service K :=
  ({| timer_id := next_id svc; expiry := now + seconds n |},
   {| next_id := S (next_id svc); waits := waits svc |}).

(** [timer.async_wait(handler)], the handler capturing [k]. *)
Definition async_wait (t : steady_timer) (k : K) (svc : timer_service K)
    : timer_service K :=
  {| next_id := next_id svc;
     waits := waits svc ++
       [{| wait_id := timer_id t; wait_due := expiry t; wait_key := k |}] |}.

(** The handler of [w] is taken off the outstanding waits when it runs. *)
Definition take_wait `{EqDecision K} (w : wait K) (svc : timer_service K)
    : timer_service K :=
  {| next_id := next_id svc;
     waits := filter (fun w' => w' <> w) (waits svc) |}.
End timers.

(** What Asio promises about the error code a handler gets: success not
    before the wait is due, and an error only when the wait was cancelled,
    that is, when the setting it was begun under has ended ([live] holds of
    the settings that have not).  A cancelled wait may still complete with
    success when its handler was already queued. *)
Definition completion_ok {K} (now : Z) (live : nat -> Prop) (w : wait K)
    (ec : error_code) : Prop :=
  (ec = no_error -> wait_due w <= now) /\
  (ec <> no_error -> ~ live (wait_id w)).
