(* ===== verification/Instances.v ===== *)
(** * A concrete address type

    An instance of the address interface of [Asio], for evaluating the model
    on concrete inputs.  An address is the family and the bytes; its printed
    form is the bytes behind a tag, not the notation Asio prints. *)

From Stdlib Require Import ZArith Lia Strings.Byte.
From stdpp Require Import base gmap list.
From S2P Require Import Prelude Asio.

Inductive plain_address : Type :=
| V4 (b : bytes)
| V6 (b : bytes).

#[export] Instance plain_address_eq_dec : EqDecision plain_address.
Proof. solve_decision. Defined.

#[export] Program Instance plain_address_countable : Countable plain_address :=
  inj_countable' (fun a => match a with V4 b => (true, b) | V6 b => (false, b) end)
    (fun p => if p.1 then V4 p.2 else V6 p.2) _.
Next Obligation. by intros []. Qed.

Definition bytes_of (a : plain_address) : bytes :=
  match a with V4 b | V6 b => b end.

Definition plain_ip : IpAddress := {|
  Address := plain_address;
  is_v4 a := match a with V4 _ => true | V6 _ => false end;
  is_v6 a := match a with V4 _ => false | V6 _ => true end;
  to_v4_bytes := bytes_of;
  to_v6_bytes := bytes_of;
  from_v4 := V4;
  from_v6 := V6;
  make_address s :=
    match s with
    | x04 :: b => Some (V4 b)
    | x06 :: b => Some (V6 b)
    | _ => None
    end;
  address_to_string a := match a with V4 b => x04 :: b | V6 b => x06 :: b end;
  hash_address a := match bytes_of a with b :: _ => byte_val b | [] => 0 end
|}.

Lemma plain_ip_laws : IpAddressLaws plain_ip.
Proof. split; by try intros []. Qed.

(** 127.0.0.1 and two peers. *)
Definition localhost : plain_address := V4 [x7f; x00; x00; x01].
Definition peer_a : plain_address := V4 [x0a; x00; x00; x01].
Definition peer_b : plain_address := V4 [x0a; x00; x00; x02].
