(* ===== verification/TimedTable.v ===== *)
(** * Tables of entries with a timer

    The permissions of an allocation, its channels and the allocations
    themselves are kept in a map whose entries each own a timer; a handler
    removes an entry whose timer has expired.  This file states what such a
    component promises as a class, and proves from the promise alone that
    expired entries are removed once the handlers that are due have run, and
    that no entry is removed before. *)

From Stdlib Require Import ZArith Lia.
From stdpp Require Import base gmap list relations.
From S2P Require Import Prelude Asio.

(** The view of a component's state as such a table. *)
Class TimedTable (K St : Type) `{Countable K} := {
  timers : St -> gmap K steady_timer;
  service : St -> timer_service K;
  set_service : timer_service K -> St -> St;
  (** The completion handler of a wait that captured the key. *)
  fire : Z -> error_code -> K -> St -> St
}.

(** The promise: a handler removes its own entry, and only when that entry's
    timer has expired; a handler that completes without an error does so. *)
Class TimedTableLaws (K St : Type) `{TimedTable K St} : Prop := {
  timers_set_service : forall svc s, timers (set_service svc s) = timers s;
  service_set_service : forall svc s, service (set_service svc s) = svc;
  fire_service : forall now ec k s, service (fire now ec k s) = service s;
  fire_timers : forall now ec k s,
    timers (fire now ec k s) = timers s \/
    (exists t, timers s !! k = Some t /\ expiry t <= now /\
               timers (fire now ec k s) = delete k (timers s));
  fire_expired : forall now k s t,
    timers s !! k = Some t -> expiry t <= now ->
    timers (fire now no_error k s) = delete k (timers s)
}.

(** ** Armed tables

    Every entry has an outstanding wait, begun under the current setting of
    the entry's timer, with the entry's key. *)
Section armed.
Context {K : Type} `{Countable K}.
Implicit Types (tm : gmap K steady_timer) (svc : timer_service K).

Definition wait_of (k : K) (t : steady_timer) : wait K :=
  {| wait_id := timer_id t; wait_due := expiry t; wait_key := k |}.

Record armed (tm : gmap K steady_timer) (svc : timer_service K) : Prop := {
  armed_entry : forall k t, tm !! k = Some t -> wait_of k t ∈ waits svc;
  armed_fresh : forall w, w ∈ waits svc -> (wait_id w < next_id svc)%nat;
  armed_unique : forall w w', w ∈ waits svc -> w' ∈ waits svc ->
                 wait_id w = wait_id w' -> w = w'
}.

(** A setting is live while an entry's timer has it. *)
Definition live tm (i : nat) : Prop :=
  exists k t, tm !! k = Some t /\ timer_id t = i.

Lemma armed_empty : armed ∅ (no_timers (K := K)).
Proof. split; [by intros | intros w Hw; by apply elem_of_nil in Hw
  | intros w w' Hw; by apply elem_of_nil in Hw]. Qed.

(** Setting the timer of a key, new or old, and waiting on it. *)
Lemma armed_set tm svc k now n :
  armed tm svc ->
  let '(t, svc') := expires_after now n svc in
  armed (<[k := t]> tm) (async_wait t k svc').
Proof.
  intros [He Hf Hu]. simpl. split; simpl.
  - intros k' t'. rewrite lookup_insert. case_decide; intros Ht; simplify_eq.
    + apply elem_of_app. right. by apply list_elem_of_singleton.
    + apply elem_of_app. left. by apply He.
  - intros w [Hw|Hw]%elem_of_app; [apply Hf in Hw; lia|].
    apply list_elem_of_singleton in Hw. subst; simpl. lia.
  - intros w w' [Hw|Hw]%elem_of_app [Hw'|Hw']%elem_of_app Hid;
      [by apply Hu | | |].
    + apply list_elem_of_singleton in Hw'. subst; simpl in *.
      apply Hf in Hw. lia.
    + apply list_elem_of_singleton in Hw. subst; simpl in *.
      apply Hf in Hw'. lia.
    + apply list_elem_of_singleton in Hw, Hw'. by subst.
Qed.

Lemma armed_new_timer tm svc :
  armed tm svc -> armed tm (new_timer svc).2.
Proof.
  intros [He Hf Hu]. split; simpl; [done | | done].
  intros w Hw. apply Hf in Hw. lia.
Qed.

Lemma armed_delete tm svc k : armed tm svc -> armed (delete k tm) svc.
Proof.
  intros [He Hf Hu]. split; [|done|done].
  intros k' t [Hk Ht]%lookup_delete_Some. by apply He.
Qed.

Lemma elem_of_take_wait (w w' : wait K) svc :
  w' ∈ waits (take_wait w svc) <-> w' <> w /\ w' ∈ waits svc.
Proof. simpl. by rewrite list_elem_of_filter. Qed.

(** A wait whose setting is live belongs to the entry of its key. *)
Lemma armed_live tm svc w :
  armed tm svc -> w ∈ waits svc -> live tm (wait_id w) ->
  exists t, tm !! wait_key w = Some t /\ w = wait_of (wait_key w) t.
Proof.
  intros Ha Hw (k & t & Hk & Hid).
  pose proof (armed_entry _ _ Ha _ _ Hk) as Hin.
  rewrite (armed_unique _ _ Ha w (wait_of k t) Hw Hin) by done.
  by exists t.
Qed.

Lemma armed_take tm svc w :
  armed tm svc -> (forall t, tm !! wait_key w = Some t -> w <> wait_of (wait_key w) t) ->
  armed tm (take_wait w svc).
Proof.
  intros [He Hf Hu] Hne. split.
  - intros k t Hk. apply elem_of_take_wait. split; [|by apply He].
    intros <-. by eapply Hne.
  - intros w' [_ Hw']%elem_of_take_wait. by apply Hf.
  - intros w1 w2 [_ H1]%elem_of_take_wait [_ H2]%elem_of_take_wait. by apply Hu.
Qed.
End armed.

(** ** Running the handlers *)
Section running.
Context {K St : Type} `{TimedTable K St} `{!TimedTableLaws K St}.
Implicit Types (s : St) (w : wait K).

(** One handler runs at time [now]: an outstanding wait completes. *)
Definition run_wait (now : Z) (w : wait K) (ec : error_code) (s : St) : St :=
  fire now ec (wait_key w) (set_service (take_wait w (service s)) s).

Inductive completes (now : Z) : St -> St -> Prop :=
| completes_intro w ec s :
    w ∈ waits (service s) ->
    completion_ok now (live (timers s)) w ec ->
    completes now s (run_wait now w ec s).

Lemma completes_inv now s s' :
  completes now s s' ->
  exists w ec, w ∈ waits (service s) /\
    completion_ok now (live (timers s)) w ec /\ s' = run_wait now w ec s.
Proof. intros [w ec s0 Hw Hok]. eauto. Qed.

(** No wait is due: the event loop has run every handler it could. *)
Definition quiescent (now : Z) (s : St) : Prop :=
  forall w, w ∈ waits (service s) -> now < wait_due w.

Definition armed_state (s : St) : Prop := armed (timers s) (service s).

Lemma service_run_wait now w ec s :
  service (run_wait now w ec s) = take_wait w (service s).
Proof. unfold run_wait. by rewrite fire_service, service_set_service. Qed.

Lemma timers_run_wait now w ec s :
  timers (run_wait now w ec s) = timers s \/
  (exists t, timers s !! wait_key w = Some t /\ expiry t <= now /\
             timers (run_wait now w ec s) = delete (wait_key w) (timers s)).
Proof.
  unfold run_wait.
  destruct (fire_timers now ec (wait_key w) (set_service (take_wait w (service s)) s))
    as [E | (t & Ht & Hexp & E)]; rewrite E, ?timers_set_service in *; eauto.
Qed.

(** A handler removes no entry before its time. *)
Lemma run_wait_keeps now w ec s k t :
  timers s !! k = Some t -> now < expiry t ->
  timers (run_wait now w ec s) !! k = Some t.
Proof.
  intros Hk Hlt.
  destruct (timers_run_wait now w ec s) as [-> | (t' & Ht' & Hexp & ->)]; [done|].
  rewrite lookup_delete_ne; [done|]. intros <-. simplify_eq. lia.
Qed.

Lemma run_wait_subset now w ec s : timers (run_wait now w ec s) ⊆ timers s.
Proof.
  destruct (timers_run_wait now w ec s) as [-> | (t' & _ & _ & ->)];
    [done | apply delete_subseteq].
Qed.

Lemma run_wait_lookup now w ec s k t :
  timers (run_wait now w ec s) !! k = Some t -> timers s !! k = Some t.
Proof. intros Hk. eapply lookup_weaken; [exact Hk | apply run_wait_subset]. Qed.

Lemma completes_armed now s s' :
  armed_state s -> completes now s s' -> armed_state s'.
Proof.
  unfold armed_state. intros Ha Hc. revert Ha.
  destruct Hc as [w ec s0 Hw [Hdue Hcancel]]. intros Ha.
  rewrite service_run_wait.
  destruct (decide (ec = no_error)) as [->|Hec].
  - specialize (Hdue eq_refl).
    destruct (timers s0 !! wait_key w) as [t|] eqn:Ht.
    + destruct (decide (w = wait_of (wait_key w) t)) as [Heq|Hne].
      * assert (expiry t <= now) as Hexp by (rewrite Heq in Hdue; exact Hdue).
        assert (timers (run_wait now w no_error s0) = delete (wait_key w) (timers s0)) as ->.
        { unfold run_wait. rewrite (fire_expired _ _ _ t);
            by rewrite ?timers_set_service. }
        apply armed_take; [by apply armed_delete|].
        intros t' [? _]%lookup_delete_Some. done.
      * assert (armed (timers s0) (take_wait w (service s0))) as Ha'.
        { apply armed_take; [done|]. intros t' Ht'. by simplify_eq. }
        destruct (timers_run_wait now w no_error s0) as [-> | (? & _ & _ & ->)];
          [done | by apply armed_delete].
    + destruct (timers_run_wait now w no_error s0) as [-> | (? & ? & _ & _)];
        [|by simplify_eq].
      apply armed_take; [done|]. intros t Ht'. by simplify_eq.
  - specialize (Hcancel Hec).
    assert (armed (timers s0) (take_wait w (service s0))) as Ha'.
    { apply armed_take; [done|]. intros t Ht Heq%(f_equal wait_id). apply Hcancel.
      by exists (wait_key w), t. }
    destruct (timers_run_wait now w ec s0) as [-> | (? & _ & _ & ->)];
      [done | by apply armed_delete].
Qed.

Lemma rtc_completes_armed now s s' :
  rtc (completes now) s s' -> armed_state s -> armed_state s'.
Proof. induction 1; eauto using completes_armed. Qed.

Lemma rtc_completes_keeps now s s' k t :
  rtc (completes now) s s' -> timers s !! k = Some t -> now < expiry t ->
  timers s' !! k = Some t.
Proof.
  induction 1 as [|s1 s2 s3 Hc _ IH]; intros Hk Hlt; [done|].
  apply IH; [|done]. destruct Hc. by apply run_wait_keeps.
Qed.

Lemma rtc_completes_subset now s s' :
  rtc (completes now) s s' -> timers s' ⊆ timers s.
Proof.
  induction 1 as [|s1 s2 s3 Hc _ IH]; [done|].
  destruct Hc. etrans; [exact IH | apply run_wait_subset].
Qed.

(** In an armed state where no handler is due, no entry has expired. *)
Lemma quiescent_unexpired now s k t :
  armed_state s -> quiescent now s -> timers s !! k = Some t -> now < expiry t.
Proof.
  intros Ha Hq Hk. apply (Hq (wait_of k t)). by apply Ha.
Qed.

(** The handlers that are due can run, and there are finitely many. *)
Lemma drain now s :
  exists s', rtc (completes now) s s' /\ quiescent now s'.
Proof.
  remember (length (waits (service s))) as n eqn:Hn.
  revert s Hn. induction n as [n IH] using lt_wf_ind. intros s ->.
  destruct (find_if (fun w => wait_due w <=? now) (waits (service s))) as [w|] eqn:E.
  - apply find_if_Some in E as [Hw Hdue]. bool_hyps.
    destruct (IH (length (waits (service (run_wait now w no_error s))))
                 ) with (s := run_wait now w no_error s) as (s' & Hs & Hq); [|done|].
    + rewrite service_run_wait. simpl. apply length_filter_lt with (x := w);
        [done | intros Hne; by apply Hne].
    + exists s'. split; [|done]. eapply rtc_l; [|done].
      constructor; [done|]. by split.
  - exists s. split; [done|]. intros w Hw.
    rewrite find_if_None in E. apply E in Hw. by bool_hyps.
Qed.

(** Expiry, for the clients: from an armed state the handlers that are due
    run to a state that holds exactly the entries that have not expired. *)
Lemma drain_exact now s :
  armed_state s ->
  exists s', rtc (completes now) s s' /\ armed_state s' /\ quiescent now s' /\
    forall k t, timers s' !! k = Some t <-> timers s !! k = Some t /\ now < expiry t.
Proof.
  intros Ha. destruct (drain now s) as (s' & Hs & Hq).
  assert (armed_state s') as Ha' by by eapply rtc_completes_armed.
  exists s'. split; [done|]. split; [done|]. split; [done|].
  intros k t. split.
  - intros Hk. split.
    + eapply lookup_weaken; [done | by eapply rtc_completes_subset].
    + by eapply quiescent_unexpired.
  - intros [Hk Hlt]. by eapply rtc_completes_keeps.
Qed.
End running.
