(* ===== verification/Endpoint.v ===== *)
(** * Endpoints and five-tuples: server/core/Endpoint, server/core/FiveTuple

    The transport addresses the server keys its state by, and the hash
    functions of its maps. *)

From Stdlib Require Import ZArith Lia Strings.Byte.
From stdpp Require Import base gmap list.
From S2P Require Import Prelude Asio Instances.

(** [stunxx::Protocol], of which the server uses two values. *)
Inductive Protocol : Type := UDP | TCP.

#[export] Instance Protocol_eq_dec : EqDecision Protocol.
Proof. solve_decision. Defined.

#[export] Program Instance Protocol_countable : Countable Protocol :=
  inj_countable' (fun p => bool_decide (p = UDP)) (fun b => if b : bool then UDP else TCP) _.
Next Obligation. intros p; by destruct p. Qed.

Section Endpoint.
Context {ip : IpAddress}.

Record Endpoint : Type := {
  address : Address;
  port : Z;
  protocol : Protocol
}.

(** [Endpoint::operator==]: the three members are compared. *)
Definition Endpoint_eqb (e other : Endpoint) : bool :=
  bool_decide (address e = address other) &&
  (port e =? port other) &&
  bool_decide (protocol e = protocol other).

#[export] Instance Endpoint_eq_dec : EqDecision Endpoint.
Proof. solve_decision. Defined.

Lemma Endpoint_eqb_spec e other : Endpoint_eqb e other = true <-> e = other.
Proof.
  unfold Endpoint_eqb. destruct e, other; simpl.
  rewrite !andb_true_iff, !bool_decide_eq_true, Z.eqb_eq. intuition congruence.
Qed.

Lemma Endpoint_eqb_refl e : Endpoint_eqb e e = true.
Proof. by apply Endpoint_eqb_spec. Qed.

Lemma Endpoint_eqb_ne e other : Endpoint_eqb e other = false <-> e <> other.
Proof. rewrite <-Endpoint_eqb_spec. by destruct (Endpoint_eqb e other). Qed.

Record FiveTuple : Type := {
  client_address_ : Address;
  client_port_ : Z;
  server_address_ : Address;
  server_port_ : Z;
  protocol_ : Protocol
}.

#[export] Instance FiveTuple_eq_dec : EqDecision FiveTuple.
Proof. solve_decision. Defined.

#[export] Program Instance FiveTuple_countable : Countable FiveTuple :=
  inj_countable'
    (fun t => (client_address_ t, client_port_ t, server_address_ t,
               server_port_ t, protocol_ t))
    (fun '(ca, cp, sa, sp, p) => Build_FiveTuple ca cp sa sp p) _.
Next Obligation. by intros []. Qed.

(** [FiveTuple::fromUdp] and [fromTcp], an Asio endpoint being its address
    and its port. *)
Definition fromUdp (client server : Address * Z) : FiveTuple :=
  {| client_address_ := client.1; client_port_ := client.2;
     server_address_ := server.1; server_port_ := server.2;
     protocol_ := UDP |}.

Definition fromTcp (client server : Address * Z) : FiveTuple :=
  {| client_address_ := client.1; client_port_ := client.2;
     server_address_ := server.1; server_port_ := server.2;
     protocol_ := TCP |}.

(** [FiveTuple::endpoint]: where the client is. *)
Definition endpoint (t : FiveTuple) : Endpoint :=
  {| address := client_address_ t;
     port := client_port_ t;
     protocol := protocol_ t |}.

Lemma endpoint_fromUdp client server :
  endpoint (fromUdp client server) =
    {| address := client.1; port := client.2; protocol := UDP |}.
Proof. done. Qed.
End Endpoint.

(** ** Hashing

    [std::hash] of an address, of a 16-bit integer and of the protocol are
    parameters; [hash_combine] is the lambda of both functors, on the 64-bit
    [std::size_t]. *)

Definition hash_combine (h v : Z) : Z :=
  Z.lxor h (u64 (v + 0x9e3779b97f4a7c15 + u64 (Z.shiftl h 6) + Z.shiftr h 2)).

Section Hash.
Context {ip : IpAddress} (hash_u16 : Z -> Z) (hash_protocol : Protocol -> Z).

Definition hash_Endpoint (ep : Endpoint) : Z :=
  let h := 0 in
  let h := hash_combine h (hash_address (address ep)) in
  let h := hash_combine h (hash_u16 (port ep)) in
  hash_combine h (hash_protocol (protocol ep)).

Definition hash_FiveTuple (ft : FiveTuple) : Z :=
  let h := 0 in
  let h := hash_combine h (hash_address (client_address_ ft)) in
  let h := hash_combine h (hash_u16 (client_port_ ft)) in
  let h := hash_combine h (hash_address (server_address_ ft)) in
  let h := hash_combine h (hash_u16 (server_port_ ft)) in
  hash_combine h (hash_protocol (protocol_ ft)).
End Hash.

Lemma lxor_cancel_l a b c : Z.lxor a b = Z.lxor a c -> b = c.
Proof.
  intros E. apply (f_equal (Z.lxor a)) in E.
  by rewrite <-!Z.lxor_assoc, Z.lxor_nilpotent, !Z.lxor_0_l in E.
Qed.

Lemma hash_combine_range h v : is_u64 h -> is_u64 (hash_combine h v).
Proof. intros Hh. unfold hash_combine. apply lxor_u64; [done | apply u64_range]. Qed.

(** For a fixed seed the combination loses nothing of the new value. *)
Lemma hash_combine_inj h v w :
  is_u64 v -> is_u64 w -> hash_combine h v = hash_combine h w -> v = w.
Proof.
  unfold hash_combine, is_u64, u64. intros Hv Hw E%lxor_cancel_l.
  set (c := 0x9e3779b97f4a7c15) in *. set (d := Z.shiftl h 6 mod 2 ^ 64) in *.
  set (e := Z.shiftr h 2) in *.
  rewrite <-(Z.mod_small v (2 ^ 64)), <-(Z.mod_small w (2 ^ 64)) by done.
  replace v with (v + c + d + e - (c + d + e)) by lia.
  replace w with (w + c + d + e - (c + d + e)) by lia.
  by rewrite Zminus_mod, E, <-Zminus_mod.
Qed.

(** ** Properties *)

(** The hash of a five-tuple is a 64-bit value, and two five-tuples that
    differ only in the transport protocol never collide when the standard
    hash of the protocol does not. *)
Lemma hash_FiveTuple_protocol {ip : IpAddress}
    (hash_u16 : Z -> Z) (hash_protocol : Protocol -> Z) (t1 t2 : FiveTuple) :
  (forall p, is_u64 (hash_protocol p)) ->
  hash_protocol UDP <> hash_protocol TCP ->
  is_u64 (hash_FiveTuple hash_u16 hash_protocol t1) /\
  (client_address_ t1 = client_address_ t2 -> client_port_ t1 = client_port_ t2 ->
   server_address_ t1 = server_address_ t2 -> server_port_ t1 = server_port_ t2 ->
   hash_FiveTuple hash_u16 hash_protocol t1 = hash_FiveTuple hash_u16 hash_protocol t2 ->
   t1 = t2).
Proof.
  intros Hr Hne. split.
  - unfold hash_FiveTuple. do 5 apply hash_combine_range. by vm_compute.
  - destruct t1 as [a1 p1 b1 q1 r1], t2 as [a2 p2 b2 q2 r2]; simpl.
    intros -> -> -> ->. unfold hash_FiveTuple; simpl.
    intros E%hash_combine_inj; [|done|done]. by destruct r1, r2.
Qed.

(** The standard hashes of the witness, and a client's five-tuple. *)
Definition example_hash (p : Protocol) : Z := match p with UDP => 17 | TCP => 6 end.

Definition example_tuple (p : Protocol) : @FiveTuple plain_ip :=
  match p with
  | UDP => fromUdp (ip := plain_ip) (peer_a, 5000) (localhost, 3478)
  | TCP => fromTcp (ip := plain_ip) (peer_a, 5000) (localhost, 3478)
  end.

Lemma example_hash_range p : is_u64 (example_hash p).
Proof. by destruct p. Qed.

Lemma hash_FiveTuple_protocol_example :
  hash_FiveTuple id example_hash (example_tuple UDP) <>
  hash_FiveTuple id example_hash (example_tuple TCP).
Proof.
  intros E.
  pose proof (proj2 (hash_FiveTuple_protocol id example_hash
    (example_tuple UDP) (example_tuple TCP) example_hash_range
    ltac:(discriminate)) eq_refl eq_refl eq_refl eq_refl E) as H.
  discriminate H.
Defined.
