(* ===== verification/PermissionManager.v ===== *)
(** * Permissions: server/channel/PermissionManager

    The peer addresses a client has permitted, each with a timer.  The
    operations below are the member functions; [system] adds the clock, the
    calls in any order and the completion of timers in any order Asio allows.
    A permission is held for exactly its lifetime after its last grant, up to
    handlers that are due but have not run. *)

From Stdlib Require Import ZArith Lia.
From stdpp Require Import base gmap list relations.
From S2P Require Import Prelude Asio Instances TimedTable.

Section PermissionManager.
Context {ip : IpAddress}.

Record PermissionManager : Type := {
  lifetime_seconds_ : Z;
  permissions_ : gmap Address steady_timer;
  timer_calls : timer_service Address
}.

(** The constructor. *)
Definition make (lifetime_seconds : Z) : PermissionManager :=
  {| lifetime_seconds_ := lifetime_seconds;
     permissions_ := ∅;
     timer_calls := no_timers |}.

(** The destructor: the map is moved out and destroyed with its timers. *)
Definition destroy (pm : PermissionManager) : PermissionManager :=
  {| lifetime_seconds_ := lifetime_seconds_ pm;
     permissions_ := ∅;
     timer_calls := timer_calls pm |}.

Definition addPermission (now : Z) (peer_addr : Address)
    (pm : PermissionManager) : PermissionManager :=
  let permissions := delete peer_addr (permissions_ pm) in
  let '(fresh, calls) := new_timer (timer_calls pm) in
  let '(timer, permissions) := emplace peer_addr fresh permissions in
  let '(timer, calls) := expires_after now (lifetime_seconds_ pm) calls in
  {| lifetime_seconds_ := lifetime_seconds_ pm;
     permissions_ := <[peer_addr := timer]> permissions;
     timer_calls := async_wait timer peer_addr calls |}.

Definition removePermission (now : Z) (peer_addr : Address)
    (pm : PermissionManager) : PermissionManager :=
  match permissions_ pm !! peer_addr with
  | Some timer =>
      if expiry timer <=? now then
        {| lifetime_seconds_ := lifetime_seconds_ pm;
           permissions_ := delete peer_addr (permissions_ pm);
           timer_calls := timer_calls pm |}
      else pm
  | None => pm
  end.

Definition hasPermission (peer_addr : Address) (pm : PermissionManager) : bool :=
  bool_decide (is_Some (permissions_ pm !! peer_addr)).

(** The handler given to [async_wait]; the manager is alive, so that
    [weak_self.lock()] gives it. *)
Definition on_timer (now : Z) (ec : error_code) (peer_addr : Address)
    (pm : PermissionManager) : PermissionManager :=
  if failed ec then pm else removePermission now peer_addr pm.

(** ** The manager is a timed table *)

#[export] Instance permission_table : TimedTable Address PermissionManager := {
  timers := permissions_;
  service := timer_calls;
  set_service svc pm :=
    {| lifetime_seconds_ := lifetime_seconds_ pm;
       permissions_ := permissions_ pm;
       timer_calls := svc |};
  fire := on_timer
}.

#[export] Instance permission_table_laws : TimedTableLaws Address PermissionManager.
Proof.
  split; try done; simpl.
  - intros now ec k pm. unfold on_timer, removePermission. by case_all.
  - intros now ec k pm. unfold on_timer, removePermission.
    case_all; bool_hyps; eauto 10.
  - intros now k pm t Ht Hexp. unfold on_timer, removePermission; simpl.
    rewrite Ht. by destruct (Z.leb_spec (expiry t) now); [|lia].
Qed.

Lemma addPermission_permissions now a pm :
  exists i, permissions_ (addPermission now a pm) =
    <[a := {| timer_id := i; expiry := now + seconds (lifetime_seconds_ pm) |}]>
      (permissions_ pm).
Proof.
  unfold addPermission; simpl. rewrite emplace_fresh by apply lookup_delete_eq.
  eexists. simpl. rewrite insert_insert_eq. by rewrite insert_delete_eq.
Qed.

Lemma lifetime_addPermission now a pm :
  lifetime_seconds_ (addPermission now a pm) = lifetime_seconds_ pm.
Proof. unfold addPermission. simpl. by destruct (emplace _ _ _). Qed.

Lemma addPermission_armed now a pm :
  armed_state pm -> armed_state (addPermission now a pm).
Proof.
  unfold armed_state, addPermission; simpl. intros Ha.
  rewrite emplace_fresh by apply lookup_delete_eq. simpl.
  rewrite insert_insert_eq.
  apply (armed_set _ (new_timer (timer_calls pm)).2 a now (lifetime_seconds_ pm)).
  by apply armed_new_timer, armed_delete.
Qed.

Lemma removePermission_armed now a pm :
  armed_state pm -> armed_state (removePermission now a pm).
Proof.
  unfold armed_state, removePermission; simpl. intros Ha.
  case_all; try done. by apply armed_delete.
Qed.

Lemma hasPermission_spec a pm :
  hasPermission a pm = true <-> exists t, permissions_ pm !! a = Some t.
Proof. unfold hasPermission. by rewrite bool_decide_eq_true. Qed.

(** ** Executions *)

(** The manager under the calls of its clients.  [granted] is the history
    of the grants: when [addPermission] was last called for an address. *)
Record system : Type := {
  clock : Z;
  manager : PermissionManager;
  granted : gmap Address Z
}.

Definition initial (now lifetime : Z) : system :=
  {| clock := now; manager := make lifetime; granted := ∅ |}.

Inductive step : system -> system -> Prop :=
| step_clock s now :
    clock s <= now ->
    step s {| clock := now; manager := manager s; granted := granted s |}
| step_add s a :
    step s {| clock := clock s;
              manager := addPermission (clock s) a (manager s);
              granted := <[a := clock s]> (granted s) |}
| step_remove s a :
    step s {| clock := clock s;
              manager := removePermission (clock s) a (manager s);
              granted := granted s |}
| step_timer s pm :
    completes (clock s) (manager s) pm ->
    step s {| clock := clock s; manager := pm; granted := granted s |}.

(** The table and the history agree: an entry expires a lifetime after the
    last grant, and a grant whose lifetime has not passed has an entry. *)
Record consistent (s : system) : Prop := {
  consistent_armed : armed_state (manager s);
  consistent_entry : forall a t, permissions_ (manager s) !! a = Some t ->
    exists g, granted s !! a = Some g /\
      expiry t = g + seconds (lifetime_seconds_ (manager s));
  consistent_grant : forall a g, granted s !! a = Some g ->
    clock s < g + seconds (lifetime_seconds_ (manager s)) ->
    exists t, permissions_ (manager s) !! a = Some t
}.

Lemma consistent_initial now lifetime : consistent (initial now lifetime).
Proof.
  split; simpl; [apply armed_empty | by intros | by intros].
Qed.

Lemma lifetime_removePermission now a pm :
  lifetime_seconds_ (removePermission now a pm) = lifetime_seconds_ pm.
Proof. unfold removePermission. by case_all. Qed.

Lemma lifetime_run_wait now w ec (pm : PermissionManager) :
  lifetime_seconds_ (run_wait now w ec pm) = lifetime_seconds_ pm.
Proof.
  unfold run_wait; simpl. unfold on_timer. case_all; [done|].
  by rewrite lifetime_removePermission.
Qed.

Lemma lookup_removePermission now a pm k t :
  permissions_ (removePermission now a pm) !! k = Some t ->
  permissions_ pm !! k = Some t.
Proof.
  unfold removePermission. case_all; try done; simpl.
  by intros [_ ?]%lookup_delete_Some.
Qed.

Lemma removePermission_keeps now a pm k t :
  permissions_ pm !! k = Some t -> now < expiry t ->
  permissions_ (removePermission now a pm) !! k = Some t.
Proof.
  intros Hk Hlt. unfold removePermission. case_all; try done; simpl.
  bool_hyps. rewrite lookup_delete_ne; [done|]. intros <-. simplify_eq. lia.
Qed.

(** Entries only leave the table when they have expired. *)
Lemma consistent_shrink (s : system) pm :
  consistent s -> armed_state pm ->
  lifetime_seconds_ pm = lifetime_seconds_ (manager s) ->
  (forall k t, permissions_ pm !! k = Some t -> permissions_ (manager s) !! k = Some t) ->
  (forall k t, permissions_ (manager s) !! k = Some t -> clock s < expiry t ->
               permissions_ pm !! k = Some t) ->
  consistent {| clock := clock s; manager := pm; granted := granted s |}.
Proof.
  intros [Ha He Hg] Ha' Hl Hsub Hkeep. split; simpl; [done | |].
  - intros a t Hk. rewrite Hl. by apply He, Hsub.
  - intros a g Hgr Hlt. rewrite Hl in Hlt. destruct (Hg a g Hgr Hlt) as [t Ht].
    exists t. apply Hkeep; [done|]. destruct (He a t Ht) as (g' & ? & ->).
    by simplify_eq.
Qed.

Lemma consistent_step s s' : step s s' -> consistent s -> consistent s'.
Proof.
  intros Hs Hc. destruct Hs as [s now Hle | s a | s a | s pm Hcomp].
  - destruct Hc as [Ha He Hg]. split; simpl; [done | done |].
    intros a g Hgr Hlt. apply (Hg a g Hgr). lia.
  - destruct Hc as [Ha He Hg]. destruct (addPermission_permissions (clock s) a (manager s))
      as [i Hi]. split; simpl; [by apply addPermission_armed | |];
      rewrite Hi, lifetime_addPermission.
    + intros k t. rewrite !lookup_insert. case_decide; intros Hk; simplify_eq/=; eauto.
    + intros k g. rewrite !lookup_insert. case_decide; intros Hk Hlt; simplify_eq/=; eauto.
  - apply consistent_shrink; [done | by apply removePermission_armed, Hc
      | apply lifetime_removePermission | apply lookup_removePermission
      | apply removePermission_keeps].
  - assert (armed_state pm) as Ha by by eapply completes_armed; [apply Hc|].
    apply completes_inv in Hcomp as (w & ec & Hw & _ & ->).
    apply consistent_shrink; [done | done | apply lifetime_run_wait | ..].
    + exact (run_wait_lookup (clock s) w ec (manager s)).
    + exact (run_wait_keeps (clock s) w ec (manager s)).
Qed.

Lemma consistent_reachable now lifetime s :
  rtc step (initial now lifetime) s -> consistent s.
Proof.
  apply (rtc_ind_r consistent); [apply consistent_initial|].
  intros x y _ Hs Hc. by eapply consistent_step.
Qed.

Lemma permission_lifetime_step s s' :
  step s s' -> lifetime_seconds_ (manager s') = lifetime_seconds_ (manager s).
Proof.
  intros Hs. destruct Hs as [| | | s pm Hcomp]; simpl; try done.
  - apply lifetime_addPermission.
  - apply lifetime_removePermission.
  - apply completes_inv in Hcomp as (w & ec & _ & _ & ->). apply lifetime_run_wait.
Qed.

Lemma lifetime_reachable now lifetime s :
  rtc step (initial now lifetime) s -> lifetime_seconds_ (manager s) = lifetime.
Proof.
  apply (rtc_ind_r (fun s => lifetime_seconds_ (manager s) = lifetime)); [done|].
  intros x y _ Hs <-. by apply permission_lifetime_step.
Qed.

(** Handlers that run at one time are steps of the system. *)
Lemma rtc_completes_steps s pm :
  rtc (completes (clock s)) (manager s) pm ->
  rtc step s {| clock := clock s; manager := pm; granted := granted s |}.
Proof.
  destruct s as [now pm0 gr]; simpl.
  induction 1 as [pm0|pm0 pm1 pm2 Hc _ IH]; [done|].
  eapply rtc_l; [|exact IH].
  exact (step_timer {| clock := now; manager := pm0; granted := gr |} _ Hc).
Qed.

(** ** Properties *)

(** C23.  A permission is held from the last call of [addPermission] for its
    address until its lifetime has passed, whatever calls and timer
    handlers come in between; and no address that was never granted has
    one. *)
Theorem permission_held_for_lifetime now lifetime s a :
  rtc step (initial now lifetime) s ->
  (forall g, granted s !! a = Some g -> clock s < g + seconds lifetime ->
     hasPermission a (manager s) = true) /\
  (granted s !! a = None -> hasPermission a (manager s) = false).
Proof.
  intros Hr. pose proof (lifetime_reachable _ _ _ Hr) as Hl.
  destruct (consistent_reachable _ _ _ Hr) as [_ He Hg]. split.
  - intros g Ha Hlt. apply hasPermission_spec, (Hg a g Ha). by rewrite Hl.
  - intros Hn. destruct (hasPermission a (manager s)) eqn:Hp; [|done].
    apply hasPermission_spec in Hp as [t Ht].
    destruct (He a t Ht) as (g & ? & _). congruence.
Qed.

(** C22.  Once the handlers that are due have run, [hasPermission] answers
    exactly whether the address was granted less than a lifetime ago; and
    from every reachable state they can all run, without the clock
    advancing. *)
Theorem permission_expiry_exact now lifetime s :
  rtc step (initial now lifetime) s ->
  exists s', rtc step s s' /\ clock s' = clock s /\ granted s' = granted s /\
    quiescent (clock s') (manager s') /\
    forall a, hasPermission a (manager s') = true <->
      exists g, granted s !! a = Some g /\ clock s < g + seconds lifetime.
Proof.
  intros Hr. destruct (drain (clock s) (manager s)) as (pm & Hpm & Hq).
  pose proof (rtc_completes_steps s pm Hpm) as Hs.
  set (s' := {| clock := clock s; manager := pm; granted := granted s |}) in *.
  assert (rtc step (initial now lifetime) s') as Hr' by by etrans.
  pose proof (lifetime_reachable _ _ _ Hr') as Hl.
  exists s'. split; [done|]. split; [done|]. split; [done|]. split; [done|].
  intros a. destruct (consistent_reachable _ _ _ Hr') as [Ha He Hg].
  rewrite Hl in *. rewrite hasPermission_spec. split.
  - intros [t Ht]. destruct (He a t Ht) as (g & Hgr & Hexp).
    exists g. split; [done|]. rewrite <-Hexp.
    exact (quiescent_unexpired (clock s) pm a t Ha Hq Ht).
  - intros (g & Hgr & Hlt). by apply (Hg a g).
Qed.
End PermissionManager.

(** ** Witnesses *)

(** A permission granted at 0 for 2 seconds, one second later. *)
Definition example_run : @system plain_ip :=
  {| clock := seconds 1;
     manager := addPermission (ip := plain_ip) 0 peer_a (make 2);
     granted := <[peer_a := 0]> ∅ |}.

Lemma example_run_reachable : rtc step (@initial plain_ip 0 2) example_run.
Proof.
  eapply rtc_l; [apply (step_add (initial 0 2) (peer_a : @Address plain_ip))|].
  eapply rtc_l; [apply (step_clock _ (seconds 1)); by vm_compute|]. apply rtc_refl.
Qed.

Lemma permission_held_for_lifetime_witness :
  hasPermission (ip := plain_ip) peer_a (manager example_run) = true /\
  hasPermission (ip := plain_ip) peer_b (manager example_run) = false.
Proof.
  split.
  - apply (proj1 (permission_held_for_lifetime 0 2 example_run peer_a
      example_run_reachable)) with (g := 0); [reflexivity | by vm_compute].
  - apply (proj2 (permission_held_for_lifetime 0 2 example_run peer_b
      example_run_reachable)); reflexivity.
Defined.

Lemma permission_expiry_exact_witness :
  exists s', rtc step example_run s' /\ hasPermission (ip := plain_ip) peer_a (manager s') = true.
Proof.
  destruct (permission_expiry_exact 0 2 example_run example_run_reachable)
    as (s' & Hs & _ & _ & _ & Hp).
  exists s'. split; [exact Hs|]. apply Hp. exists 0. split; [reflexivity | by vm_compute].
Defined.
