(* ===== verification/ChannelManager.v ===== *)
(** * Channel bindings: server/channel/ChannelManager

    The channels of an allocation: a map from channel numbers to peers, each
    entry with a timer.  A channel number is bound to at most one peer and a
    peer to at most one channel number, which makes the answer of
    [channelByAddress] independent of the order the map is iterated in. *)

From Stdlib Require Import ZArith Lia.
From stdpp Require Import base gmap list relations.
From S2P Require Import Prelude Asio Instances TimedTable Endpoint.

Section ChannelManager.
Context {ip : IpAddress}.

Record ChannelEntry : Type := {
  entry_endpoint : Endpoint;
  entry_timer : steady_timer
}.

Record ChannelManager : Type := {
  lifetime_seconds_ : Z;
  channels_ : gmap Z ChannelEntry;
  timer_calls : timer_service Z
}.

(** The order in which [std::unordered_map] is iterated is not specified:
    it is a parameter of the operations that iterate. *)
Context (iteration : gmap Z ChannelEntry -> list (Z * ChannelEntry)).

(** The constructor. *)
Definition make (lifetime_seconds : Z) : ChannelManager :=
  {| lifetime_seconds_ := lifetime_seconds;
     channels_ := ∅;
     timer_calls := no_timers |}.

(** The destructor: the map is moved out and destroyed with its timers. *)
Definition destroy (cm : ChannelManager) : ChannelManager :=
  {| lifetime_seconds_ := lifetime_seconds_ cm;
     channels_ := ∅;
     timer_calls := timer_calls cm |}.

Definition addChannel (now : Z) (channel_number : Z) (peer : Endpoint)
    (cm : ChannelManager) : bool * ChannelManager :=
  match channels_ cm !! channel_number with
  | Some entry =>
      if negb (Endpoint_eqb (entry_endpoint entry) peer) then (false, cm)
      else
        let '(timer, calls) :=
          expires_after now (lifetime_seconds_ cm) (timer_calls cm) in
        let entry := {| entry_endpoint := entry_endpoint entry;
                        entry_timer := timer |} in
        (true, {| lifetime_seconds_ := lifetime_seconds_ cm;
                  channels_ := <[channel_number := entry]> (channels_ cm);
                  timer_calls := async_wait timer channel_number calls |})
  | None =>
      if existsb (fun e => Endpoint_eqb (entry_endpoint e) peer)
           (snd <$> iteration (channels_ cm))
      then (false, cm)
      else
        let '(_, calls) := new_timer (timer_calls cm) in
        let '(timer, calls) := expires_after now (lifetime_seconds_ cm) calls in
        let entry := {| entry_endpoint := peer; entry_timer := timer |} in
        let calls := async_wait timer channel_number calls in
        (true, {| lifetime_seconds_ := lifetime_seconds_ cm;
                  channels_ := (emplace channel_number entry (channels_ cm)).2;
                  timer_calls := calls |})
  end.

Definition checkChannel (channel_number : Z) (cm : ChannelManager) : bool :=
  bool_decide (is_Some (channels_ cm !! channel_number)).

Definition getEndpoint (channel_number : Z) (cm : ChannelManager) : option Endpoint :=
  match channels_ cm !! channel_number with
  | None => None
  | Some entry => Some (entry_endpoint entry)
  end.

Definition channelByAddress (peer : Endpoint) (cm : ChannelManager) : option Z :=
  match find_if (fun it => Endpoint_eqb (entry_endpoint it.2) peer)
          (iteration (channels_ cm)) with
  | None => None
  | Some it => Some it.1
  end.

Definition removeChannel (now : Z) (channel_number : Z) (cm : ChannelManager)
    : ChannelManager :=
  match channels_ cm !! channel_number with
  | Some entry =>
      if expiry (entry_timer entry) <=? now then
        {| lifetime_seconds_ := lifetime_seconds_ cm;
           channels_ := delete channel_number (channels_ cm);
           timer_calls := timer_calls cm |}
      else cm
  | None => cm
  end.

(** The handler given to [async_wait], the manager being alive. *)
Definition on_timer (now : Z) (ec : error_code) (channel_number : Z)
    (cm : ChannelManager) : ChannelManager :=
  if failed ec then cm else removeChannel now channel_number cm.

(** ** The manager is a timed table *)

#[export] Instance channel_table : TimedTable Z ChannelManager := {
  timers cm := entry_timer <$> channels_ cm;
  service := timer_calls;
  set_service svc cm :=
    {| lifetime_seconds_ := lifetime_seconds_ cm;
       channels_ := channels_ cm;
       timer_calls := svc |};
  fire := on_timer
}.

#[export] Instance channel_table_laws : TimedTableLaws Z ChannelManager.
Proof.
  split; try done; simpl.
  - intros now ec k cm. unfold on_timer, removeChannel. by case_all.
  - intros now ec k cm. unfold on_timer, removeChannel.
    case_all; bool_hyps; auto. right. exists (entry_timer c).
    rewrite lookup_fmap, E0, fmap_delete. auto.
  - intros now k cm t Ht Hexp. unfold on_timer, removeChannel; simpl.
    rewrite lookup_fmap, fmap_Some in Ht. destruct Ht as (c & -> & ->).
    rewrite (proj2 (Z.leb_le _ _) Hexp). simpl. by rewrite fmap_delete.
Qed.

(** ** The binding is one-to-one *)

Definition bound (cm : ChannelManager) (n : Z) (peer : Endpoint) : Prop :=
  exists e, channels_ cm !! n = Some e /\ entry_endpoint e = peer.

Definition one_to_one (cm : ChannelManager) : Prop :=
  forall n n' peer, bound cm n peer -> bound cm n' peer -> n = n'.

Definition well_formed (cm : ChannelManager) : Prop :=
  one_to_one cm /\ armed_state cm.

Lemma getEndpoint_bound n peer cm : getEndpoint n cm = Some peer <-> bound cm n peer.
Proof.
  unfold getEndpoint, bound. destruct (channels_ cm !! n) as [e|].
  - split; [intros [= <-]; by exists e | by intros (? & [= <-] & <-)].
  - split; [done | by intros (? & ? & _)].
Qed.

Context (iteration_perm : forall m, iteration m ≡ₚ map_to_list m).

Lemma elem_of_iteration m n e : (n, e) ∈ iteration m <-> m !! n = Some e.
Proof. rewrite iteration_perm. apply elem_of_map_to_list. Qed.

Lemma any_of_peer cm peer :
  existsb (fun e => Endpoint_eqb (entry_endpoint e) peer)
    (snd <$> iteration (channels_ cm)) = true <->
  exists n, bound cm n peer.
Proof.
  rewrite existsb_exists. unfold bound. split.
  - intros (e & Hin & Heq).
    apply list_elem_of_In, list_elem_of_fmap in Hin as ([n e'] & -> & Hin); simpl in *.
    apply Endpoint_eqb_spec in Heq. apply elem_of_iteration in Hin. eauto.
  - intros (n & e & Hn & Heq). exists e. split.
    + apply list_elem_of_In, list_elem_of_fmap. exists (n, e).
      split; [done | by apply elem_of_iteration].
    + by apply Endpoint_eqb_spec.
Qed.

(** [addChannel], branch by branch. *)
Lemma addChannel_cases now n peer cm :
  (exists e, channels_ cm !! n = Some e /\ entry_endpoint e <> peer /\
     addChannel now n peer cm = (false, cm)) \/
  (channels_ cm !! n = None /\ (exists n', bound cm n' peer) /\
     addChannel now n peer cm = (false, cm)) \/
  (((exists e, channels_ cm !! n = Some e /\ entry_endpoint e = peer) \/
    (channels_ cm !! n = None /\ forall n', ~ bound cm n' peer)) /\
   exists i cm', addChannel now n peer cm = (true, cm') /\
     lifetime_seconds_ cm' = lifetime_seconds_ cm /\
     channels_ cm' = <[n := {| entry_endpoint := peer; entry_timer :=
       {| timer_id := i; expiry := now + seconds (lifetime_seconds_ cm) |} |}]>
         (channels_ cm)).
Proof.
  unfold addChannel. destruct (channels_ cm !! n) as [e|] eqn:E.
  - destruct (Endpoint_eqb (entry_endpoint e) peer) eqn:Heq; simpl.
    + apply Endpoint_eqb_spec in Heq. right; right. split; [eauto|].
      eexists _, _. split; [done|]. split; [done|]. simpl. by rewrite Heq.
    + left. exists e. by apply Endpoint_eqb_ne in Heq.
  - destruct (existsb _ _) eqn:Hex; simpl.
    + apply any_of_peer in Hex. right; left. eauto.
    + right; right. split.
      * right. split; [done|]. intros n' Hb.
        assert (existsb (fun e => Endpoint_eqb (entry_endpoint e) peer)
          (snd <$> iteration (channels_ cm)) = true) by (apply any_of_peer; eauto).
        congruence.
      * eexists _, _. split; [done|]. split; [done|]. simpl.
        by rewrite emplace_fresh.
Qed.

Lemma addChannel_armed now n peer cm :
  armed_state cm -> armed_state (addChannel now n peer cm).2.
Proof.
  unfold armed_state, addChannel; simpl. intros Ha.
  destruct (channels_ cm !! n) as [e|] eqn:E.
  - destruct (Endpoint_eqb _ _); simpl; [|done]. rewrite fmap_insert.
    apply (armed_set _ (timer_calls cm) n now (lifetime_seconds_ cm) Ha).
  - destruct (existsb _ _); simpl; [done|].
    rewrite emplace_fresh by done; simpl. rewrite fmap_insert.
    apply (armed_set _ (new_timer (timer_calls cm)).2 n now (lifetime_seconds_ cm)).
    by apply armed_new_timer.
Qed.

Lemma bound_insert (cm cm' : ChannelManager) n e n' peer :
  channels_ cm' = <[n := e]> (channels_ cm) ->
  bound cm' n' peer <->
    (n' = n /\ peer = entry_endpoint e) \/ (n' <> n /\ bound cm n' peer).
Proof.
  unfold bound. intros ->. rewrite lookup_insert. case_decide as Hd.
  - subst. split; [intros (? & [= <-] & <-); by left|].
    intros [[_ ->]|[? _]]; [by eexists | done].
  - split; [intros Hb; right; by split; [apply not_eq_sym|]|].
    intros [[? _]|[_ Hb]]; [by subst | done].
Qed.

Lemma addChannel_one_to_one now n peer cm :
  one_to_one cm -> one_to_one (addChannel now n peer cm).2.
Proof.
  intros Ho. destruct (addChannel_cases now n peer cm)
    as [(_ & _ & _ & ->) | [(_ & _ & ->) | (Hcase & i & cm' & -> & _ & Hch)]];
    [done | done | simpl].
  assert (forall n', bound cm n' peer -> n' = n) as Huniq.
  { intros n' Hb. destruct Hcase as [(e & He & Hep) | [_ Hno]].
    - apply (Ho n' n peer Hb). by exists e.
    - by apply Hno in Hb. }
  intros n1 n2 p. rewrite !(bound_insert cm cm' _ _ _ _ Hch); simpl.
  intros [[-> ->]|[Hn1 H1]] [[-> ?]|[Hn2 H2]]; subst; try done.
  - by apply Huniq in H2.
  - by apply Huniq in H1.
  - by eapply Ho.
Qed.

Lemma one_to_one_subset (cm cm' : ChannelManager) :
  (forall n e, channels_ cm' !! n = Some e -> channels_ cm !! n = Some e) ->
  one_to_one cm -> one_to_one cm'.
Proof.
  intros Hsub Ho n n' p (e & He & Hp) (e' & He' & Hp').
  apply (Ho n n' p); [exists e | exists e']; auto.
Qed.

Lemma removeChannel_lookup now k cm n e :
  channels_ (removeChannel now k cm) !! n = Some e -> channels_ cm !! n = Some e.
Proof.
  unfold removeChannel. case_all; try done. simpl.
  by intros [_ ?]%lookup_delete_Some.
Qed.

Lemma channels_well_formed_make lifetime : well_formed (make lifetime).
Proof.
  split; [intros n n' p (e & He & _); done|].
  unfold armed_state; simpl. rewrite fmap_empty. apply armed_empty.
Qed.

Lemma channels_well_formed_addChannel now n peer cm :
  well_formed cm -> well_formed (addChannel now n peer cm).2.
Proof. intros [Ho Ha]. split; [by apply addChannel_one_to_one | by apply addChannel_armed]. Qed.

Lemma well_formed_removeChannel now n cm :
  well_formed cm -> well_formed (removeChannel now n cm).
Proof.
  intros [Ho Ha]. split.
  - eapply one_to_one_subset; [|exact Ho]. apply removeChannel_lookup.
  - unfold armed_state, removeChannel; simpl. case_all; try done.
    simpl. rewrite fmap_delete. by apply armed_delete.
Qed.

Lemma well_formed_run_wait now (cm cm' : ChannelManager) :
  well_formed cm -> completes now cm cm' -> well_formed cm'.
Proof.
  intros [Ho Ha] Hc. split; [|by eapply completes_armed].
  apply completes_inv in Hc as (w & ec & _ & _ & ->).
  eapply one_to_one_subset; [|exact Ho]. intros n e.
  unfold run_wait; simpl. unfold on_timer. destruct (failed ec); [done|].
  by intros He%removeChannel_lookup.
Qed.

(** [channelByAddress] finds the channel of a peer, whatever the order of
    iteration. *)
Lemma channelByAddress_bound cm peer n :
  one_to_one cm -> channelByAddress peer cm = Some n <-> bound cm n peer.
Proof.
  intros Ho. unfold channelByAddress.
  destruct (find_if _ _) as [[n' e]|] eqn:E.
  - apply find_if_Some in E as [Hin Heq]; simpl in *.
    apply elem_of_iteration in Hin. apply Endpoint_eqb_spec in Heq.
    split; [intros [= <-]; by exists e|].
    intros Hb. f_equal. apply (Ho n' n peer); [by exists e | done].
  - split; [done|]. intros (e & He & Hp). rewrite find_if_None in E.
    specialize (E (n, e)). simpl in E. rewrite Hp, Endpoint_eqb_refl in E.
    discriminate E. by apply elem_of_iteration.
Qed.

(** ** Executions *)

(** The manager and the clock, under calls and timer handlers. *)
Inductive step : Z * ChannelManager -> Z * ChannelManager -> Prop :=
| step_clock now now' cm : now <= now' -> step (now, cm) (now', cm)
| step_add now n peer cm : step (now, cm) (now, (addChannel now n peer cm).2)
| step_remove now n cm : step (now, cm) (now, removeChannel now n cm)
| step_timer now cm cm' : completes now cm cm' -> step (now, cm) (now, cm').

Lemma channels_well_formed_step s s' : step s s' -> well_formed s.2 -> well_formed s'.2.
Proof.
  intros []; simpl; eauto using channels_well_formed_addChannel,
    well_formed_removeChannel, well_formed_run_wait.
Qed.

Lemma channels_well_formed_reachable now lifetime s :
  rtc step (now, make lifetime) s -> well_formed s.2.
Proof.
  apply (rtc_ind_r (fun s => well_formed s.2)); [apply channels_well_formed_make|].
  intros x y _ Hs. by apply channels_well_formed_step.
Qed.

Lemma channel_lifetime_step s s' :
  step s s' -> lifetime_seconds_ s'.2 = lifetime_seconds_ s.2.
Proof.
  intros [|now n peer cm|now n cm|now cm cm' Hc]; simpl; try done.
  - destruct (addChannel_cases now n peer cm)
      as [(_ & _ & _ & ->) | [(_ & _ & ->) | (_ & i & cm' & -> & Hl & _)]]; done.
  - unfold removeChannel. by case_all.
  - apply completes_inv in Hc as (w & ec & _ & _ & ->).
    unfold run_wait; simpl. unfold on_timer, removeChannel. by case_all.
Qed.

(** No entry expires later than a lifetime from now. *)
Definition timely (s : Z * ChannelManager) : Prop :=
  forall n e, channels_ s.2 !! n = Some e ->
    expiry (entry_timer e) <= s.1 + seconds (lifetime_seconds_ s.2).

Lemma removeChannel_keeps now k cm n e :
  channels_ cm !! n = Some e -> now < expiry (entry_timer e) ->
  channels_ (removeChannel now k cm) !! n = Some e.
Proof.
  intros He Hlt. unfold removeChannel. case_all; try done; simpl.
  bool_hyps. rewrite lookup_delete_ne; [done|]. intros ->. simplify_eq. lia.
Qed.

Lemma run_wait_channels now w ec cm :
  channels_ (run_wait now w ec cm) = channels_ cm \/
  channels_ (run_wait now w ec cm) = channels_ (removeChannel now (wait_key w) cm).
Proof.
  unfold run_wait; simpl. unfold on_timer. destruct (failed ec); [by left|right].
  unfold removeChannel; simpl. by case_all.
Qed.

Lemma timely_step s s' : step s s' -> timely s -> timely s'.
Proof.
  intros Hs Ht n e. pose proof (channel_lifetime_step _ _ Hs) as Hl. revert Hl.
  destruct Hs as [now now' cm Hle|now n' peer cm|now n' cm|now cm cm' Hc];
    unfold timely in *; simpl in *; intros Hl; try rewrite Hl.
  - intros He. apply Ht in He. lia.
  - destruct (addChannel_cases now n' peer cm)
      as [(_ & _ & _ & ->) | [(_ & _ & ->) | (_ & i & cm' & -> & _ & Hch)]];
      [apply Ht | apply Ht | simpl].
    rewrite Hch, lookup_insert. case_decide; [intros [= <-]; simpl; lia | apply Ht].
  - intros He%removeChannel_lookup. by apply Ht in He.
  - apply completes_inv in Hc as (w & ec & _ & _ & ->).
    destruct (run_wait_channels now w ec cm) as [-> | ->]; [apply Ht|].
    intros He%removeChannel_lookup. by apply Ht in He.
Qed.

(** A step keeps a binding that has not expired, or renews it. *)
Definition bound_until (cm : ChannelManager) (n : Z) (peer : Endpoint) (t : Z) : Prop :=
  exists e, channels_ cm !! n = Some e /\ entry_endpoint e = peer /\
            t <= expiry (entry_timer e).

Lemma bound_until_step s s' n peer t :
  step s s' -> timely s -> s'.1 < t ->
  bound_until s.2 n peer t -> bound_until s'.2 n peer t.
Proof.
  intros Hs Htm Hlt (e & He & Hp & Ht).
  destruct Hs as [now now' cm|now n' peer' cm|now n' cm|now cm cm' Hc]; simpl in *.
  - by exists e.
  - destruct (addChannel_cases now n' peer' cm)
      as [(_ & _ & _ & ->) | [(_ & _ & ->) | (Hcase & i & cm' & -> & _ & Hch)]];
      [by exists e | by exists e | simpl].
    unfold bound_until. rewrite Hch, lookup_insert. case_decide as Hn; [subst n'|by exists e].
    eexists. split; [done|]. simpl.
    destruct Hcase as [(e' & He' & Hep) | [Hnone _]]; [|by rewrite He in Hnone].
    apply Htm in He as Hexp. simpl in Hexp. split; [congruence | lia].
  - exists e. split; [|done]. apply removeChannel_keeps; [done | lia].
  - apply completes_inv in Hc as (w & ec & _ & _ & ->).
    exists e. split; [|done].
    destruct (run_wait_channels now w ec cm) as [-> | ->]; [done|].
    apply removeChannel_keeps; [done | lia].
Qed.

Lemma clock_monotone s s' : step s s' -> s.1 <= s'.1.
Proof. intros []; simpl; lia. Qed.

Lemma bound_until_steps s s' n peer t :
  rtc step s s' -> timely s -> s'.1 < t ->
  bound_until s.2 n peer t -> bound_until s'.2 n peer t.
Proof.
  induction 1 as [|s1 s2 s3 Hs Hr IH]; intros Htm Hlt Hb; [done|].
  assert (s2.1 <= s3.1) as Hle.
  { clear -Hr. induction Hr as [|x y z Hxy _ IH]; [lia|].
    apply clock_monotone in Hxy. lia. }
  apply IH; [by eapply timely_step | done |].
  eapply bound_until_step; [exact Hs | done | lia | done].
Qed.

(** ** Properties *)

(** C24.  In every reachable state a channel number is bound to one peer and
    a peer to one channel number, and [channelByAddress] is the inverse of
    [getEndpoint], whatever the order the map is iterated in. *)
Theorem channel_binding_one_to_one now lifetime s n n' peer :
  rtc step (now, make lifetime) s ->
  (getEndpoint n s.2 = Some peer -> getEndpoint n' s.2 = Some peer -> n = n') /\
  (channelByAddress peer s.2 = Some n <-> getEndpoint n s.2 = Some peer).
Proof.
  intros [Ho _]%channels_well_formed_reachable. rewrite !getEndpoint_bound. split.
  - apply Ho.
  - by apply channelByAddress_bound.
Qed.

(** C27.  [addChannel] accepts a binding exactly when the number has that
    peer already or neither the number nor the peer is bound; it then
    binds them for a full lifetime and leaves the other numbers alone, and
    otherwise it changes nothing. *)
Theorem addChannel_functional now n peer cm :
  let '(accepted, cm') := addChannel now n peer cm in
  (accepted = true <->
     getEndpoint n cm = Some peer \/
     (checkChannel n cm = false /\ forall n', getEndpoint n' cm <> Some peer)) /\
  (accepted = false -> cm' = cm) /\
  (accepted = true ->
     getEndpoint n cm' = Some peer /\
     bound_until cm' n peer (now + seconds (lifetime_seconds_ cm)) /\
     forall n', n' <> n -> getEndpoint n' cm' = getEndpoint n' cm).
Proof.
  destruct (addChannel now n peer cm) as [accepted cm'] eqn:Eadd.
  unfold checkChannel. rewrite bool_decide_eq_false.
  destruct (addChannel_cases now n peer cm)
    as [(e & He & Hne & E) | [(Hnone & [n2 Hb] & E) | (Hcase & i & cm2 & E & Hl & Hch)]];
    rewrite Eadd in E; injection E as -> ->; (split; [|split]); try done.
  - split; [done|]. intros [(e' & He' & Hp)%getEndpoint_bound | [Hn _]].
    + congruence.
    + destruct Hn. by exists e.
  - split; [done|]. intros [(e' & He' & _)%getEndpoint_bound | [_ Hn]].
    + congruence.
    + apply getEndpoint_bound in Hb. by apply Hn in Hb.
  - split; [intros _|done]. destruct Hcase as [(e & He & Hp) | [Hnone Hno]].
    + left. apply getEndpoint_bound. by exists e.
    + right. rewrite Hnone. split; [by intros []|].
      intros n' Hn'%getEndpoint_bound. by apply Hno in Hn'.
  - intros _. unfold getEndpoint, bound_until. rewrite Hch, lookup_insert_eq. simpl.
    split; [done|]. split; [eexists; by split_and!|].
    intros n' Hn'. by rewrite lookup_insert_ne.
Qed.

(** C26.  A binding that [addChannel] accepted is held for its whole
    lifetime, whatever calls and timer handlers come in between. *)
Theorem channel_held_for_lifetime now0 lifetime now cm n peer cm' s :
  rtc step (now0, make lifetime) (now, cm) ->
  addChannel now n peer cm = (true, cm') ->
  rtc step (now, cm') s ->
  s.1 < now + seconds lifetime ->
  getEndpoint n s.2 = Some peer /\ channelByAddress peer s.2 = Some n.
Proof.
  intros Hr Eadd Hs Hlt.
  assert (rtc step (now0, make lifetime) (now, cm')) as Hr'.
  { eapply rtc_r; [exact Hr|]. replace cm' with (addChannel now n peer cm).2
      by by rewrite Eadd. constructor. }
  assert (forall s, rtc step (now0, make lifetime) s ->
    timely s /\ lifetime_seconds_ s.2 = lifetime) as Hinv.
  { apply (rtc_ind_r (fun s => timely s /\ lifetime_seconds_ s.2 = lifetime)); [done|].
    intros x y _ Hxy [Ht Hl]. split; [by eapply timely_step|].
    rewrite <-Hl. by apply channel_lifetime_step. }
  destruct (Hinv _ Hr) as [_ Hl]; simpl in Hl.
  pose proof (addChannel_functional now n peer cm) as Hf. rewrite Eadd, Hl in Hf.
  destruct Hf as (_ & _ & Hf). destruct (Hf eq_refl) as (_ & Hb & _).
  destruct (bound_until_steps (now, cm') s n peer _ Hs (proj1 (Hinv _ Hr')) Hlt Hb)
    as (e & He & Hp & _).
  assert (getEndpoint n s.2 = Some peer) as Hg by (apply getEndpoint_bound; by exists e).
  split; [done|]. apply channelByAddress_bound; [|by apply getEndpoint_bound].
  assert (rtc step (now0, make lifetime) s) as Hrs by by etrans.
  apply (channels_well_formed_reachable _ _ _ Hrs).
Qed.

(** C25.  From every reachable state the handlers that are due can run, and
    they leave exactly the bindings that have not expired. *)
Theorem channel_expiry_exact now0 lifetime now cm :
  rtc step (now0, make lifetime) (now, cm) ->
  exists cm', rtc (completes now) cm cm' /\ quiescent now cm' /\ well_formed cm' /\
    forall n t, entry_timer <$> channels_ cm' !! n = Some t <->
      entry_timer <$> channels_ cm !! n = Some t /\ now < expiry t.
Proof.
  intros [Ho Ha]%channels_well_formed_reachable.
  destruct (drain_exact now cm Ha) as (cm' & Hr & Ha' & Hq & Hex).
  exists cm'. split; [done|]. split; [done|]. split.
  - assert (well_formed cm) as Hwf by by split. clear -Hr Hwf iteration_perm.
    induction Hr; eauto using well_formed_run_wait.
  - intros n t. specialize (Hex n t). simpl in Hex. by rewrite !lookup_fmap in Hex.
Qed.
End ChannelManager.

(** ** Witnesses: channel 0x4000 bound to a peer for ten minutes *)

Definition example_peer : @Endpoint plain_ip :=
  @Build_Endpoint plain_ip peer_a 3480 UDP.

Definition example_order (m : gmap Z (@ChannelEntry plain_ip)) := map_to_list m.

Lemma example_order_perm m : example_order m ≡ₚ map_to_list m.
Proof. done. Qed.

Definition example_add : bool * @ChannelManager plain_ip :=
  addChannel example_order 0 0x4000 example_peer (make 600).

Lemma example_add_reachable :
  rtc (step example_order) (0, make 600) (0, example_add.2).
Proof. eapply rtc_l; [apply step_add | apply rtc_refl]. Qed.

Lemma example_add_later :
  rtc (step example_order) (0, example_add.2) (seconds 599, example_add.2).
Proof. eapply rtc_l; [apply (step_clock _ 0 (seconds 599)); by vm_compute | apply rtc_refl]. Qed.

Lemma example_add_reachable_later :
  rtc (step example_order) (0, make 600) (seconds 599, example_add.2).
Proof. etrans; [exact example_add_reachable | exact example_add_later]. Qed.

Lemma channel_binding_one_to_one_witness :
  channelByAddress example_order example_peer example_add.2 = Some 0x4000.
Proof.
  apply (proj2 (channel_binding_one_to_one example_order example_order_perm 0 600
    (0, example_add.2) 0x4000 0x4000 example_peer example_add_reachable)).
  reflexivity.
Defined.

Lemma addChannel_functional_witness : example_add.1 = true.
Proof.
  pose proof (addChannel_functional example_order example_order_perm 0 0x4000
    example_peer (make 600)) as H.
  destruct H as [[_ H] _]. apply H. right. split; [reflexivity|].
  intros n'. by unfold getEndpoint.
Defined.

Lemma channel_held_for_lifetime_witness :
  getEndpoint 0x4000 example_add.2 = Some example_peer.
Proof.
  apply (channel_held_for_lifetime example_order example_order_perm 0 600 0 (make 600)
    0x4000 example_peer example_add.2 (seconds 599, example_add.2)).
  - apply rtc_refl.
  - reflexivity.
  - exact example_add_later.
  - reflexivity.
Defined.

Lemma channel_expiry_exact_witness :
  exists cm', quiescent (seconds 599) cm' /\ well_formed (ip := plain_ip) cm'.
Proof.
  destruct (channel_expiry_exact example_order example_order_perm 0 600 (seconds 599)
    example_add.2 example_add_reachable_later)
    as (cm' & _ & Hq & Hw & _).
  exists cm'. split; [exact Hq | exact Hw].
Defined.
