(* ===== verification/RelayAddressGenerator.v ===== *)
(** * Relay addresses: server/allocation/RelayAddressGenerator, RelayAllocation

    How the server picks the relayed transport address of an allocation: a
    random port of the configured range, with the parity and the reservation
    of the next port the client asked for, tried at most [max_retries] times.

    The random numbers and the answers of the operating system are
    parameters, indexed by the attempt.  Two corners of the code are kept:
    distribution bounds out of order are undefined, and binding to port 0
    gives whatever port the operating system picks. *)

From Stdlib Require Import ZArith Lia.
From stdpp Require Import base gmap list strings.
From S2P Require Import Prelude Asio Instances.

(** ** Relay allocations *)

Section RelayAllocation.
Context {Socket : Type}.

Record RelayAllocation : Type := {
  primary_ : Socket;
  secondary_ : option Socket
}.

Definition hasSecondary (r : RelayAllocation) : bool :=
  bool_decide (is_Some (secondary_ r)).

(** [secondaryPort], the port of a socket being given by [port_of]. *)
Definition secondaryPort (port_of : Socket -> Z) (r : RelayAllocation) : option Z :=
  match secondary_ r with
  | Some s => Some (port_of s)
  | None => None
  end.

Definition primary (r : RelayAllocation) : Socket := primary_ r.

(** [releaseSecondary]: the socket is moved out; dereferencing an empty
    optional is undefined, which the result [None] stands for. *)
Definition releaseSecondary (r : RelayAllocation) : option (Socket * RelayAllocation) :=
  match secondary_ r with
  | Some socket => Some (socket, {| primary_ := primary_ r; secondary_ := None |})
  | None => None
  end.
End RelayAllocation.
Arguments RelayAllocation : clear implicits.

(** [PortPolicy] *)
Inductive PortPolicy : Type := Any | Even | EvenAndReserveNext.

#[export] Instance PortPolicy_eq_dec : EqDecision PortPolicy.
Proof. solve_decision. Defined.

Section RelayAddressGenerator.
Context {ip : IpAddress}.

Record RelayAddressGenerator : Type := {
  min_port_ : Z;
  max_port_ : Z;
  addr_ : Address
}.

(** [max_retries] has no initialiser but its default. *)
Definition max_retries : nat := 210.

(** The constructor from a string; [make_address] may throw. *)
Definition make (addr : bytes) (min_port max_port : Z) : option RelayAddressGenerator :=
  match make_address addr with
  | Some a => Some {| min_port_ := min_port; max_port_ := max_port; addr_ := a |}
  | None => None
  end.

Definition supportsIPv4 (g : RelayAddressGenerator) : bool := is_v4 (addr_ g).
Definition supportsIPv6 (g : RelayAddressGenerator) : bool := is_v6 (addr_ g).

(** A socket bound to a local endpoint, as the server looks at it. *)
Record socket : Type := {
  local_address : Address;
  local_port : Z
}.

(** What the surroundings answer in one call: the [i]-th number drawn by
    the uniform distribution on [lo, hi], and the error codes of [open] and
    [bind] on the primary ([false]) or secondary ([true]) socket of the
    [i]-th attempt, and the port the operating system picks for it when it
    is bound to port 0. *)
Record relay_env : Type := {
  dist : nat -> Z -> Z -> Z;
  open_ec : nat -> bool -> error_code;
  bind_ec : nat -> bool -> Z -> error_code;
  ephemeral : nat -> bool -> Z
}.

(** [std::uniform_int_distribution] is specified for [lo <= hi] only. *)
Definition dist_ok (env : relay_env) : Prop :=
  forall i lo hi, lo <= hi -> lo <= dist env i lo hi <= hi.

Definition require_even (policy : PortPolicy) : bool :=
  bool_decide (policy = Even) || bool_decide (policy = EvenAndReserveNext).

Definition reserve_next (policy : PortPolicy) : bool :=
  bool_decide (policy = EvenAndReserveNext).

(** [port_min] and [port_max], computed in [int] and stored in 16 bits. *)
Definition port_min (policy : PortPolicy) (g : RelayAddressGenerator) : Z :=
  if require_even policy then u16 (Z.land (min_port_ g + 1) (Z.lnot 1))
  else min_port_ g.

Definition port_max (policy : PortPolicy) (g : RelayAddressGenerator) : Z :=
  if require_even policy then u16 (Z.land (max_port_ g) (Z.lnot 1))
  else max_port_ g.

(** The bounds the distribution is constructed with. *)
Definition dist_lo (policy : PortPolicy) (g : RelayAddressGenerator) : Z :=
  if require_even policy then port_min policy g / 2 else port_min policy g.

Definition dist_hi (policy : PortPolicy) (g : RelayAddressGenerator) : Z :=
  if require_even policy then port_max policy g / 2 else port_max policy g.

(** [open], [bind] and, later, [local_endpoint]: bound to port 0, a socket
    has the port the system gave it. *)
Definition open_and_bind (env : relay_env) (g : RelayAddressGenerator)
    (i : nat) (second : bool) (port : Z) : option socket :=
  if failed (open_ec env i second) then None
  else if failed (bind_ec env i second port) then None
  else Some {| local_address := addr_ g;
               local_port := if port =? 0 then ephemeral env i second else port |}.

(** The body of the loop; [None] is [continue]. *)
Definition udp_attempt (env : relay_env) (policy : PortPolicy)
    (g : RelayAddressGenerator) (i : nat) : option (RelayAllocation socket) :=
  let drawn := dist env i (dist_lo policy g) (dist_hi policy g) in
  let port := u16 (if require_even policy then drawn * 2 else drawn) in
  if reserve_next policy && (max_port_ g <? port + 1) then None
  else
    match open_and_bind env g i false port with
    | None => None
    | Some primary =>
        if negb (reserve_next policy) then
          Some {| primary_ := primary; secondary_ := None |}
        else
          match open_and_bind env g i true (u16 (port + 1)) with
          | None => None
          | Some secondary =>
              Some {| primary_ := primary; secondary_ := Some secondary |}
          end
    end.

(** [for (int i = 0; i < max_retries; ++i)] with a [return] in its body;
    [n] iterations are left. *)
Fixpoint first_success {A} (attempt : nat -> option A) (i n : nat) : option A :=
  match n with
  | O => None
  | S n =>
      match attempt i with
      | Some r => Some r
      | None => first_success attempt (S i) n
      end
  end.

(** Constructing [std::uniform_int_distribution] with its bounds out of
    order is undefined. *)
Definition bounds_out_of_order : exn :=
  undefined_behaviour "uniform_int_distribution with lo > hi".

Definition generateUdpRelay (env : relay_env) (policy : PortPolicy)
    (g : RelayAddressGenerator) : result (option (RelayAllocation socket)) :=
  if dist_hi policy g <? dist_lo policy g then Err bounds_out_of_order
  else Ok (first_success (udp_attempt env policy g) 0 max_retries).

Definition tcp_attempt (env : relay_env) (g : RelayAddressGenerator) (i : nat)
    : option (RelayAllocation socket) :=
  let port := dist env i (min_port_ g) (max_port_ g) in
  match open_and_bind env g i false port with
  | None => None
  | Some acceptor => Some {| primary_ := acceptor; secondary_ := None |}
  end.

Definition generateTcpAcceptor (env : relay_env) (g : RelayAddressGenerator)
    : result (option (RelayAllocation socket)) :=
  if max_port_ g <? min_port_ g then Err bounds_out_of_order
  else Ok (first_success (tcp_attempt env g) 0 max_retries).

(** ** Lemmas *)

Lemma first_success_Some {A} (attempt : nat -> option A) n : forall i r,
  first_success attempt i n = Some r <->
  exists j, (i <= j < i + n)%nat /\ attempt j = Some r /\
    forall k, (i <= k < j)%nat -> attempt k = None.
Proof.
  induction n as [|n IH]; intros i r; simpl.
  - split; [done|]. intros (j & Hj & _). lia.
  - destruct (attempt i) as [r'|] eqn:E.
    + split.
      * intros [= <-]. exists i. split; [lia|]. split; [done|]. lia.
      * intros (j & Hj & Hr & Hk). destruct (decide (j = i)) as [->|Hne]; [congruence|].
        rewrite (Hk i) in E by lia. done.
    + rewrite IH. split; intros (j & Hj & Hr & Hk); exists j.
      * split; [lia|]. split; [done|]. intros k Hik.
        destruct (decide (k = i)) as [->|Hne]; [done | apply Hk; lia].
      * assert (j <> i) by congruence. split; [lia|]. split; [done|].
        intros k Hik. apply Hk. lia.
Qed.

Lemma first_success_hit {A} (attempt : nat -> option A) i n r :
  attempt i = Some r -> first_success attempt i (S n) = Some r.
Proof. simpl. by intros ->. Qed.

Lemma first_success_None {A} (attempt : nat -> option A) n : forall i,
  first_success attempt i n = None <->
  forall j, (i <= j < i + n)%nat -> attempt j = None.
Proof.
  induction n as [|n IH]; intros i; simpl.
  - split; [|done]. intros _ j Hj. lia.
  - destruct (attempt i) as [r|] eqn:E.
    + split; [done|]. intros Hall. rewrite Hall in E by lia. done.
    + rewrite IH. split; intros Hall j Hj.
      * destruct (decide (j = i)) as [->|Hne]; [done | apply Hall; lia].
      * apply Hall. lia.
Qed.

Lemma land_lnot_1 z : Z.land z (Z.lnot 1) = 2 * (z / 2).
Proof.
  rewrite <-Z.ldiff_land. change 1 with (Z.ones 1) at 1.
  rewrite Z.ldiff_ones_r by lia. rewrite Z.shiftl_mul_pow2, Z.shiftr_div_pow2 by lia.
  change (2 ^ 1) with 2. lia.
Qed.

(** The ports of the range that suit a policy. *)
Definition suitable (policy : PortPolicy) (g : RelayAddressGenerator) (p : Z) : Prop :=
  min_port_ g <= p <= max_port_ g /\ (require_even policy = true -> Z.even p = true).

Definition range_ok (g : RelayAddressGenerator) : Prop :=
  is_u16 (min_port_ g) /\ is_u16 (max_port_ g).

(** A range without port 0, which [bind] does not take literally. *)
Definition ports_ok (g : RelayAddressGenerator) : Prop :=
  range_ok g /\ 0 < min_port_ g.

Lemma even_bounds policy g :
  range_ok g -> require_even policy = true ->
  dist_lo policy g = (if min_port_ g =? 65535 then 0 else (min_port_ g + 1) / 2) /\
  dist_hi policy g = max_port_ g / 2.
Proof.
  unfold range_ok, is_u16. intros [Hmin Hmax] He.
  unfold dist_lo, dist_hi, port_min, port_max. rewrite He, !land_lnot_1.
  unfold u16. split.
  - destruct (Z.eqb_spec (min_port_ g) 65535) as [->|Hne]; [done|].
    rewrite Z.mod_small; divlia.
  - rewrite Z.mod_small; divlia.
Qed.

Lemma even_double z : Z.even (2 * z) = true.
Proof. by rewrite Z.even_mul. Qed.

Lemma open_and_bind_Some env g i second p s :
  open_and_bind env g i second p = Some s ->
  s = {| local_address := addr_ g;
         local_port := if p =? 0 then ephemeral env i second else p |}.
Proof. unfold open_and_bind. case_all; congruence. Qed.

Lemma open_and_bind_positive env g i second p s :
  0 < p -> open_and_bind env g i second p = Some s ->
  s = {| local_address := addr_ g; local_port := p |}.
Proof.
  intros Hp ->%open_and_bind_Some. by rewrite (proj2 (Z.eqb_neq p 0)) by lia.
Qed.

(** The bounds are in order when some port is suitable, and undefined
    behaviour is the only way not to return. *)
Lemma generateUdpRelay_defined env policy g :
  range_ok g -> (exists p, suitable policy g p) ->
  generateUdpRelay env policy g =
    Ok (first_success (udp_attempt env policy g) 0 max_retries).
Proof.
  intros Hok (p & Hp & Hev). pose proof Hok as [Hmin Hmax]. unfold is_u16 in *.
  unfold generateUdpRelay. rewrite (proj2 (Z.ltb_ge _ _)); [done|].
  destruct (require_even policy) eqn:He.
  - destruct (even_bounds policy g Hok He) as [-> ->].
    specialize (Hev eq_refl). apply Z.even_spec in Hev as [h ->].
    destruct (Z.eqb_spec (min_port_ g) 65535); divlia.
  - unfold dist_lo, dist_hi, port_min, port_max. rewrite He. divlia.
Qed.

Lemma generateUdpRelay_raises env policy g e :
  generateUdpRelay env policy g = Err e ->
  e = bounds_out_of_order /\ dist_hi policy g < dist_lo policy g.
Proof.
  unfold generateUdpRelay. destruct (Z.ltb_spec (dist_hi policy g) (dist_lo policy g)); [|done].
  by intros [= <-].
Qed.

(** The port an attempt tries is suitable. *)
Lemma drawn_suitable env policy g i :
  range_ok g -> dist_ok env -> (exists p, suitable policy g p) ->
  let drawn := dist env i (dist_lo policy g) (dist_hi policy g) in
  let p := if require_even policy then drawn * 2 else drawn in
  u16 p = p /\ suitable policy g p.
Proof.
  intros Hok Hd (p0 & Hp0 & Hev). simpl.
  pose proof Hok as [Hmin Hmax]. unfold is_u16 in *. unfold suitable.
  destruct (require_even policy) eqn:He.
  - specialize (Hev eq_refl). apply Z.even_spec in Hev as [h ->].
    destruct (even_bounds policy g Hok He) as [-> ->].
    destruct (Z.eqb_spec (min_port_ g) 65535) as [E|_]; [divlia|].
    specialize (Hd i ((min_port_ g + 1) / 2) (max_port_ g / 2) ltac:(divlia)).
    set (d := dist env i _ _) in *. split; [apply u16_small; unfold is_u16; divlia|].
    split; [divlia|]. intros _. by rewrite Z.mul_comm, even_double.
  - unfold dist_lo, dist_hi, port_min, port_max. rewrite He.
    specialize (Hd i (min_port_ g) (max_port_ g) ltac:(divlia)).
    split; [apply u16_small; unfold is_u16; divlia|]. by split.
Qed.

(** A second socket comes back exactly when the next port is asked for. *)
Lemma generateUdpRelay_secondary env policy g r :
  generateUdpRelay env policy g = Ok (Some r) ->
  is_Some (secondary_ r) <-> policy = EvenAndReserveNext.
Proof.
  unfold generateUdpRelay. destruct (_ <? _); [done|].
  intros (i & _ & Hr & _)%Ok_inj%first_success_Some. revert Hr. unfold udp_attempt.
  destruct (_ && _); [done|]. destruct (open_and_bind _ _ _ _ _); [|done].
  unfold reserve_next. case_bool_decide; cbn [negb].
  - destruct (open_and_bind _ _ _ _ _); [|done]. intros [= <-]. by split; [|eexists].
  - intros [= <-]. by split; [intros [? ?]|].
Qed.

(** What a returned relay address looks like. *)
Lemma generateUdpRelay_spec env policy g r :
  ports_ok g -> dist_ok env -> (exists p, suitable policy g p) ->
  generateUdpRelay env policy g = Ok (Some r) ->
  let p := local_port (primary r) in
  suitable policy g p /\ local_address (primary r) = addr_ g /\
  secondary_ r =
    (if reserve_next policy
     then Some {| local_address := addr_ g; local_port := p + 1 |} else None) /\
  (reserve_next policy = true -> p + 1 <= max_port_ g).
Proof.
  intros [Hok Hpos] Hd Hs. rewrite (generateUdpRelay_defined env policy g Hok Hs).
  intros (i & _ & Hr & _)%Ok_inj%first_success_Some. simpl.
  destruct (drawn_suitable env policy g i Hok Hd Hs) as [Hu16 Hsuit].
  unfold udp_attempt in Hr. rewrite Hu16 in Hr. revert Hr Hsuit.
  set (p := if require_even policy then _ else _). clearbody p. intros Hr Hsuit.
  assert (0 < p) as Hp0 by (destruct Hsuit as [[? _] _]; lia).
  assert (0 < p + 1) as Hp1' by lia.
  assert (is_u16 (p + 1) \/ max_port_ g < p + 1) as Hp1.
  { destruct Hok as [Hmin Hmax], Hsuit as [Hp _]. unfold is_u16 in *. divlia. }
  destruct (reserve_next policy) eqn:Hres; simpl in Hr.
  - destruct (Z.ltb_spec (max_port_ g) (p + 1)) as [|Hle]; [done|].
    destruct Hp1 as [Hp1|]; [|divlia]. rewrite (u16_small _ Hp1) in Hr.
    destruct (open_and_bind env g i false p) as [s1|] eqn:E1; [|done].
    destruct (open_and_bind env g i true (p + 1)) as [s2|] eqn:E2; [|done].
    apply open_and_bind_positive in E1, E2; [|done..]. subst. by injection Hr as <-.
  - destruct (open_and_bind env g i false p) as [s1|] eqn:E1; [|done].
    apply open_and_bind_positive in E1; [|done]. subst. by injection Hr as <-.
Qed.

(** ** Properties *)

(** Port 0 in the range means no port in particular: a draw of 0 is bound
    to whatever port the system picks, and the port reserved with it is 1. *)
Lemma generateUdpRelay_port_zero env policy g :
  min_port_ g = 0 -> 0 < max_port_ g -> is_u16 (max_port_ g) ->
  dist env 0 0 (dist_hi policy g) = 0 ->
  (forall second, open_ec env 0 second = no_error) ->
  (forall second p, bind_ec env 0 second p = no_error) ->
  generateUdpRelay env policy g = Ok (Some {|
    primary_ := {| local_address := addr_ g; local_port := ephemeral env 0 false |};
    secondary_ := if reserve_next policy
                  then Some {| local_address := addr_ g; local_port := 1 |} else None |}).
Proof.
  intros Hmin Hpos Hmax Hdraw Ho Hb.
  assert (range_ok g) as Hok by (split; [rewrite Hmin; split; lia | done]).
  rewrite generateUdpRelay_defined; [|done|exists 0; split; [lia|done]].
  assert (dist_lo policy g = 0) as Hlo.
  { destruct (require_even policy) eqn:He.
    - rewrite (proj1 (even_bounds policy g Hok He)), Hmin. done.
    - unfold dist_lo, port_min. by rewrite He. }
  f_equal. apply first_success_hit. unfold udp_attempt, open_and_bind. rewrite Hlo, Hdraw. replace (if require_even policy then 0 * 2 else 0) with 0
    by (by destruct (require_even policy)).
  change (u16 0) with 0. change (u16 (0 + 1)) with 1. rewrite !Ho, !Hb.
  unfold failed. rewrite bool_decide_true by done. cbn [negb].
  rewrite (proj2 (Z.ltb_ge _ _)), andb_false_r by lia.
  by destruct (reserve_next policy).
Qed.

(** The generator returns what the first successful attempt gives, and
    gives up exactly when all of the first 210 attempts fail. *)
Lemma generateUdpRelay_first_attempt env policy g :
  dist_lo policy g <= dist_hi policy g ->
  (forall r, generateUdpRelay env policy g = Ok (Some r) <->
     exists i, (i < 210)%nat /\ udp_attempt env policy g i = Some r /\
       forall j, (j < i)%nat -> udp_attempt env policy g j = None) /\
  (generateUdpRelay env policy g = Ok None <->
     forall i, (i < 210)%nat -> udp_attempt env policy g i = None).
Proof.
  intros Hle. unfold generateUdpRelay. change 210%nat with max_retries.
  rewrite (proj2 (Z.ltb_ge _ _) Hle).
  split.
  - intros r. rewrite Ok_inj, first_success_Some. split; intros (i & Hi & Hr & Hk); exists i.
    + split; [divlia|]. split; [done|]. intros j Hj. apply Hk. divlia.
    + split; [divlia|]. split; [done|]. intros j Hj. apply Hk. divlia.
  - rewrite Ok_inj, first_success_None. split; intros Hall i Hi; apply Hall; divlia.
Qed.

(** C37.  The bounds given to the distribution are in order exactly when the
    range holds a suitable port, but for the minimum 65535: rounding it up
    to an even port wraps to 0, and the bounds then span every even port
    below the maximum. *)
Theorem even_rounding_bounds g policy :
  range_ok g -> require_even policy = true ->
  (min_port_ g <> 65535 ->
     (dist_lo policy g <= dist_hi policy g <-> exists p, suitable policy g p)) /\
  (min_port_ g = 65535 ->
     dist_lo policy g = 0 /\ dist_hi policy g = max_port_ g / 2 /\
     ~ exists p, suitable policy g p).
Proof.
  intros Hok He. pose proof Hok as [Hmin Hmax]. unfold is_u16 in *.
  destruct (even_bounds policy g Hok He) as [Hlo Hhi]. rewrite Hlo, Hhi.
  unfold suitable. split.
  - intros Hne. rewrite (proj2 (Z.eqb_neq _ _) Hne). split.
    + intros Hle. exists (2 * (max_port_ g / 2)). split; [divlia|].
      intros _. apply even_double.
    + intros (p & Hp & Hev). specialize (Hev He). apply Z.even_spec in Hev as [h ->]. divlia.
  - intros ->. split; [done|]. split; [done|].
    intros (p & Hp & Hev). specialize (Hev He). apply Z.even_spec in Hev as [h ->]. divlia.
Qed.

(** A TCP acceptor is bound to the configured address, on a port of
    the configured range, and has no secondary. *)
Lemma generateTcpAcceptor_ports env g r :
  0 < min_port_ g -> dist_ok env ->
  generateTcpAcceptor env g = Ok (Some r) ->
  min_port_ g <= local_port (primary r) <= max_port_ g /\
  local_address (primary r) = addr_ g /\ hasSecondary r = false.
Proof.
  intros Hpos Hd. unfold generateTcpAcceptor.
  destruct (Z.ltb_spec (max_port_ g) (min_port_ g)) as [|Hle]; [done|].
  intros (i & _ & Hr & _)%Ok_inj%first_success_Some. unfold tcp_attempt in Hr.
  specialize (Hd i _ _ Hle). destruct (open_and_bind _ _ _ _ _) as [s|] eqn:E; [|done].
  apply open_and_bind_positive in E; [|lia]. subst. injection Hr as <-. done.
Qed.
End RelayAddressGenerator.

(** ** Witnesses *)

Definition default_generator : @RelayAddressGenerator plain_ip :=
  @Build_RelayAddressGenerator plain_ip 49152 65535 localhost.

(** Attempt 0 finds its port taken; the draws are the lower bound plus the
    number of the attempt. *)
Definition example_env : relay_env := {|
  dist i lo hi := if lo + Z.of_nat i <=? hi then lo + Z.of_nat i else lo;
  open_ec _ _ := no_error;
  bind_ec i _ _ := if i is O then other_error 98 else no_error;
  ephemeral _ _ := 32768
|}.

Lemma example_env_ok : dist_ok example_env.
Proof. intros i lo hi Hle. simpl. destruct (Z.leb_spec (lo + Z.of_nat i) hi); divlia. Qed.

Lemma default_generator_ok : range_ok default_generator.
Proof. split; by vm_compute. Qed.

Lemma default_generator_ports_ok : ports_ok default_generator.
Proof. split; [exact default_generator_ok | by vm_compute]. Qed.

Lemma default_generator_suitable policy : exists p, suitable policy default_generator p.
Proof. exists 50000. split; [by vm_compute | done]. Qed.

(** With a range that starts at 0, the relay may be outside of it. *)
Definition any_range : @RelayAddressGenerator plain_ip :=
  @Build_RelayAddressGenerator plain_ip 0 1024 localhost.

Definition zero_env : relay_env := {|
  dist i lo hi := lo;
  open_ec _ _ := no_error;
  bind_ec _ _ _ := no_error;
  ephemeral _ _ := 40000
|}.

Lemma generateUdpRelay_port_zero_example :
  exists r, generateUdpRelay zero_env Any any_range = Ok (Some r) /\
    local_port (primary r) = 40000.
Proof.
  eexists. split; [|shelve].
  apply (generateUdpRelay_port_zero zero_env Any any_range); by vm_compute.
  Unshelve. done.
Qed.

Lemma even_rounding_bounds_witness :
  dist_lo Even default_generator <= dist_hi Even default_generator.
Proof.
  apply (proj1 (even_rounding_bounds default_generator Even default_generator_ok eq_refl)
    ltac:(discriminate)).
  apply default_generator_suitable.
Defined.

Lemma generateTcpAcceptor_ports_example :
  exists r, generateTcpAcceptor example_env default_generator = Ok (Some r) /\
    49152 <= local_port (primary r) <= 65535.
Proof.
  exists {| primary_ := @Build_socket plain_ip localhost 49153; secondary_ := None |}.
  split; [reflexivity|].
  apply (generateTcpAcceptor_ports example_env default_generator _
    ltac:(by vm_compute) example_env_ok).
  reflexivity.
Defined.
