(* ===== verification/ReservationManager.v ===== *)
(** * Reservations: server/allocation/ReservationManager

    A client that asks for a pair of ports gets a token for the second one.
    The manager keeps the reserved sockets by token; claiming a token takes
    the socket out, once.  The hash of a token is a bijection of the 64-bit
    integers, so that the tokens never collide as keys. *)

From Stdlib Require Import ZArith Lia Strings.Byte.
From stdpp Require Import base gmap list relations.
From S2P Require Import Prelude Asio Instances TimedTable.

(** ** Tokens *)

(** [std::array<std::uint8_t, 8>] *)
Abbreviation ReservationToken := bytes.

(** The integer with the given bytes in memory, on a little-endian machine. *)
Fixpoint le_value (b : bytes) : Z :=
  match b with
  | [] => 0
  | x :: b => byte_val x + 256 * le_value b
  end.

(** [std::hash<ReservationToken>], with a 64-bit [std::size_t]. *)
Definition hash_token (token : ReservationToken) : Z :=
  let v := le_value token in
  let v := Z.lxor v (Z.shiftr v 30) in
  let v := u64 (v * 0xbf58476d1ce4e5b9) in
  let v := Z.lxor v (Z.shiftr v 27) in
  let v := u64 (v * 0x94d049bb133111eb) in
  let v := Z.lxor v (Z.shiftr v 31) in
  u64 v.

(** [generateToken]: eight bytes of the random generator, which is at
    position [pos] of its stream. *)
Definition generateToken (rng : nat -> byte) (pos : nat) : ReservationToken * nat :=
  (rng <$> seq pos 8, (pos + 8)%nat).

Section ReservationManager.
Context {Socket : Type}.

(** ** Reservation *)

Record Reservation : Type := {
  lifetime_seconds_ : Z;
  socket_ : Socket;
  timer_ : steady_timer;
  expiry_time : Z;
  reservation_token_ : ReservationToken
}.

Definition takeSocket (r : Reservation) : Socket := socket_ r.

Definition expired (now : Z) (r : Reservation) : bool := expiry_time r <=? now.

(** ** The manager

    [owned] says whether a [std::shared_ptr] owns the manager: when none
    does, [weak_from_this] is empty and its [lock] gives nothing. *)
Record ReservationManager : Type := {
  reservation_lifetime_ : Z;
  reservations_ : gmap ReservationToken Reservation;
  timer_calls : timer_service ReservationToken;
  owned : bool
}.

Definition make (owned : bool) (reservation_lifetime : Z) : ReservationManager :=
  {| reservation_lifetime_ := reservation_lifetime;
     reservations_ := ∅;
     timer_calls := no_timers;
     owned := owned |}.

Definition set_reservations (m : gmap ReservationToken Reservation)
    (calls : timer_service ReservationToken) (rm : ReservationManager)
    : ReservationManager :=
  {| reservation_lifetime_ := reservation_lifetime_ rm;
     reservations_ := m;
     timer_calls := calls;
     owned := owned rm |}.

(** [startTimer] of the reservation with token [token]: the timer is set
    and waited on. *)
Definition startTimer (now : Z) (calls : timer_service ReservationToken)
    (r : Reservation) : Reservation * timer_service ReservationToken :=
  let '(timer, calls) := expires_after now (lifetime_seconds_ r) calls in
  ({| lifetime_seconds_ := lifetime_seconds_ r;
      socket_ := socket_ r;
      timer_ := timer;
      expiry_time := now + seconds (lifetime_seconds_ r);
      reservation_token_ := reservation_token_ r |},
   async_wait timer (reservation_token_ r) calls).

(** [claimReservation]: the reservation is erased and its timer stopped,
    which ends the setting its wait was begun under. *)
Definition claimReservation (token : ReservationToken) (rm : ReservationManager)
    : option Socket * ReservationManager :=
  match reservations_ rm !! token with
  | None => (None, rm)
  | Some reservation =>
      let rm := set_reservations (delete token (reservations_ rm)) (timer_calls rm) rm in
      (Some (takeSocket reservation), rm)
  end.

(** [while (reservations_.contains(token)) token = generateToken();], with
    [fuel] iterations at most. *)
Fixpoint fresh_token (fuel : nat) (rng : nat -> byte) (pos : nat)
    (m : gmap ReservationToken Reservation) : option (ReservationToken * nat) :=
  let '(token, pos) := generateToken rng pos in
  if bool_decide (is_Some (m !! token)) then
    match fuel with
    | O => None
    | S fuel => fresh_token fuel rng pos m
    end
  else Some (token, pos).

Definition createReservation (fuel : nat) (rng : nat -> byte) (pos : nat)
    (now : Z) (socket : Socket) (rm : ReservationManager)
    : option (ReservationToken * nat * ReservationManager) :=
  match fresh_token fuel rng pos (reservations_ rm) with
  | None => None
  | Some (token, pos) =>
      let '(t0, calls) := new_timer (timer_calls rm) in
      let reservation :=
        {| lifetime_seconds_ := reservation_lifetime_ rm; socket_ := socket;
           timer_ := t0; expiry_time := 0; reservation_token_ := token |} in
      let '(it, m) := emplace token reservation (reservations_ rm) in
      let '(it, calls) := startTimer now calls it in
      Some (token, pos, set_reservations (<[token := it]> m) calls rm)
  end.

Definition expireReservation (token : ReservationToken) (rm : ReservationManager)
    : ReservationManager :=
  set_reservations (delete token (reservations_ rm)) (timer_calls rm) rm.

(** The wait handler of a reservation and the callback it calls. *)
Definition on_timer (ec : error_code) (token : ReservationToken)
    (rm : ReservationManager) : ReservationManager :=
  if failed ec then rm
  else if owned rm then expireReservation token rm
  else rm.

(** The reservations and their timers, for the waits that complete.  The
    laws of a timed table do not hold of a manager that nobody owns. *)
#[export] Instance reservation_table : TimedTable ReservationToken ReservationManager := {
  timers rm := timer_ <$> reservations_ rm;
  service := timer_calls;
  set_service svc rm := set_reservations (reservations_ rm) svc rm;
  fire _ := on_timer
}.
End ReservationManager.
Arguments Reservation : clear implicits.
Arguments ReservationManager : clear implicits.

(** ** The hash of a token *)

Lemma le_value_range b : 0 <= le_value b < 256 ^ Z.of_nat (length b).
Proof.
  induction b as [|x b IH]; [done|]. cbn [le_value length].
  pose proof (byte_val_range x). rewrite Nat2Z.inj_succ, Z.pow_succ_r by lia. lia.
Qed.

Lemma le_value_inj b1 b2 :
  length b1 = length b2 -> le_value b1 = le_value b2 -> b1 = b2.
Proof.
  revert b2. induction b1 as [|x b1 IH]; intros [|y b2] Hl E; try done.
  cbn [le_value] in E. pose proof (byte_val_range x). pose proof (byte_val_range y).
  f_equal; [apply byte_val_inj; lia|]. apply IH; [by injection Hl | lia].
Qed.

(** [v ^= v >> k] loses nothing. *)
Lemma xorshift_inj k v w :
  0 < k -> 0 <= v -> 0 <= w ->
  Z.lxor v (Z.shiftr v k) = Z.lxor w (Z.shiftr w k) -> v = w.
Proof.
  intros Hk Hv Hw E. apply Z.lxor_eq.
  set (d := Z.lxor v w).
  assert (0 <= d) as Hd by (apply Z.lxor_nonneg; lia).
  assert (d = Z.shiftr d k) as Hs.
  { unfold d. rewrite Z.shiftr_lxor. apply Z.bits_inj'. intros n _.
    apply (f_equal (fun z => Z.testbit z n)) in E. rewrite !Z.lxor_spec in *.
    revert E. by destruct (Z.testbit v n), (Z.testbit w n),
      (Z.testbit (Z.shiftr v k) n), (Z.testbit (Z.shiftr w k) n). }
  rewrite Z.shiftr_div_pow2 in Hs by lia.
  assert (1 < 2 ^ k) as Hp by (apply Z.pow_gt_1; lia).
  destruct (Z.eq_dec d 0) as [|Hne]; [done|].
  pose proof (Z.div_lt d (2 ^ k)). lia.
Qed.

(** Multiplication by an odd constant, given its inverse, loses nothing. *)
Lemma mul_u64_inj c c' v w :
  u64 (c * c') = 1 -> is_u64 v -> is_u64 w -> u64 (v * c) = u64 (w * c) -> v = w.
Proof.
  unfold u64, is_u64. intros Hc Hv Hw E.
  rewrite <-(Z.mod_small v (2 ^ 64)), <-(Z.mod_small w (2 ^ 64)) by done.
  assert (forall z, z mod 2 ^ 64 = ((z * c) mod 2 ^ 64 * c') mod 2 ^ 64) as Hinv.
  { intros z. rewrite Zmult_mod_idemp_l, <-Z.mul_assoc, <-Zmult_mod_idemp_r, Hc.
    by rewrite Z.mul_1_r. }
  by rewrite (Hinv v), (Hinv w), E.
Qed.

Lemma shiftr_u64 v k : 0 <= k -> is_u64 v -> is_u64 (Z.shiftr v k).
Proof.
  unfold is_u64. intros Hk Hv. rewrite Z.shiftr_div_pow2 by done.
  assert (0 < 2 ^ k) by (apply Z.pow_pos_nonneg; lia).
  split; [apply Z.div_pos; lia|].
  apply Z.le_lt_trans with v; [|lia]. apply Z.div_le_upper_bound; nia.
Qed.

Lemma xorshift_u64 v k : 0 <= k -> is_u64 v -> is_u64 (Z.lxor v (Z.shiftr v k)).
Proof. intros Hk Hv. apply lxor_u64; [done | by apply shiftr_u64]. Qed.

#[export] Hint Resolve shiftr_u64 xorshift_u64 : taser.

Lemma hash_token_inj t1 t2 :
  length t1 = 8%nat -> length t2 = 8%nat -> hash_token t1 = hash_token t2 -> t1 = t2.
Proof.
  intros H1 H2. unfold hash_token.
  pose proof (le_value_range t1) as R1. pose proof (le_value_range t2) as R2.
  rewrite H1 in R1. rewrite H2 in R2.
  assert (is_u64 (le_value t1)) as U1 by exact R1.
  assert (is_u64 (le_value t2)) as U2 by exact R2.
  assert (forall v, is_u64 v -> 0 <= v) as Hpos by (unfold is_u64; lia).
  rewrite !(u64_small (Z.lxor _ (Z.shiftr _ 31))) by auto with taser.
  intros E.
  apply xorshift_inj in E; [|lia|auto with taser..].
  apply (mul_u64_inj _ 0x319642b2d24d8ec3) in E; [|by vm_compute|auto with taser..].
  apply xorshift_inj in E; [|lia|auto with taser..].
  apply (mul_u64_inj _ 0x96de1b173f119089) in E; [|by vm_compute|auto with taser..].
  apply xorshift_inj in E; [|lia|auto with taser..].
  apply le_value_inj; congruence.
Qed.

(** ** Lemmas on the manager *)

Section lemmas.
Context {Socket : Type}.
Implicit Types (rm : ReservationManager Socket) (rng : nat -> byte) (fuel pos : nat).

(** The [i]-th token of the stream from a position. *)
Definition stream_token rng (pos i : nat) : ReservationToken :=
  (generateToken rng (pos + 8 * i)).1.

Lemma length_stream_token rng pos i : length (stream_token rng pos i) = 8%nat.
Proof. done. Qed.

Lemma fresh_token_Some fuel rng (m : gmap ReservationToken (Reservation Socket)) :
  forall pos (token : ReservationToken) pos', fresh_token fuel rng pos m = Some (token, pos') ->
  m !! token = None /\ length token = 8%nat /\
  exists i, (i <= fuel)%nat /\ token = stream_token rng pos i.
Proof.
  induction fuel as [|fuel IH]; intros pos token pos'; cbn [fresh_token];
    destruct (generateToken rng pos) as [t p] eqn:Eg; case_bool_decide as Hm.
  - done.
  - intros [= <- <-]. apply eq_None_not_Some in Hm. split; [done|].
    injection Eg as <- <-. split; [done|].
    exists O. split; [lia|]. unfold stream_token. by rewrite Nat.add_0_r.
  - intros Hf. destruct (IH _ _ _ Hf) as (Hn & Hl & i & Hi & ->).
    split; [done|]. split; [done|]. exists (S i). split; [lia|].
    injection Eg as <- <-. unfold stream_token. do 2 f_equal. lia.
  - intros [= <- <-]. apply eq_None_not_Some in Hm. split; [done|].
    injection Eg as <- <-. split; [done|].
    exists O. split; [lia|]. unfold stream_token. by rewrite Nat.add_0_r.
Qed.

Lemma fresh_token_None fuel rng (m : gmap ReservationToken (Reservation Socket)) :
  forall pos, fresh_token fuel rng pos m = None ->
  forall i, (i <= fuel)%nat -> stream_token rng pos i ∈ dom m.
Proof.
  induction fuel as [|fuel IH]; intros pos; cbn [fresh_token];
    destruct (generateToken rng pos) as [t p] eqn:Eg;
    case_bool_decide as Hm; intros Hf i Hi; try done;
    injection Eg as <- <-; apply elem_of_dom.
  - replace i with O by lia. unfold stream_token. by rewrite Nat.add_0_r.
  - destruct i as [|i].
    + unfold stream_token. by rewrite Nat.add_0_r.
    + apply elem_of_dom. replace (stream_token rng pos (S i))
        with (stream_token rng (pos + 8) i) by (unfold stream_token; do 2 f_equal; lia).
      apply (IH _ Hf). lia.
Qed.

Lemma fresh_token_total rng pos (m : gmap ReservationToken (Reservation Socket)) :
  (forall i j, (i < j <= size m)%nat -> stream_token rng pos i <> stream_token rng pos j) ->
  is_Some (fresh_token (size m) rng pos m).
Proof.
  intros Hinj. destruct (fresh_token _ _ _ _) eqn:E; [by eexists|exfalso].
  pose proof (fresh_token_None _ _ _ _ E) as Hall.
  set (l := stream_token rng pos <$> seq 0 (S (size m))).
  assert (NoDup l) as Hnd.
  { apply NoDup_fmap_2_strong; [|apply NoDup_seq].
    intros i j [_ Hi]%elem_of_seq [_ Hj]%elem_of_seq Eij.
    destruct (lt_eq_lt_dec i j) as [[Hlt|]|Hlt]; [|done|];
      exfalso; eapply Hinj; [|exact Eij| |symmetry; exact Eij]; lia. }
  assert (size (list_to_set l : gset ReservationToken) <= size (dom m))%nat as Hsz.
  { apply subseteq_size. intros t Ht%elem_of_list_to_set.
    apply list_elem_of_fmap in Ht as (i & -> & [_ Hi]%elem_of_seq). apply Hall. lia. }
  rewrite size_list_to_set in Hsz by done. rewrite size_dom in Hsz.
  unfold l in Hsz. rewrite length_fmap, length_seq in Hsz. lia.
Qed.

(** What [createReservation] files: the socket, with a timer that is set and
    waited on. *)
Lemma createReservation_Some fuel rng pos now (socket : Socket) rm token pos' rm' :
  createReservation fuel rng pos now socket rm = Some (token, pos', rm') ->
  reservations_ rm !! token = None /\ length token = 8%nat /\ owned rm' = owned rm /\
  exists r, reservations_ rm' = <[token := r]> (reservations_ rm) /\
    socket_ r = socket /\ expiry_time r = now + seconds (reservation_lifetime_ rm) /\
    expiry (timer_ r) = expiry_time r /\ wait_of token (timer_ r) ∈ waits (timer_calls rm').
Proof.
  unfold createReservation. destruct (fresh_token _ _ _ _) as [[t p]|] eqn:E; [|done].
  apply fresh_token_Some in E as (Hn & Hl & _). simpl.
  rewrite emplace_fresh by done. simpl. intros [= <- <- <-].
  do 3 (split; [done|]). eexists. simpl. rewrite insert_insert_eq. split_and!; try done.
  apply elem_of_app. right. by apply list_elem_of_singleton.
Qed.

(** Owned by a [std::shared_ptr], the manager drops a reservation when its
    handler runs without an error. *)
Lemma owned_on_timer token rm :
  owned rm = true -> reservations_ (on_timer no_error token rm) !! token = None.
Proof. intros Ho. unfold on_timer. rewrite Ho. simpl. apply lookup_delete_eq. Qed.

(** Not owned, it keeps every reservation. *)
Lemma unowned_completes now rm rm' :
  owned rm = false -> completes now rm rm' ->
  reservations_ rm' = reservations_ rm /\ owned rm' = false.
Proof.
  intros Ho (w & ec & _ & _ & ->)%completes_inv. unfold run_wait; simpl.
  unfold on_timer. simpl. rewrite Ho. by destruct (failed ec).
Qed.

(** ** Properties *)

(** C36.  The 64-bit hash of reservation tokens is injective: two different
    tokens never have the same hash. *)
Theorem hash_token_injective (t1 t2 : ReservationToken) :
  length t1 = 8%nat -> length t2 = 8%nat ->
  (hash_token t1 = hash_token t2 <-> t1 = t2) /\ is_u64 (hash_token t1).
Proof.
  intros H1 H2. split; [split; [by apply hash_token_inj | by intros ->]|].
  apply u64_range.
Qed.

(** C34.  The loop that draws a token ends: when the tokens of the stream are
    distinct, one more draw than there are reservations is enough, and the
    token it ends with is new. *)
Theorem createReservation_terminates rng pos now (socket : Socket) rm :
  (forall i j, (i < j <= size (reservations_ rm))%nat ->
     stream_token rng pos i <> stream_token rng pos j) ->
  exists token pos' rm',
    createReservation (size (reservations_ rm)) rng pos now socket rm
      = Some (token, pos', rm') /\
    reservations_ rm !! token = None.
Proof.
  intros Hinj%fresh_token_total. destruct Hinj as [[token pos'] E].
  pose proof (fresh_token_Some _ _ _ _ _ _ E) as (Hn & _).
  unfold createReservation. rewrite E.
  destruct (new_timer _), (emplace _ _ _), (startTimer _ _ _). eauto.
Qed.

(** A reservation round trip: claiming the token [createReservation]
    returned gives the socket, claiming it again gives nothing, and the
    reservations of other tokens are untouched by both. *)
Lemma reservation_roundtrip fuel rng pos now (socket : Socket) rm token pos' rm' :
  createReservation fuel rng pos now socket rm = Some (token, pos', rm') ->
  let '(claimed, rm'') := claimReservation token rm' in
  claimed = Some socket /\
  (claimReservation token rm'').1 = None /\
  reservations_ rm'' = reservations_ rm /\
  forall other, other <> token ->
    (claimReservation other rm').1 = (claimReservation other rm).1.
Proof.
  intros (Hn & _ & _ & r & Hm & <- & _)%createReservation_Some.
  unfold claimReservation. rewrite Hm, lookup_insert_eq. simpl.
  rewrite lookup_delete_eq. split; [done|]. split; [done|]. split.
  - by rewrite delete_insert_id.
  - intros other Hne. rewrite lookup_insert_ne by done.
    by destruct (reservations_ rm !! other).
Qed.
End lemmas.

(** ** Witnesses *)

(** A stream in which the bytes count up. *)
Definition counting (n : nat) : byte := to_byte (Z.of_nat n).

Definition empty_manager : ReservationManager Z := make false 300.

Lemma hash_token_injective_witness :
  hash_token (stream_token counting 0 0) <> hash_token (stream_token counting 0 1).
Proof.
  intros E.
  apply (proj1 (proj1 (hash_token_injective (stream_token counting 0 0)
    (stream_token counting 0 1) eq_refl eq_refl))) in E.
  discriminate E.
Defined.

Lemma createReservation_terminates_witness :
  exists token pos' rm',
    createReservation 0 counting 0 0 49153 empty_manager = Some (token, pos', rm').
Proof.
  destruct (createReservation_terminates counting 0 0 49153 empty_manager)
    as (token & pos' & rm' & E & _).
  - intros i j Hij. unfold empty_manager in Hij. simpl in Hij.
    change (size (∅ : gmap ReservationToken (Reservation Z))) with 0%nat in Hij. lia.
  - exists token, pos', rm'. exact E.
Defined.

Lemma reservation_roundtrip_example :
  exists token pos' rm',
    createReservation 0 counting 0 0 49153 empty_manager = Some (token, pos', rm') /\
    (claimReservation token rm').1 = Some 49153.
Proof.
  destruct (createReservation 0 counting 0 0 49153 empty_manager)
    as [[[token pos'] rm']|] eqn:E; [|discriminate E].
  exists token, pos', rm'. split; [reflexivity|].
  pose proof (reservation_roundtrip 0 counting 0 0 49153 empty_manager token pos' rm' E) as H.
  destruct (claimReservation token rm') as [c rm'']. exact (proj1 H).
Defined.
