(* ===== verification/Config.v ===== *)
(** * Configuration: server/config/Config.hpp

    The configuration record with its defaults, and how [loadConfig] fills it
    from an ini file.  The property tree and its parser are Boost's and are
    an interface here. *)

From Stdlib Require Import ZArith Lia Strings.Byte.
From stdpp Require Import base gmap list strings.
From S2P Require Import Prelude.

Definition to_bytes (s : string) : bytes := String.list_byte_of_string s.

Record Network : Type := {
  bind_address : bytes;
  bind_port : Z
}.

Record Auth : Type := {
  realm : bytes;
  nonce_lifetime : Z;
  users : gmap bytes bytes
}.

Record Turn : Type := {
  allocation_lifetime : Z;
  max_allocation_lifetime : Z;
  channel_lifetime : Z;
  permission_lifetime : Z;
  reservation_lifetime : Z;
  relay_ip : bytes;
  relay_port_min : Z;
  relay_port_max : Z
}.

(** The logging part is compiled with [ENABLE_LOGGING]. *)
Record Logging : Type := {
  level : bytes;
  console_log : bool
}.

Record Config : Type := {
  network : Network;
  auth : Auth;
  turn : Turn;
  logging : Logging
}.

(** The member initialisers. *)
Definition default_network : Network :=
  {| bind_address := to_bytes "127.0.0.1"; bind_port := 3478 |}.

Definition default_auth : Auth :=
  {| realm := to_bytes "example.com"; nonce_lifetime := 600; users := ∅ |}.

Definition default_turn : Turn :=
  {| allocation_lifetime := 600;
     max_allocation_lifetime := 3600;
     channel_lifetime := 600;
     permission_lifetime := 300;
     reservation_lifetime := 300;
     relay_ip := to_bytes "127.0.0.1";
     relay_port_min := 49152;
     relay_port_max := 65535 |}.

Definition default_logging : Logging :=
  {| level := to_bytes "info"; console_log := false |}.

Definition default_config : Config :=
  {| network := default_network; auth := default_auth;
     turn := default_turn; logging := default_logging |}.

(** [has_port_range]: both bounds are non-zero. *)
Definition has_port_range (t : Turn) : bool :=
  negb (relay_port_min t =? 0) && negb (relay_port_max t =? 0).

(** [boost::property_tree::ptree]: reading an ini file, which may fail, the
    value at a path converted to a type, if there is one that converts, and
    the children of a node with their own values. *)
Class PropertyTree := {
  ptree : Type;
  read_ini : bytes -> option ptree;
  value_string : ptree -> string -> option bytes;
  value_uint16 : ptree -> string -> option Z;
  value_long : ptree -> string -> option Z;
  value_bool : ptree -> string -> option bool;
  children : ptree -> string -> option (list (bytes * ptree));
  node_value : ptree -> bytes
}.

Section loadConfig.
Context {pt : PropertyTree}.

(** [for (const auto& [fst, snd] : *users_node) users.emplace(fst, ...)] *)
Fixpoint load_users (nodes : list (bytes * ptree)) (m : gmap bytes bytes)
    : gmap bytes bytes :=
  match nodes with
  | [] => m
  | (username, node) :: nodes =>
      load_users nodes (emplace username (node_value node) m).2
  end.

Definition loadConfig (path : bytes) : Config :=
  let config := default_config in
  match read_ini path with
  | None => config
  | Some tree =>
      {| network :=
           {| bind_address :=
                default (bind_address (network config))
                  (value_string tree "network.bind_address");
              bind_port :=
                default (bind_port (network config))
                  (value_uint16 tree "network.bind_port") |};
         auth :=
           {| realm := default (realm (auth config)) (value_string tree "realm");
              nonce_lifetime :=
                default (nonce_lifetime (auth config))
                  (value_long tree "auth.nonce_lifetime");
              users :=
                match children tree "users" with
                | Some nodes => load_users nodes ∅
                | None => ∅
                end |};
         turn :=
           let t := turn config in
           {| allocation_lifetime :=
                default (allocation_lifetime t)
                  (value_long tree "turn.allocation_lifetime");
              max_allocation_lifetime :=
                default (max_allocation_lifetime t)
                  (value_long tree "turn.max_allocation_lifetime");
              channel_lifetime :=
                default (channel_lifetime t)
                  (value_long tree "turn.channel_lifetime");
              permission_lifetime :=
                default (permission_lifetime t)
                  (value_long tree "turn.permission_lifetime");
              reservation_lifetime :=
                default (reservation_lifetime t)
                  (value_long tree "turn.reservation_lifetime");
              relay_ip :=
                default (relay_ip t) (value_string tree "turn.relay_ip");
              relay_port_min :=
                default (relay_port_min t)
                  (value_uint16 tree "turn.relay_port_min");
              relay_port_max :=
                default (relay_port_max t)
                  (value_uint16 tree "turn.relay_port_max") |};
         logging :=
           {| level :=
                default (level (logging config)) (value_string tree "logging.level");
              console_log :=
                default false (value_bool tree "logging.console_log") |} |}
  end.

Lemma load_users_lookup nodes : forall m u,
  load_users nodes m !! u =
    match m !! u with
    | Some p => Some p
    | None =>
        match find_if (fun n => bool_decide (n.1 = u)) nodes with
        | Some n => Some (node_value n.2)
        | None => None
        end
    end.
Proof.
  induction nodes as [|[v node] nodes IH]; intros m u; simpl.
  - by destruct (m !! u).
  - rewrite IH. unfold emplace. case_bool_decide as Hv.
    + subst v. destruct (m !! u) eqn:E; simpl; [by rewrite E|].
      by rewrite lookup_insert_eq.
    + destruct (m !! v) eqn:E; simpl; [done|].
      by rewrite lookup_insert_ne.
Qed.

(** ** Properties *)

(** C40.  The passwords that are loaded: a user has the password of the first
    entry of the [users] section with that name, and nobody has one when
    the section is missing or the file cannot be read. *)
Theorem loadConfig_users path u :
  users (auth (loadConfig path)) !! u =
    match read_ini path with
    | Some tree =>
        match children tree "users" with
        | Some nodes =>
            match find_if (fun n => bool_decide (n.1 = u)) nodes with
            | Some n => Some (node_value n.2)
            | None => None
            end
        | None => None
        end
    | None => None
    end.
Proof.
  unfold loadConfig. destruct (read_ini path) as [tree|]; simpl; [|done].
  destruct (children tree "users") as [nodes|]; [|done].
  by rewrite load_users_lookup.
Qed.

(** The realm is read from the top level of the file: without a value at
    [realm] it is the default, whatever the [auth] section says. *)
Lemma loadConfig_realm_ignores_auth_section path tree configured :
  read_ini path = Some tree ->
  value_string tree "realm" = None ->
  value_string tree "auth.realm" = Some configured ->
  realm (auth (loadConfig path)) = to_bytes "example.com".
Proof. intros Hp Hr _. unfold loadConfig. rewrite Hp; simpl. by rewrite Hr. Qed.
End loadConfig.

(** ** Witness: the file config/config.ini *)

(** A property tree of depth one: the string values by path, and the users. *)
Record flat_tree : Type := {
  flat_values : list (string * bytes);
  flat_users : list (bytes * bytes)
}.

Definition flat_find (t : flat_tree) (path : string) : option bytes :=
  match find_if (fun v => bool_decide (v.1 = path)) (flat_values t) with
  | Some v => Some v.2
  | None => None
  end.

Definition shipped_tree : flat_tree := {|
  flat_values := [("auth.realm", to_bytes "example.org");
                  ("auth.nonce_lifetime", to_bytes "3600");
                  ("logging.level", to_bytes "debug");
                  ("logging.console_log", to_bytes "true")];
  flat_users := [(to_bytes "alice", to_bytes "secret1");
                 (to_bytes "bob", to_bytes "secret2")]
|}.

Definition shipped_file : PropertyTree := {|
  ptree := flat_tree;
  read_ini _ := Some shipped_tree;
  value_string := flat_find;
  value_uint16 _ _ := None;
  value_long t path := if flat_find t path is Some _ then Some 3600 else None;
  value_bool t path := if flat_find t path is Some _ then Some true else None;
  children t path :=
    if bool_decide (path = "users") then
      Some ((fun u => (u.1, {| flat_values := [("", u.2)]; flat_users := [] |}))
              <$> flat_users t)
    else None;
  node_value t := default [] (flat_find t "")
|}.

Lemma loadConfig_realm_ignores_auth_section_example :
  realm (auth (loadConfig (pt := shipped_file) (to_bytes "config.ini"))) = to_bytes "example.com".
Proof.
  apply (loadConfig_realm_ignores_auth_section (pt := shipped_file)
    (to_bytes "config.ini") shipped_tree (to_bytes "example.org"));
    vm_compute; reflexivity.
Defined.

Example loadConfig_users_example :
  users (auth (loadConfig (pt := shipped_file) [])) !! to_bytes "bob" = Some (to_bytes "secret2").
Proof. vm_compute. reflexivity. Qed.
