(* ===== verification/Message.v ===== *)
(** * Packets: server/core/Message.hpp

    A packet is a buffer of 2048 bytes and the number of them in use. *)

From Stdlib Require Import ZArith Lia Strings.Byte.
From stdpp Require Import base gmap list.
From S2P Require Import Prelude.

Definition buffer_size : nat := 2048.

(** A buffer of zeros, kept folded in proofs. *)
Definition zero_buffer : bytes := replicate buffer_size x00.

Lemma length_zero_buffer : length zero_buffer = buffer_size.
Proof. apply length_replicate. Qed.

#[global] Opaque buffer_size zero_buffer.

Record Message : Type := {
  size : Z;
  buffer : bytes
}.

#[export] Instance Message_eq_dec : EqDecision Message.
Proof. solve_decision. Defined.

(** [Message m{}]: value-initialised, hence all zero. *)
Definition zero_message : Message :=
  {| size := 0; buffer := zero_buffer |}.

(** The constructor from a span: the data is cut at the buffer's size. *)
Definition make (data : bytes) : Message :=
  let n := Nat.min (length data) buffer_size in
  {| size := Z.of_nat n;
     buffer := memcpy zero_buffer (take n data) |}.

(** What the first [size] bytes hold: [std::span(buffer.data(), size)]. *)
Definition payload (m : Message) : bytes := take (Z.to_nat (size m)) (buffer m).

Definition wf_message (m : Message) : Prop :=
  length (buffer m) = buffer_size /\ 0 <= size m <= Z.of_nat buffer_size.

Lemma wf_zero_message : wf_message zero_message.
Proof. split; [apply length_zero_buffer | simpl; lia]. Qed.

Lemma wf_make data : wf_message (make data).
Proof.
  split; simpl.
  - rewrite length_memcpy, length_zero_buffer; [done|].
    rewrite length_take, length_zero_buffer. lia.
  - lia.
Qed.

Lemma payload_make data : payload (make data) = take buffer_size data.
Proof.
  unfold payload, make; simpl. rewrite Nat2Z.id.
  set (n := Nat.min (length data) buffer_size).
  assert (length (take n data) = n) as Hn by (rewrite length_take; lia).
  rewrite <-Hn at 1. rewrite take_memcpy. unfold n.
  destruct (Nat.le_gt_cases (length data) buffer_size).
  - rewrite Nat.min_l, !take_ge by lia. done.
  - by rewrite Nat.min_r by lia.
Qed.

(** [async_receive_from(buffer(message.buffer), sender)] with a datagram
    that is cut at the buffer's size: the front of the buffer is overwritten
    and the rest keeps what it held. *)
Definition receive (datagram : bytes) (m : Message) : Message :=
  let n := Nat.min (length datagram) buffer_size in
  {| size := Z.of_nat n; buffer := memcpy (buffer m) (take n datagram) |}.

Lemma wf_receive d m : wf_message m -> wf_message (receive d m).
Proof.
  intros [Hl _]. split; simpl; [|lia].
  rewrite length_memcpy, Hl; [done|]. rewrite length_take, Hl. lia.
Qed.

Lemma payload_receive d m :
  length (buffer m) = buffer_size -> payload (receive d m) = take buffer_size d.
Proof.
  intros Hl. unfold payload, receive; simpl. rewrite Nat2Z.id.
  set (n := Nat.min (length d) buffer_size).
  assert (length (take n d) = n) as Hn by (rewrite length_take; lia).
  rewrite <-Hn at 1. rewrite take_memcpy. unfold n.
  destruct (Nat.le_gt_cases (length d) buffer_size).
  - rewrite Nat.min_l, !take_ge by lia. done.
  - by rewrite Nat.min_r by lia.
Qed.
