(* ===== verification/OpenSSL.v ===== *)
(** * Interface of OpenSSL

    The calls of the authenticator into libcrypto, as a class with what
    their documentation says, and an instance for evaluating the model: the
    base64 of the instance is the real one, its keyed hash is not HMAC.  No
    definition of this file models code of the repository. *)

From Stdlib Require Import ZArith Lia Strings.Byte.
From stdpp Require Import base gmap list strings.
From S2P Require Import Prelude.

Inductive digest : Type := SHA1_digest | SHA256_digest.

(** The byte ['=']. *)
Definition pad_byte : byte := x3d.

Class OpenSSL := {
  (** [HMAC(EVP_sha256(), key, data)] *)
  HMAC_SHA256 : bytes -> bytes -> bytes;
  (** The [EVP_MAC] sequence fetch, init, update, final; [None] on failure. *)
  EVP_MAC_HMAC : digest -> bytes -> bytes -> option bytes;
  (** The characters [EVP_EncodeBlock] writes. *)
  EVP_EncodeBlock : bytes -> bytes;
  (** The bytes [EVP_DecodeBlock] writes; [None] for a negative result. *)
  EVP_DecodeBlock : bytes -> option bytes
}.

(** The number of characters of padding the base64 of [n] bytes ends with. *)
Definition padding_of (n : nat) : nat := (3 - n mod 3) mod 3.

Class OpenSSLLaws (ssl : OpenSSL) : Prop := {
  length_HMAC_SHA256 : forall k d, length (HMAC_SHA256 k d) = 32%nat;
  length_EVP_EncodeBlock : forall d,
    length (EVP_EncodeBlock d) = (4 * ((length d + 2) / 3))%nat;
  (** Decoding gives the data back, filled up with zeros to a multiple of 3. *)
  EVP_DecodeBlock_EncodeBlock : forall d,
    EVP_DecodeBlock (EVP_EncodeBlock d) =
      Some (d ++ replicate (padding_of (length d)) x00);
  (** The last two characters are padding when one byte is left over, the
      last one when two are. *)
  EVP_EncodeBlock_last : forall d, d <> [] ->
    EVP_EncodeBlock d !! (length (EVP_EncodeBlock d) - 1)%nat = Some pad_byte <->
    padding_of (length d) <> 0%nat;
  EVP_EncodeBlock_second_last : forall d, d <> [] ->
    EVP_EncodeBlock d !! (length (EVP_EncodeBlock d) - 2)%nat = Some pad_byte <->
    padding_of (length d) = 2%nat;
  (** Three bytes are decoded from four characters, padding included. *)
  length_EVP_DecodeBlock : forall b d,
    EVP_DecodeBlock b = Some d -> (length d <= length b * 3 / 4)%nat;
  EVP_DecodeBlock_padded : forall b d, EVP_DecodeBlock b = Some d ->
    b !! (length b - 1)%nat = Some pad_byte \/ b !! (length b - 2)%nat = Some pad_byte ->
    (2 <= length d)%nat
}.

(** ** An instance *)

(** Lists, three elements at a time. *)
Lemma list_ind3 {A} (P : list A -> Prop) :
  P [] -> (forall a, P [a]) -> (forall a b, P [a; b]) ->
  (forall a b c l, P l -> P (a :: b :: c :: l)) -> forall l, P l.
Proof.
  intros H0 H1 H2 H3. fix IH 1.
  intros [|a [|b [|c l]]]; [exact H0 | apply H1 | apply H2 | apply H3, IH].
Qed.

Definition base64_alphabet : bytes := String.list_byte_of_string
  "ABCDEFGHIJKLMNOPQRSTUVWXYZabcdefghijklmnopqrstuvwxyz0123456789+/"%string.

Definition base64_char (v : Z) : byte := nth (Z.to_nat v) base64_alphabet pad_byte.

(** Padding counts as zero bits. *)
Definition base64_digit (c : byte) : option Z :=
  if bool_decide (c = pad_byte) then Some 0
  else match list_find (fun c' => c' = c) base64_alphabet with
       | Some (i, _) => Some (Z.of_nat i)
       | None => None
       end.

Fixpoint base64_enc (d : bytes) : bytes :=
  match d with
  | [] => []
  | [a] =>
      let a := byte_val a in
      [base64_char (a / 4); base64_char (a mod 4 * 16); pad_byte; pad_byte]
  | [a; b] =>
      let a := byte_val a in let b := byte_val b in
      [base64_char (a / 4); base64_char (a mod 4 * 16 + b / 16);
       base64_char (b mod 16 * 4); pad_byte]
  | a :: b :: c :: d =>
      let a := byte_val a in let b := byte_val b in let c := byte_val c in
      base64_char (a / 4) :: base64_char (a mod 4 * 16 + b / 16) ::
      base64_char (b mod 16 * 4 + c / 64) :: base64_char (c mod 64) :: base64_enc d
  end.

Definition base64_group (w x y z : Z) : bytes :=
  [to_byte (w * 4 + x / 16); to_byte (x mod 16 * 16 + y / 4); to_byte (y mod 4 * 64 + z)].

Fixpoint base64_dec (s : bytes) : option bytes :=
  match s with
  | [] => Some []
  | w :: x :: y :: z :: s =>
      match base64_digit w, base64_digit x, base64_digit y, base64_digit z, base64_dec s with
      | Some w, Some x, Some y, Some z, Some d => Some (base64_group w x y z ++ d)
      | _, _, _, _, _ => None
      end
  | _ => None
  end.

Lemma base64_table v : 0 <= v < 64 ->
  base64_digit (base64_char v) = Some v /\ base64_char v <> pad_byte.
Proof.
  intros Hv.
  assert (Forall (fun i => base64_digit (base64_char (Z.of_nat i)) = Some (Z.of_nat i) /\
            base64_char (Z.of_nat i) <> pad_byte) (seq 0 64)) as Hall.
  { apply (bool_decide_unpack _). vm_compute. exact I. }
  rewrite Forall_forall in Hall. specialize (Hall (Z.to_nat v)).
  rewrite Z2Nat.id in Hall by lia. apply Hall, elem_of_seq. lia.
Qed.

Lemma base64_digit_char v : 0 <= v < 64 -> base64_digit (base64_char v) = Some v.
Proof. intros Hv. apply (base64_table v Hv). Qed.

Lemma base64_group_bytes a b c :
  base64_group (byte_val a / 4) (byte_val a mod 4 * 16 + byte_val b / 16)
    (byte_val b mod 16 * 4 + byte_val c / 64) (byte_val c mod 64) = [a; b; c].
Proof.
  pose proof (byte_val_range a). pose proof (byte_val_range b). pose proof (byte_val_range c).
  assert (forall v x, v = byte_val x -> to_byte v = x) as Hb by (intros v x ->; apply to_byte_val).
  unfold base64_group. f_equal; [|f_equal; [|f_equal]]; apply Hb; divlia.
Qed.

Lemma padding_of_3 n : padding_of (S (S (S n))) = padding_of n.
Proof.
  unfold padding_of. replace (S (S (S n))) with (n + 1 * 3)%nat by lia.
  by rewrite Nat.Div0.mod_add.
Qed.

Lemma base64_dec_enc d :
  base64_dec (base64_enc d) = Some (d ++ replicate (padding_of (length d)) x00).
Proof.
  assert (base64_digit pad_byte = Some 0) as Hpad by done.
  induction d as [|a|a b|a b c d IH] using list_ind3; [done|..];
    cbn [base64_enc base64_dec].
  - pose proof (byte_val_range a).
    rewrite !base64_digit_char by divlia. rewrite Hpad.
    pose proof (base64_group_bytes a x00 x00) as E.
    change (byte_val x00) with 0 in E. change (0 mod 16 * 4 + 0 / 64) with 0 in E.
    change (0 / 16) with 0 in E. change (0 mod 64) with 0 in E.
    rewrite Z.add_0_r in E. by rewrite E.
  - pose proof (byte_val_range a). pose proof (byte_val_range b).
    rewrite !base64_digit_char by divlia. rewrite Hpad.
    pose proof (base64_group_bytes a b x00) as E.
    change (byte_val x00) with 0 in E. change (0 / 64) with 0 in E.
    change (0 mod 64) with 0 in E.
    rewrite Z.add_0_r in E. by rewrite E.
  - pose proof (byte_val_range a). pose proof (byte_val_range b). pose proof (byte_val_range c).
    rewrite !base64_digit_char by divlia. rewrite IH.
    rewrite base64_group_bytes. cbn [length].
    by rewrite padding_of_3.
Qed.

Lemma length_base64_enc d : length (base64_enc d) = (4 * ((length d + 2) / 3))%nat.
Proof.
  induction d as [|a|a b|a b c d IH] using list_ind3; [done..|].
  cbn [base64_enc length]. rewrite IH.
  replace (S (S (S (length d))) + 2)%nat with (length d + 2 + 1 * 3)%nat by lia.
  rewrite Nat.div_add; lia.
Qed.

Lemma length_base64_dec s d :
  base64_dec s = Some d -> (4 * length d = 3 * length s)%nat.
Proof.
  revert d. induction s as [s IH] using (induction_ltof1 _ (@length byte)).
  unfold ltof in IH. intros d. destruct s as [|w [|x [|y [|z s]]]]; simpl; try done.
  - by intros [= <-].
  - destruct (base64_digit w), (base64_digit x), (base64_digit y), (base64_digit z),
      (base64_dec s) as [d'|] eqn:E; try done.
    intros [= <-]. apply IH in E; [|simpl; lia]. simpl. lia.
Qed.

Lemma base64_lookup_shift a b c d i :
  d <> [] -> (i <= 2)%nat ->
  base64_enc (a :: b :: c :: d) !! (length (base64_enc (a :: b :: c :: d)) - i)%nat =
  base64_enc d !! (length (base64_enc d) - i)%nat.
Proof.
  intros Hne Hi.
  assert (4 <= length (base64_enc d))%nat as Hl.
  { destruct d as [|x [|y [|z d]]]; simpl; [done|lia..]. }
  cbn [base64_enc length].
  replace (S (S (S (S (length (base64_enc d))))) - i)%nat
    with (S (S (S (S (length (base64_enc d) - i))))) by lia.
  done.
Qed.

Lemma base64_enc_last d i :
  d <> [] -> i = 1%nat \/ i = 2%nat ->
  base64_enc d !! (length (base64_enc d) - i)%nat = Some pad_byte <->
  (i <= padding_of (length d))%nat.
Proof.
  intros Hne Hi. induction d as [|a|a b|a b c d IH] using list_ind3; [done|..].
  - split; [by destruct Hi as [-> | ->]; vm_compute; lia|].
    intros _. by destruct Hi as [-> | ->].
  - pose proof (byte_val_range b) as Hb. split.
    + destruct Hi as [-> | ->]; [by vm_compute; lia|]. simpl. intros [= Heq].
      exfalso. eapply (base64_table (byte_val b mod 16 * 4)); [divlia | exact Heq].
    + by destruct Hi as [-> | ->]; [|vm_compute; lia].
  - destruct (decide (d = [])) as [->|Hd].
    + pose proof (byte_val_range b) as Hb. pose proof (byte_val_range c) as Hc.
      split; [|by destruct Hi as [-> | ->]; vm_compute; lia].
      destruct Hi as [-> | ->]; simpl; intros [= Heq]; exfalso.
      * eapply (base64_table (byte_val c mod 64)); [divlia | exact Heq].
      * eapply (base64_table (byte_val b mod 16 * 4 + byte_val c / 64)); [divlia | exact Heq].
    + rewrite base64_lookup_shift by (done || lia). cbn [length].
      rewrite padding_of_3. by apply IH.
Qed.

(** A keyed checksum of 32 bytes that begins with a given byte. *)
Definition toy_mac (first : byte) (key data : bytes) : bytes :=
  first :: replicate 31
    (to_byte (fold_left (fun acc b => 31 * acc + byte_val b) (key ++ data) 7)).

Definition toy_ssl (first : byte) : OpenSSL := {|
  HMAC_SHA256 := toy_mac first;
  EVP_MAC_HMAC dg key data :=
    Some (match dg with
          | SHA1_digest => take 20 (toy_mac first key data)
          | SHA256_digest => toy_mac first key data
          end);
  EVP_EncodeBlock := base64_enc;
  EVP_DecodeBlock := base64_dec
|}.

Lemma toy_ssl_laws first : OpenSSLLaws (toy_ssl first).
Proof.
  assert (forall d : bytes, padding_of (length d) <= 2)%nat as Hpad.
  { intros d. unfold padding_of. pose proof (Nat.mod_upper_bound (3 - length d mod 3) 3). lia. }
  split.
  - done.
  - exact length_base64_enc.
  - exact base64_dec_enc.
  - intros d Hd. etrans; [exact (base64_enc_last d 1 Hd (or_introl eq_refl)) | lia].
  - intros d Hd. etrans; [exact (base64_enc_last d 2 Hd (or_intror eq_refl))|].
    specialize (Hpad d). lia.
  - intros b d Hd%length_base64_dec. apply Nat.div_le_lower_bound; lia.
  - intros b d Hd%length_base64_dec Hb. destruct b as [|c b]; [by destruct Hb|].
    cbn [length] in Hd. lia.
Qed.
