(* ===== verification/Stunxx.v ===== *)
(** * Interface of libstunxx

    The message codec is a git submodule of the repository.  Its enumerations
    are the constructors the server names (and one for the values it does
    not); decoding and encoding are a class.  A message under construction is
    the sequence of the builder's [add] calls.  No definition of this file
    models code of the repository. *)

From Stdlib Require Import ZArith Lia Strings.Byte.
From stdpp Require Import base gmap list.
From S2P Require Import Prelude.

Inductive StunClass : Type := Request | Indication | SuccessResp | ErrorResp.

Inductive StunMethod : Type :=
| Binding | Allocate | Refresh | Send | Data | CreatePermission | ChannelBind
| other_method (value : Z).

Inductive StunErrorCode : Type :=
| BadRequest | Unauthenticated | StaleNonce | AllocationMismatch
| UnsupportedTransport | UnknownAttribute | InsufficientCapacity
| AddressFamNotSupported.

Inductive AddressFamily : Type := IPv4 | IPv6 | other_family (value : Z).

Inductive PasswordAlgorithm : Type := MD5 | SHA256 | other_algorithm (value : Z).

#[export] Instance StunErrorCode_eq_dec : EqDecision StunErrorCode.
Proof. solve_decision. Defined.
#[export] Instance StunClass_eq_dec : EqDecision StunClass.
Proof. solve_decision. Defined.
#[export] Instance StunMethod_eq_dec : EqDecision StunMethod.
Proof. solve_decision. Defined.
#[export] Instance AddressFamily_eq_dec : EqDecision AddressFamily.
Proof. solve_decision. Defined.
#[export] Instance PasswordAlgorithm_eq_dec : EqDecision PasswordAlgorithm.
Proof. solve_decision. Defined.

Record PasswordAlgorithmEntry : Type := {
  algorithm : PasswordAlgorithm;
  parameters : bytes
}.

(** [StunAddress::ipv4(port, bytes)] and [ipv6]. *)
Inductive StunAddress : Type :=
| stun_ipv4 (port : Z) (b : bytes)
| stun_ipv6 (port : Z) (b : bytes).

(** XOR-PEER-ADDRESS, with its accessors as fields. *)
Record XorPeerAddrAttr : Type := {
  xpa_family : AddressFamily;
  xpa_address : bytes;
  xpa_port : Z;
  xpa_addressStr : bytes
}.

(** The attributes the server adds to messages. *)
Inductive StunAttr : Type :=
| XorMappedAddr (a : StunAddress)
| XorRelayedAddr (a : StunAddress)
| XorPeerAddr (a : StunAddress)
| Software (s : bytes)
| Lifetime (n : Z)
| ErrorCode (ec : StunErrorCode)
| Realm (s : bytes)
| Nonce (s : bytes)
| PasswordAlgorithms (l : list PasswordAlgorithmEntry)
| AddressErrorCode (f : AddressFamily) (ec : StunErrorCode)
| ReservationTokenAttr (t : bytes)
| DataAttr (d : bytes)
| MessageIntegritySHA1 (key : bytes)
| MessageIntegritySHA256 (key : bytes).

#[export] Instance PasswordAlgorithmEntry_eq_dec : EqDecision PasswordAlgorithmEntry.
Proof. solve_decision. Defined.
#[export] Instance StunAddress_eq_dec : EqDecision StunAddress.
Proof. solve_decision. Defined.
#[export] Instance StunAttr_eq_dec : EqDecision StunAttr.
Proof. solve_decision. Defined.

#[export] Instance XorPeerAddrAttr_eq_dec : EqDecision XorPeerAddrAttr.
Proof. solve_decision. Defined.

(** What a [StunMessageBuilder] was constructed with and was given. *)
Record StunMessage : Type := {
  sm_method : StunMethod;
  sm_class : StunClass;
  sm_transaction : bytes;
  sm_attrs : list StunAttr
}.

Definition StunMessageBuilder (m : StunMethod) (c : StunClass) (tid : bytes) : StunMessage :=
  {| sm_method := m; sm_class := c; sm_transaction := tid; sm_attrs := [] |}.

Definition add (a : StunAttr) (b : StunMessage) : StunMessage :=
  {| sm_method := sm_method b; sm_class := sm_class b;
     sm_transaction := sm_transaction b; sm_attrs := sm_attrs b ++ [a] |}.

(** A decoded ChannelData packet. *)
Record ChannelData : Type := {
  channel : Z;
  channel_payload : bytes
}.

Class Stunxx := {
  (** constants of the library *)
  STUN_HEADER_SIZE : nat;
  ATTR_HEADER_SIZE : nat;
  STUN_TRANSACTION_ID_SIZE : nat;
  (** the bytes in memory of [host_to_be16(v)] *)
  host_to_be16 : Z -> bytes;

  (** demultiplexing and decoding *)
  is_turn_channel_data : bytes -> bool;
  is_stun_message : bytes -> bool;
  Decoder : Type;
  Decoder_parse : bytes -> option Decoder;
  messageClass : Decoder -> StunClass;
  messageMethod : Decoder -> StunMethod;
  transactionId : Decoder -> bytes;
  getBuffer : Decoder -> bytes;
  (** [getAttributeHeader(MessageIntegrity)->offset] and the same of
      [MessageIntegritySHA256] *)
  mi_sha1_offset : Decoder -> option nat;
  mi_sha256_offset : Decoder -> option nat;
  (** [getAttribute<A>()], as the value the server reads off it *)
  get_mi_sha1 : Decoder -> option bytes;
  get_mi_sha256 : Decoder -> option bytes;
  get_username : Decoder -> option bytes;
  get_realm : Decoder -> option bytes;
  get_nonce : Decoder -> option bytes;
  get_password_algorithm : Decoder -> option PasswordAlgorithm;
  get_password_algorithms : Decoder -> option (list PasswordAlgorithmEntry);
  get_requested_transport : Decoder -> option Z;
  get_dont_fragment : Decoder -> option unit;
  get_reservation_token : Decoder -> option bytes;
  get_even_port : Decoder -> option bool;
  get_requested_family : Decoder -> option AddressFamily;
  get_additional_family : Decoder -> option AddressFamily;
  get_lifetime : Decoder -> option Z;
  get_xor_peer : Decoder -> option XorPeerAddrAttr;
  get_xor_peers : Decoder -> list XorPeerAddrAttr;
  get_channel_number : Decoder -> option Z;
  get_data : Decoder -> option bytes;
  (** [PasswordAlgorithmsAttr::contains] *)
  algorithms_contain : list PasswordAlgorithmEntry -> PasswordAlgorithm -> bool;
  (** [DataAttr::encode]: what it writes, [None] when it fails *)
  data_encode : bytes -> option bytes;

  (** ChannelData *)
  ChannelData_decode : bytes -> option ChannelData;
  ChannelData_encodeData : ChannelData -> option bytes;
  ChannelData_payloadLength : ChannelData -> Z;
  ChannelData_encode : ChannelData -> option bytes;
  ChannelData_totalSize : ChannelData -> Z;

  (** encoding: the bytes a finished builder has written into its buffer,
      the size it reports, and whether it is valid *)
  encode : StunMessage -> bytes;
  totalSize : StunMessage -> Z;
  builder_valid : StunMessage -> bool;

  (** long-term keys *)
  computeSHA256Key : bytes -> bytes -> bytes -> bytes;
  computeMD5Key : bytes -> bytes -> bytes -> bytes
}.

(** What RFC 8489 says of the format and the server relies on. *)
Class StunxxLaws (sx : Stunxx) : Prop := {
  STUN_HEADER_SIZE_is : STUN_HEADER_SIZE = 20%nat;
  ATTR_HEADER_SIZE_is : ATTR_HEADER_SIZE = 4%nat;
  STUN_TRANSACTION_ID_SIZE_is : STUN_TRANSACTION_ID_SIZE = 12%nat;
  host_to_be16_bytes : forall v, is_u16 v ->
    host_to_be16 v = [to_byte (v / 256); to_byte v];
  length_transactionId : forall d, length (transactionId d) = 12%nat;
  (** a message is a header, with the transaction id in its bytes 8 to 20,
      followed by its attributes, and fits the buffer *)
  encode_length : forall m, 20 <= Z.of_nat (length (encode m)) <= 2048;
  encode_totalSize : forall m, totalSize m = Z.of_nat (length (encode m));
  length_computeMD5Key : forall u r p, length (computeMD5Key u r p) = 16%nat;
  length_computeSHA256Key : forall u r p, length (computeSHA256Key u r p) = 32%nat;
  encode_transaction : forall m, length (sm_transaction m) = 12%nat ->
    take 12 (drop 8 (encode m)) = sm_transaction m
}.

(** ** An instance *)

(** A decoded message as the record of what its accessors answer. *)
Record plain_decoder : Type := {
  pd_class : StunClass;
  pd_method : StunMethod;
  pd_transaction : bytes;
  pd_buffer : bytes;
  pd_mi_sha1 : option (nat * bytes);
  pd_username : option bytes;
  pd_realm : option bytes;
  pd_nonce : option bytes;
  pd_transport : option Z;
  pd_even_port : option bool;
  pd_requested_family : option AddressFamily;
  pd_reservation : option bytes;
  pd_lifetime : option Z;
  pd_peers : list XorPeerAddrAttr;
  pd_channel : option Z;
  pd_data : option bytes
}.

Definition be16 (z : Z) : bytes := [to_byte (z / 256); to_byte z].

Definition be16_value (b1 b2 : byte) : Z := byte_val b1 * 256 + byte_val b2.

(** ChannelData as RFC 8656 lays it out: number, length, payload. *)
Definition plain_channel_decode (b : bytes) : option ChannelData :=
  match b with
  | c1 :: c2 :: l1 :: l2 :: rest =>
      let c := be16_value c1 c2 in
      let n := Z.to_nat (be16_value l1 l2) in
      if (0x4000 <=? c) && (c <=? 0x7fff) && (n <=? length rest)%nat then
        Some {| channel := c; channel_payload := take n rest |}
      else None
  | _ => None
  end.

(** Twelve bytes, whatever is given. *)
Definition twelve (b : bytes) : bytes := take 12 (b ++ replicate 12 x00).

(** A codec that decodes with a given parser and encodes the header only. *)
Definition plain_stunxx (parse : bytes -> option plain_decoder) : Stunxx := {|
  STUN_HEADER_SIZE := 20;
  ATTR_HEADER_SIZE := 4;
  STUN_TRANSACTION_ID_SIZE := 12;
  host_to_be16 := be16;
  is_turn_channel_data b :=
    if b is c :: _ then (64 <=? byte_val c) && (byte_val c <=? 79) else false;
  is_stun_message b := if b is c :: _ then byte_val c <=? 3 else false;
  Decoder := plain_decoder;
  Decoder_parse := parse;
  messageClass := pd_class;
  messageMethod := pd_method;
  transactionId d := twelve (pd_transaction d);
  getBuffer := pd_buffer;
  mi_sha1_offset d := fst <$> pd_mi_sha1 d;
  mi_sha256_offset _ := None;
  get_mi_sha1 d := snd <$> pd_mi_sha1 d;
  get_mi_sha256 _ := None;
  get_username := pd_username;
  get_realm := pd_realm;
  get_nonce := pd_nonce;
  get_password_algorithm _ := None;
  get_password_algorithms _ := None;
  get_requested_transport := pd_transport;
  get_dont_fragment _ := None;
  get_reservation_token := pd_reservation;
  get_even_port := pd_even_port;
  get_requested_family := pd_requested_family;
  get_additional_family _ := None;
  get_lifetime := pd_lifetime;
  get_xor_peer d := head (pd_peers d);
  get_xor_peers := pd_peers;
  get_channel_number := pd_channel;
  get_data := pd_data;
  algorithms_contain l a := existsb (fun e => bool_decide (algorithm e = a)) l;
  data_encode d := if (length d <=? 2048)%nat then Some d else None;
  ChannelData_decode := plain_channel_decode;
  ChannelData_encodeData c := Some (channel_payload c);
  ChannelData_payloadLength c := Z.of_nat (length (channel_payload c));
  ChannelData_encode c :=
    Some (be16 (channel c) ++ be16 (Z.of_nat (length (channel_payload c))) ++ channel_payload c);
  ChannelData_totalSize c := 4 + Z.of_nat (length (channel_payload c));
  encode m := replicate 8 x00 ++ twelve (sm_transaction m);
  totalSize _ := 20;
  builder_valid _ := true;
  computeSHA256Key u r p := take 32 (u ++ r ++ p ++ replicate 32 x00);
  computeMD5Key u r p := take 16 (u ++ r ++ p ++ replicate 16 x00)
|}.

Lemma length_twelve b : length (twelve b) = 12%nat.
Proof. unfold twelve. rewrite length_take, length_app, length_replicate. lia. Qed.

Lemma plain_stunxx_laws parse : StunxxLaws (plain_stunxx parse).
Proof.
  split; try done.
  - intros d. apply length_twelve.
  - intros m. cbn [encode plain_stunxx].
    rewrite length_app, length_twelve, length_replicate. lia.
  - intros m. cbn [encode totalSize plain_stunxx].
    by rewrite length_app, length_twelve, length_replicate.
  - intros u r p. cbn [computeMD5Key plain_stunxx].
    rewrite length_take, !length_app, length_replicate. lia.
  - intros u r p. cbn [computeSHA256Key plain_stunxx].
    rewrite length_take, !length_app, length_replicate. lia.
  - intros m Hm. cbn [encode plain_stunxx].
    rewrite drop_app_length' by done. unfold twelve.
    rewrite take_take, take_app_le by lia. by rewrite take_ge by lia.
Qed.
