(* ===== verification/AuthKey.v ===== *)
(** * Keys: server/auth/AuthKey

    A long-term key with the algorithm it was derived with, in an array of
    32 bytes of which the first [key_len_] are in use. *)

From Stdlib Require Import ZArith Lia Strings.Byte.
From stdpp Require Import base gmap list strings.
From S2P Require Import Prelude Stunxx.

Record AuthKey : Type := {
  algorithm_ : PasswordAlgorithm;
  key_ : bytes;
  key_len_ : nat
}.

(** The private constructor copies the key over an array of zeros; a key
    longer than the array would be written past its end. *)
Definition make (alg : PasswordAlgorithm) (key : bytes) : result AuthKey :=
  if (32 <? length key)%nat then Err (undefined_behaviour "copy past the end of key_")
  else Ok {| algorithm_ := alg;
             key_ := memcpy (replicate 32 x00) key;
             key_len_ := length key |}.

Definition kMd5Len : nat := 16.
Definition kSha256Len : nat := 32.

(** [md5] and [sha256]; the length is asserted in debug builds only. *)
Definition md5 (key : bytes) : result AuthKey := make MD5 key.
Definition sha256 (key : bytes) : result AuthKey := make SHA256 key.

Definition span (k : AuthKey) : bytes := take (key_len_ k) (key_ k).

(** The key that goes in is the span that comes out. *)
Lemma make_span alg key k :
  make alg key = Ok k -> span k = key /\ algorithm_ k = alg /\ length (key_ k) = 32%nat.
Proof.
  unfold make. destruct (Nat.ltb_spec 32 (length key)); [done|]. intros [= <-].
  unfold span; cbn [key_ key_len_ algorithm_]. split; [apply take_memcpy|]. split; [done|].
  apply (length_memcpy (replicate 32 x00)). cbn. lia.
Qed.

Lemma make_Ok alg key : (length key <= 32)%nat -> exists k, make alg key = Ok k.
Proof. intros Hl. unfold make. rewrite (proj2 (Nat.ltb_ge _ _)) by lia. by eexists. Qed.
