(* ===== verification/Authenticator.v ===== *)
(** * Authentication: server/auth/Authenticator

    Nonces that carry their expiry under a keyed hash, the integrity check of
    a request, and the checks of the password algorithm attributes. *)

From Stdlib Require Import ZArith Lia Strings.Byte.
From stdpp Require Import base gmap list strings.
From S2P Require Import Prelude OpenSSL Stunxx Config.

(** ** Decimal numbers

    [std::to_string] and [std::from_chars] on 64-bit integers. *)

Definition is_digit (b : byte) : bool := (48 <=? byte_val b) && (byte_val b <=? 57).

Definition digit (d : Z) : byte := to_byte (48 + d).

(** The digits of [n >= 0]; [fuel] at least the number of digits. *)
Fixpoint decimal (fuel : nat) (n : Z) : bytes :=
  match fuel with
  | O => []
  | S fuel => if n <? 10 then [digit n] else decimal fuel (n / 10) ++ [digit (n mod 10)]
  end.

Definition decimal_fuel (n : Z) : nat := S (Z.to_nat (Z.log2 n)).

Definition to_string (n : Z) : bytes :=
  if n <? 0 then x2d :: decimal (decimal_fuel (- n)) (- n)
  else decimal (decimal_fuel n) n.

Definition decimal_value (ds : bytes) : Z :=
  fold_left (fun acc d => 10 * acc + (byte_val d - 48)) ds 0.

(** [std::from_chars] into a [std::int64_t], on a non-empty string of digits;
    [None] is [std::errc::result_out_of_range]. *)
Definition from_chars (ds : bytes) : option Z :=
  let v := decimal_value ds in
  if int64_max <? v then None else Some v.

(** [std::find_if_not(raw.begin(), raw.end(), isdigit)], as the part before
    the iterator and the part from it on. *)
Fixpoint split_digits (raw : bytes) : bytes * bytes :=
  match raw with
  | [] => ([], [])
  | b :: raw' =>
      if is_digit b then let '(ds, rest) := split_digits raw' in (b :: ds, rest)
      else ([], raw)
  end.

Lemma is_digit_digit d : 0 <= d < 10 -> is_digit (digit d) = true.
Proof.
  intros Hd. unfold is_digit, digit. rewrite byte_val_to_byte by lia.
  apply andb_true_iff. split; apply Z.leb_le; lia.
Qed.

Lemma digit_value d : 0 <= d < 10 -> byte_val (digit d) - 48 = d.
Proof. intros Hd. unfold digit. rewrite byte_val_to_byte; lia. Qed.

Lemma decimal_value_snoc ds d :
  decimal_value (ds ++ [d]) = 10 * decimal_value ds + (byte_val d - 48).
Proof. unfold decimal_value. by rewrite fold_left_app. Qed.

Lemma decimal_spec fuel n :
  0 <= n < 10 ^ Z.of_nat fuel ->
  decimal_value (decimal fuel n) = n /\ Forall (fun b => is_digit b = true) (decimal fuel n) /\
  (n < 10 ^ Z.of_nat (length (decimal fuel n))) /\ (fuel <> 0%nat -> decimal fuel n <> []).
Proof.
  revert n. induction fuel as [|fuel IH]; intros n Hn.
  - simpl in *. assert (n = 0) as -> by lia. by split_and!.
  - rewrite Nat2Z.inj_succ, Z.pow_succ_r in Hn by lia. cbn [decimal].
    destruct (Z.ltb_spec n 10) as [Hlt|Hge].
    + split_and!; [|apply Forall_singleton, is_digit_digit; lia| |done].
      * unfold decimal_value; simpl. rewrite digit_value; lia.
      * simpl. change (10 ^ 1) with 10. lia.
    + assert (0 <= n / 10 < 10 ^ Z.of_nat fuel) as Hq by divlia.
      assert (0 <= n mod 10 < 10) as Hm by (apply Z.mod_pos_bound; lia).
      destruct (IH _ Hq) as (Hv & Hd & Hl & _). split_and!.
      * rewrite decimal_value_snoc, Hv, digit_value by done. divlia.
      * apply Forall_app. split; [done|].
        by apply Forall_singleton, is_digit_digit.
      * rewrite length_app, Nat2Z.inj_add, Z.pow_add_r by lia. simpl.
        change (10 ^ 1) with 10. divlia.
      * intros _. by destruct (decimal fuel (n / 10)).
Qed.

Lemma decimal_fuel_enough n : 0 <= n -> n < 10 ^ Z.of_nat (decimal_fuel n).
Proof.
  intros Hn. unfold decimal_fuel.
  rewrite Nat2Z.inj_succ, Z2Nat.id by apply Z.log2_nonneg.
  destruct (Z.eq_dec n 0) as [->|Hne]; [done|].
  pose proof (Z.log2_spec n). 
  assert (2 ^ Z.succ (Z.log2 n) <= 10 ^ Z.succ (Z.log2 n)).
  { apply Z.pow_le_mono_l. lia. }
  lia.
Qed.

Lemma to_string_spec n :
  0 <= n ->
  decimal_value (to_string n) = n /\ Forall (fun b => is_digit b = true) (to_string n) /\
  n < 10 ^ Z.of_nat (length (to_string n)) /\ to_string n <> [].
Proof.
  intros Hn. unfold to_string. rewrite (proj2 (Z.ltb_ge n 0)) by done.
  destruct (decimal_spec (decimal_fuel n) n) as (? & ? & ? & Hne).
  - split; [done | by apply decimal_fuel_enough].
  - split_and!; try done. by apply Hne.
Qed.

Lemma from_chars_to_string n : 0 <= n <= int64_max -> from_chars (to_string n) = Some n.
Proof.
  intros Hn. unfold from_chars. destruct (to_string_spec n) as (-> & _); [lia|].
  by rewrite (proj2 (Z.ltb_ge _ _)) by lia.
Qed.

Lemma split_digits_app raw ds rest : split_digits raw = (ds, rest) -> raw = ds ++ rest.
Proof.
  revert ds rest. induction raw as [|b raw IH]; simpl; intros ds rest.
  - by intros [= <- <-].
  - destruct (is_digit b); [|by intros [= <- <-]].
    destruct (split_digits raw) as [ds' rest']. intros [= <- <-]. simpl.
    f_equal. by apply IH.
Qed.

Lemma split_digits_digits ds raw :
  Forall (fun b => is_digit b = true) ds ->
  split_digits (ds ++ raw) = (ds ++ (split_digits raw).1, (split_digits raw).2).
Proof.
  induction 1 as [|b ds Hb _ IH]; simpl; [by destruct (split_digits raw)|].
  by rewrite Hb, IH.
Qed.

(** ** Base64 *)

Section Base64.
Context {ssl : OpenSSL}.

(** [base64Encode]: the string has room for the characters of
    [EVP_EncodeBlock], which overwrite it from the front. *)
Definition base64Encode (data : bytes) : bytes :=
  match data with
  | [] => []
  | _ =>
      let encoded_len := ((length data + 2) / 3 * 4)%nat in
      memcpy (replicate encoded_len x00) (EVP_EncodeBlock data)
  end.

(** How many of the last two characters are padding. *)
Definition count_padding (b64 : bytes) : nat :=
  if (2 <=? length b64)%nat then
    ((if bool_decide (b64 !! (length b64 - 1)%nat = Some pad_byte) then 1 else 0) +
     (if bool_decide (b64 !! (length b64 - 2)%nat = Some pad_byte) then 1 else 0))%nat
  else 0%nat.

(** [base64Decode].  A decoded length below the padding would wrap to a
    huge one, and [resize] would throw. *)
Definition base64Decode (b64 : bytes) : result bytes :=
  match b64 with
  | [] => Ok []
  | _ =>
      let estimated_len := (length b64 * 3 / 4)%nat in
      match EVP_DecodeBlock b64 with
      | None => Ok []
      | Some written =>
          if (estimated_len <? length written)%nat then Ok []
          else
            let out := memcpy (replicate estimated_len x00) written in
            let padding := count_padding b64 in
            if (length written <? padding)%nat then
              Err (runtime_error "vector::resize")
            else Ok (take (length written - padding) out)
      end
  end.

Context {laws : OpenSSLLaws ssl}.

Lemma base64Encode_EVP data : data <> [] -> base64Encode data = EVP_EncodeBlock data.
Proof.
  intros Hne. unfold base64Encode. destruct data as [|b data]; [done|].
  unfold memcpy. rewrite drop_ge, app_nil_r; [done|].
  rewrite length_replicate, length_EVP_EncodeBlock. lia.
Qed.

Lemma length_base64Encode data :
  length (base64Encode data) = (4 * ((length data + 2) / 3))%nat.
Proof.
  destruct (decide (data = [])) as [->|Hne]; [done|].
  by rewrite base64Encode_EVP, length_EVP_EncodeBlock.
Qed.

Lemma padding_of_cases n :
  padding_of n = 0%nat \/ padding_of n = 1%nat \/ padding_of n = 2%nat.
Proof.
  unfold padding_of. pose proof (Nat.mod_upper_bound (3 - n mod 3) 3). lia.
Qed.

Lemma count_padding_encode data :
  data <> [] -> count_padding (EVP_EncodeBlock data) = padding_of (length data).
Proof.
  intros Hne. unfold count_padding.
  assert (4 <= length (EVP_EncodeBlock data))%nat as Hlen.
  { rewrite length_EVP_EncodeBlock. destruct data as [|b data]; [done|]. simpl length.
    assert (1 <= (S (length data) + 2) / 3)%nat by (apply Nat.div_le_lower_bound; lia).
    lia. }
  rewrite (proj2 (Nat.leb_le 2 _)) by lia.
  pose proof (EVP_EncodeBlock_last data Hne) as H1.
  pose proof (EVP_EncodeBlock_second_last data Hne) as H2.
  pose proof (padding_of_cases (length data)) as Hc.
  do 2 case_bool_decide; intuition lia.
Qed.

Lemma base64Decode_ok b64 : exists d, base64Decode b64 = Ok d.
Proof.
  unfold base64Decode. destruct b64 as [|c b64]; [by eexists|].
  set (b := c :: b64). destruct (EVP_DecodeBlock b) as [w|] eqn:E; [|by eexists].
  destruct (_ <? _)%nat; [by eexists|].
  destruct (Nat.ltb_spec (length w) (count_padding b)) as [Hlt|]; [exfalso|by eexists].
  revert Hlt. unfold count_padding. destruct (2 <=? length b)%nat; [|lia].
  pose proof (EVP_DecodeBlock_padded b w E). do 2 case_bool_decide; intuition lia.
Qed.

Lemma base64_roundtrip_EVP data :
  data <> [] -> base64Decode (EVP_EncodeBlock data) = Ok data.
Proof.
  intros Hne. pose proof (count_padding_encode data Hne) as Hp.
  pose proof (EVP_DecodeBlock_EncodeBlock data) as Hd.
  pose proof (length_EVP_DecodeBlock _ _ Hd) as Hl.
  unfold base64Decode. destruct (EVP_EncodeBlock data) as [|c e] eqn:Ee.
  - exfalso. apply (f_equal length) in Ee. rewrite length_EVP_EncodeBlock in Ee.
    destruct data as [|b data]; [done|]. simpl length in Ee.
    assert (1 <= (S (length data) + 2) / 3)%nat by (apply Nat.div_le_lower_bound; lia).
    lia.
  - rewrite Hd, Hp. rewrite length_app, length_replicate in *.
    rewrite (proj2 (Nat.ltb_ge _ _)) by lia. rewrite (proj2 (Nat.ltb_ge _ _)) by lia.
    f_equal. replace (_ + padding_of _ - _)%nat with (length data) by lia.
    unfold memcpy. rewrite take_app_le by (rewrite length_app; lia).
    by rewrite take_app_length.
Qed.
End Base64.

(** ** The authenticator *)

Definition cookie : bytes := to_bytes "obMatJos2".

(** [supportedAlgorithms] *)
Definition supportedAlgorithms : list PasswordAlgorithmEntry :=
  [{| algorithm := SHA256; parameters := [] |};
   {| algorithm := MD5; parameters := [] |}].

(** [std::ranges::equal] with a predicate. *)
Fixpoint ranges_equal {A B} (p : A -> B -> bool) (l : list A) (l' : list B) : bool :=
  match l, l' with
  | [], [] => true
  | a :: l, b :: l' => p a b && ranges_equal p l l'
  | _, _ => false
  end.

Definition validatePasswordAlgorithms (entries : list PasswordAlgorithmEntry) : bool :=
  if negb (bool_decide (length entries = length supportedAlgorithms)) then false
  else
    ranges_equal
      (fun a b => bool_decide (algorithm a = algorithm b) &&
                  bool_decide (parameters a = parameters b))
      entries supportedAlgorithms.

Section Authenticator.
Context {ssl : OpenSSL}.

Record Authenticator : Type := {
  secret_key : bytes;
  config_ : Config
}.

(** The constructor; [random] is what [RAND_bytes] wrote, if it succeeded. *)
Definition make (random : option bytes) (config : Config) : result Authenticator :=
  match random with
  | Some key => Ok {| secret_key := key; config_ := config |}
  | None => Err (runtime_error "Failed to generate secure secret key")
  end.

Definition getPassword (username : bytes) (a : Authenticator) : option bytes :=
  users (auth (config_ a)) !! username.

(** [now] is [currentUnixTS()]. *)
Definition generateNonce (now : Z) (expiration_ts : Z) (a : Authenticator) : bytes :=
  let expiration_ts := if expiration_ts =? 0 then now + 3600 else expiration_ts in
  let expiration_str := to_string expiration_ts in
  let hmac := HMAC_SHA256 (secret_key a) expiration_str in
  let raw_nonce := expiration_str ++ hmac in
  let security_features := [x80; x00; x00] in
  cookie ++ base64Encode security_features ++ base64Encode raw_nonce.

Definition COOKIE_LEN : nat := 13.
Definition MIN_SIZE : nat := 10 + 32.

Definition validateNonce (now : Z) (nonce : bytes) (a : Authenticator) : result bool :=
  if (length nonce <=? COOKIE_LEN)%nat then Ok false
  else
    match base64Decode (drop COOKIE_LEN nonce) with
    | Err e => Err e
    | Ok raw =>
        if (length raw <? MIN_SIZE)%nat then Ok false
        else
          let '(expiration_sv, hmac_given) := split_digits raw in
          if bool_decide (expiration_sv = []) then Ok false
          else
            match from_chars expiration_sv with
            | None => Ok false
            | Some expiration_ts =>
                if expiration_ts <? now then Ok false
                else
                  let hmac_expected := HMAC_SHA256 (secret_key a) expiration_sv in
                  if negb (bool_decide (length hmac_given = length hmac_expected))
                  then Ok false
                  else Ok (bool_decide (hmac_given = hmac_expected))
            end
    end.

Definition hasPasswordAlgorithmsBit (nonce : bytes) : result bool :=
  if negb (bool_decide (take (length cookie) nonce = cookie)) then Ok false
  else
    match base64Decode (take 4 (drop (length cookie) nonce)) with
    | Err e => Err e
    | Ok decoded =>
        if (length decoded <? 3)%nat then Ok false
        else
          match decoded with
          | b :: _ => Ok (negb (Z.land (byte_val b) 128 =? 0))
          | [] => Ok false
          end
    end.

Context {sx : Stunxx}.

(** The header that is hashed: its bytes 2 and 3 hold the length the
    message has up to and with the integrity attribute, a [std::size_t]
    difference cut to 16 bits. *)
Definition corrected_header (messageUpToMI receivedHmac : bytes) : bytes :=
  let header := take STUN_HEADER_SIZE messageUpToMI in
  let corrected_len :=
    u16 (u64 (Z.of_nat (length messageUpToMI) - Z.of_nat STUN_HEADER_SIZE +
              Z.of_nat ATTR_HEADER_SIZE + Z.of_nat (length receivedHmac))) in
  take 2 header ++ memcpy (drop 2 header) (host_to_be16 corrected_len).

(** [validateMessageIntegrity]; it reads [STUN_HEADER_SIZE] bytes of the
    span without a check. *)
Definition validateMessageIntegrity (messageUpToMI receivedHmac key : bytes)
    (useSha256 : bool) : result bool :=
  if (length messageUpToMI <? STUN_HEADER_SIZE)%nat then
    Err (undefined_behaviour "read past the end of messageUpToMI")
  else
    let header := corrected_header messageUpToMI receivedHmac in
    match EVP_MAC_HMAC (if useSha256 then SHA256_digest else SHA1_digest) key
            (header ++ drop STUN_HEADER_SIZE messageUpToMI) with
    | None => Ok false
    | Some computed_hmac =>
        if negb (bool_decide (length computed_hmac = length receivedHmac)) then Ok false
        else Ok (bool_decide (receivedHmac = computed_hmac))
    end.
End Authenticator.

(** ** Properties *)

Lemma ranges_equal_spec {A} (p : A -> A -> bool) (l l' : list A) :
  (forall a b, p a b = true <-> a = b) -> ranges_equal p l l' = true <-> l = l'.
Proof.
  intros Hp. revert l'. induction l as [|a l IH]; intros [|b l']; simpl; try done.
  rewrite andb_true_iff, Hp, IH. split; [by intros [-> ->] | by intros [= -> ->]].
Qed.

(** The password algorithms a client echoes are accepted exactly when
    they are the advertised ones, in the advertised order, without
    parameters. *)
Lemma validatePasswordAlgorithms_exact (entries : list PasswordAlgorithmEntry) :
  validatePasswordAlgorithms entries = true <-> entries = supportedAlgorithms.
Proof.
  unfold validatePasswordAlgorithms. case_bool_decide as Hl; simpl negb; cbn iota.
  - apply ranges_equal_spec. intros [a pa] [b pb]; simpl.
    rewrite andb_true_iff, !bool_decide_eq_true.
    split; [by intros [-> ->] | by intros [= -> ->]].
  - split; [done|]. by intros ->.
Qed.

Section properties.
Context {ssl : OpenSSL} {laws : OpenSSLLaws ssl}.
Implicit Types (a : Authenticator).

(** Base64 round trip: decoding what was encoded gives the data back. *)
Lemma base64_roundtrip (data : bytes) : base64Decode (base64Encode data) = Ok data.
Proof.
  destruct (decide (data = [])) as [->|Hne]; [done|].
  rewrite base64Encode_EVP by done. by apply base64_roundtrip_EVP.
Qed.

(** Neither check of a nonce throws. *)
Lemma hasPasswordAlgorithmsBit_ok nonce : exists b, hasPasswordAlgorithmsBit nonce = Ok b.
Proof.
  unfold hasPasswordAlgorithmsBit. destruct (negb _); [by eexists|].
  destruct (base64Decode_ok (take 4 (drop (length cookie) nonce))) as [d ->].
  destruct (_ <? _)%nat; [by eexists|]. destruct d; by eexists.
Qed.

Lemma validateNonce_ok now nonce a : exists b, validateNonce now nonce a = Ok b.
Proof.
  unfold validateNonce. destruct (_ <=? _)%nat; [by eexists|].
  destruct (base64Decode_ok (drop COOKIE_LEN nonce)) as [d ->].
  destruct (_ <? _)%nat; [by eexists|]. destruct (split_digits d) as [ds given].
  case_bool_decide; [by eexists|]. destruct (from_chars ds); [|by eexists].
  destruct (_ <? _); [by eexists|]. destruct (negb _); by eexists.
Qed.

(** On a message that has a header, the integrity check reads inside it. *)
Lemma validateMessageIntegrity_ok {sx : Stunxx} {sxl : StunxxLaws sx} m hmac key sha256 :
  (20 <= length m)%nat -> exists b, validateMessageIntegrity m hmac key sha256 = Ok b.
Proof.
  intros Hl. unfold validateMessageIntegrity. rewrite STUN_HEADER_SIZE_is.
  rewrite (proj2 (Nat.ltb_ge _ _)) by lia.
  destruct (EVP_MAC_HMAC _ _ _); [|by eexists]. destruct (negb _); by eexists.
Qed.

(** What it accepts has the keyed hash it came with. *)
Lemma validateMessageIntegrity_true {sx : Stunxx} m hmac key (sha256 : bool) :
  validateMessageIntegrity m hmac key sha256 = Ok true ->
  EVP_MAC_HMAC (if sha256 then SHA256_digest else SHA1_digest) key
    (corrected_header m hmac ++ drop STUN_HEADER_SIZE m) = Some hmac.
Proof.
  unfold validateMessageIntegrity. destruct (_ <? _)%nat; [done|].
  destruct (EVP_MAC_HMAC _ _ _) as [mac|]; [|done]. destruct (negb _); [done|].
  intros [= Heq]. apply bool_decide_eq_true in Heq. by subst.
Qed.

Lemma split_digits_nil raw : (split_digits raw).1 = [] <->
  match raw with b :: _ => is_digit b = false | [] => True end.
Proof.
  destruct raw as [|b raw]; simpl; [done|].
  destruct (is_digit b); [|done]. by destruct (split_digits raw).
Qed.

Lemma split_digits_length raw :
  (length (split_digits raw).1 + length (split_digits raw).2 = length raw)%nat.
Proof.
  destruct (split_digits raw) as [ds rest] eqn:E. apply split_digits_app in E.
  subst raw. simpl. by rewrite length_app.
Qed.

(** The first thirteen characters of a nonce of ours are the cookie and the
    security features. *)
Lemma drop_cookie raw : drop COOKIE_LEN
  (cookie ++ base64Encode [x80; x00; x00] ++ base64Encode raw) = base64Encode raw.
Proof.
  rewrite app_assoc. apply drop_app_length'.
  by rewrite length_app, length_base64Encode.
Qed.

Lemma to_string_length ts : 1000000000 <= ts -> (10 <= length (to_string ts))%nat.
Proof.
  intros Hts. destruct (to_string_spec ts) as (_ & _ & Hl & _); [lia|].
  destruct (Nat.le_gt_cases 10 (length (to_string ts))) as [|Hlt]; [done|exfalso].
  assert (10 ^ Z.of_nat (length (to_string ts)) <= 10 ^ 9) by (apply Z.pow_le_mono_r; lia).
  lia.
Qed.

(** Whether a nonce of our own is accepted, [ts] being the expiry in it. *)
Lemma generateNonce_accepted now now' ts a b rest :
  1000000000 <= ts <= int64_max -> now' <= ts ->
  HMAC_SHA256 (secret_key a) (to_string ts) = b :: rest ->
  validateNonce now' (generateNonce now ts a) a = Ok (negb (is_digit b)).
Proof.
  intros Hts Hnow Hh. unfold generateNonce.
  rewrite (proj2 (Z.eqb_neq ts 0)) by lia. rewrite Hh.
  pose proof (length_HMAC_SHA256 (secret_key a) (to_string ts)) as Hlh.
  rewrite Hh in Hlh. pose proof (to_string_length ts ltac:(lia)) as Hlt.
  destruct (to_string_spec ts) as (_ & Hds & _ & Hne); [lia|].
  unfold validateNonce. rewrite drop_cookie, base64_roundtrip.
  rewrite (proj2 (Nat.leb_gt _ _)).
  2:{ rewrite !length_app, !length_base64Encode, length_app, Hlh.
      unfold COOKIE_LEN. assert (2 <= (length (to_string ts) + 32 + 2) / 3)%nat
        by (apply Nat.div_le_lower_bound; lia).
      change (length cookie) with 9%nat. lia. }
  rewrite (proj2 (Nat.ltb_ge _ _)) by (rewrite length_app, Hlh; unfold MIN_SIZE; lia).
  rewrite split_digits_digits by done.
  rewrite bool_decide_false by (intros [? _]%app_nil; done).
  destruct (is_digit b) eqn:Hb.
  - assert (length (split_digits (b :: rest)).2 <> 32%nat) as Hshort.
    { pose proof (split_digits_length (b :: rest)) as Hs. rewrite Hlh in Hs.
      assert (length (split_digits (b :: rest)).1 <> 0%nat); [|lia].
      intros Hnil%nil_length_inv%split_digits_nil. congruence. }
    destruct (from_chars _) as [v|]; [|done]. destruct (v <? now'); [done|].
    rewrite length_HMAC_SHA256. by rewrite bool_decide_false by done.
  - assert (split_digits (b :: rest) = ([], b :: rest)) as -> by (simpl; by rewrite Hb).
    cbn [fst snd]. rewrite app_nil_r, from_chars_to_string by lia.
    rewrite (proj2 (Z.ltb_ge ts now')) by lia. rewrite Hh.
    by rewrite !bool_decide_true by done.
Qed.

(** C28.  A nonce is accepted by its own generator until it expires, except
    when the first byte of its keyed hash is an ASCII digit: the digit is
    then taken for a digit of the expiry, and the nonce is refused. *)
Theorem nonce_roundtrip now now' ts a b rest :
  1000000000 <= ts <= int64_max -> now' <= ts ->
  HMAC_SHA256 (secret_key a) (to_string ts) = b :: rest ->
  validateNonce now' (generateNonce now ts a) a = Ok (negb (is_digit b)).
Proof. apply generateNonce_accepted. Qed.

(** C29.  No nonce is accepted but one that carries, after its first thirteen
    characters, an expiry that has not passed and its hash under the
    server's key. *)
Theorem validateNonce_sound now nonce a :
  validateNonce now nonce a = Ok true ->
  exists ds ts, base64Decode (drop COOKIE_LEN nonce) =
      Ok (ds ++ HMAC_SHA256 (secret_key a) ds) /\
    from_chars ds = Some ts /\ now <= ts <= int64_max.
Proof.
  unfold validateNonce. destruct (_ <=? _)%nat; [done|].
  destruct (base64Decode _) as [raw|]; [|done]. destruct (_ <? _)%nat; [done|].
  destruct (split_digits raw) as [ds given] eqn:Es. case_bool_decide; [done|].
  destruct (from_chars ds) as [ts|] eqn:Ef; [|done].
  destruct (Z.ltb_spec ts now) as [|Hle]; [done|].
  destruct (negb _); [done|]. intros [= Heq]. apply bool_decide_eq_true in Heq.
  apply split_digits_app in Es. subst. exists ds, ts. split; [done|]. split; [done|].
  revert Ef. unfold from_chars. destruct (Z.ltb_spec int64_max (decimal_value ds)); [done|].
  intros [= <-]. done.
Qed.

(** The first thirteen characters of a nonce, the cookie among them,
    have no influence on whether it is accepted. *)
Lemma validateNonce_ignores_cookie now n1 n2 tail a :
  length n1 = COOKIE_LEN -> length n2 = COOKIE_LEN ->
  validateNonce now (n1 ++ tail) a = validateNonce now (n2 ++ tail) a.
Proof.
  intros H1 H2. unfold validateNonce.
  rewrite !length_app, H1, H2, (drop_app_length' n1), (drop_app_length' n2) by done.
  done.
Qed.

(** The nonces of the server carry the password algorithms bit, and a
    string without the cookie never does. *)
Lemma hasPasswordAlgorithmsBit_generateNonce now ts a :
  hasPasswordAlgorithmsBit (generateNonce now ts a) = Ok true /\
  forall n, take 9 n <> cookie -> hasPasswordAlgorithmsBit n = Ok false.
Proof.
  split.
  - unfold generateNonce, hasPasswordAlgorithmsBit.
    rewrite take_app_length, drop_app_length, bool_decide_true by done. simpl negb. cbn iota.
    rewrite take_app_length' by (by rewrite length_base64Encode).
    by rewrite base64_roundtrip.
  - intros n Hn. unfold hasPasswordAlgorithmsBit.
    change (length cookie) with 9%nat. by rewrite bool_decide_false by done.
Qed.

(** C30.  On a message that has a header the integrity check accepts exactly
    the keyed hash of the message with its length field set to the length
    up to the end of the integrity attribute; on a shorter one it reads
    past the end of its argument. *)
Theorem validateMessageIntegrity_exact {sx : Stunxx} {sxl : StunxxLaws sx}
    (m hmac key : bytes) (sha256 : bool) :
  ((length m < 20)%nat ->
     exists what, validateMessageIntegrity m hmac key sha256 = Err (undefined_behaviour what)) /\
  (forall mac, (20 <= length m)%nat ->
     is_u16 (Z.of_nat (length m) - 16 + Z.of_nat (length hmac)) ->
     let n := Z.of_nat (length m) - 16 + Z.of_nat (length hmac) in
     EVP_MAC_HMAC (if sha256 then SHA256_digest else SHA1_digest) key
       (take 2 m ++ [to_byte (n / 256); to_byte n] ++ drop 4 m) = Some mac ->
     validateMessageIntegrity m hmac key sha256 = Ok (bool_decide (hmac = mac))).
Proof.
  unfold validateMessageIntegrity, corrected_header.
  rewrite STUN_HEADER_SIZE_is, ATTR_HEADER_SIZE_is. split.
  - intros Hl. rewrite (proj2 (Nat.ltb_lt _ _)) by lia. by eexists.
  - intros mac Hl Hn Hmac. rewrite (proj2 (Nat.ltb_ge _ _)) by lia.
    set (n := Z.of_nat (length m) - 16 + Z.of_nat (length hmac)) in *.
    replace (Z.of_nat (length m) - Z.of_nat 20 + Z.of_nat 4 + Z.of_nat (length hmac))
      with n by (unfold n; lia).
    rewrite (u64_small n) by (unfold is_u64, is_u16 in *; unfold n; lia).
    rewrite u16_small, host_to_be16_bytes by done.
    assert ((take 2 (take 20 m) ++ memcpy (drop 2 (take 20 m))
              [to_byte (n / 256); to_byte n]) ++ drop 20 m =
            take 2 m ++ [to_byte (n / 256); to_byte n] ++ drop 4 m) as ->.
    { rewrite take_take. unfold memcpy. simpl length. rewrite drop_drop, <-!app_assoc.
      do 2 f_equal.
      rewrite <-drop_app_le by (rewrite length_take; lia).
      by rewrite take_drop. }
    rewrite Hmac. case_bool_decide as Hlen; simpl negb; cbn iota; [done|].
    rewrite bool_decide_false; [done|]. by intros ->.
Qed.
End properties.

(** ** Witnesses *)

(** The keyed checksum begins with the byte 0x80, or with the digit 5. *)
Definition good_ssl : OpenSSL := toy_ssl x80.
Definition digit_ssl : OpenSSL := toy_ssl x35.

Definition example_authenticator : Authenticator :=
  {| secret_key := [x01; x02; x03]; config_ := default_config |}.

Lemma base64_roundtrip_example :
  base64Decode (ssl := good_ssl) (base64Encode (ssl := good_ssl) (to_bytes "fooba")) =
    Ok (to_bytes "fooba").
Proof. apply (base64_roundtrip (ssl := good_ssl) (laws := toy_ssl_laws x80)). Defined.

Example base64_known_vector :
  base64Encode (ssl := good_ssl) (to_bytes "fooba") = to_bytes "Zm9vYmE=".
Proof. vm_compute. reflexivity. Qed.

Lemma nonce_roundtrip_witness :
  validateNonce (ssl := good_ssl) 1700000000
    (generateNonce (ssl := good_ssl) 0 1700000600 example_authenticator)
    example_authenticator = Ok true /\
  validateNonce (ssl := digit_ssl) 1700000000
    (generateNonce (ssl := digit_ssl) 0 1700000600 example_authenticator)
    example_authenticator = Ok false.
Proof.
  split.
  - apply (nonce_roundtrip (ssl := good_ssl) (laws := toy_ssl_laws x80) 0 1700000000
      1700000600 example_authenticator x80 (tail (HMAC_SHA256 (OpenSSL := good_ssl)
        [x01; x02; x03] (to_string 1700000600)))); vm_compute; (done || by split).
  - apply (nonce_roundtrip (ssl := digit_ssl) (laws := toy_ssl_laws x35) 0 1700000000
      1700000600 example_authenticator x35 (tail (HMAC_SHA256 (OpenSSL := digit_ssl)
        [x01; x02; x03] (to_string 1700000600)))); vm_compute; (done || by split).
Defined.

Lemma validateNonce_sound_witness :
  exists ds ts, from_chars ds = Some ts /\ 1700000000 <= ts.
Proof.
  destruct (validateNonce_sound (ssl := good_ssl) 1700000000
    (generateNonce (ssl := good_ssl) 0 1700000600 example_authenticator)
    example_authenticator) as (ds & ts & _ & Hf & Hle & _).
  - vm_compute. reflexivity.
  - exists ds, ts. split; [exact Hf | exact Hle].
Defined.

(** A nonce whose sixth character was changed is still accepted. *)
Lemma validateNonce_ignores_cookie_example :
  let nonce := generateNonce (ssl := good_ssl) 0 1700000600 example_authenticator in
  let tampered := to_bytes "obMatXos2gAAA" ++ drop COOKIE_LEN nonce in
  tampered <> nonce /\
  validateNonce (ssl := good_ssl) 1700000000 tampered example_authenticator =
    validateNonce (ssl := good_ssl) 1700000000
      (to_bytes "obMatJos2gAAA" ++ drop COOKIE_LEN nonce) example_authenticator.
Proof.
  split; [vm_compute; discriminate|].
  apply (validateNonce_ignores_cookie (ssl := good_ssl)); reflexivity.
Defined.

Lemma hasPasswordAlgorithmsBit_generateNonce_example :
  hasPasswordAlgorithmsBit (ssl := good_ssl) (to_bytes "abcdefghijklmnop") = Ok false.
Proof.
  apply (proj2 (hasPasswordAlgorithmsBit_generateNonce (ssl := good_ssl)
    (laws := toy_ssl_laws x80) 0 1 example_authenticator)).
  vm_compute. discriminate.
Defined.

(** A message of a bare header, checked against its checksum. *)
Lemma validateMessageIntegrity_exact_witness :
  let sx := plain_stunxx (fun _ => None) in
  let m := replicate 20 x00 in
  let mac := take 20 (toy_mac x80 [x01] (take 2 m ++ [x00; x18] ++ drop 4 m)) in
  validateMessageIntegrity (ssl := good_ssl) (sx := sx) m mac [x01] false = Ok true.
Proof.
  intros sx m mac.
  apply (proj2 (validateMessageIntegrity_exact (ssl := good_ssl) (sx := sx)
    (sxl := plain_stunxx_laws _) m mac [x01] false) mac).
  - vm_compute. repeat constructor.
  - split; by vm_compute.
  - vm_compute. reflexivity.
Defined.
