(* ===== verification/Allocation.v ===== *)
(** * Allocations: server/allocation/Allocation, UdpAllocation

    One relayed transport address: its client, its lifetime, its permissions
    and channels, the response it was created with, and the two directions of
    its traffic.  [Allocation] is the base class, [UdpAllocation] the only
    class derived from it. *)

From Stdlib Require Import ZArith Lia Strings.Byte.
From stdpp Require Import base gmap list strings.
From S2P Require Import Prelude Asio Instances TimedTable.
From S2P Require Import PermissionManager ChannelManager RelayAddressGenerator.
From S2P Require Import Config Stunxx Endpoint Message.

Section Allocation.
Context {ip : IpAddress} {sx : Stunxx}.
Context (iteration : gmap Z ChannelManager.ChannelEntry ->
                     list (Z * ChannelManager.ChannelEntry)).

(** [makeStunAddress] *)
Definition makeStunAddress (a : Address) (port : Z) : StunAddress :=
  if is_v4 a then stun_ipv4 port (to_v4_bytes a) else stun_ipv6 port (to_v6_bytes a).

(** A finished builder, in the zeroed [Message] it was given. *)
Definition finalize (b : StunMessage) : Message :=
  {| size := totalSize b; buffer := memcpy zero_buffer (encode b) |}.

(** ** The base class *)

Record Allocation : Type := {
  allocation_lifetime_ : Z;
  timer_ : steady_timer;
  five_tuple_ : FiveTuple;
  success_message_ : Message;
  permission_manager_ : PermissionManager.PermissionManager
}.

Definition make_Allocation (config : Config) (five_tuple : FiveTuple)
    (timer : steady_timer) : Allocation :=
  {| allocation_lifetime_ := allocation_lifetime (turn config);
     timer_ := timer;
     five_tuple_ := five_tuple;
     success_message_ := zero_message;
     permission_manager_ :=
       PermissionManager.make (permission_lifetime (turn config)) |}.

Definition set_timer (t : steady_timer) (a : Allocation) : Allocation :=
  {| allocation_lifetime_ := allocation_lifetime_ a; timer_ := t;
     five_tuple_ := five_tuple_ a; success_message_ := success_message_ a;
     permission_manager_ := permission_manager_ a |}.

Definition set_permissions (pm : PermissionManager.PermissionManager)
    (a : Allocation) : Allocation :=
  {| allocation_lifetime_ := allocation_lifetime_ a; timer_ := timer_ a;
     five_tuple_ := five_tuple_ a; success_message_ := success_message_ a;
     permission_manager_ := pm |}.

(** [refresh]: the timer is set and waited on; the expiry callback holds
    the five-tuple. *)
Definition refresh (now secs : Z) (calls : timer_service FiveTuple) (a : Allocation)
    : Allocation * timer_service FiveTuple :=
  let '(timer, calls) := expires_after now secs calls in
  (set_timer timer a, async_wait timer (five_tuple_ a) calls).

Definition allocationLifetime (a : Allocation) : Z := allocation_lifetime_ a.

Definition expired (now : Z) (a : Allocation) : bool := expiry (timer_ a) <=? now.

Definition addPermission (now : Z) (peer_addr : Address) (a : Allocation) : Allocation :=
  set_permissions
    (PermissionManager.addPermission now peer_addr (permission_manager_ a)) a.

Definition hasPermission (peer_addr : Address) (a : Allocation) : bool :=
  PermissionManager.hasPermission peer_addr (permission_manager_ a).

(** The channel operations of the base class do nothing. *)
Definition addChannel_base (channel_number : Z) (peer : Endpoint) (a : Allocation)
    : bool := false.
Definition checkChannel_base (channel_num : Z) (a : Allocation) : bool := false.
Definition getChannelByAddress_base (peer : Endpoint) (a : Allocation) : option Z := None.
Definition getPeerByChannel_base (channel_number : Z) (a : Allocation)
    : option Endpoint := None.

Definition successMessage (a : Allocation) : Message := success_message_ a.

Definition set_successMessage (m : Message) (a : Allocation) : Allocation :=
  {| allocation_lifetime_ := allocation_lifetime_ a; timer_ := timer_ a;
     five_tuple_ := five_tuple_ a; success_message_ := m;
     permission_manager_ := permission_manager_ a |}.

(** [getTransactionId]: bytes 8 to 20 of the stored response. *)
Definition getTransactionId (a : Allocation) : result bytes :=
  if size (success_message_ a) <? 20 then
    Err (runtime_error "Message too small to contain a transaction ID")
  else Ok (take 12 (drop 8 (buffer (success_message_ a)))).

(** ** UdpAllocation *)

(** [channel_] is the queue of the writer: the packets sent to it and not
    yet taken, in order, those of senders that wait for room included.
    [started] says that [start] was called; [reader_runs] and [writer_runs]
    say that the two coroutines it spawned, which hold the allocation, have
    not ended.  [reader_message] is the reader's local buffer. *)
Record UdpAllocation : Type := {
  base : Allocation;
  socket_ : socket;
  channel_ : list (Message * (Address * Z));
  channel_open : bool;
  channel_manager_ : ChannelManager.ChannelManager;
  started : bool;
  reader_runs : bool;
  writer_runs : bool;
  reader_message : Message
}.

Definition make (config : Config) (five_tuple : FiveTuple) (timer : steady_timer)
    (s : socket) : UdpAllocation :=
  {| base := make_Allocation config five_tuple timer;
     socket_ := s;
     channel_ := [];
     channel_open := true;
     channel_manager_ := ChannelManager.make (channel_lifetime (turn config));
     started := false;
     reader_runs := false;
     writer_runs := false;
     reader_message := zero_message |}.

Definition set_base (b : Allocation) (a : UdpAllocation) : UdpAllocation :=
  {| base := b; socket_ := socket_ a; channel_ := channel_ a;
     channel_open := channel_open a; channel_manager_ := channel_manager_ a;
     started := started a; reader_runs := reader_runs a; writer_runs := writer_runs a;
     reader_message := reader_message a |}.

Definition set_channels (cm : ChannelManager.ChannelManager) (a : UdpAllocation)
    : UdpAllocation :=
  {| base := base a; socket_ := socket_ a; channel_ := channel_ a;
     channel_open := channel_open a; channel_manager_ := cm;
     started := started a; reader_runs := reader_runs a; writer_runs := writer_runs a;
     reader_message := reader_message a |}.

Definition set_queue (q : list (Message * (Address * Z))) (a : UdpAllocation)
    : UdpAllocation :=
  {| base := base a; socket_ := socket_ a; channel_ := q;
     channel_open := channel_open a; channel_manager_ := channel_manager_ a;
     started := started a; reader_runs := reader_runs a; writer_runs := writer_runs a;
     reader_message := reader_message a |}.

Definition refresh_udp (now secs : Z) (calls : timer_service FiveTuple)
    (a : UdpAllocation) : UdpAllocation * timer_service FiveTuple :=
  let '(b, calls) := refresh now secs calls (base a) in (set_base b a, calls).

Definition start (now secs : Z) (calls : timer_service FiveTuple) (a : UdpAllocation)
    : UdpAllocation * timer_service FiveTuple :=
  let '(a, calls) := refresh_udp now secs calls a in
  ({| base := base a; socket_ := socket_ a; channel_ := channel_ a;
      channel_open := channel_open a; channel_manager_ := channel_manager_ a;
      started := true; reader_runs := true; writer_runs := true;
      reader_message := reader_message a |}, calls).

(** [stop]: the pending operations on the socket are cancelled, which ends
    the reader, and the channel is closed, which ends the writer. *)
Definition stop (a : UdpAllocation) : UdpAllocation :=
  {| base := base a; socket_ := socket_ a; channel_ := channel_ a;
     channel_open := false; channel_manager_ := channel_manager_ a;
     started := false; reader_runs := false; writer_runs := false;
     reader_message := reader_message a |}.

(** The end of one of the coroutines by an exception.  The operator [||]
    waits for one to succeed: the other one goes on. *)
Definition set_running (reader writer : bool) (a : UdpAllocation) : UdpAllocation :=
  {| base := base a; socket_ := socket_ a; channel_ := channel_ a;
     channel_open := channel_open a; channel_manager_ := channel_manager_ a;
     started := started a; reader_runs := reader; writer_runs := writer;
     reader_message := reader_message a |}.

(** The packets the channel holds; a sender whose packet is behind them
    waits. *)
Definition channel_capacity : nat := 15.

Definition waiting (a : UdpAllocation) : list (Message * (Address * Z)) :=
  drop channel_capacity (channel_ a).

(** [sendToPeer]: the packet goes to the writer's queue; a send on a closed
    channel throws. *)
Definition sendToPeer (message : Message) (peer : Endpoint) (a : UdpAllocation)
    : UdpAllocation * result unit :=
  if channel_open a then
    (set_queue (channel_ a ++ [(message, (address peer, port peer))]) a, Ok tt)
  else (a, Err (system_error "channel closed")).

(** [processPeerMessage]: what is sent to the client, if anything; [tid] is
    the transaction id that is generated for a Data indication. *)
Definition processPeerMessage (tid : bytes) (message : Message) (peer : Endpoint)
    (a : UdpAllocation) : option (Message * Endpoint) :=
  let client := endpoint (five_tuple_ (base a)) in
  match ChannelManager.channelByAddress iteration peer (channel_manager_ a) with
  | Some number =>
      let channel_data := {| channel := number; channel_payload := payload message |} in
      match ChannelData_encode channel_data with
      | Some written =>
          Some ({| size := ChannelData_totalSize channel_data;
                   buffer := memcpy zero_buffer written |}, client)
      | None => None
      end
  | None =>
      if hasPermission (address peer) (base a) then
        let builder := StunMessageBuilder Data Indication tid in
        let peerAttr := makeStunAddress (address peer) (port peer) in
        let builder := add (XorPeerAddr peerAttr) builder in
        let builder := add (DataAttr (payload message)) builder in
        Some (finalize builder, client)
      else None
  end.

Definition address_of (a : UdpAllocation) : bytes :=
  address_to_string (local_address (socket_ a)).

Definition supportsFamily (f : AddressFamily) (a : UdpAllocation) : bool :=
  let addr := local_address (socket_ a) in
  (bool_decide (f = IPv4) && is_v4 addr) || (bool_decide (f = IPv6) && is_v6 addr).

Definition port_of (a : UdpAllocation) : Z := local_port (socket_ a).

Definition endpoint_of (a : UdpAllocation) : Endpoint :=
  {| address := local_address (socket_ a); port := local_port (socket_ a);
     protocol := UDP |}.

Definition protocol_of (a : UdpAllocation) : Protocol := UDP.

Definition addChannel (now channel_number : Z) (peer : Endpoint) (a : UdpAllocation)
    : bool * UdpAllocation :=
  let '(added, cm) :=
    ChannelManager.addChannel iteration now channel_number peer (channel_manager_ a) in
  let a := set_channels cm a in
  if negb added then (false, a)
  else (true, set_base (addPermission now (address peer) (base a)) a).

Definition checkChannel (channel_num : Z) (a : UdpAllocation) : bool :=
  ChannelManager.checkChannel channel_num (channel_manager_ a).

Definition getChannelByAddress (peer : Endpoint) (a : UdpAllocation) : option Z :=
  ChannelManager.channelByAddress iteration peer (channel_manager_ a).

Definition getPeerByChannel (channel_number : Z) (a : UdpAllocation) : option Endpoint :=
  ChannelManager.getEndpoint channel_number (channel_manager_ a).

(** One round of [reader]: a datagram arrives from [sender]; the buffer of
    the previous round is reused.  The result is what goes to the client.
    An error [ec] of the receive is thrown and ends the reader. *)
Definition reader (ec : error_code) (tid : bytes) (datagram : bytes)
    (sender : Address * Z) (a : UdpAllocation)
    : UdpAllocation * option (Message * Endpoint) :=
  if failed ec then (set_running false (writer_runs a) a, None) else
  let message := receive datagram (reader_message a) in
  let peer := {| address := sender.1; port := sender.2; protocol := UDP |} in
  ({| base := base a; socket_ := socket_ a; channel_ := channel_ a;
      channel_open := channel_open a; channel_manager_ := channel_manager_ a;
      started := started a; reader_runs := reader_runs a; writer_runs := writer_runs a;
      reader_message := message |},
   processPeerMessage tid message peer a).

(** One round of [writer]: the oldest packet of the queue is taken and sent
    from the relay socket; the result is its destination and its bytes.  An
    error [ec] of the send is thrown and ends the writer; the packet is lost. *)
Definition writer (ec : error_code) (a : UdpAllocation)
    : option (UdpAllocation * ((Address * Z) * bytes)) :=
  match channel_ a with
  | [] => None
  | (msg, ep) :: queue =>
      let a := set_queue queue a in
      Some (if failed ec then set_running (reader_runs a) false a else a,
            (ep, payload msg))
  end.

(** ** Well-formed allocations *)

Definition well_formed (a : UdpAllocation) : Prop :=
  armed_state (permission_manager_ (base a)) /\
  ChannelManager.well_formed (channel_manager_ a).

Lemma allocation_well_formed_make config ft t s : well_formed (make config ft t s).
Proof. split; [apply armed_empty | apply ChannelManager.channels_well_formed_make]. Qed.

Lemma well_formed_addPermission now p a :
  well_formed a -> well_formed (set_base (addPermission now p (base a)) a).
Proof.
  intros [Hp Hc]. split; [|done]. by apply PermissionManager.addPermission_armed.
Qed.

Context (iteration_perm : forall m, iteration m ≡ₚ map_to_list m).

Lemma allocation_well_formed_addChannel now n peer a :
  well_formed a -> well_formed (addChannel now n peer a).2.
Proof.
  intros [Hp Hc]. unfold addChannel.
  pose proof (ChannelManager.channels_well_formed_addChannel iteration iteration_perm
    now n peer _ Hc) as Hc'.
  destruct (ChannelManager.addChannel _ _ _ _ _) as [[] cm]; simpl in *.
  - apply (well_formed_addPermission now (address peer) (set_channels cm a)). by split.
  - by split.
Qed.

(** The stored response gives the transaction id it was built with. *)
Lemma getTransactionId_finalize {sxl : StunxxLaws sx} b a :
  length (sm_transaction b) = 12%nat ->
  success_message_ a = finalize b ->
  getTransactionId a = Ok (sm_transaction b).
Proof.
  intros Ht Ha. unfold getTransactionId. rewrite Ha. unfold finalize; cbn [size buffer].
  rewrite encode_totalSize. pose proof (encode_length b) as Hl.
  rewrite (proj2 (Z.ltb_ge _ _)) by lia. f_equal. unfold memcpy.
  rewrite drop_app_le by lia. rewrite take_app_le by (rewrite length_drop; lia).
  by apply encode_transaction.
Qed.

Lemma wf_channels_one_to_one a :
  well_formed a -> ChannelManager.one_to_one (channel_manager_ a).
Proof. by intros [_ [? _]]. Qed.

(** ** Executions of an allocation object

    What happens to an allocation but for its start, its refresh and its
    stop: the calls of the handlers, the rounds of its reader and writer,
    and the handlers of the timers of its permissions and channels. *)
Inductive object_step (now : Z) (a : UdpAllocation) : UdpAllocation -> Prop :=
| object_permission peer_addr :
    object_step now a (set_base (addPermission now peer_addr (base a)) a)
| object_channel n peer : object_step now a (addChannel now n peer a).2
| object_success m : object_step now a (set_base (set_successMessage m (base a)) a)
| object_send m peer : object_step now a (sendToPeer m peer a).1
| object_reader tid datagram sender :
    reader_runs a = true -> object_step now a (reader no_error tid datagram sender a).1
| object_writer a' out :
    writer_runs a = true -> writer no_error a = Some (a', out) -> object_step now a a'
| object_permission_timer pm :
    completes now (permission_manager_ (base a)) pm ->
    object_step now a (set_base (set_permissions pm (base a)) a)
| object_channel_timer cm :
    completes now (channel_manager_ a) cm -> object_step now a (set_channels cm a).

(** The socket of an allocation fails under its reader or its writer. *)
Inductive object_failure (a : UdpAllocation) : UdpAllocation -> Prop :=
| failure_reader ec tid datagram sender :
    reader_runs a = true -> failed ec = true ->
    object_failure a (reader ec tid datagram sender a).1
| failure_writer ec a' out :
    writer_runs a = true -> failed ec = true -> writer ec a = Some (a', out) ->
    object_failure a a'.

Lemma writer_Some ec a a' out :
  writer ec a = Some (a', out) ->
  exists queue, a' = set_running (reader_runs a) (writer_runs a && negb (failed ec))
                       (set_queue queue a).
Proof.
  unfold writer. destruct (channel_ a) as [|[m ep] q]; [done|]. intros [= <- _]. exists q.
  destruct (failed ec); [by rewrite andb_false_r|]. by rewrite andb_true_r.
Qed.

Lemma object_step_keeps now a a' :
  object_step now a a' -> well_formed a ->
  five_tuple_ (base a') = five_tuple_ (base a) /\ timer_ (base a') = timer_ (base a) /\
  socket_ a' = socket_ a /\ started a' = started a /\ channel_open a' = channel_open a /\
  well_formed a' /\ reader_runs a' = reader_runs a /\ writer_runs a' = writer_runs a.
Proof.
  intros Hs Hwf. pose proof Hwf as [Hp Hc].
  destruct Hs as [pa|n peer|m|m peer|tid d s|a' out Hr Hw|pm Hpm|cm Hcm].
  - pose proof (well_formed_addPermission now pa a Hwf). by split_and!.
  - pose proof (allocation_well_formed_addChannel now n peer a Hwf) as Hwf'. revert Hwf'.
    unfold addChannel. destruct (ChannelManager.addChannel _ _ _ _ _) as [[] cm];
      simpl; intros Hwf'; by split_and!.
  - by split_and!.
  - unfold sendToPeer. destruct (channel_open a) eqn:E; simpl; by split_and!.
  - by split_and!.
  - apply writer_Some in Hw as [q ->]. split_and!; try done. apply andb_true_r.
  - split_and!; try done. split; [|done]. exact (completes_armed _ _ _ Hp Hpm).
  - split_and!; try done. split; [done|]. simpl.
    by eapply ChannelManager.well_formed_run_wait.
Qed.

Lemma object_failure_keeps a a' :
  object_failure a a' -> well_formed a ->
  five_tuple_ (base a') = five_tuple_ (base a) /\ timer_ (base a') = timer_ (base a) /\
  socket_ a' = socket_ a /\ started a' = started a /\ channel_open a' = channel_open a /\
  well_formed a' /\ reader_runs a' && writer_runs a' = false.
Proof.
  intros [ec tid dg sd Hr Hec | ec b out Hr Hec Hw] Hwf.
  - unfold reader. rewrite Hec. by split_and!.
  - apply writer_Some in Hw as [q ->]. split_and!; try done. cbn. by rewrite Hec, !andb_false_r.
Qed.

(** ** Properties *)

(** C17.  What an allocation relays to its client: a datagram of a peer
    reaches the client, at the address of the five-tuple, exactly when the
    peer has a channel or a permission.  With a channel it travels as
    ChannelData of the peer's channel number, with a permission only as a
    Data indication that names the peer, and in both cases it carries the
    datagram itself, cut at 2048 bytes, whatever the reader's buffer held
    before. *)
Theorem reader_relays tid datagram sender a :
  well_formed a -> length (buffer (reader_message a)) = buffer_size ->
  let peer := {| address := sender.1; port := sender.2; protocol := UDP |} in
  let client := endpoint (five_tuple_ (base a)) in
  let data := take buffer_size datagram in
  let sent := (reader no_error tid datagram sender a).2 in
  (forall n, ChannelManager.bound (channel_manager_ a) n peer ->
     let cd := {| channel := n; channel_payload := data |} in
     sent = (w ← ChannelData_encode cd;
             Some ({| size := ChannelData_totalSize cd;
                      buffer := memcpy zero_buffer w |}, client))) /\
  ((forall n, ~ ChannelManager.bound (channel_manager_ a) n peer) ->
     sent = if hasPermission sender.1 (base a)
            then Some (finalize {| sm_method := Data; sm_class := Indication;
                   sm_transaction := tid;
                   sm_attrs := [XorPeerAddr (makeStunAddress sender.1 sender.2);
                                DataAttr data] |}, client)
            else None).
Proof.
  intros Hwf Hlen peer client data sent.
  pose proof (payload_receive datagram _ Hlen) as Hpay.
  pose proof (ChannelManager.channelByAddress_bound iteration iteration_perm
    (channel_manager_ a) peer) as Hby.
  unfold sent, reader, processPeerMessage. cbn [snd]. split.
  - intros n Hn. apply Hby in Hn; [|by apply wf_channels_one_to_one].
    fold peer. rewrite Hn, Hpay. by destruct (ChannelData_encode _).
  - intros Hno. fold peer.
    destruct (ChannelManager.channelByAddress iteration peer (channel_manager_ a))
      as [n|] eqn:E.
    + exfalso. apply (Hno n), Hby; [by apply wf_channels_one_to_one | done].
    + unfold StunMessageBuilder, add; cbn. by rewrite Hpay.
Qed.

(** The packets that a run of senders and of the writer's rounds hands to
    the socket, each with the result of sending it: [inl] is a call of
    [sendToPeer], [inr ec] the chance of a round of the writer whose send
    ends with [ec]. *)
Fixpoint run_queue (ops : list (Message * Endpoint + error_code)) (a : UdpAllocation)
    : UdpAllocation * list (((Address * Z) * bytes) * error_code) :=
  match ops with
  | [] => (a, [])
  | inl (m, peer) :: ops => run_queue ops (sendToPeer m peer a).1
  | inr ec :: ops =>
      if writer_runs a then
        match writer ec a with
        | None => run_queue ops a
        | Some (a, out) => let '(a, outs) := run_queue ops a in (a, (out, ec) :: outs)
        end
      else run_queue ops a
  end.

Definition packet_of (m : Message) (peer : Endpoint) : (Address * Z) * bytes :=
  ((address peer, port peer), payload m).

Definition sends (ops : list (Message * Endpoint + error_code))
    : list ((Address * Z) * bytes) :=
  omap (fun op => match op with
                  | inl (m, peer) => Some (packet_of m peer)
                  | inr _ => None
                  end) ops.

Definition queued (a : UdpAllocation) : list ((Address * Z) * bytes) :=
  (fun '(m, ep) => (ep, payload m)) <$> channel_ a.

(** Once the writer has ended, the queue only grows. *)
Lemma run_queue_dead ops a :
  channel_open a = true -> writer_runs a = false ->
  let '(a', outs) := run_queue ops a in
  outs = [] /\ writer_runs a' = false /\ channel_open a' = true /\
  queued a' = queued a ++ sends ops /\ channel_ a `prefix_of` channel_ a'.
Proof.
  revert a. induction ops as [|[[m peer]|ec] ops IH]; intros a Ho Hw; cbn [run_queue].
  - rewrite app_nil_r. by split_and!.
  - unfold sendToPeer. rewrite Ho. cbn [fst].
    specialize (IH (set_queue (channel_ a ++ [(m, (address peer, port peer))]) a) Ho Hw).
    destruct (run_queue ops _) as [a' outs]. destruct IH as (-> & Hw' & Ho' & Hq & Hp).
    split_and!; try done.
    + rewrite Hq. unfold queued; simpl. by rewrite fmap_app, <-app_assoc.
    + cbn in Hp. etrans; [|exact Hp]. by eexists.
  - rewrite Hw. by apply IH.
Qed.

(** C33.  The way to the peers is a queue, and it may break: whatever the
    interleaving of senders and writer, the packets handed to the socket
    followed by those still queued are those that were queued followed by
    those sent, in order.  The first send that fails is the last one: its
    packet is lost, the writer has ended, and from then on nothing leaves
    the queue, although [sendToPeer] still takes packets, and a sender that
    waits for room waits for ever. *)
Theorem relay_queue_fifo ops a :
  channel_open a = true -> writer_runs a = true ->
  let '(a', outs) := run_queue ops a in
  outs.*1 ++ queued a' = queued a ++ sends ops /\
  (writer_runs a' = true -> Forall (fun o => failed o.2 = false) outs) /\
  (writer_runs a' = false ->
     (exists sent lost ec, outs = sent ++ [(lost, ec)] /\ failed ec = true /\
        Forall (fun o => failed o.2 = false) sent) /\
     forall ops', let '(a'', outs') := run_queue ops' a' in
       outs' = [] /\ queued a'' = queued a' ++ sends ops' /\
       waiting a' `prefix_of` waiting a'').
Proof.
  revert a. induction ops as [|[[m peer]|ec] ops IH]; intros a Ho Hw; cbn [run_queue].
  - rewrite app_nil_r. split_and!; [done|done|congruence].
  - unfold sendToPeer. rewrite Ho. cbn [fst].
    specialize (IH (set_queue (channel_ a ++ [(m, (address peer, port peer))]) a) Ho Hw).
    destruct (run_queue ops _) as [a' outs]. destruct IH as (IHq & IH). split; [|exact IH].
    rewrite IHq. unfold queued; simpl. by rewrite fmap_app, <-app_assoc.
  - rewrite Hw. destruct (writer ec a) as [[a1 out]|] eqn:E; [|by apply IH].
    assert (queued a = out :: queued a1 /\ channel_open a1 = true /\
            writer_runs a1 = negb (failed ec)) as (Hq & Ho1 & Hw1).
    { revert E. unfold writer, queued. destruct (channel_ a) as [|[m ep] q]; [done|].
      intros [= <- <-]. by destruct (failed ec). }
    destruct (failed ec) eqn:Hec.
    + pose proof (run_queue_dead ops a1 Ho1 Hw1) as Hd.
      destruct (run_queue ops a1) as [a' outs]. destruct Hd as (-> & Hw' & Ho' & Hqd & _).
      split_and!; [by rewrite Hq, Hqd | by rewrite Hw'|]. intros _. split.
      { exists [], out, ec. by split_and!. }
      intros ops'. pose proof (run_queue_dead ops' a' Ho' Hw') as Hd.
      destruct (run_queue ops' a') as [a'' outs'].
      destruct Hd as (-> & _ & _ & Hqd' & [l Hp]). split_and!; [done|done|].
      unfold waiting. rewrite Hp, drop_app. by eexists.
    + specialize (IH a1 Ho1 Hw1). destruct (run_queue ops a1) as [a' outs].
      destruct IH as (IHq & IHr & IHd). cbn [fmap list_fmap app fst].
      split_and!; [by rewrite IHq, Hq | auto|]. intros Hd. apply IHd in Hd as
        ((sent & lost & ec' & -> & Hec' & Hall) & Hmore). split; [|exact Hmore].
      exists ((out, ec) :: sent), lost, ec'. by split_and!; [..|constructor].
Qed.
End Allocation.

(** ** Witnesses *)

Section witnesses.
#[local] Existing Instance plain_ip.
#[local] Instance example_codec : Stunxx := plain_stunxx (fun _ => None).

Definition example_tuple : FiveTuple :=
  fromUdp (peer_a, 5000) (localhost, 3478).

Definition example_allocation : UdpAllocation :=
  make default_config example_tuple {| timer_id := 0; expiry := 0 |}
    {| local_address := localhost; local_port := 50000 |}.

Definition example_peer : @Address plain_ip * Z := (peer_b, 7000).

(** A packet of a peer without a permission is dropped. *)
Lemma reader_relays_witness :
  (reader map_to_list no_error [] [x01; x02] example_peer example_allocation).2 = None.
Proof.
  rewrite (proj2 (reader_relays map_to_list (fun m => reflexivity _) [] [x01; x02]
    example_peer example_allocation (allocation_well_formed_make _ _ _ _) length_zero_buffer));
    [reflexivity|].
  intros n (e & He & _). discriminate He.
Defined.

(** Two packets are sent; the send of the first one fails. *)
Definition example_ops : list (Message * Endpoint + error_code) :=
  let peer := {| address := peer_b : @Address plain_ip; port := 7000; protocol := UDP |} in
  [inr no_error; inl (Message.make [x01], peer); inl (Message.make [x02], peer);
   inr (other_error 22); inr no_error].

Definition started_allocation : UdpAllocation :=
  (start 0 600 no_timers example_allocation).1.

Lemma relay_queue_fifo_witness :
  writer_runs (run_queue example_ops started_allocation).1 = false /\
  (run_queue example_ops started_allocation).2.*1 ++
    queued (run_queue example_ops started_allocation).1 =
  [(example_peer, payload (Message.make [x01]));
   (example_peer, payload (Message.make [x02]))].
Proof.
  split; [reflexivity|].
  pose proof (relay_queue_fifo example_ops started_allocation eq_refl eq_refl) as H.
  destruct (run_queue example_ops started_allocation) as [a outs]. exact (proj1 H).
Defined.
End witnesses.
