(* ===== verification/AllocationManager.v ===== *)
(** * The allocations of the server: server/allocation/AllocationManager

    The map from five-tuples to allocations, with the generator of relay
    addresses and the reservations.  Allocations are shared objects: the map
    holds pointers, and the coroutine of a started allocation keeps its
    allocation alive when the map no longer does.  The state therefore has a
    heap of objects beside the map. *)

From Stdlib Require Import ZArith Lia Strings.Byte.
From stdpp Require Import base gmap list strings relations.
From S2P Require Import Prelude Asio Instances TimedTable.
From S2P Require Import PermissionManager ChannelManager.
From S2P Require Import RelayAddressGenerator ReservationManager.
From S2P Require Import Config Stunxx Endpoint Message Allocation.

Section AllocationManager.
Context {ip : IpAddress} {sx : Stunxx}.

(** [session_map_] maps a five-tuple to the identity of an object,
    [objects] are the allocations that have been made.  [timer_calls] are
    the outstanding waits on the allocations' timers. *)
Record AllocationManager : Type := {
  config_ : Config;
  session_map_ : gmap FiveTuple nat;
  objects : gmap nat UdpAllocation;
  next_object : nat;
  timer_calls : timer_service FiveTuple;
  reservation_manager_ : ReservationManager socket;
  relay_address_generator_ : RelayAddressGenerator
}.

(** The constructor.  The reservation manager is a member: no
    [std::shared_ptr] owns it.  [make_address] throws on a malformed
    [relay_ip]. *)
Definition make (config : Config) : result AllocationManager :=
  match RelayAddressGenerator.make (relay_ip (turn config))
          (relay_port_min (turn config)) (relay_port_max (turn config)) with
  | None => Err (system_error "make_address")
  | Some generator =>
      Ok {| config_ := config;
            session_map_ := ∅;
            objects := ∅;
            next_object := 0;
            timer_calls := no_timers;
            reservation_manager_ :=
              ReservationManager.make false (reservation_lifetime (turn config));
            relay_address_generator_ := generator |}
  end.

Definition set_objects (objs : gmap nat UdpAllocation)
    (calls : timer_service FiveTuple) (am : AllocationManager) : AllocationManager :=
  {| config_ := config_ am; session_map_ := session_map_ am; objects := objs;
     next_object := next_object am; timer_calls := calls;
     reservation_manager_ := reservation_manager_ am;
     relay_address_generator_ := relay_address_generator_ am |}.

Definition set_session_map (m : gmap FiveTuple nat) (am : AllocationManager)
    : AllocationManager :=
  {| config_ := config_ am; session_map_ := m; objects := objects am;
     next_object := next_object am; timer_calls := timer_calls am;
     reservation_manager_ := reservation_manager_ am;
     relay_address_generator_ := relay_address_generator_ am |}.

Definition set_reservation_manager (rm : ReservationManager socket)
    (am : AllocationManager) : AllocationManager :=
  {| config_ := config_ am; session_map_ := session_map_ am; objects := objects am;
     next_object := next_object am; timer_calls := timer_calls am;
     reservation_manager_ := rm;
     relay_address_generator_ := relay_address_generator_ am |}.

Definition getAllocation (tuple : FiveTuple) (am : AllocationManager) : option nat :=
  match session_map_ am !! tuple with
  | None => None
  | Some p => Some p
  end.

(** [make_shared<UdpAllocation>], the entry in the session map and
    [start(lifetime)]: the second halves of [claimReservation] and of
    [createAllocation]. *)
Definition install (now lifetime : Z) (five_tuple : FiveTuple) (s : socket)
    (am : AllocationManager) : nat * AllocationManager :=
  let p := next_object am in
  let '(t0, calls) := new_timer (timer_calls am) in
  let udp_alloc := Allocation.make (config_ am) five_tuple t0 s in
  let session_map := <[five_tuple := p]> (session_map_ am) in
  let '(udp_alloc, calls) := start now lifetime calls udp_alloc in
  (p, {| config_ := config_ am; session_map_ := session_map;
         objects := <[p := udp_alloc]> (objects am);
         next_object := S p; timer_calls := calls;
         reservation_manager_ := reservation_manager_ am;
         relay_address_generator_ := relay_address_generator_ am |}).

Definition claimReservation (now : Z) (token : ReservationToken)
    (five_tuple : FiveTuple) (lifetime : Z) (am : AllocationManager)
    : option nat * AllocationManager :=
  let '(sock, rm) :=
    ReservationManager.claimReservation token (reservation_manager_ am) in
  let am := set_reservation_manager rm am in
  match sock with
  | None => (None, am)
  | Some sock =>
      let '(p, am) := install now lifetime five_tuple sock am in (Some p, am)
  end.

Definition expireAllocation (now : Z) (five_tuple : FiveTuple)
    (am : AllocationManager) : AllocationManager :=
  match session_map_ am !! five_tuple with
  | None => am
  | Some p =>
      match objects am !! p with
      | Some a =>
          if expired now (base a) then
            set_session_map (delete five_tuple (session_map_ am)) am
          else am
      | None => am
      end
  end.

(** The expiry callback of an allocation looks at no error code. *)
Definition on_timer (now : Z) (ec : error_code) (five_tuple : FiveTuple)
    (am : AllocationManager) : AllocationManager :=
  expireAllocation now five_tuple am.

(** What the surroundings answer in one call of [createAllocation]: the
    relay environment and the bytes tokens are drawn from.  The loop that
    draws a token is given [size + 1] draws; that it needs more is the error
    [out_of_fuel]. *)
Definition createAllocation (env : relay_env) (rng : nat -> byte) (now : Z)
    (five_tuple : FiveTuple) (address_family : AddressFamily)
    (port_policy : PortPolicy) (lifetime : Z) (am : AllocationManager)
    : result (option nat * option ReservationToken * AllocationManager) :=
  match generateUdpRelay env port_policy (relay_address_generator_ am) with
  | Err e => Err e
  | Ok None => Ok (None, None, am)
  | Ok (Some relay_address) =>
      let reserved :=
        match releaseSecondary relay_address with
        | None => Ok (None, am)
        | Some (secondary, _) =>
            let rm := reservation_manager_ am in
            match createReservation (base.size (reservations_ rm)) rng 0 now secondary rm with
            | None => Err out_of_fuel
            | Some (token, _, rm) => Ok (Some token, set_reservation_manager rm am)
            end
        end in
      match reserved with
      | Err e => Err e
      | Ok (reservation_token, am) =>
          let '(p, am) := install now lifetime five_tuple (primary relay_address) am in
          Ok (Some p, reservation_token, am)
      end
  end.

Definition supportsFamily (address_family : AddressFamily) (am : AllocationManager)
    : bool :=
  match address_family with
  | IPv4 => supportsIPv4 (relay_address_generator_ am)
  | IPv6 => supportsIPv6 (relay_address_generator_ am)
  | other_family _ => false
  end.

(** ** The session map is a timed table *)

Definition allocation_timer (am : AllocationManager) (p : nat) : option steady_timer :=
  match objects am !! p with
  | Some a => Some (timer_ (base a))
  | None => None
  end.

#[export] Instance allocation_table : TimedTable FiveTuple AllocationManager := {
  timers am := omap (allocation_timer am) (session_map_ am);
  service := timer_calls;
  set_service svc am := set_objects (objects am) svc am;
  fire := on_timer
}.

Lemma lookup_timers am ft :
  timers am !! ft = session_map_ am !! ft ≫= allocation_timer am.
Proof. apply lookup_omap. Qed.

Lemma timers_session_delete am ft :
  timers (set_session_map (delete ft (session_map_ am)) am) = delete ft (timers am).
Proof.
  apply map_eq. intros ft'. rewrite lookup_timers. simpl. rewrite !lookup_delete.
  case_decide; [done|]. by rewrite lookup_omap.
Qed.

#[export] Instance allocation_table_laws : TimedTableLaws FiveTuple AllocationManager.
Proof.
  split; try done.
  - intros now ec ft am. simpl. unfold on_timer, expireAllocation. by case_all.
  - intros now ec ft am. unfold fire, allocation_table, on_timer, expireAllocation.
    destruct (session_map_ am !! ft) as [p|] eqn:Ep; [|by left].
    destruct (objects am !! p) as [a|] eqn:Ea; [|by left].
    unfold expired. destruct (Z.leb_spec (expiry (timer_ (base a))) now); [|by left].
    right. exists (timer_ (base a)). split; [|split; [done|]].
    + rewrite lookup_timers, Ep. simpl. unfold allocation_timer. by rewrite Ea.
    + apply (timers_session_delete am ft).
  - intros now ft am t Ht Hexp. rewrite lookup_timers in Ht.
    unfold fire, allocation_table, on_timer, expireAllocation.
    destruct (session_map_ am !! ft) as [p|]; [simpl in Ht|done].
    unfold allocation_timer in Ht. destruct (objects am !! p) as [a|]; [|done].
    injection Ht as <-. unfold expired. rewrite (proj2 (Z.leb_le _ _) Hexp).
    apply (timers_session_delete am ft).
Qed.

(** ** Well-formed managers *)

Record well_formed (am : AllocationManager) : Prop := {
  wf_session : forall ft p, session_map_ am !! ft = Some p ->
    exists a, objects am !! p = Some a /\ five_tuple_ (base a) = ft /\ started a = true;
  wf_fresh : forall p a, objects am !! p = Some a -> (p < next_object am)%nat;
  wf_objects : forall p a, objects am !! p = Some a -> Allocation.well_formed a;
  wf_armed : armed_state am;
  wf_unowned : owned (reservation_manager_ am) = false
}.

Lemma manager_well_formed_make config am : make config = Ok am -> well_formed am.
Proof.
  unfold make. destruct (RelayAddressGenerator.make _ _ _); [|done]. intros [= <-].
  split; try done. unfold armed_state; simpl. rewrite omap_empty. apply armed_empty.
Qed.

(** The object of a five-tuple is the object of no other. *)
Lemma session_inj am ft ft' p :
  well_formed am -> session_map_ am !! ft = Some p -> session_map_ am !! ft' = Some p ->
  ft = ft'.
Proof.
  intros Hwf H1 H2. apply (wf_session _ Hwf) in H1 as (a & Ha & <- & _).
  apply (wf_session _ Hwf) in H2 as (a' & Ha' & <- & _). congruence.
Qed.

(** Replacing the object of a five-tuple by one with the timer [t]. *)
Lemma timers_set_object am ft p a calls :
  well_formed am -> session_map_ am !! ft = Some p ->
  timers (set_objects (<[p := a]> (objects am)) calls am) =
    <[ft := timer_ (base a)]> (timers am).
Proof.
  intros Hwf Hp. apply map_eq. intros ft'. rewrite lookup_insert, !lookup_timers. simpl.
  unfold allocation_timer; simpl. case_decide as Heq.
  - subst ft'. rewrite Hp. simpl. by rewrite lookup_insert_eq.
  - destruct (session_map_ am !! ft') as [p'|] eqn:Hp'; [simpl|done].
    rewrite lookup_insert_ne; [done|]. intros ->. apply Heq. by eapply session_inj.
Qed.

(** Changing an object but for its five-tuple and its timer. *)
Lemma well_formed_update am p a a' :
  well_formed am -> objects am !! p = Some a ->
  five_tuple_ (base a') = five_tuple_ (base a) -> timer_ (base a') = timer_ (base a) ->
  started a' = started a -> Allocation.well_formed a' ->
  well_formed (set_objects (<[p := a']> (objects am)) (timer_calls am) am).
Proof.
  intros Hwf Ha Hft Ht Hst Ha'. split; simpl.
  - intros ft q Hq. destruct (wf_session _ Hwf _ _ Hq) as (b & Hb & Hbf & Hbs).
    rewrite lookup_insert. case_decide as Heq; [subst q|by exists b].
    exists a'. rewrite Ha in Hb. injection Hb as <-. split; [done|]. split; congruence.
  - intros q b. rewrite lookup_insert. case_decide; [subst; intros _|];
      eauto using wf_fresh.
  - intros q b. rewrite lookup_insert. case_decide; [congruence|]. apply (wf_objects _ Hwf).
  - pose proof (wf_armed _ Hwf) as Harm. unfold armed_state in *.
    assert (timers (set_objects (<[p := a']> (objects am)) (timer_calls am) am) = timers am)
      as ->; [|done].
    apply map_eq. intros ft. rewrite !lookup_timers. simpl.
    destruct (session_map_ am !! ft) as [q|]; [simpl|done].
    unfold allocation_timer; simpl. rewrite lookup_insert.
    case_decide as Heq; [subst q|done]. by rewrite Ha, Ht.
  - apply Hwf.
Qed.

Lemma well_formed_set_reservations am rm :
  well_formed am -> owned rm = false -> well_formed (set_reservation_manager rm am).
Proof. intros [Hs Hf Ho Ha Hu] Hrm. by split. Qed.

(** [refresh] on the allocation of a five-tuple. *)
Lemma well_formed_refresh am ft p a now secs :
  well_formed am -> session_map_ am !! ft = Some p -> objects am !! p = Some a ->
  let '(a', calls) := refresh_udp now secs (timer_calls am) a in
  well_formed (set_objects (<[p := a']> (objects am)) calls am).
Proof.
  intros Hwf Hp Ha. simpl.
  destruct (wf_session _ Hwf _ _ Hp) as (a0 & Ha0 & Hft & Hst).
  rewrite Ha in Ha0. injection Ha0 as <-.
  split; simpl.
  - intros ft' q Hq. destruct (wf_session _ Hwf _ _ Hq) as (b & Hb & Hbf & Hbs).
    rewrite lookup_insert. case_decide as Heq; [subst q|by exists b].
    eexists. split; [done|]. rewrite Ha in Hb. injection Hb as <-. by split.
  - intros q b. rewrite lookup_insert. case_decide; [subst; intros _|];
      eauto using wf_fresh.
  - intros q b. rewrite lookup_insert. case_decide; [|apply (wf_objects _ Hwf)].
    intros [= <-]. by apply (wf_objects _ Hwf) in Ha.
  - unfold armed_state. rewrite (timers_set_object am ft p) by done. simpl. rewrite Hft.
    apply (armed_set _ (timer_calls am) ft now secs), Hwf.
  - apply Hwf.
Qed.

(** What [install] adds. *)
Lemma install_spec now lifetime ft s am :
  let '(p, am') := install now lifetime ft s am in
  p = next_object am /\ next_object am' = S p /\
  config_ am' = config_ am /\
  session_map_ am' = <[ft := p]> (session_map_ am) /\
  reservation_manager_ am' = reservation_manager_ am /\
  relay_address_generator_ am' = relay_address_generator_ am /\
  exists a, objects am' = <[p := a]> (objects am) /\
    five_tuple_ (base a) = ft /\ socket_ a = s /\ started a = true /\
    channel_open a = true /\ reader_runs a = true /\ writer_runs a = true /\
    channel_ a = [] /\
    expiry (timer_ (base a)) = now + seconds lifetime /\
    success_message_ (base a) = zero_message /\ Allocation.well_formed a /\
    (forall peer, hasPermission peer (base a) = false) /\
    (forall n, getPeerByChannel n a = None).
Proof.
  unfold install. simpl. do 6 (split; [done|]). eexists. split; [done|]. simpl.
  do 9 (split; [done|]). split; [|by split].
  split; [apply armed_empty | apply ChannelManager.channels_well_formed_make].
Qed.

Lemma well_formed_install now lifetime ft s am :
  well_formed am -> well_formed (install now lifetime ft s am).2.
Proof.
  intros Hwf. pose proof (install_spec now lifetime ft s am) as Hi.
  assert (forall q, objects am !! q = None \/ (q < next_object am)%nat) as Hq.
  { intros q. destruct (objects am !! q) eqn:E; [right; by eapply wf_fresh|by left]. }
  assert (objects am !! next_object am = None) as Hnone.
  { destruct (Hq (next_object am)); [done|lia]. }
  assert (armed_state (install now lifetime ft s am).2) as Harm.
  { unfold armed_state.
    assert (timers (install now lifetime ft s am).2 =
            <[ft := (expires_after now lifetime (new_timer (timer_calls am)).2).1]> (timers am))
      as ->.
    { apply map_eq. intros ft'. rewrite lookup_insert, !lookup_timers.
      unfold install; simpl. rewrite lookup_insert. case_decide; simpl.
      - unfold allocation_timer; simpl. by rewrite lookup_insert_eq.
      - destruct (session_map_ am !! ft') as [q|] eqn:Hq'; [simpl|done].
        unfold allocation_timer; simpl. rewrite lookup_insert_ne; [done|]. intros <-.
        apply (wf_session _ Hwf) in Hq' as (a & Ha & _). congruence. }
    apply (armed_set _ (new_timer (timer_calls am)).2 ft now lifetime).
    by apply armed_new_timer, Hwf. }
  destruct (install now lifetime ft s am) as [p am'].
  destruct Hi as (-> & Hn & Hc & Hs & Hr & Hg & a & Ho & Hft & Hsock & Hst & _ & _ & _ & _ & _ & _ & Hwa & _).
  simpl in *. split; [| | |done|].
  - intros ft' q. rewrite Hs, Ho, lookup_insert. case_decide as Heq.
    + intros [= <-]. exists a. rewrite lookup_insert_eq. split; [done|]. by split; [subst|].
    + intros Hq'. destruct (wf_session _ Hwf _ _ Hq') as (b & Hb & ? & ?).
      exists b. rewrite lookup_insert_ne by congruence. done.
  - intros q b. rewrite Ho, Hn, lookup_insert. case_decide; [lia|].
    intros Hb%(wf_fresh _ Hwf). lia.
  - intros q b. rewrite Ho, lookup_insert. case_decide; [congruence|]. apply (wf_objects _ Hwf).
  - rewrite Hr. apply Hwf.
Qed.

(** [expireAllocation] only ever takes entries off the session map. *)
Lemma expireAllocation_shrinks now ft am :
  exists m, expireAllocation now ft am = set_session_map m am /\ m ⊆ session_map_ am.
Proof.
  assert (am = set_session_map (session_map_ am) am) as Hid by by destruct am.
  unfold expireAllocation.
  destruct (session_map_ am !! ft) as [p|]; [|by eexists].
  destruct (objects am !! p) as [a|]; [|by eexists].
  destruct (expired now (base a)); [|by eexists].
  eexists. split; [done | apply delete_subseteq].
Qed.

Lemma well_formed_shrink am m svc :
  well_formed am -> m ⊆ session_map_ am ->
  let am' := set_session_map m (set_objects (objects am) svc am) in
  armed_state am' -> well_formed am'.
Proof.
  intros [Hs Hf Ho Ha Hu] Hm am' Harm. split; simpl; try done.
  intros ft q Hq. apply Hs. by eapply lookup_weaken.
Qed.

Lemma well_formed_expire now ft am :
  well_formed am -> well_formed (expireAllocation now ft am).
Proof.
  intros Hwf. assert (armed_state (expireAllocation now ft am)) as Harm.
  { pose proof (wf_armed _ Hwf) as Ha. unfold expireAllocation.
    destruct (session_map_ am !! ft) as [p|]; [|done].
    destruct (objects am !! p) as [a|]; [|done].
    destruct (expired now (base a)); [|done].
    unfold armed_state. rewrite timers_session_delete. by apply armed_delete. }
  destruct (expireAllocation_shrinks now ft am) as (m & E & Hm). rewrite E in *.
  by apply (well_formed_shrink am m (timer_calls am)).
Qed.

Lemma owned_claimReservation token (rm : ReservationManager socket) :
  owned (ReservationManager.claimReservation token rm).2 = owned rm.
Proof. unfold ReservationManager.claimReservation. by case_all. Qed.

Lemma well_formed_claimReservation now token ft lifetime am :
  well_formed am -> well_formed (claimReservation now token ft lifetime am).2.
Proof.
  intros Hwf. unfold claimReservation.
  pose proof (owned_claimReservation token (reservation_manager_ am)) as Ho.
  destruct (ReservationManager.claimReservation _ _) as [sock rm]. simpl in Ho.
  assert (well_formed (set_reservation_manager rm am)) as Hwf'.
  { apply well_formed_set_reservations; [done|]. rewrite Ho. apply Hwf. }
  destruct sock as [sock|]; [|done].
  pose proof (well_formed_install now lifetime ft sock _ Hwf') as Hi.
  by destruct (install _ _ _ _ _).
Qed.

Lemma set_reservation_manager_id am :
  set_reservation_manager (reservation_manager_ am) am = am.
Proof. by destruct am. Qed.

(** [createAllocation], case by case. *)
Lemma createAllocation_cases env rng now ft fam policy lifetime am op ot am' :
  createAllocation env rng now ft fam policy lifetime am = Ok (op, ot, am') ->
  let generated := generateUdpRelay env policy (relay_address_generator_ am) in
  (generated = Ok None /\ op = None /\ ot = None /\ am' = am) \/
  (exists r rm, generated = Ok (Some r) /\ owned rm = owned (reservation_manager_ am) /\
     op = Some (next_object am) /\
     am' = (install now lifetime ft (primary r) (set_reservation_manager rm am)).2 /\
     match secondary_ r with
     | None => ot = None /\ rm = reservation_manager_ am
     | Some s => exists token pos, ot = Some token /\
         createReservation (base.size (reservations_ (reservation_manager_ am)))
           rng 0 now s (reservation_manager_ am) = Some (token, pos, rm)
     end).
Proof.
  intros H generated. unfold generated. revert H. unfold createAllocation.
  destruct (generateUdpRelay _ _ _) as [[r|]|]; [|by intros [= <- <- <-]; left|done].
  intros H. right. revert H. unfold releaseSecondary. destruct (secondary_ r) as [s2|] eqn:E2.
  - destruct (createReservation _ _ _ _ _ _) as [[[tok pos] rm]|] eqn:Ec; [|done].
    pose proof Ec as (_ & _ & Ho & _)%createReservation_Some.
    intros [= <- <- <-]. exists r, rm. rewrite E2. split_and!; try done. by exists tok, pos.
  - intros [= <- <- <-]. exists r, (reservation_manager_ am).
    rewrite E2, set_reservation_manager_id. by split_and!.
Qed.

(** The call fails to return only when the bounds of the distribution are
    out of order or tokens are drawn again. *)
Lemma createAllocation_raises env rng now ft fam policy lifetime am e :
  createAllocation env rng now ft fam policy lifetime am = Err e ->
  (e = bounds_out_of_order /\
   dist_hi policy (relay_address_generator_ am) <
   dist_lo policy (relay_address_generator_ am)) \/
  (e = out_of_fuel /\ policy = EvenAndReserveNext /\
   ~ forall i j, (i < j <= base.size (reservations_ (reservation_manager_ am)))%nat ->
       stream_token rng 0 i <> stream_token rng 0 j).
Proof.
  unfold createAllocation.
  destruct (generateUdpRelay _ _ _) as [[r|]|e'] eqn:E; [|done|].
  - apply generateUdpRelay_secondary in E. unfold releaseSecondary.
    destruct (secondary_ r) as [s|]; [|by destruct (install _ _ _ _ _)].
    unfold createReservation. destruct (fresh_token _ _ _ _) as [[tok pos]|] eqn:Ef.
    + destruct (new_timer _), (emplace _ _ _), (startTimer _ _ _).
      by destruct (install _ _ _ _ _).
    + intros [= <-]. right. split; [done|]. split; [by apply E|]. intros Hinj%fresh_token_total.
      rewrite Ef in Hinj. by destruct Hinj.
  - apply generateUdpRelay_raises in E as [-> Hlt]. intros [= <-]. by left.
Qed.

Lemma well_formed_createAllocation env rng now ft fam policy lifetime am op ot am' :
  well_formed am ->
  createAllocation env rng now ft fam policy lifetime am = Ok (op, ot, am') ->
  well_formed am'.
Proof.
  intros Hwf [(_ & _ & _ & ->) | (r & rm & _ & Ho & _ & -> & _)]%createAllocation_cases;
    [done|].
  apply well_formed_install, well_formed_set_reservations; [done|]. rewrite Ho. apply Hwf.
Qed.

Lemma well_formed_completes now am am' :
  well_formed am -> completes now am am' -> well_formed am'.
Proof.
  intros Hwf Hc. assert (armed_state am') as Harm by (eapply completes_armed; [apply Hwf|done]).
  apply completes_inv in Hc as (w & ec & _ & _ & ->).
  change (run_wait now w ec am) with
    (expireAllocation now (wait_key w)
       (set_objects (objects am) (take_wait w (timer_calls am)) am)) in *.
  destruct (expireAllocation_shrinks now (wait_key w)
    (set_objects (objects am) (take_wait w (timer_calls am)) am)) as (m & E & Hm).
  rewrite E in *. by apply (well_formed_shrink am m (take_wait w (timer_calls am))).
Qed.

(** ** Executions of the manager *)

Context (iteration : gmap Z ChannelManager.ChannelEntry ->
                     list (Z * ChannelManager.ChannelEntry)).

(** What a step is to the outside: a claim of a reservation, a failure of
    the socket of an allocation, or neither. *)
Inductive label : Type :=
| internal
| claims (token : ReservationToken)
| fails (p : nat).

#[export] Instance label_eq_dec : EqDecision label.
Proof. solve_decision. Defined.

(** The manager and the clock.  [refresh] is called through the session map;
    the other operations of an allocation are those of any object that
    still exists. *)
Inductive step_by : label -> Z * AllocationManager -> Z * AllocationManager -> Prop :=
| step_clock now now' am : now <= now' -> step_by internal (now, am) (now', am)
| step_create now env rng ft fam policy lifetime am op ot am' :
    createAllocation env rng now ft fam policy lifetime am = Ok (op, ot, am') ->
    step_by internal (now, am) (now, am')
| step_claim now token ft lifetime am :
    step_by (claims token) (now, am) (now, (claimReservation now token ft lifetime am).2)
| step_refresh now ft p a secs am a' calls :
    getAllocation ft am = Some p -> objects am !! p = Some a ->
    refresh_udp now secs (timer_calls am) a = (a', calls) ->
    step_by internal (now, am) (now, set_objects (<[p := a']> (objects am)) calls am)
| step_object now p a a' am :
    objects am !! p = Some a -> object_step iteration now a a' ->
    step_by internal (now, am)
      (now, set_objects (<[p := a']> (objects am)) (timer_calls am) am)
| step_failure now p a a' am :
    objects am !! p = Some a -> object_failure iteration a a' ->
    step_by (fails p) (now, am)
      (now, set_objects (<[p := a']> (objects am)) (timer_calls am) am)
| step_expire now ft am : step_by internal (now, am) (now, expireAllocation now ft am)
| step_timer now am am' : completes now am am' -> step_by internal (now, am) (now, am')
| step_reservation now am rm :
    completes now (reservation_manager_ am) rm ->
    step_by internal (now, am) (now, set_reservation_manager rm am).

Definition step (s s' : Z * AllocationManager) : Prop := exists l, step_by l s s'.

(** An execution with its labels, the last one first. *)
Inductive run (s : Z * AllocationManager) : list label -> Z * AllocationManager -> Prop :=
| run_start : run s [] s
| run_step log s1 l s2 : run s log s1 -> step_by l s1 s2 -> run s (l :: log) s2.

Context (iteration_perm : forall m, iteration m ≡ₚ map_to_list m).

Lemma getAllocation_lookup ft am : getAllocation ft am = session_map_ am !! ft.
Proof. unfold getAllocation. by destruct (session_map_ am !! ft). Qed.

Lemma well_formed_object now p a a' am :
  well_formed am -> objects am !! p = Some a -> object_step iteration now a a' ->
  well_formed (set_objects (<[p := a']> (objects am)) (timer_calls am) am).
Proof.
  intros Hwf Ha Hs. pose proof (wf_objects _ Hwf _ _ Ha) as Hwa.
  destruct (object_step_keeps _ iteration_perm now a a' Hs Hwa)
    as (? & ? & ? & ? & ? & ? & ? & ?).
  by eapply well_formed_update.
Qed.

Lemma well_formed_failure p a a' am :
  well_formed am -> objects am !! p = Some a -> object_failure iteration a a' ->
  well_formed (set_objects (<[p := a']> (objects am)) (timer_calls am) am).
Proof.
  intros Hwf Ha Hs. pose proof (wf_objects _ Hwf _ _ Ha) as Hwa.
  destruct (object_failure_keeps _ a a' Hs Hwa) as (? & ? & ? & ? & ? & ? & ?).
  by eapply well_formed_update.
Qed.

Lemma well_formed_reservation_timer now rm am :
  well_formed am -> completes now (reservation_manager_ am) rm ->
  well_formed (set_reservation_manager rm am).
Proof.
  intros Hwf Hc. apply well_formed_set_reservations; [done|].
  by eapply (unowned_completes now), Hc; apply Hwf.
Qed.

Lemma manager_well_formed_step_by l s s' :
  step_by l s s' -> well_formed s.2 -> well_formed s'.2.
Proof.
  intros []; cbn [snd]; intros Hwf; try done.
  - by eapply well_formed_createAllocation.
  - by apply well_formed_claimReservation.
  - rewrite getAllocation_lookup in *.
    pose proof (well_formed_refresh am ft p a now secs Hwf ltac:(done) ltac:(done)) as Hr.
    by destruct (refresh_udp now secs (timer_calls am) a); simplify_eq.
  - by eapply well_formed_object.
  - by eapply well_formed_failure.
  - by apply well_formed_expire.
  - by eapply well_formed_completes.
  - by eapply well_formed_reservation_timer.
Qed.

Lemma manager_well_formed_reachable now config am s :
  make config = Ok am -> rtc step (now, am) s -> well_formed s.2.
Proof.
  intros Hm. apply (rtc_ind_r (fun s => well_formed s.2)).
  - by eapply manager_well_formed_make.
  - intros x y _ [l Hs]. by eapply manager_well_formed_step_by.
Qed.

Lemma run_step_rtc s log s' : run s log s' -> rtc step s s'.
Proof. induction 1; [done|]. eapply rtc_r; [done | by eexists]. Qed.

(** *** What becomes of an object

    The two coroutines of the object [p], made for the client [ft], run
    exactly while [up] holds. *)
Definition running (p : nat) (ft : FiveTuple) (up : bool) (am : AllocationManager) : Prop :=
  exists a, objects am !! p = Some a /\ five_tuple_ (base a) = ft /\
    started a = true /\ channel_open a = true /\ reader_runs a && writer_runs a = up.

Lemma running_update p ft up q a a' calls am :
  running p ft up am -> objects am !! q = Some a ->
  five_tuple_ (base a') = five_tuple_ (base a) -> started a' = started a ->
  channel_open a' = channel_open a ->
  running p ft (if decide (p = q) then reader_runs a' && writer_runs a' else up)
    (set_objects (<[q := a']> (objects am)) calls am).
Proof.
  intros (b & Hb & Hft & Hs & Ho & Hup) Ha Hft' Hs' Ho'. unfold running; simpl.
  case_decide as Heq; [subst q; exists a' | exists b].
  - rewrite lookup_insert_eq. simplify_eq. by rewrite Hs', Ho', Hft'.
  - by rewrite lookup_insert_ne.
Qed.

Lemma running_same p ft up q a a' calls am :
  running p ft up am -> objects am !! q = Some a ->
  five_tuple_ (base a') = five_tuple_ (base a) -> started a' = started a ->
  channel_open a' = channel_open a -> reader_runs a' = reader_runs a ->
  writer_runs a' = writer_runs a ->
  running p ft up (set_objects (<[q := a']> (objects am)) calls am).
Proof.
  intros Hr Ha Hft Hs Ho Er Ew.
  pose proof (running_update p ft up q a a' calls am Hr Ha Hft Hs Ho) as Hr'. revert Hr'.
  case_decide; [|done]. subst q. rewrite Er, Ew.
  destruct Hr as (b & Hb & _ & _ & _ & Hup). assert (b = a) as -> by congruence. by rewrite Hup.
Qed.

Lemma running_install now lifetime ft s p ft0 up am :
  well_formed am -> running p ft0 up am ->
  running p ft0 up (install now lifetime ft s am).2.
Proof.
  intros Hwf (b & Hb & Hr). pose proof (install_spec now lifetime ft s am) as Hi.
  destruct (install now lifetime ft s am) as [q am'].
  destruct Hi as (-> & _ & _ & _ & _ & _ & a & Hobj & _). exists b. simpl.
  rewrite Hobj, lookup_insert_ne; [done|]. apply (wf_fresh _ Hwf) in Hb. lia.
Qed.

Lemma running_expire now ft p ft0 up am :
  running p ft0 up am -> running p ft0 up (expireAllocation now ft am).
Proof. intros Hr. by destruct (expireAllocation_shrinks now ft am) as (m & -> & _). Qed.

(** No step ends a coroutine of [p] but a failure of its own socket. *)
Lemma running_step p ft up l s s' :
  step_by l s s' -> well_formed s.2 -> running p ft up s.2 ->
  running p ft (up && negb (bool_decide (l = fails p))) s'.2.
Proof.
  intros Hst Hwf Hr.
  assert (forall l', l' <> fails p -> up && negb (bool_decide (l' = fails p)) = up) as Hup.
  { intros l' Hne. rewrite bool_decide_false by done. apply andb_true_r. }
  destruct Hst as [| ? ? ? ? ? ? ? ? ? ? ? Hc | now token ft' lifetime am
    | ? ? q a ? ? a' calls ? Ha Href | ? q a a' ? Ha Hs | ? q a a' ? Ha Hf | |
    ? am ? Hc | ]; cbn [snd] in *; try (by rewrite Hup).
  - rewrite Hup by done. apply createAllocation_cases in Hc
        as [(_ & _ & _ & ->) | (r & rm & _ & Ho & _ & -> & _)]; [done|].
    apply running_install; [|done].
    apply well_formed_set_reservations; [done|]. rewrite Ho. apply Hwf.
  - rewrite Hup by done. unfold claimReservation.
    pose proof (owned_claimReservation token (reservation_manager_ am)) as Ho.
    destruct (ReservationManager.claimReservation _ _) as [[sock|] rm]; [|done].
    pose proof (running_install now lifetime ft' sock p ft up (set_reservation_manager rm am))
      as Hi.
    destruct (install _ _ _ _ _). apply Hi; [|done].
    apply well_formed_set_reservations; [done|]. simpl in Ho. rewrite Ho. apply Hwf.
  - rewrite Hup by done. unfold refresh_udp, refresh in Href. simplify_eq/=.
    by apply (running_same p ft up q a).
  - rewrite Hup by done.
    apply object_step_keeps in Hs as (? & _ & _ & ? & ? & _ & Er & Ew); [|done|
      by eapply wf_objects].
    by apply (running_same p ft up q a).
  - apply object_failure_keeps in Hf as (? & _ & _ & ? & ? & _ & E); [|by eapply wf_objects].
    pose proof (running_update p ft up q a a' (timer_calls am) am Hr Ha) as Hr'.
    specialize (Hr' ltac:(done) ltac:(done) ltac:(done)). revert Hr'. case_decide.
    + subst. by rewrite E, bool_decide_true, andb_false_r.
    + by rewrite Hup by congruence.
  - rewrite Hup by done. by apply running_expire.
  - rewrite Hup by done. apply completes_inv in Hc as (w & ec & _ & _ & ->).
    by apply running_expire.
Qed.

(** *** What becomes of a reservation *)

Lemma reservations_step l s s' token r :
  step_by l s s' -> well_formed s.2 -> l <> claims token ->
  reservations_ (reservation_manager_ s.2) !! token = Some r ->
  reservations_ (reservation_manager_ s'.2) !! token = Some r.
Proof.
  intros Hst Hwf Hne Hr.
  destruct Hst as [| ? ? ? ? ? ? ? ? ? ? ? Hc | now token' ft' lifetime am
    | | | | ? ft am | ? am ? Hc | ? am rm Hc ]; cbn [snd] in *; try done.
  - apply createAllocation_cases in Hc as [(_ & _ & _ & ->) | (g & rm & _ & _ & _ & -> & Hsec)];
      [done|].
    pose proof (install_spec now lifetime ft (primary g) (set_reservation_manager rm am)) as Hi.
    destruct (install _ _ _ _ _) as [q am2]. destruct Hi as (_ & _ & _ & _ & Erm & _). cbn.
    rewrite Erm. cbn. destruct (secondary_ g) as [sk|]; [|by destruct Hsec as [_ ->]].
    destruct Hsec as (tok & pos & _ & (Hn & _ & _ & r' & -> & _)%createReservation_Some).
    rewrite lookup_insert_ne; [done|]. intros ->. congruence.
  - assert (token' <> token) as Ht by congruence.
    unfold claimReservation, ReservationManager.claimReservation.
    destruct (reservations_ (reservation_manager_ am) !! token') as [r'|]; [|done].
    pose proof (install_spec now lifetime ft' (takeSocket r') (set_reservation_manager
      (set_reservations (delete token' (reservations_ (reservation_manager_ am)))
        (ReservationManager.timer_calls (reservation_manager_ am)) (reservation_manager_ am)) am))
      as Hi.
    destruct (install _ _ _ _ _) as [q am2]. destruct Hi as (_ & _ & _ & _ & Erm & _). cbn.
    rewrite Erm. cbn. by rewrite lookup_delete_ne.
  - by destruct (expireAllocation_shrinks now ft am) as (m & -> & _).
  - apply completes_inv in Hc as (w & ec & _ & _ & ->).
    change (run_wait now w ec am) with
      (expireAllocation now (wait_key w)
         (set_objects (objects am) (take_wait w (timer_calls am)) am)).
    by destruct (expireAllocation_shrinks now (wait_key w)
      (set_objects (objects am) (take_wait w (timer_calls am)) am)) as (m & -> & _).
  - cbn. by destruct (unowned_completes now _ rm (wf_unowned _ Hwf) Hc) as [-> _].
Qed.

(** ** Properties *)

Lemma timers_session am ft t :
  timers am !! ft = Some t <->
  exists p a, getAllocation ft am = Some p /\ objects am !! p = Some a /\
    timer_ (base a) = t.
Proof.
  rewrite lookup_timers, getAllocation_lookup, bind_Some. unfold allocation_timer. split.
  - intros (p & Hp & Ht). exists p. destruct (objects am !! p) as [a|]; [|done].
    injection Ht as <-. by exists a.
  - intros (p & a & Hp & Ha & <-). exists p. by rewrite Ha.
Qed.

Lemma rtc_completes_objects now am am' :
  rtc (completes now) am am' ->
  objects am' = objects am /\ session_map_ am' ⊆ session_map_ am.
Proof.
  induction 1 as [|am1 am2 am3 Hc _ [IHo IHs]]; [done|].
  apply completes_inv in Hc as (w & ec & _ & _ & ->).
  change (run_wait now w ec am1) with
    (expireAllocation now (wait_key w)
       (set_objects (objects am1) (take_wait w (timer_calls am1)) am1)) in *.
  destruct (expireAllocation_shrinks now (wait_key w)
    (set_objects (objects am1) (take_wait w (timer_calls am1)) am1)) as (m & E & Hm).
  rewrite E in *. split; [done | by etrans].
Qed.

(** C19.  The session map of every reachable manager is sound: each entry
    leads to an allocation that exists, is started and has the five-tuple
    it is filed under; no two five-tuples share an allocation; and for each
    entry a wait is outstanding that is due when the allocation expires and
    whose handler will look at that entry. *)
Theorem session_map_sound now0 config am0 now am ft p :
  make config = Ok am0 -> rtc step (now0, am0) (now, am) ->
  getAllocation ft am = Some p ->
  (exists a, objects am !! p = Some a /\ five_tuple_ (base a) = ft /\ started a = true /\
     {| wait_id := timer_id (timer_ (base a)); wait_due := expiry (timer_ (base a));
        wait_key := ft |} ∈ waits (timer_calls am)) /\
  (forall ft', getAllocation ft' am = Some p -> ft' = ft).
Proof.
  intros Hm Hs Hp. pose proof (manager_well_formed_reachable _ _ _ _ Hm Hs) as Hwf. simpl in Hwf.
  rewrite getAllocation_lookup in Hp. split.
  - destruct (wf_session _ Hwf _ _ Hp) as (a & Ha & Hft & Hst). exists a.
    split_and!; try done. apply (armed_entry _ _ (wf_armed _ Hwf) ft (timer_ (base a))).
    apply timers_session. exists p, a. by rewrite getAllocation_lookup.
  - intros ft' Hp'. rewrite getAllocation_lookup in Hp'. by eapply session_inj.
Qed.

(** What [createAllocation] does. *)
Lemma createAllocation_spec env rng now ft fam policy lifetime am op ot am' :
  well_formed am -> ports_ok (relay_address_generator_ am) -> dist_ok env ->
  (exists p, suitable policy (relay_address_generator_ am) p) ->
  createAllocation env rng now ft fam policy lifetime am = Ok (op, ot, am') ->
  let g := relay_address_generator_ am in
  (op = None /\ ot = None /\ am' = am /\ generateUdpRelay env policy g = Ok None) \/
  exists p a, op = Some p /\ objects am !! p = None /\
    objects am' = <[p := a]> (objects am) /\
    session_map_ am' = <[ft := p]> (session_map_ am) /\
    five_tuple_ (base a) = ft /\ started a = true /\
    expiry (timer_ (base a)) = now + seconds lifetime /\
    suitable policy g (port_of a) /\ local_address (Allocation.socket_ a) = addr_ g /\
    (forall peer, hasPermission peer (base a) = false) /\
    (forall n, getPeerByChannel n a = None) /\
    (is_Some ot <-> policy = EvenAndReserveNext).
Proof.
  intros Hwf Hok Hd Hs [(Hg & -> & -> & ->) | (r & rm & Hg & _ & -> & -> & Hsec)]
    %createAllocation_cases g; [by left | right].
  destruct (generateUdpRelay_spec env policy g r Hok Hd Hs Hg) as (Hsuit & Hadr & Hr2 & _).
  pose proof (install_spec now lifetime ft (primary r) (set_reservation_manager rm am)) as Hi.
  destruct (install _ _ _ _ _) as [p am'].
  destruct Hi as (-> & _ & _ & Hsm & _ & _ & a & Ho & Hft & Hsock & Hst & _ & _ & _ & _
    & Hexp & _ & _ & Hp & Hc).
  exists (next_object am), a. cbn [snd next_object set_reservation_manager] in *.
  split_and!; try done.
  - destruct (objects am !! next_object am) eqn:E; [|done].
    apply (wf_fresh _ Hwf) in E. lia.
  - unfold port_of. by rewrite Hsock.
  - by rewrite Hsock.
  - rewrite Hr2 in Hsec. unfold reserve_next in Hsec. case_bool_decide as Hpol.
    + destruct Hsec as (token & pos & -> & _). by split.
    + destruct Hsec as [-> _]. split; [by intros [? ?] | done].
Qed.

(** C20.  [createAllocation] either changes nothing, when the generator finds
    no port, or files one new allocation under the five-tuple: it is
    started, expires [lifetime] seconds from now, is bound to a suitable port
    on the relay address, and starts with no permission and no channel; no
    other allocation and no other entry changes.  A reservation token comes
    back exactly when the next port was asked for. *)
Theorem createAllocation_functional env rng now ft fam policy lifetime am op ot am' :
  well_formed am -> ports_ok (relay_address_generator_ am) -> dist_ok env ->
  (exists p, suitable policy (relay_address_generator_ am) p) ->
  createAllocation env rng now ft fam policy lifetime am = Ok (op, ot, am') ->
  let g := relay_address_generator_ am in
  (op = None /\ ot = None /\ am' = am /\ generateUdpRelay env policy g = Ok None) \/
  exists p a, op = Some p /\ objects am !! p = None /\
    objects am' = <[p := a]> (objects am) /\
    session_map_ am' = <[ft := p]> (session_map_ am) /\
    five_tuple_ (base a) = ft /\ started a = true /\
    expiry (timer_ (base a)) = now + seconds lifetime /\
    suitable policy g (port_of a) /\ local_address (Allocation.socket_ a) = addr_ g /\
    (forall peer, hasPermission peer (base a) = false) /\
    (forall n, getPeerByChannel n a = None) /\
    (is_Some ot <-> policy = EvenAndReserveNext).
Proof. apply createAllocation_spec. Qed.

(** C21.  A pair of ports: the token of an allocation made with
    [EvenAndReserveNext] can be claimed for any five-tuple, once; the
    allocation it gives relays on the port that follows the even port of
    the first one, on the same address, and the first one is unchanged. *)
Theorem reserved_pair env rng now ft fam lifetime am p token am1 now' ft' lifetime' :
  well_formed am -> ports_ok (relay_address_generator_ am) -> dist_ok env ->
  (exists q, suitable EvenAndReserveNext (relay_address_generator_ am) q) ->
  createAllocation env rng now ft fam EvenAndReserveNext lifetime am
    = Ok (Some p, Some token, am1) ->
  let '(claimed, am2) := claimReservation now' token ft' lifetime' am1 in
  exists p' a a', claimed = Some p' /\ p' <> p /\
    objects am1 !! p = Some a /\ objects am2 !! p = Some a /\
    objects am2 !! p' = Some a' /\ getAllocation ft' am2 = Some p' /\
    Z.even (port_of a) = true /\ port_of a' = port_of a + 1 /\
    local_address (Allocation.socket_ a') = local_address (Allocation.socket_ a) /\
    (claimReservation now' token ft' lifetime' am2).1 = None.
Proof.
  intros Hwf Hok Hd Hs [(_ & ? & _) | (r & rm & Hg & _ & Hp & -> & Hsec)]
    %createAllocation_cases; [done|]. injection Hp as ->.
  destruct (generateUdpRelay_spec env _ _ r Hok Hd Hs Hg) as ([_ Hev] & Hadr & Hr2 & _).
  rewrite Hr2 in Hsec. simpl in Hsec. destruct Hsec as (tok & pos & Htok & Hcr).
  injection Htok as <-.
  apply createReservation_Some in Hcr as (Hnone & _ & _ & res & Hrm & Hres & _).
  pose proof (install_spec now lifetime ft (primary r) (set_reservation_manager rm am)) as Hi.
  destruct (install _ _ _ _ _) as [p1 am1].
  destruct Hi as (-> & Hn1 & _ & _ & Hrm1 & _ & a & Ho1 & _ & Hsock & _).
  cbn [snd next_object set_reservation_manager reservation_manager_ objects] in *.
  unfold claimReservation at 1, ReservationManager.claimReservation.
  rewrite Hrm1, Hrm, lookup_insert_eq. unfold takeSocket. rewrite Hres.
  set (rm2 := set_reservations _ _ rm).
  pose proof (install_spec now' lifetime' ft'
    {| local_address := addr_ (relay_address_generator_ am);
       local_port := local_port (primary r) + 1 |} (set_reservation_manager rm2 am1)) as Hi.
  destruct (install now' lifetime' ft' _ (set_reservation_manager rm2 am1)) as [p2 am2].
  destruct Hi as (-> & _ & _ & Hsm2 & Hrm2 & _ & a' & Ho2 & _ & Hsock' & _).
  cbn [next_object set_reservation_manager reservation_manager_ objects session_map_] in *.
  exists (next_object am1), a, a'. unfold port_of. rewrite Hn1, Hsock, Hsock'.
  split_and!; try done.
  - by rewrite Ho1, lookup_insert_eq.
  - by rewrite Ho2, Hn1, lookup_insert_ne, Ho1, lookup_insert_eq by lia.
  - by rewrite Ho2, Hn1, lookup_insert_eq.
  - by rewrite getAllocation_lookup, Hsm2, Hn1, lookup_insert_eq.
  - by apply Hev.
  - unfold claimReservation, ReservationManager.claimReservation. rewrite Hrm2. simpl.
    by rewrite lookup_delete_eq.
Qed.

(** C18.  Allocations expire exactly: from every reachable state the timer
    handlers that are due can run, and once they have, the session map holds
    exactly the allocations it held whose lifetime has not run out. *)
Theorem session_expiry_exact now0 config am0 now am :
  make config = Ok am0 -> rtc step (now0, am0) (now, am) ->
  exists am', rtc (completes now) am am' /\ quiescent now am' /\
    forall ft p, getAllocation ft am' = Some p <->
      getAllocation ft am = Some p /\
      exists a, objects am !! p = Some a /\ now < expiry (timer_ (base a)).
Proof.
  intros Hm Hs. pose proof (manager_well_formed_reachable _ _ _ _ Hm Hs) as Hwf. simpl in Hwf.
  destruct (drain_exact now am (wf_armed _ Hwf)) as (am' & Hr & Ha & Hq & Hex).
  exists am'. split; [done|]. split; [done|]. intros ft p.
  destruct (rtc_completes_objects _ _ _ Hr) as [Ho Hsub]. split.
  - intros Hp. assert (getAllocation ft am = Some p) as Hp0.
    { rewrite getAllocation_lookup in *. by eapply lookup_weaken. }
    split; [done|]. pose proof Hp0 as Hp1. rewrite getAllocation_lookup in Hp1.
    destruct (wf_session _ Hwf _ _ Hp1) as (a & Hoa & _). exists a. split; [done|].
    apply (Hex ft (timer_ (base a))), timers_session. exists p, a. by rewrite Ho.
  - intros [Hp (a & Hoa & Hlt)]. assert (timers am' !! ft = Some (timer_ (base a))) as Ht.
    { apply Hex. split; [|done]. apply timers_session. by exists p, a. }
    apply timers_session in Ht as (p' & a' & Hp' & _ & _).
    assert (getAllocation ft am = Some p') as Hp2.
    { rewrite getAllocation_lookup in *. by eapply lookup_weaken. }
    congruence.
Qed.

(** C35.  Nothing but an error on its own socket ends the relaying of an
    allocation: whatever happens after it was made, the expiry of its
    five-tuple, its replacement there, the removal of its entry and the
    failures of other allocations included, its reader and its writer both
    run if and only if no operation on its socket has failed, its queue is
    open, and while they run a datagram from any peer with a permission goes
    on reaching the client it was made for. *)
Theorem allocation_never_stops now0 config am0 env rng now ft fam policy lifetime
    am p ot am1 log s :
  make config = Ok am0 -> rtc step (now0, am0) (now, am) ->
  createAllocation env rng now ft fam policy lifetime am = Ok (Some p, ot, am1) ->
  run (now, am1) log s ->
  exists a, objects s.2 !! p = Some a /\ channel_open a = true /\
    (reader_runs a && writer_runs a = true <-> fails p ∉ log) /\
    forall tid datagram peer_addr peer_port, hasPermission peer_addr (base a) = true ->
      getChannelByAddress iteration
        {| address := peer_addr; port := peer_port; protocol := UDP |} a = None ->
      exists m, (reader iteration no_error tid datagram (peer_addr, peer_port) a).2
        = Some (m, endpoint ft).
Proof.
  intros Hm Hs Hc Hr. pose proof (manager_well_formed_reachable _ _ _ _ Hm Hs) as Hwf. simpl in Hwf.
  pose proof (well_formed_createAllocation _ _ _ _ _ _ _ _ _ _ _ Hwf Hc) as Hwf1.
  assert (running p ft true am1) as Hrun.
  { apply createAllocation_cases in Hc
      as [(_ & ? & _) | (r & rm & _ & _ & Hp & -> & _)]; [done|]. injection Hp as ->.
    pose proof (install_spec now lifetime ft (primary r) (set_reservation_manager rm am)) as Hi.
    destruct (install _ _ _ _ _) as [q am2].
    destruct Hi as (-> & _ & _ & _ & _ & _ & a & Ho & Hft & _ & Hst & Hop & Hrr & Hwr & _).
    exists a. cbn. by rewrite Ho, lookup_insert_eq, Hrr, Hwr. }
  assert (well_formed s.2 /\ running p ft (bool_decide (fails p ∉ log)) s.2) as [_ Hrun'].
  { induction Hr as [|log s1 l s2 _ [Hwf2 Hrun2] Hst]; [done|].
    split; [by eapply manager_well_formed_step_by|].
    pose proof (running_step _ _ _ _ _ _ Hst Hwf2 Hrun2) as Hrun3.
    replace (bool_decide (fails p ∉ l :: log)) with
      (bool_decide (fails p ∉ log) && negb (bool_decide (l = fails p))); [done|].
    rewrite <-bool_decide_not, <-bool_decide_and. apply bool_decide_ext.
    rewrite not_elem_of_cons. split; intros [? ?]; split; congruence. }
  destruct Hrun' as (a & Ha & Hft & _ & Ho & Hup). exists a. split_and!; [done|done| |].
  - rewrite Hup. apply bool_decide_eq_true.
  - intros tid dg pa pp Hperm Hno. unfold reader, processPeerMessage. cbn [snd fst].
    unfold getChannelByAddress in Hno. cbn. rewrite Hno, Hperm, Hft. by eexists.
Qed.

(** C38.  Reservations never expire: the port reserved by an Allocate request
    is kept with an expiry [reservation_lifetime] seconds ahead and a wait on
    its timer, but the handler of that wait finds no owner of the manager.
    Whatever happens, that handler and all the others included, a token
    that has not been claimed stays in the map and can be claimed at any
    time, long after that expiry. *)
Theorem reservation_never_expires now0 config am0 env rng now ft fam policy lifetime
    am p token am1 log s :
  make config = Ok am0 -> rtc step (now0, am0) (now, am) ->
  createAllocation env rng now ft fam policy lifetime am = Ok (Some p, Some token, am1) ->
  run (now, am1) log s -> claims token ∉ log ->
  exists r,
    expiry_time r = now + seconds (reservation_lifetime_ (reservation_manager_ am)) /\
    {| wait_id := timer_id (ReservationManager.timer_ r); wait_due := expiry_time r;
       wait_key := token |} ∈ waits (ReservationManager.timer_calls (reservation_manager_ am1)) /\
    reservations_ (reservation_manager_ s.2) !! token = Some r /\
    forall ft' lifetime', exists p',
      (claimReservation s.1 token ft' lifetime' s.2).1 = Some p'.
Proof.
  intros Hm Hs Hc Hr Hlog.
  pose proof (manager_well_formed_reachable _ _ _ _ Hm Hs) as Hwf. simpl in Hwf.
  pose proof (well_formed_createAllocation _ _ _ _ _ _ _ _ _ _ _ Hwf Hc) as Hwf1.
  apply createAllocation_cases in Hc as [(_ & ? & _) | (g & rm & _ & _ & _ & -> & Hsec)]; [done|].
  destruct (secondary_ g) as [sk|]; [|by destruct Hsec].
  destruct Hsec as (tok & pos & [= <-] & (_ & _ & _ & r & Hrm & _ & Hexp & Ht & Hw)
    %createReservation_Some).
  pose proof (install_spec now lifetime ft (primary g) (set_reservation_manager rm am)) as Hi.
  destruct (install _ _ _ _ _) as [q am2]. destruct Hi as (_ & _ & _ & _ & Erm & _).
  cbn [snd set_reservation_manager reservation_manager_] in *. rewrite Erm.
  assert (well_formed s.2 /\
          reservations_ (reservation_manager_ s.2) !! token = Some r) as [_ Hkept].
  { induction Hr as [|log s1 l s2 _ IH Hst].
    - split; [done|]. cbn. by rewrite Erm, Hrm, lookup_insert_eq.
    - apply not_elem_of_cons in Hlog as [Hne Hlog]. destruct (IH Hlog) as [Hwf2 Hk].
      split; [by eapply manager_well_formed_step_by | by eapply reservations_step]. }
  exists r. split_and!; [done| |done|].
  - rewrite <-Ht. exact Hw.
  - intros ft' lifetime'. unfold claimReservation, ReservationManager.claimReservation.
    rewrite Hkept. destruct (install _ _ _ _ _) as [p' am']. by exists p'.
Qed.
End AllocationManager.

(** ** Witnesses *)

Section witnesses.
#[local] Existing Instance plain_ip.
#[local] Instance example_codec : Stunxx := plain_stunxx (fun _ => None).

(** The default configuration with a user, and with the addresses in the form
    [Instances.plain_ip] reads. *)
Definition example_config : Config :=
  {| network := {| bind_address := [x04; x7f; x00; x00; x01]; bind_port := 3478 |};
     auth := {| realm := to_bytes "example.com"; nonce_lifetime := 600;
                users := {[ to_bytes "user" := to_bytes "pass" ]} |};
     turn := {| allocation_lifetime := 600; max_allocation_lifetime := 3600;
                channel_lifetime := 600; permission_lifetime := 300;
                reservation_lifetime := 300; relay_ip := [x04; x7f; x00; x00; x01];
                relay_port_min := 49152; relay_port_max := 65535 |};
     logging := default_logging |}.

Definition example_manager : AllocationManager :=
  {| config_ := example_config; session_map_ := ∅; objects := ∅; next_object := 0;
     timer_calls := no_timers;
     reservation_manager_ := ReservationManager.make false 300;
     relay_address_generator_ := default_generator |}.

Lemma make_example : make example_config = Ok example_manager.
Proof. reflexivity. Qed.

Definition example_create (policy : PortPolicy)
    : option nat * option ReservationToken * AllocationManager :=
  match createAllocation example_env counting 0 example_tuple IPv4 policy 600
          example_manager with
  | Ok r => r
  | Err _ => (None, None, example_manager)
  end.

Lemma example_create_any :
  createAllocation example_env counting 0 example_tuple IPv4 Any 600 example_manager =
    Ok (Some 0%nat, None, (example_create Any).2).
Proof. reflexivity. Qed.

Lemma example_create_pair :
  createAllocation example_env counting 0 example_tuple IPv4 EvenAndReserveNext 600
    example_manager =
    Ok (Some 0%nat, Some (stream_token counting 0 0),
          (example_create EvenAndReserveNext).2).
Proof. reflexivity. Qed.

Lemma example_reachable :
  rtc (step map_to_list) (0, example_manager) (0, (example_create Any).2).
Proof. apply rtc_once. exists internal. eapply step_create, example_create_any. Qed.

Lemma example_perm (m : gmap Z ChannelManager.ChannelEntry) :
  map_to_list m ≡ₚ map_to_list m.
Proof. done. Qed.

Lemma session_map_sound_witness :
  exists a, objects (example_create Any).2 !! 0%nat = Some a /\ started a = true.
Proof.
  destruct (session_map_sound map_to_list example_perm 0 example_config example_manager 0
    (example_create Any).2 example_tuple 0%nat make_example example_reachable eq_refl)
    as ((a & Ha & _ & Hs & _) & _).
  exists a. split; [exact Ha | exact Hs].
Defined.

Lemma createAllocation_functional_witness :
  exists p a, objects (example_create Any).2 = <[p := a]> ∅ /\
    49152 <= port_of a <= 65535.
Proof.
  destruct (createAllocation_functional example_env counting 0 example_tuple IPv4 Any 600
    example_manager _ _ _ (manager_well_formed_make _ _ make_example) default_generator_ports_ok
    example_env_ok (default_generator_suitable _) example_create_any)
    as [(H & _) | (p & a & _ & _ & Ho & _ & _ & _ & _ & [Hs _] & _)]; [discriminate H|].
  exists p, a. split; [exact Ho | exact Hs].
Defined.

Lemma reserved_pair_witness :
  (claimReservation 5 (stream_token counting 0 0) example_tuple 600
     (example_create EvenAndReserveNext).2).1 <> None.
Proof.
  pose proof (reserved_pair example_env counting 0 example_tuple IPv4 600 example_manager
    0%nat _ _ 5 example_tuple 600 (manager_well_formed_make _ _ make_example) default_generator_ports_ok
    example_env_ok (default_generator_suitable _) example_create_pair) as H.
  destruct (claimReservation _ _ _ _ _) as [c am2].
  destruct H as (p' & _ & _ & -> & _). discriminate.
Defined.

Lemma session_expiry_exact_witness :
  exists am', quiescent 0 am' /\ getAllocation example_tuple am' = Some 0%nat.
Proof.
  destruct (session_expiry_exact map_to_list example_perm 0 example_config example_manager 0
    (example_create Any).2 make_example example_reachable) as (am' & _ & Hq & Hex).
  exists am'. split; [exact Hq|]. apply Hex. split; [reflexivity|].
  eexists. split; reflexivity.
Defined.

(** The allocation still runs after its entry has been taken off. *)
Definition expired_manager : AllocationManager :=
  expireAllocation (seconds 600) example_tuple (example_create Any).2.

Lemma expired_manager_run :
  run map_to_list (0, (example_create Any).2) [internal; internal]
    (seconds 600, expired_manager).
Proof.
  eapply run_step; [eapply run_step; [apply run_start|]|].
  - by apply (step_clock _ 0 (seconds 600)).
  - apply (step_expire _ (seconds 600) example_tuple).
Qed.

Lemma allocation_never_stops_witness :
  getAllocation example_tuple expired_manager = None /\
  exists a, objects expired_manager !! 0%nat = Some a /\
    reader_runs a && writer_runs a = true.
Proof.
  split; [reflexivity|].
  destruct (allocation_never_stops map_to_list example_perm 0 example_config example_manager
    example_env counting 0 example_tuple IPv4 Any 600 example_manager 0%nat None
    (example_create Any).2 [internal; internal] (seconds 600, expired_manager)
    make_example (rtc_refl _ _) example_create_any expired_manager_run)
    as (a & Ha & _ & Hup & _).
  exists a. split; [exact Ha|]. apply Hup. intros H.
  apply elem_of_cons in H as [H|[H|H]%elem_of_cons];
    [discriminate H | discriminate H | by apply elem_of_nil in H].
Defined.

(** The handler of the reservation has run, and the token is still good. *)
Definition paired_manager : AllocationManager := (example_create EvenAndReserveNext).2.

Definition late_reservations : ReservationManager socket :=
  let rm := reservation_manager_ paired_manager in
  run_wait (seconds 300)
    {| wait_id := 1; wait_due := seconds 300; wait_key := stream_token counting 0 0 |}
    no_error rm.

Lemma late_reservations_run :
  run map_to_list (0, paired_manager) [internal; internal]
    (seconds 300, set_reservation_manager late_reservations paired_manager).
Proof.
  eapply run_step; [eapply run_step; [apply run_start|]|].
  - by apply (step_clock _ 0 (seconds 300)).
  - apply step_reservation, completes_intro; [|by split].
    change (waits (service (reservation_manager_ paired_manager))) with
      [{| wait_id := 1; wait_due := seconds 300; wait_key := stream_token counting 0 0 |}].
    by apply list_elem_of_singleton.
Qed.

Lemma reservation_never_expires_witness :
  waits (ReservationManager.timer_calls late_reservations) = [] /\
  exists p', (claimReservation (seconds 300) (stream_token counting 0 0) example_tuple 600
    (set_reservation_manager late_reservations paired_manager)).1 = Some p'.
Proof.
  split; [reflexivity|].
  destruct (reservation_never_expires map_to_list example_perm 0 example_config
    example_manager example_env counting 0 example_tuple IPv4 EvenAndReserveNext 600
    example_manager 0%nat (stream_token counting 0 0) paired_manager [internal; internal]
    (seconds 300, set_reservation_manager late_reservations paired_manager)
    make_example (rtc_refl _ _) example_create_pair late_reservations_run)
    as (r & _ & _ & _ & Hclaim).
  - intros H. apply elem_of_cons in H as [H|[H|H]%elem_of_cons];
      [discriminate H | discriminate H | by apply elem_of_nil in H].
  - apply Hclaim.
Defined.
End witnesses.
