(* ===== verification/StunTurnProcessor.v ===== *)
(** * The request handlers: server/core/StunTurnProcessor

    How a packet of a client is demultiplexed, authenticated and answered.  A
    handler transforms the world, which is the allocation manager and the
    packets handed to the server's [asyncSend]; it may end with an exception.
    A handler is one step: there is one reader of client packets, which waits
    for each handler before it receives again.  What the relays and timers do
    on other threads while a handler runs is not modelled. *)

From Stdlib Require Import ZArith Lia Strings.Byte.
From stdpp Require Import base gmap list strings.
From S2P Require Import Prelude Asio Instances TimedTable.
From S2P Require Import RelayAddressGenerator ReservationManager.
From S2P Require Import Config OpenSSL Stunxx AuthKey Authenticator.
From S2P Require Import Endpoint Message Allocation AllocationManager.

Section StunTurnProcessor.
Context {ip : IpAddress} {sx : Stunxx} {ssl : OpenSSL}.
Context (iteration : gmap Z ChannelManager.ChannelEntry ->
                     list (Z * ChannelManager.ChannelEntry)).

Record StunTurnProcessor : Type := {
  authenticator_ : Authenticator;
  config_ : Config
}.

(** The constructor: the authenticator draws its secret key. *)
Definition make (random : option bytes) (config : Config) : result StunTurnProcessor :=
  match Authenticator.make random config with
  | Ok a => Ok {| authenticator_ := a; config_ := config |}
  | Err e => Err e
  end.

(** What the handlers change: the allocation manager, and the packets given
    to [sendPacket_], in order. *)
Record World : Type := {
  allocation_manager_ : AllocationManager;
  sent : list (Message * Endpoint)
}.

(** What the surroundings answer while a packet is processed: the steady
    clock in nanoseconds, the Unix time in seconds, the answers to the relay
    address generator and the random bytes. *)
Record surroundings : Type := {
  now : Z;
  unix_now : Z;
  relay : relay_env;
  rng : nat -> byte
}.

Context (self : StunTurnProcessor) (env : surroundings).

Definition sendPacket_ (message : Message) (endpoint : Endpoint) : M World unit :=
  modify (fun w => {| allocation_manager_ := allocation_manager_ w;
                      sent := sent w ++ [(message, endpoint)] |}).

Definition set_manager (am : AllocationManager) : M World unit :=
  modify (fun w => {| allocation_manager_ := am; sent := sent w |}).

(** The allocation a pointer designates, and its update. *)
Definition deref (p : nat) : M World UdpAllocation :=
  w ← get;
  of_option (undefined_behaviour "dangling allocation")
    (objects (allocation_manager_ w) !! p).

Definition store (p : nat) (a : UdpAllocation) : M World unit :=
  w ← get;
  let am := allocation_manager_ w in
  set_manager (set_objects (<[p := a]> (objects am)) (timer_calls am) am).

Definition getAllocation (five_tuple : FiveTuple) : M World (option nat) :=
  gets (fun w => AllocationManager.getAllocation five_tuple (allocation_manager_ w)).

(** [builder.add<MessageIntegrity...Attr>(auth->span())] *)
Definition add_message_integrity (auth : AuthKey) (builder : StunMessage) : StunMessage :=
  if bool_decide (algorithm_ auth = SHA256)
  then add (MessageIntegritySHA256 (span auth)) builder
  else add (MessageIntegritySHA1 (span auth)) builder.

(** The response [sendErrorMessage] builds. *)
Definition error_message (decoder : Decoder) (ec : StunErrorCode)
    (auth_key : option AuthKey) : StunMessage :=
  let builder :=
    add (ErrorCode ec)
      (StunMessageBuilder (messageMethod decoder) ErrorResp (transactionId decoder)) in
  let builder :=
    if bool_decide (ec = Unauthenticated) || bool_decide (ec = StaleNonce) then
      add (PasswordAlgorithms supportedAlgorithms)
        (add (Nonce (generateNonce (unix_now env) 0 (authenticator_ self)))
          (add (Realm (realm (auth (config_ self)))) builder))
    else builder in
  match auth_key with
  | Some key => add_message_integrity key builder
  | None => builder
  end.

Definition sendErrorMessage (decoder : Decoder) (ec : StunErrorCode)
    (endpoint : Endpoint) (auth_key : option AuthKey) : M World unit :=
  let builder := error_message decoder ec auth_key in
  if negb (builder_valid builder) then mret tt
  else sendPacket_ (finalize builder) endpoint.

(** An error response, after which the handler has no result. *)
Definition refuse {A} (decoder : Decoder) (ec : StunErrorCode) (endpoint : Endpoint)
    (auth_key : option AuthKey) : M World (option A) :=
  sendErrorMessage decoder ec endpoint auth_key ;; mret None.

(** [toAsioAddress]: the bytes are copied over an array of zeros, without a
    check of their number. *)
Definition toAsioAddress (addr : bytes) (address_family : AddressFamily)
    : result Address :=
  if bool_decide (address_family = IPv4) then
    if (4 <? length addr)%nat then Err (undefined_behaviour "copy past the end of v4")
    else Ok (from_v4 (memcpy (replicate 4 x00) addr))
  else
    if (16 <? length addr)%nat then Err (undefined_behaviour "copy past the end of v6")
    else Ok (from_v6 (memcpy (replicate 16 x00) addr)).

Definition computeLifetime (decoder : Decoder) : Z :=
  let default_lifetime := allocation_lifetime (turn (config_ self)) in
  let max_lifetime := max_allocation_lifetime (turn (config_ self)) in
  let lifetime := default_lifetime in
  match get_lifetime decoder with
  | Some value =>
      if 0 <? value then
        let computed := Z.min value max_lifetime in
        if default_lifetime <? computed then computed else lifetime
      else lifetime
  | None => lifetime
  end.

(** ** Authentication *)

(** Step 3 of [authenticate]: the algorithm of the key; [None] is the
    refusal with 400. *)
Definition choose_algorithm (decoder : Decoder) (nonce : bytes)
    : result (option PasswordAlgorithm) :=
  match hasPasswordAlgorithmsBit nonce with
  | Err e => Err e
  | Ok false => Ok (Some MD5)
  | Ok true =>
      match get_password_algorithm decoder, get_password_algorithms decoder with
      | None, None => Ok (Some MD5)
      | Some pw_algorithm, Some pw_algorithms =>
          if negb (validatePasswordAlgorithms pw_algorithms) then Ok None
          else if negb (algorithms_contain pw_algorithms pw_algorithm) then Ok None
          else Ok (Some pw_algorithm)
      | _, _ => Ok None
      end
  end.

(** Step 5: the key of the user. *)
Definition derive_key (chosen_algorithm : PasswordAlgorithm)
    (username realm password : bytes) : result AuthKey :=
  if bool_decide (chosen_algorithm = SHA256)
  then sha256 (computeSHA256Key username realm password)
  else md5 (computeMD5Key username realm password).

(** [std::span(decoder.getBuffer().data(), mi_header->offset -
    ATTR_HEADER_SIZE)]: the subtraction may wrap and the span may be longer
    than the buffer. *)
Definition message_up_to_mi (decoder : Decoder) (offset : nat) : result bytes :=
  if (offset <? ATTR_HEADER_SIZE)%nat then
    Err (undefined_behaviour "message_up_to_mi: offset below the attribute header")
  else if (length (getBuffer decoder) <? offset - ATTR_HEADER_SIZE)%nat then
    Err (undefined_behaviour "message_up_to_mi: offset past the buffer")
  else Ok (take (offset - ATTR_HEADER_SIZE) (getBuffer decoder)).

(** Step 6 of [authenticate], and the nonce. *)
Definition check_integrity (decoder : Decoder) (endpoint : Endpoint) (nonce : bytes)
    (chosen_algorithm : PasswordAlgorithm) (out_key : AuthKey)
    : M World (option AuthKey) :=
  let use_sha256 := bool_decide (chosen_algorithm = SHA256) in
  match (if use_sha256 then mi_sha256_offset decoder else mi_sha1_offset decoder) with
  | None => refuse decoder Unauthenticated endpoint (Some out_key)
  | Some offset =>
      received_hmac ← of_option (undefined_behaviour "empty message integrity attribute")
        (if use_sha256 then get_mi_sha256 decoder else get_mi_sha1 decoder);
      up_to_mi ← of_result (message_up_to_mi decoder offset);
      valid ← of_result (validateMessageIntegrity up_to_mi received_hmac (span out_key)
                           use_sha256);
      if negb valid then refuse decoder Unauthenticated endpoint (Some out_key)
      else
        fresh ← of_result (validateNonce (unix_now env) nonce (authenticator_ self));
        if negb fresh then refuse decoder StaleNonce endpoint (Some out_key)
        else mret (Some out_key)
  end.

(** Steps 2 to 5: the attributes, the algorithm, the user and the key. *)
Definition check_credentials (decoder : Decoder) (endpoint : Endpoint)
    : M World (option AuthKey) :=
  match get_username decoder, get_realm decoder, get_nonce decoder with
  | Some username, Some realm_value, Some nonce =>
      if negb (bool_decide (realm_value = realm (auth (config_ self)))) then
        refuse decoder BadRequest endpoint None
      else
        chosen ← of_result (choose_algorithm decoder nonce);
        match chosen with
        | None => refuse decoder BadRequest endpoint None
        | Some chosen_algorithm =>
            match getPassword username (authenticator_ self) with
            | None => refuse decoder Unauthenticated endpoint None
            | Some password =>
                out_key ← of_result
                  (derive_key chosen_algorithm username realm_value password);
                check_integrity decoder endpoint nonce chosen_algorithm out_key
            end
        end
  | _, _, _ => refuse decoder BadRequest endpoint None
  end.

Definition authenticate (decoder : Decoder) (endpoint : Endpoint)
    : M World (option AuthKey) :=
  let mi_sha1 := bool_decide (is_Some (get_mi_sha1 decoder)) in
  let mi_sha256 := bool_decide (is_Some (get_mi_sha256 decoder)) in
  if (negb mi_sha1 && negb mi_sha256) || (mi_sha1 && mi_sha256) then
    refuse decoder Unauthenticated endpoint None
  else check_credentials decoder endpoint.

(** ** Binding *)

Definition handleBindingRequest (decoder : Decoder) (five_tuple : FiveTuple)
    : M World unit :=
  let addr := makeStunAddress (client_address_ five_tuple) (client_port_ five_tuple) in
  let builder := StunMessageBuilder Binding SuccessResp (transactionId decoder) in
  let builder := add (Software (to_bytes "My STUN server"))
                   (add (XorMappedAddr addr) builder) in
  sendPacket_ (finalize builder) (endpoint five_tuple).

(** ** Allocate *)

(** [allocation->successMessage(success)], [success] being the finished
    builder, and its transmission. *)
Definition record_success (p : nat) (builder : StunMessage) (five_tuple : FiveTuple)
    : M World unit :=
  let success := finalize builder in
  a ← deref p;
  store p (set_base (set_successMessage success (base a)) a) ;;
  sendPacket_ success (endpoint five_tuple).

(** The response of both branches up to the mapped address. *)
Definition allocate_builder (decoder : Decoder) (five_tuple : FiveTuple)
    (relayed : Address) (relayed_port lifetime : Z) : StunMessage :=
  let alloc_addr := makeStunAddress relayed relayed_port in
  let relay_addr :=
    makeStunAddress (client_address_ five_tuple) (client_port_ five_tuple) in
  let builder := StunMessageBuilder Allocate SuccessResp (transactionId decoder) in
  add (XorMappedAddr relay_addr) (add (Lifetime lifetime) (add (XorRelayedAddr alloc_addr) builder)).

(** Step 5 with a reservation token that stands alone. *)
Definition allocate_reserved (decoder : Decoder) (five_tuple : FiveTuple)
    (auth : AuthKey) (token : ReservationToken) : M World unit :=
  let lifetime := computeLifetime decoder in
  w ← get;
  let '(allocation, am) :=
    claimReservation (now env) token five_tuple lifetime (allocation_manager_ w) in
  set_manager am ;;
  match allocation with
  | None => sendErrorMessage decoder InsufficientCapacity (endpoint five_tuple) (Some auth)
  | Some p =>
      a ← deref p;
      relayed ← of_option (system_error "make_address") (make_address (address_of a));
      record_success p
        (add_message_integrity auth
           (allocate_builder decoder five_tuple relayed (port_of a) lifetime))
        five_tuple
  end.

(** The lifetime, computed in place. *)
Definition allocate_lifetime (decoder : Decoder) : Z :=
  let default_lifetime := allocation_lifetime (turn (config_ self)) in
  let max_lifetime := max_allocation_lifetime (turn (config_ self)) in
  match get_lifetime decoder with
  | Some value =>
      if 0 <? value then
        let computed := Z.min value max_lifetime in
        if default_lifetime <? computed then computed else default_lifetime
      else default_lifetime
  | None => default_lifetime
  end.

(** From the lifetime to the end of the handler. *)
Definition allocate_new (decoder : Decoder) (five_tuple : FiveTuple) (auth : AuthKey)
    (alloc_family : AddressFamily) (port_policy : PortPolicy)
    (add_req_fam_attr : option AddressFamily) : M World unit :=
  let lifetime := allocate_lifetime decoder in
  w ← get;
  created ← of_result (createAllocation (relay env) (rng env) (now env) five_tuple
                         alloc_family port_policy lifetime (allocation_manager_ w));
  let '(allocation, reservation_token, am) := created in
  set_manager am ;;
  match allocation with
  | None =>
      sendErrorMessage decoder InsufficientCapacity (endpoint five_tuple) (Some auth)
  | Some p =>
      a ← deref p;
      relayed ← of_option (system_error "make_address") (make_address (address_of a));
      let builder :=
        allocate_builder decoder five_tuple relayed (port_of a) lifetime in
      let builder :=
        match add_req_fam_attr with
        | Some _ => add (AddressErrorCode IPv6 InsufficientCapacity) builder
        | None => builder
        end in
      let builder :=
        match reservation_token with
        | Some token => add (ReservationTokenAttr token) builder
        | None => builder
        end in
      record_success p (add_message_integrity auth builder) five_tuple
  end.

(** Steps 6 to 9: no reservation token. *)
Definition allocate_fresh (decoder : Decoder) (five_tuple : FiveTuple) (auth : AuthKey)
    : M World unit :=
  let error ec := sendErrorMessage decoder ec (endpoint five_tuple) (Some auth) in
  let even_port_attr := get_even_port decoder in
  let req_fam_attr := get_requested_family decoder in
  let add_req_fam_attr := get_additional_family decoder in
  if bool_decide (is_Some req_fam_attr) && bool_decide (is_Some add_req_fam_attr) then
    error BadRequest
  else
    let alloc_family := default IPv4 req_fam_attr in
    w ← get;
    if negb (supportsFamily alloc_family (allocation_manager_ w)) then
      error AddressFamNotSupported
    else if bool_decide (even_port_attr = Some true) &&
            bool_decide (is_Some add_req_fam_attr) then error BadRequest
    else if bool_decide (add_req_fam_attr = Some IPv4) then error BadRequest
    else
      let port_policy :=
        match even_port_attr with
        | Some reserve_pair => if reserve_pair : bool then EvenAndReserveNext else Even
        | None => Any
        end in
      allocate_new decoder five_tuple auth alloc_family port_policy add_req_fam_attr.

(** Step 2 with an allocation in use: a retransmission gets the response
    again, any other request is refused. *)
Definition allocate_again (decoder : Decoder) (five_tuple : FiveTuple) (auth : AuthKey)
    (p : nat) : M World unit :=
  a ← deref p;
  tid ← of_result (getTransactionId (base a));
  if bool_decide (transactionId decoder = tid) then
    sendPacket_ (successMessage (base a)) (endpoint five_tuple)
  else sendErrorMessage decoder AllocationMismatch (endpoint five_tuple) (Some auth).

Definition handleAllocationRequest (decoder : Decoder) (five_tuple : FiveTuple)
    : M World unit :=
  auth ← authenticate decoder (endpoint five_tuple);
  match auth with
  | None => mret tt
  | Some auth =>
      let error ec := sendErrorMessage decoder ec (endpoint five_tuple) (Some auth) in
      alloc ← getAllocation five_tuple;
      match alloc with
      | Some p => allocate_again decoder five_tuple auth p
      | None =>
          match get_requested_transport decoder with
          | None => error BadRequest
          | Some proto =>
              if negb (proto =? 17) then error UnsupportedTransport
              else if bool_decide (is_Some (get_dont_fragment decoder)) then
                error UnknownAttribute
              else
                match get_reservation_token decoder with
                | Some token =>
                    if bool_decide (is_Some (get_even_port decoder)) ||
                       bool_decide (is_Some (get_requested_family decoder)) ||
                       bool_decide (is_Some (get_additional_family decoder)) then
                      error BadRequest
                    else allocate_reserved decoder five_tuple auth token
                | None => allocate_fresh decoder five_tuple auth
                end
          end
      end
  end.

(** ** Refresh *)

Definition handleRefreshRequest (decoder : Decoder) (five_tuple : FiveTuple)
    : M World unit :=
  auth ← authenticate decoder (endpoint five_tuple);
  match auth with
  | None => mret tt
  | Some auth =>
      let error ec := sendErrorMessage decoder ec (endpoint five_tuple) (Some auth) in
      alloc ← getAllocation five_tuple;
      match alloc with
      | None => error AllocationMismatch
      | Some p =>
          a ← deref p;
          if match get_requested_family decoder with
             | Some family => Allocation.supportsFamily family a
             | None => false
             end
          then error AddressFamNotSupported
          else
            let lifetime := computeLifetime decoder in
            w ← get;
            let am := allocation_manager_ w in
            let '(a, calls) := refresh_udp (now env) lifetime (timer_calls am) a in
            set_manager (set_objects (<[p := a]> (objects am)) calls am) ;;
            let builder := StunMessageBuilder Refresh SuccessResp (transactionId decoder) in
            let builder := add_message_integrity auth (add (Lifetime lifetime) builder) in
            sendPacket_ (finalize builder) (endpoint five_tuple)
      end
  end.

(** ** CreatePermission *)

(** The loop over the peer addresses; [false] when it is left early. *)
Fixpoint install_permissions (p : nat) (xor_addr_attrs : list XorPeerAddrAttr)
    : M World bool :=
  match xor_addr_attrs with
  | [] => mret true
  | xor_attr :: xor_addr_attrs =>
      w ← get;
      if negb (supportsFamily (xpa_family xor_attr) (allocation_manager_ w)) then mret false
      else
        address ← of_result (toAsioAddress (xpa_address xor_attr) (xpa_family xor_attr));
        a ← deref p;
        store p (set_base (addPermission (now env) address (base a)) a) ;;
        install_permissions p xor_addr_attrs
  end.

Definition handlePermissionRequest (decoder : Decoder) (five_tuple : FiveTuple)
    : M World unit :=
  auth ← authenticate decoder (endpoint five_tuple);
  match auth with
  | None => mret tt
  | Some auth =>
      alloc ← getAllocation five_tuple;
      match alloc with
      | None =>
          sendErrorMessage decoder AllocationMismatch (endpoint five_tuple) (Some auth)
      | Some p =>
          let xor_addr_attrs := get_xor_peers decoder in
          if bool_decide (xor_addr_attrs = []) then
            sendErrorMessage decoder BadRequest (endpoint five_tuple) None
          else
            installed ← install_permissions p xor_addr_attrs;
            if negb installed then
              sendErrorMessage decoder BadRequest (endpoint five_tuple) None
            else
              let builder :=
                StunMessageBuilder CreatePermission SuccessResp (transactionId decoder) in
              sendPacket_ (finalize (add_message_integrity auth builder))
                (endpoint five_tuple)
      end
  end.

(** ** ChannelBind *)

Definition handleChannelBindRequest (decoder : Decoder) (five_tuple : FiveTuple)
    : M World unit :=
  auth ← authenticate decoder (endpoint five_tuple);
  match auth with
  | None => mret tt
  | Some auth =>
      let error ec key := sendErrorMessage decoder ec (endpoint five_tuple) key in
      allocation ← getAllocation five_tuple;
      match allocation with
      | None => error AllocationMismatch (Some auth)
      | Some p =>
          match get_channel_number decoder, get_xor_peer decoder with
          | None, _ => error BadRequest None
          | Some _, None => error BadRequest None
          | Some channel_number, Some xor_peer_addr =>
              a ← deref p;
              if negb (Allocation.supportsFamily (xpa_family xor_peer_addr) a) then
                error AddressFamNotSupported (Some auth)
              else
                peer_address ← of_option (system_error "make_address")
                  (make_address (xpa_addressStr xor_peer_addr));
                let peer := {| address := peer_address; port := xpa_port xor_peer_addr;
                               protocol := UDP |} in
                let '(added, a) := addChannel iteration (now env) channel_number peer a in
                store p a ;;
                if negb added then error BadRequest (Some auth)
                else
                  let builder :=
                    StunMessageBuilder ChannelBind SuccessResp (transactionId decoder) in
                  sendPacket_ (finalize (add_message_integrity auth builder))
                    (endpoint five_tuple)
          end
      end
  end.

(** ** Data of the client *)

(** [allocation->sendToPeer]: the exception of a closed queue goes on. *)
Definition send_to_peer (p : nat) (message : Message) (peer : Endpoint) : M World unit :=
  a ← deref p;
  let '(a, r) := sendToPeer message peer a in
  store p a ;;
  of_result r.

(** The packet is decoded from the whole buffer. *)
Definition handleChannelData (message : Message) (five_tuple : FiveTuple)
    : M World unit :=
  match ChannelData_decode (buffer message) with
  | None => mret tt
  | Some channel_data =>
      allocation ← getAllocation five_tuple;
      match allocation with
      | None => mret tt
      | Some p =>
          a ← deref p;
          match getPeerByChannel (channel channel_data) a with
          | None => mret tt
          | Some peer_endpoint =>
              match ChannelData_encodeData channel_data with
              | None => mret tt
              | Some written =>
                  let peer_message :=
                    {| size := ChannelData_payloadLength channel_data;
                       buffer := memcpy zero_buffer written |} in
                  send_to_peer p peer_message peer_endpoint
              end
          end
      end
  end.

Definition handleSendIndication (decoder : Decoder) (five_tuple : FiveTuple)
    : M World unit :=
  allocation ← getAllocation five_tuple;
  match allocation with
  | None => mret tt
  | Some p =>
      match get_data decoder, get_xor_peer decoder with
      | Some data, Some xor_peer_addr =>
          addr ← of_result
            (toAsioAddress (xpa_address xor_peer_addr) (xpa_family xor_peer_addr));
          let peer_endpoint := {| address := addr; port := xpa_port xor_peer_addr;
                                  protocol := UDP |} in
          match data_encode data with
          | None => mret tt
          | Some written =>
              let data_message := {| size := Z.of_nat (length data);
                                     buffer := memcpy zero_buffer written |} in
              send_to_peer p data_message peer_endpoint
          end
      | _, _ => mret tt
      end
  end.

(** ** The packet *)

(** A request of a method the server does not know is answered with 400; an
    unknown indication and any response are dropped. *)
Definition dispatch (decoder : Decoder) (five_tuple : FiveTuple) : M World unit :=
  match messageClass decoder with
  | Request =>
      match messageMethod decoder with
      | Binding => handleBindingRequest decoder five_tuple
      | Allocate => handleAllocationRequest decoder five_tuple
      | Refresh => handleRefreshRequest decoder five_tuple
      | CreatePermission => handlePermissionRequest decoder five_tuple
      | ChannelBind => handleChannelBindRequest decoder five_tuple
      | _ => sendErrorMessage decoder BadRequest (endpoint five_tuple) None
      end
  | Indication =>
      match messageMethod decoder with
      | Send => handleSendIndication decoder five_tuple
      | _ => mret tt
      end
  | _ => mret tt
  end.

Definition processPacket (message : Message) (five_tuple : FiveTuple) : M World unit :=
  if is_turn_channel_data (buffer message) then handleChannelData message five_tuple
  else if is_stun_message (buffer message) then
    match Decoder_parse (payload message) with
    | None => mret tt
    | Some decoder => dispatch decoder five_tuple
    end
  else mret tt.
End StunTurnProcessor.
