(* ===== verification/Examples.v ===== *)
(** * Example requests

    A processor with one user and requests of that user, for evaluating the
    handlers on concrete inputs.  The codec decodes every packet as the given
    request; the keyed hash is that of [OpenSSL.toy_ssl]. *)

From Stdlib Require Import ZArith Lia Strings.Byte.
From stdpp Require Import base gmap list strings.
From S2P Require Import Prelude Asio Instances TimedTable.
From S2P Require Import RelayAddressGenerator ReservationManager.
From S2P Require Import Config OpenSSL Stunxx AuthKey Authenticator.
From S2P Require Import Endpoint Message Allocation AllocationManager StunTurnProcessor.

Section examples.
#[local] Existing Instance plain_ip.

Definition example_processor : StunTurnProcessor :=
  {| authenticator_ := {| secret_key := [x01; x02; x03];
                          Authenticator.config_ := example_config |};
     config_ := example_config |}.

Definition example_surroundings : surroundings :=
  {| now := 0; unix_now := 1700000000; relay := example_env; rng := counting |}.

(** The header and the key of every example request. *)
Definition example_header : bytes := replicate 20 x00.

Definition example_key : bytes :=
  take 16 (to_bytes "user" ++ to_bytes "example.com" ++ to_bytes "pass" ++ replicate 16 x00).

Definition example_hmac : bytes :=
  default [] (EVP_MAC_HMAC (OpenSSL := good_ssl) SHA1_digest example_key
    (take 2 example_header ++ [x00; x18] ++ drop 4 example_header)).

Definition example_nonce : bytes :=
  generateNonce (ssl := good_ssl) 0 1700000600 (authenticator_ example_processor).

(** A request of the user, with peers and a channel number for the methods
    that look at them. *)
Definition example_peer_attr : XorPeerAddrAttr :=
  {| xpa_family := IPv4; xpa_address := [x0a; x00; x00; x02]; xpa_port := 7000;
     xpa_addressStr := [x04; x0a; x00; x00; x02] |}.

Definition example_foreign_attr : XorPeerAddrAttr :=
  {| xpa_family := IPv6; xpa_address := replicate 16 x01; xpa_port := 7000;
     xpa_addressStr := x06 :: replicate 16 x01 |}.

Definition example_request (method : StunMethod) (hmac : bytes)
    (peers : list XorPeerAddrAttr) : plain_decoder :=
  {| pd_class := Request;
     pd_method := method;
     pd_transaction := replicate 12 x07;
     pd_buffer := example_header ++ replicate 24 x00;
     pd_mi_sha1 := Some (24%nat, hmac);
     pd_username := Some (to_bytes "user");
     pd_realm := Some (to_bytes "example.com");
     pd_nonce := Some example_nonce;
     pd_transport := Some 17;
     pd_even_port := None;
     pd_requested_family := None;
     pd_reservation := None;
     pd_lifetime := Some 1200;
     pd_peers := peers;
     pd_channel := Some 0x4000;
     pd_data := Some [x2a] |}.

(** Data for a peer at port 0. *)
Definition example_indication : plain_decoder :=
  {| pd_class := Indication; pd_method := Send; pd_transaction := replicate 12 x07;
     pd_buffer := example_header; pd_mi_sha1 := None; pd_username := None;
     pd_realm := None; pd_nonce := None; pd_transport := None; pd_even_port := None;
     pd_requested_family := None; pd_reservation := None; pd_lifetime := None;
     pd_peers := [{| xpa_family := IPv4; xpa_address := [x0a; x00; x00; x02]; xpa_port := 0;
                     xpa_addressStr := [x04; x0a; x00; x00; x02] |}];
     pd_channel := None; pd_data := Some [x2a] |}.

(** What a client of the user says, told apart by the second byte of the
    packet. *)
Definition conversation (b : bytes) : option plain_decoder :=
  match b with
  | _ :: x03 :: _ => Some (example_request Allocate example_hmac [example_peer_attr])
  | _ :: x08 :: _ => Some (example_request CreatePermission example_hmac [example_peer_attr])
  | _ :: x16 :: _ => Some example_indication
  | _ => None
  end.

(** Every packet decodes as [d]. *)
Definition example_codec (d : plain_decoder) : Stunxx := plain_stunxx (fun _ => Some d).

Definition example_auth_key : AuthKey :=
  {| algorithm_ := MD5; key_ := memcpy (replicate 32 x00) example_key; key_len_ := 16 |}.

Definition example_world : World :=
  {| allocation_manager_ := example_manager; sent := [] |}.

Definition example_packet : Message := Message.make [x00; x03].
End examples.
