(* ===== verification/ProcessorFacts.v ===== *)
(** * Authentication, and what every packet respects

    Properties of the handlers of [StunTurnProcessor] that hold whatever the
    packet: how requests are authenticated, that a request that is not changes
    nothing, which packets can make a handler throw or be undefined and that
    all of them leave the state well-formed, that the allocations of other
    clients are untouched, and that the client gets one answer at most. *)

From Stdlib Require Import ZArith Lia Strings.Byte.
From stdpp Require Import base gmap list strings relations.
From S2P Require Import Prelude Asio Instances TimedTable.
From S2P Require Import RelayAddressGenerator ReservationManager.
From S2P Require Import Config OpenSSL Stunxx AuthKey Authenticator.
From S2P Require Import Endpoint Message Allocation AllocationManager StunTurnProcessor.
From S2P Require Import Examples.

(** ** Symbolic execution of handlers *)

(** Runs a computation as far as the equations at hand tell. *)
Ltac exec :=
  intros;
  cbv beta iota delta [mbind M_bind of_result of_option mret M_ret throw get];
  repeat match goal with
  | H : ?x = _ |- context [?x] => rewrite H; cbv beta iota
  end;
  try done.

Section execution.
Context {ip : IpAddress} {sx : Stunxx} {ssl : OpenSSL}.
Context {A B : Type}.
Implicit Types (w : World) (Q : result A -> World -> Prop).

Lemma wp_ret (a : A) Q w : Q (Ok a) w -> wp (mret a) Q w.
Proof. done. Qed.

Lemma wp_get (k : World -> M World A) Q w : wp (k w) Q w -> wp (get ≫= k) Q w.
Proof. done. Qed.

Lemma wp_of_result (b : B) (k : B -> M World A) Q w r :
  r = Ok b -> wp (k b) Q w -> wp (of_result r ≫= k) Q w.
Proof. by intros ->. Qed.

Lemma wp_of_option e (b : B) (k : B -> M World A) Q w o :
  o = Some b -> wp (k b) Q w -> wp (of_option e o ≫= k) Q w.
Proof. by intros ->. Qed.

(** A call that may raise an exception. *)
Lemma wp_of_result_any (r : result B) (k : B -> M World A) Q w :
  (forall b, r = Ok b -> wp (k b) Q w) -> (forall e, r = Err e -> Q (Err e) w) ->
  wp (of_result r ≫= k) Q w.
Proof. destruct r as [b|e]; intros Hok Herr; [by apply Hok | by apply Herr]. Qed.

Lemma wp_of_option_any e (o : option B) (k : B -> M World A) Q w :
  (forall b, o = Some b -> wp (k b) Q w) -> (o = None -> Q (Err e) w) ->
  wp (of_option e o ≫= k) Q w.
Proof. destruct o as [b|]; intros Hok Herr; [by apply Hok | by apply Herr]. Qed.

Lemma wp_deref p a (k : UdpAllocation -> M World A) Q w :
  objects (allocation_manager_ w) !! p = Some a -> wp (k a) Q w -> wp (deref p ≫= k) Q w.
Proof.
  intros Ha Hk. unfold wp, deref, mbind, M_bind, get. simpl. by rewrite Ha.
Qed.

Lemma deref_eq p a w :
  objects (allocation_manager_ w) !! p = Some a -> deref p w = (w, Ok a).
Proof. intros Ha. unfold deref, mbind, M_bind, get. simpl. by rewrite Ha. Qed.

Lemma wp_getAllocation ft (k : option nat -> M World A) Q w :
  wp (k (AllocationManager.getAllocation ft (allocation_manager_ w))) Q w ->
  wp (getAllocation ft ≫= k) Q w.
Proof. done. Qed.

Lemma wp_set_manager am (k : M World A) Q w :
  wp k Q {| allocation_manager_ := am; sent := sent w |} -> wp (set_manager am ;; k) Q w.
Proof. done. Qed.

Lemma wp_store p a (k : M World A) Q w :
  let am := allocation_manager_ w in
  wp k Q {| allocation_manager_ :=
              set_objects (<[p := a]> (objects am)) (timer_calls am) am;
            sent := sent w |} ->
  wp (store p a ;; k) Q w.
Proof. done. Qed.
End execution.

(** Closes the side conditions of a case: facts are taken apart, and what
    contradicts or determines is used. *)
Ltac settle :=
  repeat match goal with
  | |- forall _, _ => intro
  | |- _ <-> _ => split
  | |- ~ _ => intro
  | H : _ /\ _ |- _ => destruct H
  | H : exists _, _ |- _ => destruct H
  | H : is_Some _ |- _ => destruct H
  end;
  simplify_eq; (congruence || eauto 12).

(** ** Authentication *)

Section authentication.
Context {ip : IpAddress} {sx : Stunxx} {ssl : OpenSSL}.
Context (self : StunTurnProcessor) (env : surroundings).
Implicit Types (w : World) (d : Decoder) (ep : Endpoint).

(** What [authenticate] decides of a request; it does not depend on the
    world. *)
Inductive verdict : Type :=
| accepted (key : AuthKey)
| refused (ec : StunErrorCode) (auth_key : option AuthKey)
| thrown (e : exn).

Definition run_verdict (v : verdict) (d : Decoder) (ep : Endpoint)
    : M World (option AuthKey) :=
  match v with
  | accepted key => mret (Some key)
  | refused ec key => refuse self env d ec ep key
  | thrown e => throw e
  end.

(** The keyed hash of the request is right, under the algorithm [alg]. *)
Definition integral (d : Decoder) (alg : PasswordAlgorithm) (key : AuthKey) : Prop :=
  exists offset hmac m,
    let use_sha256 := bool_decide (alg = SHA256) in
    (if use_sha256 then mi_sha256_offset d else mi_sha1_offset d) = Some offset /\
    (if use_sha256 then get_mi_sha256 d else get_mi_sha1 d) = Some hmac /\
    message_up_to_mi d offset = Ok m /\
    validateMessageIntegrity m hmac (span key) use_sha256 = Ok true.

(** The request names the realm and a user, with a nonce that is fresh, and
    its hash is right under the key of that user. *)
Definition credible (d : Decoder) (key : AuthKey) : Prop :=
  exists username nonce alg password,
    get_username d = Some username /\
    get_realm d = Some (realm (auth (StunTurnProcessor.config_ self))) /\
    get_nonce d = Some nonce /\
    choose_algorithm d nonce = Ok (Some alg) /\
    getPassword username (authenticator_ self) = Some password /\
    derive_key alg username (realm (auth (StunTurnProcessor.config_ self))) password
      = Ok key /\
    validateNonce (unix_now env) nonce (authenticator_ self) = Ok true /\
    integral d alg key.

Definition one_integrity (d : Decoder) : Prop :=
  (is_Some (get_mi_sha1 d) /\ get_mi_sha256 d = None) \/
  (get_mi_sha1 d = None /\ is_Some (get_mi_sha256 d)).

Definition authentic (d : Decoder) (key : AuthKey) : Prop :=
  one_integrity d /\ credible d key.

Definition auth_error (ec : StunErrorCode) : Prop :=
  ec = BadRequest \/ ec = Unauthenticated \/ ec = StaleNonce.

(** A computation decides what [P] says. *)
Definition decides (m : Endpoint -> M World (option AuthKey)) (d : Decoder)
    (P : AuthKey -> Prop) : Prop :=
  exists v, (forall ep w, m ep w = run_verdict v d ep w) /\
    (forall ec k, v = refused ec k -> auth_error ec) /\
    (forall k, v = accepted k <-> P k).

Lemma decides_refuse d ec key P :
  auth_error ec -> (forall k, ~ P k) ->
  decides (fun ep => refuse self env d ec ep key) d P.
Proof.
  intros Hec Hno. exists (refused ec key). split_and!; settle. by destruct (Hno k).
Qed.

Lemma decides_throw d e P m :
  (forall ep w, m ep w = (w, Err e)) -> (forall k, ~ P k) -> decides m d P.
Proof. intros Hm Hno. exists (thrown e). split_and!; settle. by destruct (Hno k). Qed.

Lemma decides_ext d m m' P P' :
  (forall ep w, m ep w = m' ep w) -> (forall k, P k <-> P' k) ->
  decides m' d P' -> decides m d P.
Proof.
  intros Hm HP (v & Hv & Hr & Ha). exists v. split_and!; [|done|].
  - intros ep w. by rewrite Hm.
  - intros k. by rewrite HP.
Qed.

Lemma decides_eq d m m' P :
  (forall ep w, m ep w = m' ep w) -> decides m' d P -> decides m d P.
Proof. intros Hm. by apply decides_ext. Qed.

Lemma check_integrity_decides d nonce alg key :
  decides (fun ep => check_integrity self env d ep nonce alg key) d
    (fun k => k = key /\
      validateNonce (unix_now env) nonce (authenticator_ self) = Ok true /\
      integral d alg key).
Proof.
  unfold check_integrity, integral. cbv zeta. set (b := bool_decide (alg = SHA256)).
  destruct (if b then mi_sha256_offset d else mi_sha1_offset d) as [offset|];
    [|apply decides_refuse; [by right; left|]; settle].
  destruct (if b then get_mi_sha256 d else get_mi_sha1 d) as [hmac|];
    [|eapply decides_throw; [done|]; settle].
  destruct (message_up_to_mi d offset) as [m|e] eqn:Em;
    [|apply (decides_throw _ e); [by exec|]; settle].
  destruct (validateMessageIntegrity m hmac (span key) b) as [[]|e] eqn:Ev;
    [ | exists (refused Unauthenticated (Some key)) | exists (thrown e)];
    [|split_and!; [by exec|unfold auth_error; settle|settle]..].
  destruct (validateNonce (unix_now env) nonce (authenticator_ self)) as [[]|e] eqn:En;
    [ exists (accepted key) | exists (refused StaleNonce (Some key)) | exists (thrown e)];
    (split_and!; [by exec|unfold auth_error; settle|settle]).
Qed.

Lemma check_credentials_decides d :
  decides (fun ep => check_credentials self env d ep) d (credible d).
Proof.
  unfold check_credentials, credible.
  destruct (get_username d) as [user|]; [|apply decides_refuse; [by left|]; settle].
  destruct (get_realm d) as [rlm|]; [|apply decides_refuse; [by left|]; settle].
  destruct (get_nonce d) as [nonce|]; [|apply decides_refuse; [by left|]; settle].
  case_bool_decide as Hr; [subst rlm|apply decides_refuse; [by left|]; settle].
  cbn [negb].
  destruct (choose_algorithm d nonce) as [[alg|]|e] eqn:Ec;
    [| |apply (decides_throw _ e); [by exec|]; settle].
  2:{ apply (decides_eq _ _ (fun ep => refuse self env d BadRequest ep None)); [by exec|].
      apply decides_refuse; [by left|]; settle. }
  destruct (getPassword user (authenticator_ self)) as [password|] eqn:Ep.
  2:{ apply (decides_eq _ _ (fun ep => refuse self env d Unauthenticated ep None)); [by exec|].
      apply decides_refuse; [by right; left|]; settle. }
  destruct (derive_key alg user (realm (auth (StunTurnProcessor.config_ self))) password) as [key|e] eqn:Ek;
    [|apply (decides_throw _ e); [by exec|]; settle].
  eapply decides_ext; [| |apply (check_integrity_decides d nonce alg key)].
  - by exec.
  - intros k. split; [|intros (-> & ? & ?); by exists user, nonce, alg, password].
    intros (u & n & alg' & p & [= <-] & _ & [= <-] & Ec' & Ep' & Ek' & Hv & Hi).
    rewrite Ec in Ec'. injection Ec' as <-. rewrite Ep in Ep'. injection Ep' as <-.
    rewrite Ek in Ek'. by injection Ek' as <-.
Qed.

(** The verdict on a request: it is accepted exactly when it is authentic,
    and refused with 400, 401 or 438. *)
Lemma authenticate_decides d :
  decides (fun ep => authenticate self env d ep) d (authentic d).
Proof.
  unfold authenticate, authentic, one_integrity.
  destruct (get_mi_sha1 d) as [m1|] eqn:E1, (get_mi_sha256 d) as [m2|] eqn:E2; simpl.
  - apply decides_refuse; [by right; left|]. intros k [[[_ ?] | [? _]] _]; done.
  - eapply decides_ext; [done| |apply check_credentials_decides]. settle.
  - eapply decides_ext; [done| |apply check_credentials_decides]. settle.
  - apply decides_refuse; [by right; left|]. intros k [[[[? ?] _] | [_ [? ?]]] _]; done.
Qed.
End authentication.

(** ** What every packet respects *)

Section packets.
Context {ip : IpAddress} {ipl : IpAddressLaws ip} {sx : Stunxx} {sxl : StunxxLaws sx}.
Context {ssl : OpenSSL} {laws : OpenSSLLaws ssl}.
Context (iteration : gmap Z ChannelManager.ChannelEntry ->
                     list (Z * ChannelManager.ChannelEntry)).
Context (iteration_perm : forall m, iteration m ≡ₚ map_to_list m).
Context (self : StunTurnProcessor) (env : surroundings).
Implicit Types (w : World) (d : Decoder) (ep : Endpoint) (am : AllocationManager)
  (ft : FiveTuple).

(** *** Hazards

    What of a request, and of the configuration, can make a handler raise an
    exception or leave what C++ defines. *)

Definition needs_authentication (m : StunMethod) : Prop :=
  m = Allocate \/ m = Refresh \/ m = CreatePermission \/ m = ChannelBind.

(** The header and the value of an integrity attribute. *)
Definition mi_offset (d : Decoder) (sha256 : bool) : option nat :=
  if sha256 then mi_sha256_offset d else mi_sha1_offset d.

Definition mi_value (d : Decoder) (sha256 : bool) : option bytes :=
  if sha256 then get_mi_sha256 d else get_mi_sha1 d.

(** The place of the integrity attribute leaves a message header in front of
    it, inside the buffer. *)
Definition well_placed (d : Decoder) (o : nat) : Prop :=
  (24 <= o)%nat /\ (o - 4 <= length (getBuffer d))%nat.

(** A request whose integrity attribute has a header but no value that can be
    read, or a header at an impossible place. *)
Inductive integrity_hazard (d : Decoder) : exn -> Prop :=
| integrity_unreadable sha256 :
    is_Some (mi_offset d sha256) -> mi_value d sha256 = None ->
    integrity_hazard d (undefined_behaviour "empty message integrity attribute")
| integrity_misplaced sha256 o what :
    mi_offset d sha256 = Some o -> ~ well_placed d o ->
    integrity_hazard d (undefined_behaviour what).

Definition address_fits (x : XorPeerAddrAttr) : Prop :=
  (length (xpa_address x) <= if bool_decide (xpa_family x = IPv4) then 4 else 16)%nat.

(** The port policy of a request. *)
Definition policy_of (d : Decoder) : PortPolicy :=
  match get_even_port d with
  | Some true => EvenAndReserveNext
  | Some false => Even
  | None => Any
  end.

Definition distinct_tokens w : Prop :=
  forall i j, (i < j <= base.size (reservations_ (reservation_manager_
                (allocation_manager_ w))))%nat ->
    stream_token (rng env) 0 i <> stream_token (rng env) 0 j.

Inductive hazard (d : Decoder) (w : World) : exn -> Prop :=
| hazard_integrity e :
    messageClass d = Request -> needs_authentication (messageMethod d) ->
    integrity_hazard d e -> hazard d w e
| hazard_permission x key what :
    messageClass d = Request -> messageMethod d = CreatePermission ->
    authentic self env d key -> x ∈ get_xor_peers d -> ~ address_fits x ->
    hazard d w (undefined_behaviour what)
| hazard_send x what :
    messageClass d = Indication -> messageMethod d = Send ->
    get_xor_peer d = Some x -> ~ address_fits x -> hazard d w (undefined_behaviour what)
| hazard_channel x key :
    messageClass d = Request -> messageMethod d = ChannelBind ->
    authentic self env d key -> get_xor_peer d = Some x ->
    make_address (xpa_addressStr x) = None -> hazard d w (system_error "make_address")
| hazard_bounds key :
    let g := relay_address_generator_ (allocation_manager_ w) in
    messageClass d = Request -> messageMethod d = Allocate -> authentic self env d key ->
    dist_hi (policy_of d) g < dist_lo (policy_of d) g -> hazard d w bounds_out_of_order
| hazard_tokens key :
    messageClass d = Request -> messageMethod d = Allocate -> authentic self env d key ->
    policy_of d = EvenAndReserveNext -> ~ distinct_tokens w -> hazard d w out_of_fuel.

(** A hazard of a packet: it is decoded to a request that has one. *)
Definition packet_hazard (m : Message) w (e : exn) : Prop :=
  exists d, is_turn_channel_data (buffer m) = false /\
    Decoder_parse (payload m) = Some d /\ hazard d w e.

(** An assumption on the decoder, for the theorems that say what a request
    does: no request it hands out has one of the hazards that lie in its
    attributes.  The sources do not document it. *)
Definition integrity_inside (d : Decoder) (offset : option nat) (hmac : option bytes) : Prop :=
  forall o, offset = Some o ->
    (24 <= o)%nat /\ (o - 4 <= length (getBuffer d))%nat /\ is_Some hmac.

Record decoder_ok (d : Decoder) : Prop := {
  ok_sha1 : integrity_inside d (mi_sha1_offset d) (get_mi_sha1 d);
  ok_sha256 : integrity_inside d (mi_sha256_offset d) (get_mi_sha256 d);
  ok_peers : forall x, x ∈ get_xor_peers d -> address_fits x;
  ok_peer : forall x, get_xor_peer d = Some x ->
    address_fits x /\ is_Some (make_address (xpa_addressStr x))
}.

Lemma decoder_ok_integrity d e : decoder_ok d -> ~ integrity_hazard d e.
Proof.
  intros Hd [b [o Ho] Hv | b o what Ho Hp]; destruct b; cbn in *.
  - destruct (ok_sha256 _ Hd o Ho) as (_ & _ & [? ?]). congruence.
  - destruct (ok_sha1 _ Hd o Ho) as (_ & _ & [? ?]). congruence.
  - destruct (ok_sha256 _ Hd o Ho) as (? & ? & _). by apply Hp.
  - destruct (ok_sha1 _ Hd o Ho) as (? & ? & _). by apply Hp.
Qed.

(** With such a decoder and distinct tokens, bounds that are out of order are
    the only hazard left. *)
Lemma decoder_ok_hazard d w e :
  decoder_ok d -> distinct_tokens w -> hazard d w e ->
  let g := relay_address_generator_ (allocation_manager_ w) in
  messageMethod d = Allocate /\ dist_hi (policy_of d) g < dist_lo (policy_of d) g.
Proof.
  intros Hd Hw [e' _ _ Hi | x k what _ _ _ Hx Hf | x what _ _ Hx Hf | x k _ _ _ Hx Hn
    | | k _ _ _ _ Ht]; try done.
  - by apply decoder_ok_integrity in Hi.
  - by destruct Hf; apply (ok_peers _ Hd).
  - by destruct Hf; apply (ok_peer _ Hd).
  - destruct (ok_peer _ Hd x Hx) as [_ [? ?]]. congruence.
Qed.

Lemma refuse_ok {A} d ec ep key w :
  exists o, (refuse (A := A) self env d ec ep key w).2 = Ok o.
Proof. unfold refuse, sendErrorMessage. destruct (builder_valid _); by eexists. Qed.

Lemma choose_algorithm_ok d nonce : exists o, choose_algorithm d nonce = Ok o.
Proof.
  unfold choose_algorithm. destruct (hasPasswordAlgorithmsBit_ok nonce) as [[] ->];
    [|by eexists].
  destruct (get_password_algorithm d), (get_password_algorithms d); try by eexists.
  destruct (negb _); [by eexists|]. destruct (negb _); by eexists.
Qed.

Lemma derive_key_ok alg user rlm password :
  exists key, derive_key alg user rlm password = Ok key.
Proof.
  unfold derive_key. case_bool_decide; apply make_Ok.
  - by rewrite length_computeSHA256Key.
  - rewrite length_computeMD5Key. lia.
Qed.

Lemma message_up_to_mi_ok d o :
  well_placed d o -> exists m, message_up_to_mi d o = Ok m /\ (20 <= length m)%nat.
Proof.
  intros [Ho Hl]. unfold message_up_to_mi. rewrite ATTR_HEADER_SIZE_is.
  rewrite !(proj2 (Nat.ltb_ge _ _)) by lia. eexists. split; [done|].
  rewrite length_take. lia.
Qed.

Lemma message_up_to_mi_Err d o e :
  message_up_to_mi d o = Err e -> exists what, e = undefined_behaviour what.
Proof. unfold message_up_to_mi. case_all; intros [= <-]; eauto. Qed.

Lemma validateMessageIntegrity_Err m hmac key sha256 e :
  validateMessageIntegrity m hmac key sha256 = Err e -> exists what, e = undefined_behaviour what.
Proof.
  unfold validateMessageIntegrity. destruct (_ <? _)%nat; [intros [= <-]; eauto|].
  case_all; done.
Qed.

(** What a computation may raise. *)
Definition raises {A} (P : exn -> Prop) (r : result A) w : Prop :=
  forall e, r = Err e -> P e.

Lemma raises_refuse {A} P d ec ep key w :
  wp (refuse (A := A) self env d ec ep key) (raises P) w.
Proof. intros e. by destruct (refuse_ok (A := A) d ec ep key w) as [o ->]. Qed.

(** The checks of the keyed hash raise only on an integrity hazard. *)
Lemma check_integrity_raises d ep nonce alg key w :
  wp (check_integrity self env d ep nonce alg key) (raises (integrity_hazard d)) w.
Proof.
  unfold check_integrity. cbv zeta. set (b := bool_decide (alg = SHA256)).
  change (if b then mi_sha256_offset d else mi_sha1_offset d) with (mi_offset d b).
  change (if b then get_mi_sha256 d else get_mi_sha1 d) with (mi_value d b).
  destruct (mi_offset d b) as [o|] eqn:Eo; [|apply raises_refuse].
  apply wp_of_option_any; [intros hmac _|].
  2:{ intros Eh e [= <-]. by apply (integrity_unreadable _ b); [eexists|]. }
  apply wp_of_result_any; [intros m Em|].
  2:{ intros e Em e' [= <-]. destruct (message_up_to_mi_Err _ _ _ Em) as [what ->].
      apply (integrity_misplaced _ b o); [done|]. intros Hp.
      destruct (message_up_to_mi_ok d o Hp) as (m & ? & _). congruence. }
  apply wp_of_result_any; [intros valid _|].
  2:{ intros e Ev e' [= <-]. destruct (validateMessageIntegrity_Err _ _ _ _ _ Ev) as [what ->].
      apply (integrity_misplaced _ b o); [done|]. intros Hp.
      destruct (message_up_to_mi_ok d o Hp) as (m' & Em' & Hl). rewrite Em in Em'.
      injection Em' as <-.
      destruct (validateMessageIntegrity_ok m hmac (span key) b Hl). congruence. }
  destruct (negb valid); [apply raises_refuse|].
  destruct (validateNonce_ok (unix_now env) nonce (authenticator_ self)) as [fresh Hn].
  apply (wp_of_result fresh); [done|].
  destruct (negb fresh); [apply raises_refuse | by intros e].
Qed.

Lemma authenticate_raises d ep w :
  wp (authenticate self env d ep) (raises (integrity_hazard d)) w.
Proof.
  unfold authenticate. destruct (_ || _); [apply raises_refuse|]. unfold check_credentials.
  destruct (get_username d) as [user|], (get_realm d) as [rlm|],
    (get_nonce d) as [nonce|]; try apply raises_refuse.
  case_bool_decide; cbn [negb]; [|apply raises_refuse].
  destruct (choose_algorithm_ok d nonce) as [o Ho]. apply (wp_of_result o); [done|].
  destruct o as [alg|]; [|apply raises_refuse].
  destruct (getPassword user (authenticator_ self)) as [password|]; [|apply raises_refuse].
  destruct (derive_key_ok alg user rlm password) as [key Hk].
  apply (wp_of_result key); [done|]. apply check_integrity_raises.
Qed.


Definition send_world (m : Message) (ep : Endpoint) w : World :=
  {| allocation_manager_ := allocation_manager_ w; sent := sent w ++ [(m, ep)] |}.

(** [sendErrorMessage] hands over its message, unless the builder has run
    out of room. *)
Lemma sendErrorMessage_eq d ec ep key w :
  sendErrorMessage self env d ec ep key w =
    (if builder_valid (error_message self env d ec key)
     then send_world (finalize (error_message self env d ec key)) ep w else w, Ok tt).
Proof.
  unfold sendErrorMessage. by destruct (builder_valid (error_message self env d ec key)).
Qed.

Lemma authentic_accepted d ep w key :
  authentic self env d key -> authenticate self env d ep w = (w, Ok (Some key)).
Proof.
  destruct (authenticate_decides self env d) as (v & Hv & _ & Ha).
  intros ->%Ha. by rewrite Hv.
Qed.

(** The handler of an authentic request goes on. *)
Lemma wp_authentic {A} d ep w key (k : option AuthKey -> M World A) Q :
  authentic self env d key -> wp (k (Some key)) Q w ->
  wp (authenticate self env d ep ≫= k) Q w.
Proof.
  intros Ha Hk. unfold wp, mbind, M_bind. by rewrite (authentic_accepted d ep w key Ha).
Qed.

Lemma authenticate_cases d ep w :
  (exists key, authentic self env d key /\
     authenticate self env d ep w = (w, Ok (Some key))) \/
  (exists ec key, auth_error ec /\ (forall k, ~ authentic self env d k) /\
     authenticate self env d ep w =
       ((sendErrorMessage self env d ec ep key w).1, Ok None)) \/
  (exists e, integrity_hazard d e /\ (forall k, ~ authentic self env d k) /\
     authenticate self env d ep w = (w, Err e)).
Proof.
  destruct (authenticate_decides self env d) as (v & Hv & Hr & Ha).
  pose proof (authenticate_raises d ep w) as Hx. unfold wp, raises in Hx. rewrite Hv in *.
  destruct v as [key|ec key|e]; [left|right; left|right; right].
  - exists key. split; [by apply Ha | done].
  - exists ec, key. split; [by eapply Hr|]. split; [by intros k ?%Ha|].
    simpl. unfold refuse, mbind, M_bind. by rewrite sendErrorMessage_eq.
  - exists e. split; [by apply Hx|]. by split; [intros k ?%Ha|].
Qed.

Lemma authenticate_ok d ep w :
  decoder_ok d -> exists o, (authenticate self env d ep w).2 = Ok o.
Proof.
  intros Hd. destruct (authenticate_cases d ep w)
    as [(k & _ & ->) | [(ec & k & _ & _ & ->) | (e & He & _)]]; try by eexists.
  by apply decoder_ok_integrity in He.
Qed.

(** *** Isolation *)

(** A change that concerns one five-tuple: the other entries of the session
    map and every existing object but the one of that five-tuple are
    unchanged, and no object goes away. *)
Record local (ft : FiveTuple) (am am' : AllocationManager) : Prop := {
  local_entry : forall ft', ft' <> ft ->
    AllocationManager.getAllocation ft' am' = AllocationManager.getAllocation ft' am;
  local_object : forall p a, objects am !! p = Some a ->
    AllocationManager.getAllocation ft am <> Some p -> objects am' !! p = Some a;
  local_lives : forall p, is_Some (objects am !! p) -> is_Some (objects am' !! p);
  local_new : forall p, AllocationManager.getAllocation ft am' = Some p ->
    AllocationManager.getAllocation ft am = Some p \/ objects am !! p = None
}.

Lemma local_refl ft am : local ft am am.
Proof. split; auto. Qed.

Lemma local_trans ft am1 am2 am3 : local ft am1 am2 -> local ft am2 am3 -> local ft am1 am3.
Proof.
  intros [E1 O1 L1 N1] [E2 O2 L2 N2]. split.
  - intros ft' Hne. by rewrite E2, E1.
  - intros p a Ha Hne. apply O2; [by apply O1|]. intros [|]%N1; congruence.
  - eauto.
  - intros p [Hp|Hp]%N2; [by apply N1|]. right.
    destruct (objects am1 !! p) eqn:E; [|done].
    destruct (L1 p) as [x Hx]; [by rewrite E|]. congruence.
Qed.

(** Replacing the object of the five-tuple. *)
Lemma local_set_object ft am p a calls :
  AllocationManager.getAllocation ft am = Some p ->
  local ft am (set_objects (<[p := a]> (objects am)) calls am).
Proof.
  intros Hp. split; simpl; auto.
  - intros q b Hq Hne. by rewrite lookup_insert_ne by congruence.
  - intros q Hq. rewrite lookup_insert_is_Some'. by right.
Qed.

Lemma local_install now lifetime ft s am :
  AllocationManager.well_formed am -> local ft am (install now lifetime ft s am).2.
Proof.
  intros Hwf. pose proof (install_spec now lifetime ft s am) as Hi.
  destruct (install now lifetime ft s am) as [p am'].
  destruct Hi as (-> & _ & _ & Hs & _ & _ & a & Ho & _). simpl.
  assert (objects am !! next_object am = None) as Hnone.
  { destruct (objects am !! next_object am) eqn:E; [|done].
    apply (wf_fresh _ Hwf) in E. lia. }
  split.
  - intros ft' Hne. rewrite !getAllocation_lookup, Hs. by rewrite lookup_insert_ne.
  - intros q b Hq _. rewrite Ho, lookup_insert_ne; [done|]. congruence.
  - intros q Hq. rewrite Ho, lookup_insert_is_Some'. by right.
  - intros q. rewrite getAllocation_lookup, Hs, lookup_insert_eq. intros [= <-]. by right.
Qed.

Lemma local_set_reservations ft rm am : local ft am (set_reservation_manager rm am).
Proof. split; auto. Qed.

Lemma local_claimReservation now token ft lifetime am :
  AllocationManager.well_formed am ->
  local ft am (claimReservation now token ft lifetime am).2.
Proof.
  intros Hwf. unfold claimReservation.
  pose proof (owned_claimReservation token (reservation_manager_ am)) as Ho.
  destruct (ReservationManager.claimReservation _ _) as [[sock|] rm];
    [|apply local_set_reservations].
  pose proof (local_install now lifetime ft sock (set_reservation_manager rm am)) as Hi.
  destruct (install _ _ _ _ _) as [p am']. simpl in *.
  eapply local_trans; [apply local_set_reservations | apply Hi].
  apply well_formed_set_reservations; [done|]. rewrite Ho. apply Hwf.
Qed.

Lemma local_createAllocation renv rng now ft fam policy lifetime am op ot am' :
  AllocationManager.well_formed am ->
  createAllocation renv rng now ft fam policy lifetime am = Ok (op, ot, am') ->
  local ft am am'.
Proof.
  intros Hwf [(_ & _ & _ & ->) | (r & rm & _ & Ho & _ & -> & _)]%createAllocation_cases;
    [apply local_refl|].
  eapply local_trans; [apply (local_set_reservations ft rm) | apply local_install].
  apply well_formed_set_reservations; [done|]. rewrite Ho. apply Hwf.
Qed.

(** *** Well-formed worlds *)

(** An allocation that can answer: its response has been recorded and its
    queue is open. *)
Definition answers (a : UdpAllocation) : Prop :=
  20 <= size (success_message_ (base a)) /\ channel_open a = true.

Record wf_world (w : World) : Prop := {
  wf_manager : AllocationManager.well_formed (allocation_manager_ w);
  wf_answers : forall ft p a,
    AllocationManager.getAllocation ft (allocation_manager_ w) = Some p ->
    objects (allocation_manager_ w) !! p = Some a -> answers a
}.

(** What a packet from [ft] may leave behind; [H] holds of the exceptions it
    may raise. *)
Record Post (H : exn -> Prop) (ft : FiveTuple) (w0 : World) (r : result unit) (w : World)
    : Prop := {
  post_raises : raises H r w;
  post_wf : wf_world w;
  post_local : local ft (allocation_manager_ w0) (allocation_manager_ w);
  post_sent : exists l, sent w = sent w0 ++ l /\ (length l <= 1)%nat /\
    Forall (fun x => x.2 = endpoint ft) l
}.

Lemma Post_weaken (H H' : exn -> Prop) ft w0 r w :
  (forall e, H e -> H' e) -> Post H ft w0 r w -> Post H' ft w0 r w.
Proof. intros HH [Hr Hw Hl Hs]. split; try done. intros e He. by apply HH, Hr. Qed.

Lemma wp_Post_weaken (H H' : exn -> Prop) ft w0 m w :
  (forall e, H e -> H' e) -> wp m (Post H ft w0) w -> wp m (Post H' ft w0) w.
Proof. intros HH. by apply Post_weaken. Qed.

(** The state between the steps of a handler that has not answered yet. *)
Record Pre (ft : FiveTuple) (w0 : World) (w : World) : Prop := {
  pre_wf : wf_world w;
  pre_local : local ft (allocation_manager_ w0) (allocation_manager_ w);
  pre_sent : sent w = sent w0
}.

Lemma Pre_init ft w : wf_world w -> Pre ft w w.
Proof. intros Hw. split; [done | apply local_refl | done]. Qed.

Section handlers.
Context (H : exn -> Prop).

Lemma post_end ft w0 w r : Pre ft w0 w -> raises H r w -> Post H ft w0 r w.
Proof.
  intros [Hw Hl Hs] Hr. split; try done. exists []. rewrite app_nil_r. simpl.
  split_and!; [done|lia|done].
Qed.

Lemma post_ret ft w0 w : Pre ft w0 w -> wp (mret tt) (Post H ft w0) w.
Proof. intros Hpre. by apply post_end. Qed.

Lemma post_throw ft w0 w e : Pre ft w0 w -> H e -> Post H ft w0 (Err e) w.
Proof. intros Hpre He. apply post_end; [done|]. by intros e' [= <-]. Qed.

Lemma post_send ft w0 w m : Pre ft w0 w -> wp (sendPacket_ m (endpoint ft)) (Post H ft w0) w.
Proof.
  intros [Hw Hl Hs]. split; [done| |done|].
  - destruct Hw as [H1 H2]. by split.
  - exists [(m, endpoint ft)]. simpl. rewrite Hs. split_and!; [done|done|].
    by apply Forall_singleton.
Qed.

Lemma post_error ft w0 w d ec key :
  Pre ft w0 w -> wp (sendErrorMessage self env d ec (endpoint ft) key) (Post H ft w0) w.
Proof.
  intros Hpre. unfold sendErrorMessage. destruct (negb _); [by apply post_ret | by apply post_send].
Qed.

#[local] Hint Resolve post_ret post_throw post_send post_error : core.

Lemma post_authenticate ft w0 w d (k : option AuthKey -> M World unit) :
  (forall e, integrity_hazard d e -> H e) -> Pre ft w0 w ->
  (forall w', k None w' = (w', Ok tt)) ->
  (forall key, authentic self env d key -> wp (k (Some key)) (Post H ft w0) w) ->
  wp (authenticate self env d (endpoint ft) ≫= k) (Post H ft w0) w.
Proof.
  intros Hd Hpre Hnone Hsome. unfold wp, mbind, M_bind.
  destruct (authenticate_cases d (endpoint ft) w) as
    [(key & Ha & ->) | [(ec & key & _ & _ & ->) | (e & He & _ & ->)]].
  - by apply Hsome.
  - rewrite Hnone. pose proof (post_error ft w0 w d ec key Hpre) as Hp. unfold wp in Hp.
    by rewrite sendErrorMessage_eq in *.
  - by apply post_throw; [|apply Hd].
Qed.

(** *** The handlers *)

Lemma wf_object w ft p :
  wf_world w -> AllocationManager.getAllocation ft (allocation_manager_ w) = Some p ->
  exists a, objects (allocation_manager_ w) !! p = Some a /\ answers a.
Proof.
  intros Hw Hp. pose proof Hp as Hp'. rewrite getAllocation_lookup in Hp'.
  destruct (wf_session _ (wf_manager _ Hw) _ _ Hp') as (a & Ha & _).
  exists a. split; [done|]. by eapply wf_answers.
Qed.

Definition with_object (p : nat) (a : UdpAllocation) (calls : timer_service FiveTuple) w
    : World :=
  {| allocation_manager_ :=
       set_objects (<[p := a]> (objects (allocation_manager_ w))) calls
         (allocation_manager_ w);
     sent := sent w |}.

Lemma pre_with_object ft w0 w p a a' calls :
  Pre ft w0 w -> AllocationManager.getAllocation ft (allocation_manager_ w) = Some p ->
  objects (allocation_manager_ w) !! p = Some a ->
  AllocationManager.well_formed (allocation_manager_ (with_object p a' calls w)) ->
  answers a' -> Pre ft w0 (with_object p a' calls w).
Proof.
  intros [[Hm Ha] Hl Hs] Hp Hpa Hwf Hans. split; [split; [done|] | | done].
  - simpl. intros ft' q b Hq. rewrite lookup_insert. case_decide; [congruence|].
    intros Hb. by eapply Ha.
  - eapply local_trans; [exact Hl|]. by apply local_set_object.
Qed.

(** The operations of the handlers on an allocation. *)
Lemma pre_object_step ft w0 w p a a' :
  Pre ft w0 w -> AllocationManager.getAllocation ft (allocation_manager_ w) = Some p ->
  objects (allocation_manager_ w) !! p = Some a ->
  object_step iteration (now env) a a' ->
  (answers a -> 20 <= size (success_message_ (base a'))) ->
  Pre ft w0 (with_object p a' (timer_calls (allocation_manager_ w)) w).
Proof.
  intros Hpre Hp Ha Hs Hsize. pose proof (wf_manager _ (pre_wf _ _ _ Hpre)) as Hwf.
  eapply pre_with_object; [done..| |].
  - by eapply well_formed_object.
  - assert (answers a) as Hans by (by eapply wf_answers; [apply Hpre|..]).
    destruct (object_step_keeps _ iteration_perm _ _ _ Hs) as (_ & _ & _ & _ & Ho & _ & _ & _);
      [by eapply wf_objects|].
    split; [auto | rewrite Ho; apply Hans].
Qed.

Lemma pre_refresh ft w0 w p a secs a' calls :
  Pre ft w0 w -> AllocationManager.getAllocation ft (allocation_manager_ w) = Some p ->
  objects (allocation_manager_ w) !! p = Some a ->
  refresh_udp (now env) secs (timer_calls (allocation_manager_ w)) a = (a', calls) ->
  Pre ft w0 (with_object p a' calls w).
Proof.
  intros Hpre Hp Ha Hr. pose proof (wf_manager _ (pre_wf _ _ _ Hpre)) as Hwf.
  assert (answers a) as Hans by (by eapply wf_answers; [apply Hpre|..]).
  pose proof Hp as Hp'. rewrite getAllocation_lookup in Hp'.
  pose proof (well_formed_refresh _ ft p a (now env) secs Hwf Hp' Ha) as Hwf'.
  rewrite Hr in Hwf'. eapply pre_with_object; [done..|].
  unfold refresh_udp, refresh in Hr. simpl in Hr. injection Hr as <- <-. exact Hans.
Qed.

Lemma post_send_to_peer ft w0 w p m peer :
  Pre ft w0 w -> AllocationManager.getAllocation ft (allocation_manager_ w) = Some p ->
  wp (send_to_peer p m peer) (Post H ft w0) w.
Proof.
  intros Hpre Hp. destruct (wf_object w ft p (pre_wf _ _ _ Hpre) Hp) as (a & Ha & Hans).
  unfold send_to_peer. apply (wp_deref _ a); [done|].
  pose proof (object_send iteration (now env) a m peer) as Hs.
  unfold sendToPeer in *. destruct Hans as [Hsz Ho]. rewrite Ho in *.
  apply wp_store. apply post_ret. by eapply pre_object_step.
Qed.

Lemma toAsioAddress_ok x :
  address_fits x -> exists a, toAsioAddress (xpa_address x) (xpa_family x) = Ok a.
Proof.
  unfold address_fits, toAsioAddress. intros Hx. case_bool_decide;
    (rewrite (proj2 (Nat.ltb_ge _ _)) by lia); by eexists.
Qed.

Lemma toAsioAddress_Err x e :
  toAsioAddress (xpa_address x) (xpa_family x) = Err e ->
  ~ address_fits x /\ exists what, e = undefined_behaviour what.
Proof.
  intros Hx. split; [intros [a Ha]%toAsioAddress_ok; congruence|].
  revert Hx. unfold toAsioAddress. case_all; intros [= <-]; eauto.
Qed.

Lemma post_handleChannelData ft w m :
  wf_world w -> wp (handleChannelData m ft) (Post H ft w) w.
Proof.
  intros Hw%(Pre_init ft). unfold handleChannelData.
  destruct (ChannelData_decode _) as [cd|]; [|auto]. apply wp_getAllocation.
  destruct (AllocationManager.getAllocation _ _) as [p|] eqn:Ep; [|auto].
  destruct (wf_object w ft p (pre_wf _ _ _ Hw) Ep) as (a & Ha & _).
  apply (wp_deref _ a); [done|]. destruct (getPeerByChannel _ _); [|auto].
  destruct (ChannelData_encodeData _); [|auto]. by apply post_send_to_peer.
Qed.

Lemma post_handleSendIndication ft w d :
  (forall x what, get_xor_peer d = Some x -> ~ address_fits x ->
     H (undefined_behaviour what)) ->
  wf_world w -> wp (handleSendIndication d ft) (Post H ft w) w.
Proof.
  intros Hd Hw%(Pre_init ft). unfold handleSendIndication. apply wp_getAllocation.
  destruct (AllocationManager.getAllocation _ _) as [p|] eqn:Ep; [|auto].
  destruct (get_data d) as [data|]; [|auto].
  destruct (get_xor_peer d) as [x|] eqn:Ex; [|auto].
  apply wp_of_result_any; [intros a Ha|intros e (Hf & what & ->)%toAsioAddress_Err; eauto].
  destruct (data_encode data); [|auto]. by apply post_send_to_peer.
Qed.

Lemma post_handleBindingRequest ft w d :
  wf_world w -> wp (handleBindingRequest d ft) (Post H ft w) w.
Proof. intros Hw%(Pre_init ft). unfold handleBindingRequest. auto. Qed.

Lemma post_handleRefreshRequest ft w d :
  (forall e, integrity_hazard d e -> H e) -> wf_world w ->
  wp (handleRefreshRequest self env d ft) (Post H ft w) w.
Proof.
  intros Hd Hw%(Pre_init ft). unfold handleRefreshRequest.
  apply post_authenticate; [done..|]. intros key _. apply wp_getAllocation.
  destruct (AllocationManager.getAllocation _ _) as [p|] eqn:Ep; [|auto].
  destruct (wf_object w ft p (pre_wf _ _ _ Hw) Ep) as (a & Ha & _).
  apply (wp_deref _ a); [done|].
  destruct (match get_requested_family d with Some _ => _ | None => _ end); [auto|].
  apply wp_get. destruct (refresh_udp _ _ _ a) as [a' calls] eqn:Er.
  apply wp_set_manager, post_send. by eapply (pre_refresh ft w w p a).
Qed.

(** The permission loop keeps the entry, whether it ends, is left early or
    meets an address that does not fit. *)
Lemma pre_install_permissions ft w0 p xs : forall w,
  Pre ft w0 w -> AllocationManager.getAllocation ft (allocation_manager_ w) = Some p ->
  wp (install_permissions env p xs)
    (fun r w' => Pre ft w0 w' /\
       forall e, r = Err e ->
         exists x what, e = undefined_behaviour what /\ x ∈ xs /\ ~ address_fits x) w.
Proof.
  induction xs as [|x xs IH]; intros w Hpre Hp; cbn [install_permissions]; [by split|].
  apply wp_get. destruct (negb _); [by split|].
  apply wp_of_result_any; [intros addr _|].
  2:{ intros e (Hf & what & ->)%toAsioAddress_Err. split; [done|]. intros e' [= <-].
      exists x, what. split_and!; [done|left|done]. }
  destruct (wf_object w ft p (pre_wf _ _ _ Hpre) Hp) as (a & Hpa & Hans).
  apply (wp_deref _ a); [done|]. apply wp_store.
  eapply wp_mono; [apply (IH (with_object p _ (timer_calls (allocation_manager_ w)) w))|].
  - eapply pre_object_step; [done..|constructor|]. by intros [? _].
  - done.
  - intros r' w' [Hpre' Herr]. split; [done|]. intros e (y & what & -> & Hy & Hf)%Herr.
    exists y, what. split_and!; [done|by right|done].
Qed.

Lemma post_handlePermissionRequest ft w d :
  (forall e, integrity_hazard d e -> H e) ->
  (forall x key what, authentic self env d key -> x ∈ get_xor_peers d -> ~ address_fits x ->
     H (undefined_behaviour what)) ->
  wf_world w -> wp (handlePermissionRequest self env d ft) (Post H ft w) w.
Proof.
  intros Hd Hx Hw%(Pre_init ft). unfold handlePermissionRequest.
  apply post_authenticate; [done..|]. intros key Ha. apply wp_getAllocation.
  destruct (AllocationManager.getAllocation _ _) as [p|] eqn:Ep; [|auto].
  case_bool_decide; [auto|]. apply wp_bind.
  eapply wp_mono; [by apply (pre_install_permissions ft w)|].
  intros [b|e] w' [Hpre Herr]; [destruct b; simpl; auto|].
  destruct (Herr e eq_refl) as (x & what & -> & Hin & Hf). eauto.
Qed.

Lemma post_handleChannelBindRequest ft w d :
  (forall e, integrity_hazard d e -> H e) ->
  (forall x key, authentic self env d key -> get_xor_peer d = Some x ->
     make_address (xpa_addressStr x) = None -> H (system_error "make_address")) ->
  wf_world w ->
  wp (handleChannelBindRequest iteration self env d ft) (Post H ft w) w.
Proof.
  intros Hd Hx Hw%(Pre_init ft). unfold handleChannelBindRequest.
  apply post_authenticate; [done..|]. intros key Hauth. apply wp_getAllocation.
  destruct (AllocationManager.getAllocation _ _) as [p|] eqn:Ep; [|auto].
  destruct (get_channel_number d) as [n|]; [|auto].
  destruct (get_xor_peer d) as [x|] eqn:Ex; [|auto].
  destruct (wf_object w ft p (pre_wf _ _ _ Hw) Ep) as (a & Ha & [Hsz _]).
  apply (wp_deref _ a); [done|]. destruct (negb _); [auto|].
  apply wp_of_option_any; [intros addr _|eauto].
  pose proof (object_channel iteration (now env) a n
    {| address := addr; port := xpa_port x; protocol := UDP |}) as Hs.
  destruct (addChannel _ _ _ _ _) as [added a'] eqn:Ea. apply wp_store.
  assert (Pre ft w (with_object p a' (timer_calls (allocation_manager_ w)) w)) as Hpre.
  { eapply pre_object_step; [done..|]. intros _. revert Ea. unfold addChannel.
    destruct (ChannelManager.addChannel _ _ _ _ _) as [[] cm]; by intros [= <- <-]. }
  by destruct added; simpl; [apply post_send | apply post_error].
Qed.

(** *** Allocate *)

(** The manager has filed the new allocation [p] under [ft], and its
    response has yet to be recorded. *)
Record Filed (ft : FiveTuple) (w0 : World) (p : nat) (w : World) : Prop := {
  filed_wf : AllocationManager.well_formed (allocation_manager_ w);
  filed_local : local ft (allocation_manager_ w0) (allocation_manager_ w);
  filed_sent : sent w = sent w0;
  filed_entry : AllocationManager.getAllocation ft (allocation_manager_ w) = Some p;
  filed_object : exists a, objects (allocation_manager_ w) !! p = Some a /\
    channel_open a = true;
  filed_others : forall ft' q b, q <> p ->
    AllocationManager.getAllocation ft' (allocation_manager_ w) = Some q ->
    objects (allocation_manager_ w) !! q = Some b -> answers b
}.

Lemma size_finalize b : 20 <= size (finalize b).
Proof. cbn [finalize size]. rewrite encode_totalSize. apply encode_length. Qed.

Lemma post_record_success ft w0 w p b :
  Filed ft w0 p w -> wp (record_success p b ft) (Post H ft w0) w.
Proof.
  intros [Hwf Hl Hs He (a & Ha & Ho) Hoth]. unfold record_success.
  apply (wp_deref _ a); [done|]. apply wp_store. apply post_send.
  split; [split|  |done].
  - eapply well_formed_object; [done..|]. apply (object_success iteration (now env)).
  - simpl. intros ft' q c Hq. rewrite lookup_insert.
    case_decide as Hqp; [|by apply Hoth with ft'; [apply not_eq_sym|..]].
    intros [= <-]. split; [apply size_finalize | done].
  - eapply local_trans; [exact Hl|]. by apply local_set_object.
Qed.

Lemma filed_install ft w s lifetime rm :
  wf_world w -> owned rm = false ->
  let '(p, am) := install (now env) lifetime ft s
                    (set_reservation_manager rm (allocation_manager_ w)) in
  Filed ft w p {| allocation_manager_ := am; sent := sent w |}.
Proof.
  intros [Hm Ha] Ho. set (am0 := set_reservation_manager rm (allocation_manager_ w)).
  assert (AllocationManager.well_formed am0) as Hwf0 by by apply well_formed_set_reservations.
  pose proof (well_formed_install (now env) lifetime ft s am0 Hwf0) as Hwf.
  pose proof (local_install (now env) lifetime ft s am0 Hwf0) as Hl.
  pose proof (install_spec (now env) lifetime ft s am0) as Hi.
  destruct (install (now env) lifetime ft s am0) as [p am].
  destruct Hi as (-> & _ & _ & Hs & _ & _ & a & Hobj & _ & _ & _ & Hop & _).
  simpl in Hl, Hwf. split; cbn [allocation_manager_ sent]; try done.
  - eapply local_trans; [apply (local_set_reservations ft rm) | exact Hl].
  - rewrite getAllocation_lookup, Hs. apply lookup_insert_eq.
  - exists a. by rewrite Hobj, lookup_insert_eq.
  - intros ft' q b Hne. rewrite Hobj, lookup_insert_ne by (by apply not_eq_sym).
    rewrite getAllocation_lookup, Hs, lookup_insert. case_decide as Hft.
    + intros [= <-]. by destruct Hne.
    + intros Hq Hb. apply (Ha ft' q); [by rewrite getAllocation_lookup | done].
Qed.

Lemma make_address_of (a : UdpAllocation) :
  make_address (address_of a) = Some (local_address (Allocation.socket_ a)).
Proof. apply make_address_to_string. Qed.

Lemma post_allocate_reserved ft w d key token :
  wf_world w -> wp (allocate_reserved self env d ft key token) (Post H ft w) w.
Proof.
  intros Hw. unfold allocate_reserved. apply wp_get. unfold claimReservation.
  pose proof (owned_claimReservation token
    (reservation_manager_ (allocation_manager_ w))) as Ho.
  destruct (ReservationManager.claimReservation _ _) as [[sock|] rm]; simpl in Ho;
    rewrite (wf_unowned _ (wf_manager _ Hw)) in Ho.
  - pose proof (filed_install ft w sock (computeLifetime self d) rm Hw Ho) as Hf.
    destruct (install _ _ _ _ _) as [p am]. apply wp_set_manager.
    destruct (filed_object _ _ _ _ Hf) as (a & Ha & _).
    apply (wp_deref _ a); [done|]. eapply wp_of_option; [apply make_address_of|].
    by apply post_record_success.
  - apply wp_set_manager, post_error. split; [split| |done].
    + apply well_formed_set_reservations; [apply Hw | done].
    + apply (wf_answers _ Hw).
    + apply local_set_reservations.
Qed.

(** The exceptions of [createAllocation]. *)
Definition creation_hazard (policy : PortPolicy) w (e : exn) : Prop :=
  (e = bounds_out_of_order /\
   let g := relay_address_generator_ (allocation_manager_ w) in
   dist_hi policy g < dist_lo policy g) \/
  (e = out_of_fuel /\ policy = EvenAndReserveNext /\ ~ distinct_tokens w).

Lemma post_allocate_new ft w d key fam policy extra :
  wf_world w -> (forall e, creation_hazard policy w e -> H e) ->
  wp (allocate_new self env d ft key fam policy extra) (Post H ft w) w.
Proof.
  intros Hw Hh. unfold allocate_new. apply wp_get.
  apply wp_of_result_any; [intros [[op ot] am'] E|].
  2:{ intros e E%createAllocation_raises. apply post_throw; [by apply Pre_init|]. by apply Hh. }
  apply createAllocation_cases in E
    as [(_ & -> & _ & ->) | (r & rm & _ & Ho & -> & -> & _)]; apply wp_set_manager.
  - apply post_error. destruct w. by apply Pre_init.
  - rewrite (wf_unowned _ (wf_manager _ Hw)) in Ho.
    pose proof (filed_install ft w (primary r) (allocate_lifetime self d) rm Hw Ho) as Hf.
    destruct (install _ _ _ _ _) as [p am] eqn:Ei.
    assert (next_object (allocation_manager_ w) = p) as ->.
    { pose proof (install_spec (now env) (allocate_lifetime self d) ft (primary r)
        (set_reservation_manager rm (allocation_manager_ w))) as Hi.
      rewrite Ei in Hi. by destruct Hi as [-> _]. }
    destruct (filed_object _ _ _ _ Hf) as (a & Ha & _).
    apply (wp_deref _ a); [done|]. eapply wp_of_option; [apply make_address_of|].
    by apply post_record_success.
Qed.

Lemma post_allocate_fresh ft w d key :
  wf_world w -> (forall e, creation_hazard (policy_of d) w e -> H e) ->
  wp (allocate_fresh self env d ft key) (Post H ft w) w.
Proof.
  intros Hw Hh. pose proof (Pre_init ft w Hw) as Hpre. unfold allocate_fresh.
  destruct (_ && _); [by apply post_error|]. apply wp_get.
  destruct (negb _); [by apply post_error|].
  destruct (_ && _); [by apply post_error|].
  case_bool_decide; [by apply post_error|]. by apply post_allocate_new.
Qed.

Lemma post_allocate_again ft w d key p :
  wf_world w -> AllocationManager.getAllocation ft (allocation_manager_ w) = Some p ->
  wp (allocate_again self env d ft key p) (Post H ft w) w.
Proof.
  intros Hw Hp. pose proof (Pre_init ft w Hw) as Hpre. unfold allocate_again.
  destruct (wf_object w ft p Hw Hp) as (a & Ha & [Hsz _]).
  apply (wp_deref _ a); [done|]. unfold getTransactionId.
  rewrite (proj2 (Z.ltb_ge _ _)) by lia. eapply wp_of_result; [done|].
  case_bool_decide; [by apply post_send | by apply post_error].
Qed.

Lemma post_handleAllocationRequest ft w d :
  (forall e, integrity_hazard d e -> H e) ->
  (forall e key, authentic self env d key -> creation_hazard (policy_of d) w e -> H e) ->
  wf_world w -> wp (handleAllocationRequest self env d ft) (Post H ft w) w.
Proof.
  intros Hd Hh Hw. pose proof (Pre_init ft w Hw) as Hpre.
  unfold handleAllocationRequest. apply post_authenticate; [done..|]. intros key Ha.
  apply wp_getAllocation.
  destruct (AllocationManager.getAllocation _ _) as [p|] eqn:Ep;
    [by apply post_allocate_again|].
  destruct (get_requested_transport d); [|by apply post_error].
  destruct (negb _); [by apply post_error|].
  case_bool_decide; [by apply post_error|].
  destruct (get_reservation_token d); [|apply post_allocate_fresh; eauto].
  destruct (_ || _); [by apply post_error | by apply post_allocate_reserved].
Qed.
End handlers.

Lemma post_dispatch ft w d :
  wf_world w -> wp (dispatch iteration self env d ft) (Post (hazard d w) ft w) w.
Proof.
  intros Hw. pose proof (Pre_init ft w Hw) as Hpre. unfold dispatch.
  assert (forall e, messageClass d = Request -> needs_authentication (messageMethod d) ->
    integrity_hazard d e -> hazard d w e) as Hi by apply hazard_integrity.
  unfold needs_authentication in Hi.
  destruct (messageClass d) eqn:Ec, (messageMethod d) eqn:Em;
    auto using post_ret, post_error, post_handleBindingRequest.
  - apply post_handleAllocationRequest; [by auto| |done].
    intros e key Ha [[-> Hb] | (-> & Hp & Ht)];
      [by eapply hazard_bounds | by eapply hazard_tokens].
  - apply post_handleRefreshRequest; [by auto|done].
  - apply post_handlePermissionRequest; [by auto| |done].
    intros x key what ? ? ?. by eapply hazard_permission.
  - apply post_handleChannelBindRequest; [by auto| |done].
    intros x key ? ? ?. by eapply hazard_channel.
  - apply post_handleSendIndication; [|done].
    intros x what ? ?. by eapply hazard_send.
Qed.

Lemma post_processPacket ft w m :
  wf_world w ->
  wp (processPacket iteration self env m ft) (Post (packet_hazard m w) ft w) w.
Proof.
  intros Hw. pose proof (Pre_init ft w Hw) as Hpre. unfold processPacket.
  destruct (is_turn_channel_data _) eqn:Ec; [by apply post_handleChannelData|].
  destruct (is_stun_message _); [|by apply post_ret].
  destruct (Decoder_parse _) as [d|] eqn:Ed; [|by apply post_ret].
  eapply wp_Post_weaken; [|by apply post_dispatch]. intros e He. by exists d.
Qed.

Lemma wf_world_make config am :
  AllocationManager.make config = Ok am ->
  wf_world {| allocation_manager_ := am; sent := [] |}.
Proof.
  intros Hm. split; [by eapply manager_well_formed_make|]. intros ft p a. cbn.
  unfold AllocationManager.make in Hm.
  destruct (RelayAddressGenerator.make _ _ _); [|done]. injection Hm as <-.
  by rewrite getAllocation_lookup.
Qed.

(** ** Properties *)

(** C4.  What a packet can do at worst: on every buffer, from every client,
    in every well-formed world, [processPacket] leaves a well-formed world,
    and it ends normally unless the packet decodes to a request with one of
    the listed hazards: an integrity attribute whose header comes without a
    readable value or at an impossible place, a peer address that is too long
    or does not parse, and, for an authentic Allocate request, a
    configured range that puts the bounds of the random distribution out of
    order or reservation tokens that repeat.  A packet without a hazard
    raises nothing and does nothing that C++ leaves undefined. *)
Theorem processPacket_safe w m ft :
  wf_world w ->
  let '(w', r) := processPacket iteration self env m ft w in
  wf_world w' /\
  (r = Ok tt \/
   exists e d, r = Err e /\ is_turn_channel_data (buffer m) = false /\
     Decoder_parse (payload m) = Some d /\ hazard d w e).
Proof.
  intros Hw. pose proof (post_processPacket ft w m Hw) as [Hr Hw' _ _].
  destruct (processPacket iteration self env m ft w) as [w' [[]|e]]; (split; [done|]);
    [by left|right].
  destruct (Hr e eq_refl) as (d & ? & ? & ?). by exists e, d.
Qed.

(** C5.  Clients are isolated: whatever a packet from [ft] holds, it changes
    no session entry of another five-tuple and no existing allocation but
    the one of [ft], and it hands at most one packet to the network, which
    goes to the client at [ft] and to nobody else. *)
Theorem processPacket_isolated w m ft :
  wf_world w ->
  let w' := (processPacket iteration self env m ft w).1 in
  let am := allocation_manager_ w in
  let am' := allocation_manager_ w' in
  (forall ft', ft' <> ft ->
     AllocationManager.getAllocation ft' am' = AllocationManager.getAllocation ft' am) /\
  (forall p a, objects am !! p = Some a ->
     AllocationManager.getAllocation ft am <> Some p -> objects am' !! p = Some a) /\
  exists l, sent w' = sent w ++ l /\ (length l <= 1)%nat /\
    forall msg dest, (msg, dest) ∈ l -> dest = endpoint ft.
Proof.
  intros Hw.
  pose proof (post_processPacket ft w m Hw) as [_ _ [He Ho _ _] (l & Hs & Hn & Hf)].
  split_and!; [done|done|]. exists l. split_and!; [done|done|].
  intros msg dest Hin. rewrite Forall_forall in Hf. by apply (Hf (msg, dest)).
Qed.

(** C6.  [authenticate] is exact: it accepts a request with a key exactly
    when the request is authentic for that key, and then neither changes an
    allocation nor sends anything; the hash an accepted request carries is
    the keyed hash, under the key of a user of the configuration, of the
    request up to its integrity attribute. *)
Theorem authenticate_exact w d ep key :
  (authenticate self env d ep w = (w, Ok (Some key)) <-> authentic self env d key) /\
  (forall w', authenticate self env d ep w = (w', Ok (Some key)) -> w' = w) /\
  (authentic self env d key ->
     exists username password alg hmac m digest,
       getPassword username (authenticator_ self) = Some password /\
       derive_key alg username (realm (auth (StunTurnProcessor.config_ self))) password
         = Ok key /\
       (exists offset, message_up_to_mi d offset = Ok m) /\
       (get_mi_sha1 d = Some hmac \/ get_mi_sha256 d = Some hmac) /\
       EVP_MAC_HMAC digest (span key)
         (corrected_header m hmac ++ drop STUN_HEADER_SIZE m) = Some hmac).
Proof.
  destruct (authenticate_decides self env d) as (v & Hv & _ & Ha). rewrite Hv.
  split_and!.
  - rewrite <-Ha. split; [|by intros ->].
    destruct v as [k|ec k|e]; [by intros [= <-] | | done].
    simpl. unfold refuse, mbind, M_bind. by rewrite sendErrorMessage_eq.
  - intros w'. destruct v as [k|ec k|e]; [by intros [= <- _] | | done].
    simpl. unfold refuse, mbind, M_bind. by rewrite sendErrorMessage_eq.
  - intros [_ (u & n & alg & p & _ & _ & _ & _ & Hp & Hk & _ & o & hmac & m & Ho & Hh & Hm & Hval)].
    apply validateMessageIntegrity_true in Hval. exists u, p, alg, hmac, m.
    eexists. split_and!; [done|done|by exists o| |exact Hval].
    destruct (bool_decide (alg = SHA256)); auto.
Qed.

(** A handler that authenticates first. *)
Lemma authenticated_handler d ft :
  needs_authentication (messageMethod d) -> messageClass d = Request ->
  exists k : option AuthKey -> M World unit,
    dispatch iteration self env d ft =
      (authenticate self env d (endpoint ft) ≫= k) /\ k None = mret tt.
Proof.
  intros Hn Hc. unfold dispatch. rewrite Hc.
  destruct Hn as [-> | [-> | [-> | ->]]]; eexists; by split.
Qed.

(** C7.  A request that is not authentic changes nothing: of an Allocate,
    Refresh, CreatePermission or ChannelBind request without valid
    credentials nothing remains but, at most, one error response to the
    client, with code 400, 401 or 438. *)
Theorem unauthentic_request_refused w d ft :
  messageClass d = Request -> needs_authentication (messageMethod d) ->
  (forall key, ~ authentic self env d key) ->
  let w' := (dispatch iteration self env d ft w).1 in
  allocation_manager_ w' = allocation_manager_ w /\
  (sent w' = sent w \/
   exists ec key, auth_error ec /\
     sent w' = sent w ++ [(finalize (error_message self env d ec key), endpoint ft)]).
Proof.
  intros Hc Hn Hno. destruct (authenticated_handler d ft Hn Hc) as (k & -> & Hk).
  destruct (authenticate_decides self env d) as (v & Hv & Hr & Ha).
  unfold mbind, M_bind. rewrite Hv. destruct v as [key|ec key|e]; cbn [run_verdict].
  - by destruct (Hno key (proj1 (Ha key) eq_refl)).
  - unfold refuse, mbind, M_bind. rewrite sendErrorMessage_eq. cbv beta iota.
    cbn [mret M_ret]. rewrite Hk. cbn.
    destruct (builder_valid _); [|by split; [|left]]. split; [done|]. right.
    exists ec, key. by split; [eapply Hr|].
  - by split; [|left].
Qed.

(** The codes that ask the client to authenticate, or to do it again. *)
Definition challenges (ec : StunErrorCode) : Prop :=
  ec = Unauthenticated \/ ec = StaleNonce.

Lemma elem_of_add a x b : a ∈ sm_attrs (add x b) <-> a ∈ sm_attrs b \/ a = x.
Proof. unfold add. cbn. by rewrite elem_of_app, list_elem_of_singleton. Qed.

Lemma elem_of_add_integrity a key b :
  a ∈ sm_attrs (add_message_integrity key b) <->
  a ∈ sm_attrs b \/
  a = if bool_decide (algorithm_ key = SHA256) then MessageIntegritySHA256 (span key)
      else MessageIntegritySHA1 (span key).
Proof. unfold add_message_integrity. case_bool_decide; apply elem_of_add. Qed.

(** The attributes of an error response. *)
Lemma error_message_attrs d ec key a :
  a ∈ sm_attrs (error_message self env d ec key) <->
  a = ErrorCode ec \/
  (challenges ec /\
   (a = Realm (realm (auth (StunTurnProcessor.config_ self))) \/
    a = Nonce (generateNonce (unix_now env) 0 (authenticator_ self)) \/
    a = PasswordAlgorithms supportedAlgorithms)) \/
  (exists k, key = Some k /\
   a = if bool_decide (algorithm_ k = SHA256) then MessageIntegritySHA256 (span k)
       else MessageIntegritySHA1 (span k)).
Proof.
  unfold error_message, challenges. rewrite <- (bool_decide_eq_true (ec = Unauthenticated)),
    <- (bool_decide_eq_true (ec = StaleNonce)), <- orb_true_iff.
  set (nonce := generateNonce _ _ _).
  destruct (_ || _), key as [k|]; rewrite ?elem_of_add_integrity, !elem_of_add;
    unfold sm_attrs, StunMessageBuilder; rewrite elem_of_nil;
    (split; [intuition eauto 6|]); intros [?|[[? ?]|(? & [= <-] & ?)]]; first [done|tauto].
Qed.

(** C31.  What an error response says: it answers the request, with its
    method and its transaction id; the realm, a nonce and the password
    algorithms are in it exactly when the code is 401 or 438.  Any nonce in
    it is accepted for an hour when its keyed hash does not begin with a
    digit, and is refused all the while when it does. *)
Theorem error_message_challenge d ec key b rest :
  1000000000 <= unix_now env <= 2 ^ 62 ->
  let expiry := unix_now env + 3600 in
  HMAC_SHA256 (secret_key (authenticator_ self)) (to_string expiry) = b :: rest ->
  let m := error_message self env d ec key in
  sm_class m = ErrorResp /\ sm_method m = messageMethod d /\
  sm_transaction m = transactionId d /\ ErrorCode ec ∈ sm_attrs m /\
  (Realm (realm (auth (StunTurnProcessor.config_ self))) ∈ sm_attrs m <-> challenges ec) /\
  (PasswordAlgorithms supportedAlgorithms ∈ sm_attrs m <-> challenges ec) /\
  ((exists nonce, Nonce nonce ∈ sm_attrs m) <-> challenges ec) /\
  (forall nonce, Nonce nonce ∈ sm_attrs m ->
     forall now', now' <= expiry ->
       validateNonce now' nonce (authenticator_ self) = Ok (negb (is_digit b))).
Proof.
  intros Hnow expiry Hh m.
  assert (sm_class m = ErrorResp /\ sm_method m = messageMethod d /\
    sm_transaction m = transactionId d) as (-> & -> & ->)
    by (unfold m, error_message, add_message_integrity;
        destruct (_ || _), key; try done; by case_bool_decide).
  unfold m. setoid_rewrite error_message_attrs. split_and!; try done; [by left|..].
  1-2: split; [intros [?|[[? _]|(k & _ & Hk)]]|]; try done; [by case_bool_decide|tauto].
  - split; [intros (nonce & [?|[[? _]|(k & _ & Hk)]])|intros ?; eexists; right; left; eauto];
      try done; by case_bool_decide.
  - intros nonce [?|[[_ [?|[[= ->]|?]]]|(k & _ & Hk)]] now' Hle;
      try done; [|by case_bool_decide].
    replace (generateNonce (unix_now env) 0 (authenticator_ self))
      with (generateNonce 0 expiry (authenticator_ self))
      by (unfold generateNonce; by rewrite (proj2 (Z.eqb_neq expiry 0)) by lia).
    apply (generateNonce_accepted 0 now' expiry _ b rest); [|done|done].
    unfold int64_max. lia.
Qed.
End packets.

(** ** Witnesses *)

Section witnesses.
#[local] Existing Instance plain_ip.
#[local] Existing Instance plain_ip_laws.
#[local] Instance example_ssl : OpenSSL := good_ssl.
#[local] Instance example_ssl_laws : OpenSSLLaws example_ssl := toy_ssl_laws x80.

Lemma example_decoder_ok parse method hmac :
  decoder_ok (sx := plain_stunxx parse)
    (example_request method hmac [example_peer_attr]).
Proof.
  split.
  - intros o [= <-]. split_and!; [lia|by apply Nat.leb_le|by eexists].
  - by intros o.
  - intros x Hx%list_elem_of_singleton. subst x. by apply Nat.leb_le.
  - intros x [= <-]. split; [by apply Nat.leb_le | by eexists].
Qed.

Lemma example_authentic d method peers :
  authentic (sx := example_codec d) example_processor example_surroundings
    (example_request method example_hmac peers) example_auth_key.
Proof.
  split; [left; split; [by eexists|done]|].
  exists (to_bytes "user"), example_nonce, MD5, (to_bytes "pass").
  split; [done|]. split; [done|]. split; [done|]. split; [by vm_compute|].
  split; [by vm_compute|]. split; [by vm_compute|]. split; [by vm_compute|].
  exists 24%nat, example_hmac, example_header. cbn zeta.
  split; [done|]. split; [done|]. split; [by vm_compute|]. by vm_compute.
Qed.

Lemma example_not_authentic d method peers key :
  ~ authentic (sx := example_codec d) example_processor example_surroundings
    (example_request method [] peers) key.
Proof.
  intros [_ (u & n & alg & p & [= <-] & _ & [= <-] & Hc & Hp & Hk & _ & o & h & m & Ho & Hh & _ & Hv)].
  assert (alg = MD5) as -> by (vm_compute in Hc; by injection Hc).
  injection Hh as <-. apply validateMessageIntegrity_true in Hv. discriminate Hv.
Qed.

Lemma example_distinct : distinct_tokens example_surroundings example_world.
Proof.
  intros i j Hij. assert (base.size (reservations_ (reservation_manager_
    (allocation_manager_ example_world))) = 0%nat) as E by reflexivity.
  rewrite E in Hij. lia.
Qed.

Lemma example_wf : wf_world example_world.
Proof. apply (wf_world_make example_config), make_example. Qed.

Definition example_allocate : plain_decoder :=
  example_request Allocate example_hmac [example_peer_attr].

Lemma example_no_hazard e :
  ~ hazard (sx := example_codec example_allocate) example_processor example_surroundings
      example_allocate example_world e.
Proof.
  intros He. apply decoder_ok_hazard in He as [_ Hlt];
    [|apply (example_decoder_ok (fun _ => Some example_allocate)) | apply example_distinct].
  by vm_compute in Hlt.
Qed.

(** The packet has no hazard. *)
Lemma processPacket_safe_witness :
  let '(w', r) := processPacket (sx := example_codec example_allocate) map_to_list
    example_processor example_surroundings example_packet example_tuple example_world in
  wf_world w' /\ r = Ok tt.
Proof.
  pose proof (processPacket_safe (sx := example_codec example_allocate)
    (sxl := plain_stunxx_laws _) map_to_list example_perm
    example_processor example_surroundings example_world example_packet example_tuple
    example_wf) as H.
  destruct (processPacket _ _ _ _ _ _) as [w' r].
  destruct H as [Hw [Hr | (e & d & _ & _ & Hd & He)]]; (split; [exact Hw|]);
    [exact Hr | exfalso].
  injection Hd as <-. by apply example_no_hazard in He.
Defined.

(** An integrity header of the algorithm the request chooses, without a
    value: the handler reads an empty optional. *)
Lemma hazard_example {sx : Stunxx} d ep nonce key w o :
  mi_sha256_offset d = Some o -> get_mi_sha256 d = None ->
  (check_integrity example_processor example_surroundings d ep nonce SHA256 key w).2
    = Err (undefined_behaviour "empty message integrity attribute").
Proof. intros Ho Hv. unfold check_integrity. simpl. by rewrite Ho, Hv. Qed.

Lemma processPacket_isolated_witness :
  let w' := (processPacket (sx := example_codec example_allocate) map_to_list
               example_processor example_surroundings example_packet example_tuple
               example_world).1 in
  exists l, sent w' = l /\ (length l <= 1)%nat.
Proof.
  destruct (processPacket_isolated (sx := example_codec example_allocate)
    (sxl := plain_stunxx_laws _) map_to_list example_perm
    example_processor example_surroundings example_world example_packet example_tuple
    example_wf) as (_ & _ & l & Hs & Hl & _).
  exists l. split; [exact Hs | exact Hl].
Defined.

Lemma authenticate_exact_witness :
  authenticate (sx := example_codec example_allocate) example_processor
    example_surroundings example_allocate (endpoint example_tuple) example_world =
    (example_world, Ok (Some example_auth_key)).
Proof.
  apply (proj1 (authenticate_exact (sx := example_codec example_allocate)
    example_processor example_surroundings example_world example_allocate
    (endpoint example_tuple) example_auth_key)).
  apply example_authentic.
Defined.

(** A request with an empty hash. *)
Lemma unauthentic_request_refused_witness :
  let d := example_request Allocate [] [] in
  allocation_manager_ (dispatch (sx := example_codec d) map_to_list example_processor
    example_surroundings d example_tuple example_world).1 = example_manager.
Proof.
  intros d. apply (unauthentic_request_refused (sx := example_codec d) map_to_list
    example_processor example_surroundings example_world d example_tuple).
  - reflexivity.
  - left. reflexivity.
  - intros key. apply example_not_authentic.
Defined.

Lemma error_message_challenge_witness :
  exists nonce, validateNonce 1700003600 nonce (authenticator_ example_processor) = Ok true.
Proof.
  destruct (error_message_challenge (sx := example_codec example_allocate)
    example_processor example_surroundings example_allocate Unauthenticated None x80
    (tail (toy_mac x80 [x01; x02; x03] (to_string 1700003600))))
    as (_ & _ & _ & _ & _ & _ & Hex & H).
  - split; by vm_compute.
  - vm_compute. reflexivity.
  - destruct (proj2 Hex (or_introl eq_refl)) as (nonce & Hn).
    exists nonce. apply (H nonce Hn 1700003600). by vm_compute.
Defined.
End witnesses.
