(* ===== verification/RequestFacts.v ===== *)
(** * What each request does

    The functional behaviour of the handlers of [StunTurnProcessor] on
    authentic requests, branch by branch, and of the two ways a client sends
    data to its peers. *)

From Stdlib Require Import ZArith Lia Strings.Byte.
From stdpp Require Import base gmap list strings relations.
From S2P Require Import Prelude Asio Instances TimedTable.
From S2P Require Import RelayAddressGenerator ReservationManager.
From S2P Require Import Config OpenSSL Stunxx AuthKey Authenticator.
From S2P Require Import Endpoint Message Allocation AllocationManager StunTurnProcessor.
From S2P Require Import Examples ProcessorFacts.

Section requests.
Context {ip : IpAddress} {ipl : IpAddressLaws ip} {sx : Stunxx} {sxl : StunxxLaws sx}.
Context {ssl : OpenSSL} {laws : OpenSSLLaws ssl}.
Context (iteration : gmap Z ChannelManager.ChannelEntry ->
                     list (Z * ChannelManager.ChannelEntry)).
Context (iteration_perm : forall m, iteration m ≡ₚ map_to_list m).
Context (self : StunTurnProcessor) (env : surroundings).
Implicit Types (w : World) (d : Decoder) (am : AllocationManager) (ft : FiveTuple).

(** ** Lifetimes *)

(** The lifetime that is granted for a LIFETIME attribute. *)
Definition granted_lifetime (default maximum : Z) (requested : option Z) : Z :=
  match requested with
  | Some v => if 0 <? v then Z.max default (Z.min v maximum) else default
  | None => default
  end.

Lemma lifetime_granted d :
  let default := allocation_lifetime (turn (StunTurnProcessor.config_ self)) in
  let maximum := max_allocation_lifetime (turn (StunTurnProcessor.config_ self)) in
  computeLifetime self d = granted_lifetime default maximum (get_lifetime d) /\
  allocate_lifetime self d = granted_lifetime default maximum (get_lifetime d).
Proof.
  unfold computeLifetime, allocate_lifetime, granted_lifetime. cbv zeta.
  destruct (get_lifetime d) as [v|]; [|done]. destruct (Z.ltb_spec 0 v); [|done].
  destruct (Z.ltb_spec (allocation_lifetime (turn (StunTurnProcessor.config_ self)))
    (Z.min v (max_allocation_lifetime (turn (StunTurnProcessor.config_ self)))));
    split; lia.
Qed.

(** C32.  The lifetime of an allocation, at its creation and at a refresh
    alike: what the client asks for, cut at the configured maximum, but
    never less than the configured default; 0 and no request give the
    default.  In particular it never is 0: a Refresh never deletes. *)
Theorem computeLifetime_exact d :
  let default := allocation_lifetime (turn (StunTurnProcessor.config_ self)) in
  let maximum := max_allocation_lifetime (turn (StunTurnProcessor.config_ self)) in
  computeLifetime self d = allocate_lifetime self d /\
  computeLifetime self d = granted_lifetime default maximum (get_lifetime d) /\
  default <= computeLifetime self d <= Z.max default maximum /\
  (0 < default -> computeLifetime self d <> 0).
Proof.
  destruct (lifetime_granted d) as [-> ->]. cbv zeta. unfold granted_lifetime.
  split; [done|]. split; [done|]. destruct (get_lifetime d) as [v|]; [|lia].
  destruct (Z.ltb_spec 0 v); lia.
Qed.

(** ** Allocate *)

Definition integrity_attr (key : AuthKey) : StunAttr :=
  if bool_decide (algorithm_ key = SHA256) then MessageIntegritySHA256 (span key)
  else MessageIntegritySHA1 (span key).

(** A success response, as [add_message_integrity] finishes it. *)
Definition success_response (method : StunMethod) (d : Decoder) (attrs : list StunAttr)
    (key : AuthKey) : StunMessage :=
  {| sm_method := method; sm_class := SuccessResp; sm_transaction := transactionId d;
     sm_attrs := attrs ++ [integrity_attr key] |}.

Lemma add_message_integrity_eq key method d attrs :
  add_message_integrity key
    {| sm_method := method; sm_class := SuccessResp; sm_transaction := transactionId d;
       sm_attrs := attrs |} = success_response method d attrs key.
Proof.
  unfold add_message_integrity, success_response, integrity_attr. by case_bool_decide.
Qed.

(** The code of the first check that fails. *)
Fixpoint first_failing (checks : list (bool * StunErrorCode)) : option StunErrorCode :=
  match checks with
  | [] => None
  | (failing, ec) :: checks => if failing : bool then Some ec else first_failing checks
  end.

Definition present {A} (x : option A) : bool := bool_decide (is_Some x).

(** The checks of an Allocate request on a free five-tuple, in their order;
    [supported] says which families the server relays. *)
Definition allocate_checks (supported : AddressFamily -> bool) (d : Decoder)
    : list (bool * StunErrorCode) :=
  let even := get_even_port d in
  let family := get_requested_family d in
  let extra := get_additional_family d in
  [(bool_decide (get_requested_transport d = None), BadRequest);
   (bool_decide (get_requested_transport d <> Some 17), UnsupportedTransport);
   (present (get_dont_fragment d), UnknownAttribute)] ++
  if present (get_reservation_token d) then
    [(present even || present family || present extra, BadRequest)]
  else
    [(present family && present extra, BadRequest);
     (negb (supported (default IPv4 family)), AddressFamNotSupported);
     (bool_decide (even = Some true) && present extra, BadRequest);
     (bool_decide (extra = Some IPv4), BadRequest)].

Lemma allocate_checks_ext f g d :
  (forall family, f family = g family) -> allocate_checks f d = allocate_checks g d.
Proof. intros E. unfold allocate_checks. by rewrite E. Qed.

Definition allocate_response (d : Decoder) (ft : FiveTuple) (key : AuthKey)
    (relayed : socket) (lifetime : Z) (extra : option AddressFamily)
    (token : option ReservationToken) : StunMessage :=
  success_response Allocate d
    ([XorRelayedAddr (makeStunAddress (local_address relayed) (local_port relayed));
      Lifetime lifetime;
      XorMappedAddr (makeStunAddress (client_address_ ft) (client_port_ ft))] ++
     match extra with Some _ => [AddressErrorCode IPv6 InsufficientCapacity] | None => [] end ++
     match token with Some t => [ReservationTokenAttr t] | None => [] end) key.

(** The response of a handler, built from the relayed address. *)
Definition response_builder d ft key (lifetime : Z) (extra : option AddressFamily)
    (token : option ReservationToken) (relayed : Address) (relayed_port : Z) : StunMessage :=
  let builder := allocate_builder d ft relayed relayed_port lifetime in
  let builder :=
    match extra with
    | Some _ => add (AddressErrorCode IPv6 InsufficientCapacity) builder
    | None => builder
    end in
  let builder :=
    match token with
    | Some token => add (ReservationTokenAttr token) builder
    | None => builder
    end in
  add_message_integrity key builder.

Lemma allocate_response_built d ft key (s : socket) lifetime extra tok :
  response_builder d ft key lifetime extra tok (local_address s) (local_port s) =
    allocate_response d ft key s lifetime extra tok.
Proof.
  unfold response_builder, add_message_integrity, allocate_response, success_response,
    integrity_attr. by destruct extra, tok; case_bool_decide.
Qed.

Lemma wp_record_success p a b ft Q w :
  let am := allocation_manager_ w in
  let success := finalize b in
  let a' := set_base (set_successMessage success (base a)) a in
  objects am !! p = Some a ->
  Q (Ok tt) {| allocation_manager_ := set_objects (<[p := a']> (objects am)) (timer_calls am) am;
               sent := sent w ++ [(success, endpoint ft)] |} ->
  wp (record_success p b ft) Q w.
Proof.
  intros am success a' Ha HQ. unfold record_success. apply (wp_deref p a); [done|].
  by apply wp_store.
Qed.

(** The request was refused: the client gets the error, and nothing else
    happens. *)
Definition refused_with d ft key ec w (r : result unit) (w' : World) : Prop :=
  r = Ok tt /\ w' = (sendErrorMessage self env d ec (endpoint ft) (Some key) w).1.

(** A new allocation was filed under the five-tuple, which relays on the
    socket [s]; the client gets its response, which is also recorded. *)
Definition filed d ft key (s : socket) (extra : option AddressFamily)
    (token : option ReservationToken) w (r : result unit) (w' : World) : Prop :=
  let am := allocation_manager_ w in
  let am' := allocation_manager_ w' in
  let lifetime := computeLifetime self d in
  let response := finalize (allocate_response d ft key s lifetime extra token) in
  r = Ok tt /\ sent w' = sent w ++ [(response, endpoint ft)] /\
  exists p a, objects am !! p = None /\ objects am' = <[p := a]> (objects am) /\
    session_map_ am' = <[ft := p]> (session_map_ am) /\
    five_tuple_ (base a) = ft /\ Allocation.socket_ a = s /\
    expiry (timer_ (base a)) = now env + seconds lifetime /\
    (forall peer, hasPermission peer (base a) = false) /\
    (forall n, getPeerByChannel n a = None) /\
    successMessage (base a) = response.

(** What an Allocate request does, from the checks, the reservations and the
    answer of the port generator. *)
Definition allocated d ft key w (r : result unit) (w' : World) : Prop :=
  let am := allocation_manager_ w in
  let held m := reservations_ (reservation_manager_ (allocation_manager_ m)) in
  match first_failing (allocate_checks (fun f => supportsFamily f am) d) with
  | Some ec => refused_with d ft key ec w r w'
  | None =>
      match get_reservation_token d with
      | Some token =>
          match held w !! token with
          | None => refused_with d ft key InsufficientCapacity w r w'
          | Some reservation =>
              filed d ft key (takeSocket reservation) None None w r w' /\
              held w' = delete token (held w)
          end
      | None =>
          let extra := get_additional_family d in
          let g := relay_address_generator_ am in
          match generateUdpRelay (relay env) (policy_of d) g with
          | Err e => r = Err e /\ w' = w
          | Ok None => refused_with d ft key InsufficientCapacity w r w'
          | Ok (Some relayed) =>
              (match secondary_ relayed with
               | None =>
                   filed d ft key (primary relayed) extra None w r w' /\ held w' = held w
               | Some next =>
                   exists token reservation,
                     filed d ft key (primary relayed) extra (Some token) w r w' /\
                     held w !! token = None /\ takeSocket reservation = next /\
                     held w' = <[token := reservation]> (held w)
               end) /\
              (is_Some (secondary_ relayed) <-> get_even_port d = Some true) /\
              (ports_ok g -> dist_ok (relay env) ->
               (exists p, suitable (policy_of d) g p) ->
               suitable (policy_of d) g (local_port (primary relayed)) /\
               local_address (primary relayed) = addr_ g)
          end
      end
  end.

Lemma error_refused d ft key ec w :
  wp (sendErrorMessage self env d ec (endpoint ft) (Some key))
    (refused_with d ft key ec w) w.
Proof. unfold wp, refused_with. by rewrite sendErrorMessage_eq. Qed.

(** The end of both ways to file an allocation. *)
Lemma filed_record d ft key s extra tok rm w :
  wf_world w ->
  let lifetime := computeLifetime self d in
  let '(p, am) := install (now env) lifetime ft s
                    (set_reservation_manager rm (allocation_manager_ w)) in
  wp (a ← deref p;
      relayed ← of_option (system_error "make_address") (make_address (address_of a));
      record_success p (response_builder d ft key lifetime extra tok relayed (port_of a)) ft)
    (fun r w' => filed d ft key s extra tok w r w' /\
       reservation_manager_ (allocation_manager_ w') = rm)
    {| allocation_manager_ := am; sent := sent w |}.
Proof.
  intros Hw. cbv zeta.
  pose proof (install_spec (now env) (computeLifetime self d) ft s
    (set_reservation_manager rm (allocation_manager_ w))) as Hi.
  destruct (install _ _ _ _ _) as [p am].
  destruct Hi as (-> & _ & _ & Hsm & Hrm & _ & a & Ho & Hft & Hsock & _ & _ & _ & _ & _ & He
    & _ & _ & Hperm & Hch).
  cbn [next_object set_reservation_manager objects session_map_ reservation_manager_] in *.
  set (p := next_object (allocation_manager_ w)) in *.
  assert (objects am !! p = Some a) as Ha by by rewrite Ho, lookup_insert_eq.
  apply (wp_deref _ a); [done|]. eapply wp_of_option; [apply make_address_of|].
  unfold port_of. rewrite Hsock, allocate_response_built.
  apply (wp_record_success _ a); [done|]. split; [|exact Hrm].
  split; [done|]. split; [done|]. eexists p, _. cbn [allocation_manager_ objects set_objects
    session_map_]. rewrite Ho, insert_insert_eq.
  split_and!; try done. destruct (objects (allocation_manager_ w) !! p) eqn:E; [|done].
  apply (wf_fresh _ (wf_manager _ Hw)) in E. unfold p in E. lia.
Qed.

(** The handler after its checks. *)
Lemma allocate_checked d ft key w :
  authentic self env d key ->
  AllocationManager.getAllocation ft (allocation_manager_ w) = None ->
  handleAllocationRequest self env d ft w =
    match first_failing (allocate_checks
            (fun f => supportsFamily f (allocation_manager_ w)) d) with
    | Some ec => sendErrorMessage self env d ec (endpoint ft) (Some key) w
    | None =>
        match get_reservation_token d with
        | Some token => allocate_reserved self env d ft key token w
        | None => allocate_new self env d ft key (default IPv4 (get_requested_family d))
                    (policy_of d) (get_additional_family d) w
        end
    end.
Proof.
  intros Ha Hfree. unfold handleAllocationRequest, mbind at 1, M_bind at 1.
  rewrite (authentic_accepted self env d (endpoint ft) w key Ha).
  unfold mbind at 1, M_bind at 1, getAllocation, gets. rewrite Hfree.
  unfold allocate_checks, present. cbn [app first_failing].
  destruct (get_requested_transport d) as [proto|]; [|done].
  rewrite (bool_decide_false (Some proto = None)) by done.
  destruct (Z.eqb_spec proto 17) as [->|Hne]; cbn [negb];
    [rewrite (bool_decide_false (Some 17 <> Some 17)) by (intros Hn; by apply Hn)
    |rewrite (bool_decide_true (Some proto <> Some 17)) by congruence; done].
  case_bool_decide; [done|].
  destruct (get_reservation_token d) as [tok|]; cbn [first_failing].
  - rewrite (bool_decide_true (is_Some (Some tok))) by by eexists. cbn [first_failing].
    by destruct (_ || _).
  - rewrite (bool_decide_false (is_Some None)) by by intros [? ?]. cbn [first_failing].
    unfold allocate_fresh. destruct (bool_decide _ && _); [done|].
    unfold mbind at 1, M_bind at 1, get. destruct (negb _); [done|].
    destruct (bool_decide _ && _); [done|]. by case_bool_decide.
Qed.

Lemma allocated_reserved d ft key token w :
  wf_world w ->
  first_failing (allocate_checks (fun f => supportsFamily f (allocation_manager_ w)) d) = None ->
  get_reservation_token d = Some token ->
  wp (allocate_reserved self env d ft key token) (allocated d ft key w) w.
Proof.
  intros Hw Hck Ht. unfold allocated. rewrite Hck, Ht. unfold allocate_reserved.
  apply wp_get. unfold claimReservation, ReservationManager.claimReservation.
  destruct (reservations_ _ !! token) as [res|].
  - set (rm := set_reservations _ _ _).
    pose proof (filed_record d ft key (takeSocket res) None None rm w Hw) as Hf.
    cbv zeta in Hf. destruct (install _ _ _ _ _) as [p am]. apply wp_set_manager.
    eapply wp_mono; [exact Hf|]. intros r' w' [Hfiled Hrm]. split; [done|]. by rewrite Hrm.
  - apply wp_set_manager. rewrite set_reservation_manager_id. destruct w. apply error_refused.
Qed.

Lemma allocated_new d ft key w fam :
  wf_world w -> distinct_tokens env w ->
  first_failing (allocate_checks (fun f => supportsFamily f (allocation_manager_ w)) d) = None ->
  get_reservation_token d = None ->
  wp (allocate_new self env d ft key fam (policy_of d) (get_additional_family d))
    (allocated d ft key w) w.
Proof.
  intros Hw Hdist Hck Ht. unfold allocated. rewrite Hck, Ht. unfold allocate_new.
  apply wp_get. destruct (lifetime_granted d) as [Hl1 Hl2]. rewrite Hl2, <-Hl1.
  apply wp_of_result_any.
  2:{ intros e E. destruct (createAllocation_raises _ _ _ _ _ _ _ _ _ E)
        as [[-> Hlt] | (_ & _ & Hn)]; [|done].
      unfold generateUdpRelay. by rewrite (proj2 (Z.ltb_lt _ _) Hlt). }
  intros [[op ot] am'] [(Hg & -> & _ & ->) | (r & rm & Hg & _ & -> & -> & Hsec)]
    %createAllocation_cases; rewrite Hg.
  { apply wp_set_manager. destruct w. apply error_refused. }
  pose proof (generateUdpRelay_secondary _ _ _ _ Hg) as H2.
  assert (is_Some (secondary_ r) <-> get_even_port d = Some true) as Heven.
  { rewrite H2. unfold policy_of. by destruct (get_even_port d) as [[]|]. }
  set (held := reservations_ (reservation_manager_ (allocation_manager_ w))).
  pose proof (filed_record d ft key (primary r) (get_additional_family d) ot rm w Hw) as Hf.
  cbv zeta in Hf.
  pose proof (install_spec (now env) (computeLifetime self d) ft (primary r)
    (set_reservation_manager rm (allocation_manager_ w))) as Hi.
  destruct (install _ _ _ _ _) as [p am].
  destruct Hi as [-> _]. cbn [snd next_object set_reservation_manager] in *.
  apply wp_set_manager. eapply wp_mono; [exact Hf|].
  intros r' w' [Hfiled Hrm]. cbv beta. rewrite Hrm. split; [|split; [exact Heven|]].
  - destruct (secondary_ r) as [s|]; [|by destruct Hsec as [-> ->]].
    destruct Hsec as (tok & pos & -> & (Hn & _ & _ & res & Hres & Hs & _)%createReservation_Some).
    by exists tok, res.
  - intros Hok Hd Hs. by destruct (generateUdpRelay_spec _ _ _ _ Hok Hd Hs Hg) as (? & ? & _).
Qed.

Lemma handleAllocationRequest_spec d ft key w :
  wf_world w -> distinct_tokens env w -> authentic self env d key ->
  AllocationManager.getAllocation ft (allocation_manager_ w) = None ->
  wp (handleAllocationRequest self env d ft) (allocated d ft key w) w.
Proof.
  intros Hw Hdist Ha Hfree. unfold wp. rewrite (allocate_checked d ft key w Ha Hfree).
  destruct (first_failing _) as [ec|] eqn:Hck.
  - unfold allocated. rewrite Hck. apply error_refused.
  - destruct (get_reservation_token d) eqn:Ht;
      [by apply allocated_reserved | by apply allocated_new].
Qed.

(** C10.  What an authentic Allocate request does, on every branch.  On a
    five-tuple in use, a request of the transaction that made the allocation
    gets the recorded response again and any other one 437.  On a free one,
    the first of the checks of the handler that fails gives its error (400,
    442, 420, 440) and nothing changes.  With a reservation token the
    reserved socket is taken out, or the answer is 508.  Otherwise the port
    generator decides: 508 when it finds no port, an exception when its
    bounds are out of order, and else an allocation on the socket it opened,
    with the next port reserved under a new token exactly when EVEN-PORT asks
    for it; on a configured range without port 0 that socket has a suitable
    port on the relay address.  A new allocation expires after the computed
    lifetime, has no permission and no channel, displaces nothing, and the
    client gets the success response that is also recorded. *)
Theorem allocate_functional d ft key w :
  wf_world w -> distinct_tokens env w -> authentic self env d key ->
  let am := allocation_manager_ w in
  match AllocationManager.getAllocation ft am with
  | Some p =>
      exists a, objects am !! p = Some a /\
        handleAllocationRequest self env d ft w =
          if bool_decide (transactionId d =
                          take 12 (drop 8 (buffer (successMessage (base a)))))
          then (send_world (successMessage (base a)) (endpoint ft) w, Ok tt)
          else sendErrorMessage self env d AllocationMismatch (endpoint ft) (Some key) w
  | None =>
      let '(w', r) := handleAllocationRequest self env d ft w in allocated d ft key w r w'
  end.
Proof.
  intros Hw Hdist Ha am. destruct (AllocationManager.getAllocation ft am) as [p|] eqn:Hp.
  - destruct (wf_object w ft p Hw Hp) as (a & Hoa & [Hsz _]). exists a. split; [done|].
    unfold handleAllocationRequest, mbind at 1, M_bind at 1.
    rewrite (authentic_accepted self env d (endpoint ft) w key Ha).
    unfold mbind at 1, M_bind at 1, getAllocation, gets. unfold am in Hp. rewrite Hp.
    unfold allocate_again, mbind at 1, M_bind at 1. rewrite (deref_eq p a w Hoa).
    unfold getTransactionId. rewrite (proj2 (Z.ltb_ge _ _)) by lia.
    unfold of_result, mbind, M_bind, successMessage. by case_bool_decide.
  - pose proof (handleAllocationRequest_spec d ft key w Hw Hdist Ha Hp) as H. revert H.
    unfold wp. by destruct (handleAllocationRequest self env d ft w).
Qed.

(** What the client was sent when an Allocate request filed an allocation:
    a response of the request's transaction, which is also recorded. *)
Definition answered d ft w (r : result unit) (w' : World) : Prop :=
  forall p, AllocationManager.getAllocation ft (allocation_manager_ w') = Some p ->
    exists a b, objects (allocation_manager_ w') !! p = Some a /\
      success_message_ (base a) = finalize b /\ sm_transaction b = transactionId d /\
      sent w' = sent w ++ [(finalize b, endpoint ft)].

Definition free ft w : Prop :=
  AllocationManager.getAllocation ft (allocation_manager_ w) = None.

Lemma answered_free {m : M World unit} d ft w0 w :
  free ft (m w).1 -> wp m (answered d ft w0) w.
Proof. intros Hf p Hp. unfold free in Hf. congruence. Qed.

Lemma answered_error d ft w0 w ec key :
  free ft w -> wp (sendErrorMessage self env d ec (endpoint ft) key) (answered d ft w0) w.
Proof.
  intros Hf. apply answered_free. rewrite sendErrorMessage_eq.
  by destruct (builder_valid _).
Qed.

Lemma answered_record d ft w0 w p b :
  AllocationManager.getAllocation ft (allocation_manager_ w) = Some p ->
  is_Some (objects (allocation_manager_ w) !! p) -> sm_transaction b = transactionId d ->
  sent w = sent w0 ->
  wp (record_success p b ft) (answered d ft w0) w.
Proof.
  intros Hp [a Ha] Hb Hs. apply (wp_record_success p a); [done|].
  intros q Hq. cbn in Hq. change (AllocationManager.getAllocation ft
    (allocation_manager_ w) = Some q) in Hq. assert (q = p) as -> by congruence.
  eexists _, b. split; [cbn; apply lookup_insert_eq|]. by rewrite <-Hs.
Qed.

Lemma transaction_add_integrity key b :
  sm_transaction (add_message_integrity key b) = sm_transaction b.
Proof. unfold add_message_integrity. by case_bool_decide. Qed.

Lemma filed_by_install now lifetime ft s am :
  let '(p, am') := install now lifetime ft s am in
  AllocationManager.getAllocation ft am' = Some p /\
  exists a, objects am' !! p = Some a.
Proof.
  pose proof (install_spec now lifetime ft s am) as Hi.
  destruct (install now lifetime ft s am) as [p am'].
  destruct Hi as (-> & _ & _ & Hs & _ & _ & a & Ho & _).
  rewrite getAllocation_lookup, Hs, Ho. split; [apply lookup_insert_eq|].
  exists a. apply lookup_insert_eq.
Qed.

Lemma answered_reserved d ft key token w :
  free ft w -> wp (allocate_reserved self env d ft key token) (answered d ft w) w.
Proof.
  intros Hf. unfold allocate_reserved. apply wp_get. unfold claimReservation.
  destruct (ReservationManager.claimReservation _ _) as [[sock|] rm];
    [|by apply wp_set_manager, answered_error].
  pose proof (filed_by_install (now env) (computeLifetime self d) ft sock
    (set_reservation_manager rm (allocation_manager_ w))) as Hi.
  destruct (install _ _ _ _ _) as [p am]. destruct Hi as [Hp [a Ha]].
  apply wp_set_manager, (wp_deref p a); [done|].
  eapply wp_of_option; [apply make_address_of|].
  apply answered_record; [done|by eexists|by rewrite transaction_add_integrity|done].
Qed.

Lemma answered_new d ft key fam policy extra w :
  free ft w -> wp (allocate_new self env d ft key fam policy extra) (answered d ft w) w.
Proof.
  intros Hf. unfold allocate_new. apply wp_get.
  apply wp_of_result_any; [|by intros e _ q Hq; unfold free in Hf; congruence].
  intros [[op ot] am'] E. apply createAllocation_cases in E as [(_ & -> & _ & ->) | (r & rm & _ & _ & -> & -> & _)];
    [by apply wp_set_manager, answered_error|].
  pose proof (filed_by_install (now env) (allocate_lifetime self d) ft (primary r)
    (set_reservation_manager rm (allocation_manager_ w))) as Hi.
  pose proof (install_spec (now env) (allocate_lifetime self d) ft (primary r)
    (set_reservation_manager rm (allocation_manager_ w))) as Hs.
  destruct (install _ _ _ _ _) as [p am]. destruct Hi as [Hp [a Ha]].
  destruct Hs as [Hn _]. cbn [next_object set_reservation_manager] in Hn. subst p.
  apply wp_set_manager, (wp_deref (next_object (allocation_manager_ w)) a); [done|].
  eapply wp_of_option; [apply make_address_of|].
  apply answered_record; [done|by eexists| |done].
  rewrite transaction_add_integrity. by destruct ot, extra.
Qed.

Lemma answered_request d ft key w :
  authentic self env d key -> free ft w ->
  wp (handleAllocationRequest self env d ft) (answered d ft w) w.
Proof.
  intros Ha Hf. unfold handleAllocationRequest. apply (wp_authentic _ _ _ _ _ key); [done|].
  apply wp_getAllocation. rewrite Hf.
  destruct (get_requested_transport d); [|by apply answered_error].
  destruct (negb _); [by apply answered_error|].
  case_bool_decide; [by apply answered_error|].
  destruct (get_reservation_token d).
  - destruct (_ || _); [by apply answered_error | by apply answered_reserved].
  - unfold allocate_fresh. destruct (_ && _); [by apply answered_error|]. apply wp_get.
    destruct (negb _); [by apply answered_error|].
    destruct (_ && _); [by apply answered_error|].
    case_bool_decide; [by apply answered_error | by apply answered_new].
Qed.

(** C11.  Allocate is idempotent: when a request has filed an allocation, the
    client was sent one response, and as long as the allocation keeps that
    response, the same request, processed again at any later time at which
    it is still authentic, is answered with the same bytes and changes
    nothing; a request of another transaction is answered with 437. *)
Theorem allocate_retransmitted d ft key w p :
  authentic self env d key -> free ft w ->
  let w1 := (handleAllocationRequest self env d ft w).1 in
  AllocationManager.getAllocation ft (allocation_manager_ w1) = Some p ->
  exists a m, objects (allocation_manager_ w1) !! p = Some a /\
    sent w1 = sent w ++ [(m, endpoint ft)] /\
    forall env' d' key' w2 a2,
      authentic self env' d' key' ->
      AllocationManager.getAllocation ft (allocation_manager_ w2) = Some p ->
      objects (allocation_manager_ w2) !! p = Some a2 ->
      success_message_ (base a2) = success_message_ (base a) ->
      handleAllocationRequest self env' d' ft w2 =
        if bool_decide (transactionId d' = transactionId d)
        then (send_world m (endpoint ft) w2, Ok tt)
        else sendErrorMessage self env' d' AllocationMismatch (endpoint ft) (Some key') w2.
Proof.
  intros Ha Hf w1 Hp. destruct (answered_request d ft key w Ha Hf p Hp)
    as (a & b & Hoa & Hsm & Htid & Hsent).
  exists a, (finalize b). split; [done|]. split; [done|].
  intros env' d' key' w2 a2 Ha' Hp2 Hoa2 Hsame.
  assert (getTransactionId (base a2) = Ok (transactionId d)) as Hgt.
  { rewrite <-Htid. apply getTransactionId_finalize.
    - rewrite Htid. apply length_transactionId.
    - by rewrite Hsame. }
  unfold handleAllocationRequest, allocate_again, deref, getAllocation, gets, mbind, M_bind.
  rewrite (authentic_accepted self env' d' (endpoint ft) w2 key' Ha'). cbv beta iota.
  rewrite Hp2. cbn [get]. unfold of_option. rewrite Hoa2. cbn [mret M_ret of_result].
  rewrite Hgt. case_bool_decide; [|done]. unfold successMessage. by rewrite Hsame, Hsm.
Qed.

(** ** Refresh *)

(** C12.  An authentic Refresh request without an allocation is answered with
    437; on an allocation it sets the expiry to the computed lifetime from
    now and changes nothing else, and the response names that lifetime,
    except that a request whose REQUESTED-ADDRESS-FAMILY is a family the
    allocation does support is refused with 440 and changes nothing. *)
Theorem refresh_functional d ft key w :
  authentic self env d key ->
  let am := allocation_manager_ w in
  let error ec := sendErrorMessage self env d ec (endpoint ft) (Some key) w in
  let lifetime := computeLifetime self d in
  (AllocationManager.getAllocation ft am = None ->
     handleRefreshRequest self env d ft w = error AllocationMismatch) /\
  (forall p a, AllocationManager.getAllocation ft am = Some p -> objects am !! p = Some a ->
     ((exists f, get_requested_family d = Some f /\ Allocation.supportsFamily f a = true) ->
        handleRefreshRequest self env d ft w = error AddressFamNotSupported) /\
     ((forall f, get_requested_family d = Some f -> Allocation.supportsFamily f a = false) ->
        wp (handleRefreshRequest self env d ft) (fun r w' =>
          r = Ok tt /\
          session_map_ (allocation_manager_ w') = session_map_ am /\
          (exists t, objects (allocation_manager_ w') =
                       <[p := set_base (set_timer t (base a)) a]> (objects am) /\
                     expiry t = now env + seconds lifetime) /\
          sent w' = sent w ++
            [(finalize (success_response Refresh d [Lifetime lifetime] key), endpoint ft)]) w)).
Proof.
  intros Ha am error lifetime. unfold handleRefreshRequest. split; [|intros p a Hp Hpa; split].
  - intros Hnone. unfold mbind, M_bind. rewrite (authentic_accepted _ _ _ _ _ key Ha).
    cbv beta iota. unfold getAllocation, gets. by fold am; rewrite Hnone.
  - intros (f & Hf & Hs). unfold mbind, M_bind.
    rewrite (authentic_accepted _ _ _ _ _ key Ha). cbv beta iota.
    unfold getAllocation, gets. fold am. rewrite Hp. unfold mbind, M_bind.
    by rewrite (deref_eq p a), Hf, Hs.
  - intros Hf. apply (wp_authentic _ _ _ _ _ key); [done|]. apply wp_getAllocation.
    fold am. rewrite Hp. apply (wp_deref p a); [done|].
    assert (match get_requested_family d with
            | Some family => Allocation.supportsFamily family a
            | None => false
            end = false) as ->.
    { destruct (get_requested_family d) as [f|]; [by apply Hf | done]. }
    apply wp_get. unfold refresh_udp, refresh. cbn [expires_after]. apply wp_set_manager.
    unfold StunMessageBuilder, add. cbv zeta. cbn [sm_method sm_class sm_transaction sm_attrs app].
    rewrite add_message_integrity_eq. split_and!; try done. by eexists.
Qed.

(** ** CreatePermission *)

(** The peers before the first one of a family the server does not relay. *)
Fixpoint supported_prefix (supported : AddressFamily -> bool) (xs : list XorPeerAddrAttr)
    : list XorPeerAddrAttr :=
  match xs with
  | [] => []
  | x :: xs =>
      if supported (xpa_family x) then x :: supported_prefix supported xs else []
  end.

Definition grants (xs : list XorPeerAddrAttr) (addr : Address) : Prop :=
  exists x, x ∈ xs /\ toAsioAddress (xpa_address x) (xpa_family x) = Ok addr.

Lemma grants_cons x xs addr addr' :
  toAsioAddress (xpa_address x) (xpa_family x) = Ok addr ->
  grants (x :: xs) addr' <-> addr' = addr \/ grants xs addr'.
Proof.
  intros Hx. unfold grants. split.
  - intros (y & [->|Hy]%elem_of_cons & Ey); [left; congruence | right; by exists y].
  - intros [->|(y & Hy & Ey)]; [exists x | exists y]; by rewrite elem_of_cons; auto.
Qed.

Lemma hasPermission_addPermission now addr addr' (b : Allocation.Allocation) :
  hasPermission addr' (addPermission now addr b) = true <->
  addr' = addr \/ hasPermission addr' b = true.
Proof.
  unfold hasPermission, addPermission. cbn [permission_manager_ set_permissions].
  rewrite !PermissionManager.hasPermission_spec.
  destruct (PermissionManager.addPermission_permissions now addr
    (permission_manager_ b)) as [i ->].
  setoid_rewrite lookup_insert. case_decide; subst; [|by intuition congruence].
  split; [by left | by eexists].
Qed.

Lemma install_permissions_spec p : forall xs a w,
  objects (allocation_manager_ w) !! p = Some a ->
  (forall x, x ∈ xs -> address_fits x) ->
  let am := allocation_manager_ w in
  let prefix := supported_prefix (fun f => supportsFamily f am) xs in
  wp (install_permissions env p xs) (fun r w' =>
    r = Ok (bool_decide (prefix = xs)) /\ sent w' = sent w /\
    session_map_ (allocation_manager_ w') = session_map_ am /\
    exists a', objects (allocation_manager_ w') = <[p := a']> (objects am) /\
      forall addr, hasPermission addr (base a') = true <->
        hasPermission addr (base a) = true \/ grants prefix addr) w.
Proof.
  induction xs as [|x xs IH]; intros a w Ha Hfit; cbn [install_permissions supported_prefix].
  - split_and!; try done. exists a. split; [by rewrite insert_id|].
    intros addr. split; [by left|]. intros [?|(x & Hx & _)]; [done|].
    by apply elem_of_nil in Hx.
  - apply wp_get. destruct (supportsFamily (xpa_family x) (allocation_manager_ w)); cbn [negb].
    + destruct (toAsioAddress_ok x) as [addr Hx]; [apply Hfit; left|].
      apply (wp_of_result addr); [done|]. apply (wp_deref p a); [done|]. apply wp_store.
      set (a1 := set_base (addPermission (now env) addr (base a)) a).
      eapply wp_mono; [apply (IH a1)|].
      * cbn. apply lookup_insert_eq.
      * intros y Hy. apply Hfit. by right.
      * cbn [allocation_manager_ sent set_objects objects session_map_].
        intros r w' (-> & Hs & Hm & a' & Ho & Hp). split_and!; [|done|done|].
        { f_equal. apply bool_decide_ext. split; [|by intros [=]].
          intros E. f_equal. exact E. }
        exists a'. split; [by rewrite Ho, insert_insert_eq|]. intros addr'.
        rewrite Hp, (grants_cons x _ addr addr' Hx). unfold a1. cbn [base set_base].
        rewrite hasPermission_addPermission. tauto.
    + split_and!; try done. exists a. split; [by rewrite insert_id|].
      intros addr. split; [by left|]. intros [?|(y & Hy & _)]; [done|].
      by apply elem_of_nil in Hy.
Qed.

(** C13.  An authentic CreatePermission request adds exactly the permissions
    of its peers up to the first whose family the server does not relay, and
    changes nothing else.  When there is such a peer the response is a 400
    without integrity, though the permissions of the peers before it have
    been installed. *)
Theorem createPermission_functional d ft key w p a :
  authentic self env d key ->
  AllocationManager.getAllocation ft (allocation_manager_ w) = Some p ->
  objects (allocation_manager_ w) !! p = Some a ->
  get_xor_peers d <> [] -> (forall x, x ∈ get_xor_peers d -> address_fits x) ->
  let am := allocation_manager_ w in
  let prefix := supported_prefix (fun f => supportsFamily f am) (get_xor_peers d) in
  wp (handlePermissionRequest self env d ft) (fun r w' =>
    r = Ok tt /\ session_map_ (allocation_manager_ w') = session_map_ am /\
    (exists a', objects (allocation_manager_ w') = <[p := a']> (objects am) /\
       forall addr, hasPermission addr (base a') = true <->
         hasPermission addr (base a) = true \/ grants prefix addr) /\
    sent w' = if bool_decide (prefix = get_xor_peers d)
              then sent w ++ [(finalize (success_response CreatePermission d [] key),
                               endpoint ft)]
              else sent (sendErrorMessage self env d BadRequest (endpoint ft) None w).1) w.
Proof.
  intros Ha Hp Hpa Hne Hfit am prefix. unfold handlePermissionRequest.
  apply (wp_authentic _ _ _ _ _ key); [done|]. apply wp_getAllocation.
  rewrite Hp, bool_decide_false by done. apply wp_bind.
  eapply wp_mono; [by apply (install_permissions_spec p _ a w)|].
  fold am prefix. intros r w' (-> & Hs & Hm & Ho). case_bool_decide; cbn [negb].
  - unfold StunMessageBuilder. rewrite add_message_integrity_eq.
    split_and!; [done..|]. cbn. by rewrite Hs.
  - unfold wp. rewrite !sendErrorMessage_eq. cbn [fst snd].
    destruct (builder_valid _); (split_and!; [done..|]; cbn; by rewrite Hs).
Qed.

(** ** ChannelBind *)

(** The channel manager takes the binding: it has it already, or neither the
    number nor the peer is in use. *)
Definition bindable (n : Z) (peer : Endpoint) (a : UdpAllocation) : Prop :=
  getPeerByChannel n a = Some peer \/
  (getPeerByChannel n a = None /\ forall n', getPeerByChannel n' a <> Some peer).

Lemma addChannel_spec n peer a :
  (bindable n peer a -> exists a', addChannel iteration (now env) n peer a = (true, a') /\
     getPeerByChannel n a' = Some peer /\
     (forall n', n' <> n -> getPeerByChannel n' a' = getPeerByChannel n' a) /\
     (forall addr, hasPermission addr (base a') = true <->
        addr = address peer \/ hasPermission addr (base a) = true)) /\
  (~ bindable n peer a -> addChannel iteration (now env) n peer a = (false, a)).
Proof.
  pose proof (fun n' => ChannelManager.getEndpoint_bound n' peer (channel_manager_ a)) as Hb.
  unfold bindable, getPeerByChannel, addChannel. split.
  - intros Hcan. destruct (ChannelManager.addChannel_cases iteration iteration_perm
      (now env) n peer (channel_manager_ a))
      as [(e & He & Hne & ->) | [(Hn & [n' Hn'] & ->) | (_ & i & cm & -> & _ & Hch)]].
    + exfalso. unfold ChannelManager.getEndpoint at 1 2 in Hcan. rewrite He in Hcan.
      destruct Hcan as [[= ?] | [? _]]; done.
    + exfalso. apply Hb in Hn'. destruct Hcan as [Hc | [_ Hno]]; [|by destruct (Hno n')].
      unfold ChannelManager.getEndpoint in Hc. by rewrite Hn in Hc.
    + eexists. split; [done|]. cbn. unfold ChannelManager.getEndpoint. rewrite Hch.
      split_and!.
      * by rewrite lookup_insert_eq.
      * intros n' Hn'. by rewrite lookup_insert_ne.
      * intros addr. apply hasPermission_addPermission.
  - intros Hno. destruct (ChannelManager.addChannel_cases iteration iteration_perm
      (now env) n peer (channel_manager_ a))
      as [(e & He & Hne & ->) | [(Hn & [n' Hn'] & ->) | (Hcan & _)]];
      [by destruct a|by destruct a|].
    exfalso. apply Hno. destruct Hcan as [(e & He & Hp) | [Hn Hnone]].
    + left. apply Hb. by exists e.
    + right. unfold ChannelManager.getEndpoint at 1. rewrite Hn. split; [done|].
      intros n' Hn'%Hb. by apply Hnone in Hn'.
Qed.

(** What a ChannelBind request does. *)
Lemma handleChannelBindRequest_spec d ft key w p a n x addr :
  authentic self env d key ->
  AllocationManager.getAllocation ft (allocation_manager_ w) = Some p ->
  objects (allocation_manager_ w) !! p = Some a ->
  get_channel_number d = Some n -> get_xor_peer d = Some x ->
  Allocation.supportsFamily (xpa_family x) a = true ->
  make_address (xpa_addressStr x) = Some addr ->
  let peer := {| address := addr; port := xpa_port x; protocol := UDP |} in
  let am := allocation_manager_ w in
  wp (handleChannelBindRequest iteration self env d ft) (fun r w' =>
    let am' := allocation_manager_ w' in
    r = Ok tt /\ session_map_ am' = session_map_ am /\
    (bindable n peer a ->
       (exists a', objects am' = <[p := a']> (objects am) /\
          getPeerByChannel n a' = Some peer /\
          (forall n', n' <> n -> getPeerByChannel n' a' = getPeerByChannel n' a) /\
          (forall addr', hasPermission addr' (base a') = true <->
             addr' = addr \/ hasPermission addr' (base a) = true)) /\
       sent w' = sent w ++
         [(finalize (success_response ChannelBind d [] key), endpoint ft)]) /\
    (~ bindable n peer a ->
       objects am' = objects am /\
       sent w' = sent (sendErrorMessage self env d BadRequest (endpoint ft)
                         (Some key) w).1)) w.
Proof.
  intros Ha Hp Hpa Hn Hx Hfam Haddr peer am. unfold handleChannelBindRequest.
  apply (wp_authentic _ _ _ _ _ key); [done|]. apply wp_getAllocation.
  rewrite Hp, Hn, Hx. apply (wp_deref p a); [done|]. rewrite Hfam. cbn [negb].
  eapply wp_of_option; [done|]. fold peer.
  destruct (addChannel_spec n peer a) as [Hcan Hcannot].
  destruct (addChannel iteration (now env) n peer a) as [added a1] eqn:E.
  apply wp_store. destruct added; cbn [negb].
  - unfold StunMessageBuilder. rewrite add_message_integrity_eq. cbv zeta.
    split; [done|]. split; [done|]. split.
    + intros (a' & [= <-] & Hrest)%Hcan. split; [|done]. by exists a1.
    + by intros ?%Hcannot.
  - unfold wp. rewrite !sendErrorMessage_eq. cbn [fst snd]. split; [done|]. split.
    { by destruct (builder_valid _). }
    split; [by intros (a' & [=] & _)%Hcan|]. intros [= ->]%Hcannot.
    destruct (builder_valid _); cbn; by rewrite insert_id.
Qed.

(** C14.  An authentic ChannelBind request for a peer of the allocation's own
    family binds the number to the peer and permits the peer's address when
    the number and the peer are free or bound to each other already; else it
    is refused with 400.  No other binding and no other permission
    changes. *)
Theorem channelBind_functional d ft key w p a n x addr :
  authentic self env d key ->
  AllocationManager.getAllocation ft (allocation_manager_ w) = Some p ->
  objects (allocation_manager_ w) !! p = Some a ->
  get_channel_number d = Some n -> get_xor_peer d = Some x ->
  Allocation.supportsFamily (xpa_family x) a = true ->
  make_address (xpa_addressStr x) = Some addr ->
  let peer := {| address := addr; port := xpa_port x; protocol := UDP |} in
  let am := allocation_manager_ w in
  wp (handleChannelBindRequest iteration self env d ft) (fun r w' =>
    let am' := allocation_manager_ w' in
    r = Ok tt /\ session_map_ am' = session_map_ am /\
    (bindable n peer a ->
       (exists a', objects am' = <[p := a']> (objects am) /\
          getPeerByChannel n a' = Some peer /\
          (forall n', n' <> n -> getPeerByChannel n' a' = getPeerByChannel n' a) /\
          (forall addr', hasPermission addr' (base a') = true <->
             addr' = addr \/ hasPermission addr' (base a) = true)) /\
       sent w' = sent w ++
         [(finalize (success_response ChannelBind d [] key), endpoint ft)]) /\
    (~ bindable n peer a ->
       objects am' = objects am /\
       sent w' = sent (sendErrorMessage self env d BadRequest (endpoint ft)
                         (Some key) w).1)) w.
Proof. apply handleChannelBindRequest_spec. Qed.

(** ** Data to the peers *)

Lemma wp_send_to_peer p a m peer Q w :
  let am := allocation_manager_ w in
  let a' := set_queue (channel_ a ++ [(m, (address peer, port peer))]) a in
  objects am !! p = Some a -> channel_open a = true ->
  Q (Ok tt) {| allocation_manager_ := set_objects (<[p := a']> (objects am)) (timer_calls am) am;
               sent := sent w |} ->
  wp (send_to_peer p m peer) Q w.
Proof.
  intros am a' Ha Ho HQ. unfold send_to_peer. apply (wp_deref p a); [done|].
  unfold sendToPeer. rewrite Ho. by apply wp_store.
Qed.

(** [a] has one more packet in its queue, and nothing else has changed. *)
Definition relayed (p : nat) (a : UdpAllocation) (m : Message) (peer : Endpoint) w
    (r : result unit) (w' : World) : Prop :=
  let am := allocation_manager_ w in
  let am' := allocation_manager_ w' in
  r = Ok tt /\ sent w' = sent w /\ session_map_ am' = session_map_ am /\
  objects am' =
    <[p := set_queue (channel_ a ++ [(m, (address peer, port peer))]) a]> (objects am).

Lemma channelData_relayed m ft w p a cd out peer :
  wf_world w ->
  AllocationManager.getAllocation ft (allocation_manager_ w) = Some p ->
  objects (allocation_manager_ w) !! p = Some a ->
  ChannelData_decode (buffer m) = Some cd -> ChannelData_encodeData cd = Some out ->
  getPeerByChannel (channel cd) a = Some peer ->
  wp (handleChannelData m ft)
    (relayed p a {| size := ChannelData_payloadLength cd;
                    buffer := memcpy zero_buffer out |} peer w) w.
Proof.
  intros Hw Hp Hpa Hd Hout Hpeer. unfold handleChannelData. rewrite Hd.
  apply wp_getAllocation. rewrite Hp. apply (wp_deref p a); [done|].
  rewrite Hpeer, Hout. apply (wp_send_to_peer p a); [done| |by split_and!].
  by apply (wf_answers _ Hw ft p a).
Qed.

(** C15.  ChannelData reaches exactly the peer its number is bound to: the
    payload joins the allocation's queue for that peer; data on a five-tuple
    without an allocation, on an unbound number, or that does not decode, is
    dropped without a trace. *)
Theorem channelData_functional m ft w :
  wf_world w ->
  let am := allocation_manager_ w in
  let dropped := handleChannelData m ft w = (w, Ok tt) in
  (ChannelData_decode (buffer m) = None -> dropped) /\
  (AllocationManager.getAllocation ft am = None -> dropped) /\
  (forall p a cd out, AllocationManager.getAllocation ft am = Some p ->
     objects am !! p = Some a -> ChannelData_decode (buffer m) = Some cd ->
     ChannelData_encodeData cd = Some out ->
     match getPeerByChannel (channel cd) a with
     | None => dropped
     | Some peer =>
         wp (handleChannelData m ft)
           (relayed p a {| size := ChannelData_payloadLength cd;
                           buffer := memcpy zero_buffer out |} peer w) w
     end).
Proof.
  intros Hw am dropped. split_and!.
  - unfold dropped, handleChannelData. by intros ->.
  - intros Hnone. unfold dropped, handleChannelData. destruct (ChannelData_decode (buffer m)); [|done].
    unfold mbind, M_bind, getAllocation, gets. fold am. by rewrite Hnone.
  - intros p a cd out Hp Hpa Hd Hout.
    destruct (getPeerByChannel (channel cd) a) as [peer|] eqn:Epeer;
      [by apply channelData_relayed|].
    unfold dropped, handleChannelData. rewrite Hd.
    unfold mbind, M_bind, getAllocation, gets. fold am. rewrite Hp.
    by rewrite (deref_eq p a), Epeer.
Qed.

(** C16.  A Send indication is relayed to whatever peer it names: on an
    allocation its data joins the queue for that peer, whether or not the
    peer has a permission or a channel. *)
Theorem sendIndication_functional d ft w p a data x addr out :
  wf_world w ->
  AllocationManager.getAllocation ft (allocation_manager_ w) = Some p ->
  objects (allocation_manager_ w) !! p = Some a ->
  get_data d = Some data -> get_xor_peer d = Some x -> data_encode data = Some out ->
  toAsioAddress (xpa_address x) (xpa_family x) = Ok addr ->
  wp (handleSendIndication d ft)
    (relayed p a {| size := Z.of_nat (length data); buffer := memcpy zero_buffer out |}
       {| address := addr; port := xpa_port x; protocol := UDP |} w) w.
Proof.
  intros Hw Hp Hpa Hdata Hx Hout Haddr. unfold handleSendIndication.
  apply wp_getAllocation. rewrite Hp, Hdata, Hx. apply (wp_of_result addr); [done|].
  rewrite Hout. apply (wp_send_to_peer p a); [done| |by split_and!].
  by apply (wf_answers _ Hw ft p a).
Qed.
End requests.

(** ** Witnesses *)

Section witnesses.
#[local] Existing Instance plain_ip.
#[local] Existing Instance plain_ip_laws.
#[local] Existing Instance example_ssl.
#[local] Existing Instance example_ssl_laws.
#[local] Instance requests_codec : Stunxx := example_codec example_allocate.
#[local] Instance requests_codec_laws : StunxxLaws requests_codec := plain_stunxx_laws _.

(** The requests, as decoders of the codec. *)
Definition request_allocate : @Decoder requests_codec := example_allocate.

Definition request_of (method : StunMethod) : @Decoder requests_codec :=
  example_request method example_hmac [example_peer_attr].

Lemma computeLifetime_exact_witness :
  computeLifetime example_processor request_allocate = 1200.
Proof.
  rewrite (proj1 (proj2 (computeLifetime_exact example_processor request_allocate))).
  reflexivity.
Defined.

Definition example_allocated : World :=
  (handleAllocationRequest example_processor example_surroundings request_allocate
     example_tuple example_world).1.

Lemma example_supports : supportsFamily IPv4 (allocation_manager_ example_allocated) = true.
Proof. reflexivity. Qed.

(** The relay the generator opens for the request. *)
Definition example_relay : RelayAllocation socket :=
  {| primary_ := {| local_address := localhost; local_port := 49153 |}; secondary_ := None |}.

Lemma example_generated :
  generateUdpRelay (relay example_surroundings) (policy_of request_allocate)
    (relay_address_generator_ example_manager) = Ok (Some example_relay).
Proof. reflexivity. Qed.

Lemma example_filed :
  filed example_processor example_surroundings request_allocate example_tuple
    example_auth_key (primary example_relay) None None example_world (Ok tt) example_allocated.
Proof.
  pose proof (handleAllocationRequest_spec example_processor example_surroundings
    request_allocate example_tuple example_auth_key example_world example_wf
    example_distinct (example_authentic _ _ _) eq_refl) as H.
  assert (allocated example_processor example_surroundings request_allocate example_tuple
    example_auth_key example_world (Ok tt) example_allocated) as H'.
  { unfold wp in H. assert ((handleAllocationRequest example_processor example_surroundings
      request_allocate example_tuple example_world).2 = Ok tt) as E by reflexivity.
    by rewrite E in H. }
  unfold allocated in H'. change (allocation_manager_ example_world) with example_manager in H'.
  rewrite example_generated in H'. apply H'.
Qed.

Lemma example_allocated_spec :
  exists p a, AllocationManager.getAllocation example_tuple
      (allocation_manager_ example_allocated) = Some p /\
    objects (allocation_manager_ example_allocated) !! p = Some a /\
    (forall n, getPeerByChannel n a = None) /\
    (forall f, Allocation.supportsFamily f a = bool_decide (f = IPv4)) /\
    (forall addr, hasPermission addr (base a) = false).
Proof.
  destruct example_filed as (_ & _ & p & a & _ & Ho & Hs & _ & Hsock & _ & Hperm & Hch & _).
  exists p, a. rewrite getAllocation_lookup, Ho, Hs, !lookup_insert_eq.
  split; [reflexivity|]. split; [reflexivity|]. split; [exact Hch|]. split; [|exact Hperm].
  intros f. unfold Allocation.supportsFamily. rewrite Hsock. by destruct f.
Qed.

(** The request files an allocation on the port 49153. *)
Lemma allocate_functional_witness :
  exists p a, objects (allocation_manager_ example_allocated) !! p = Some a /\
    port_of a = 49153 /\ expiry (timer_ (base a)) = seconds 1200 /\
    suitable Any default_generator (port_of a).
Proof.
  pose proof (allocate_functional example_processor example_surroundings request_allocate
    example_tuple example_auth_key example_world example_wf example_distinct
    (example_authentic _ _ _)) as H. cbv zeta in H.
  change (AllocationManager.getAllocation example_tuple (allocation_manager_ example_world))
    with (None (A := nat)) in H. cbv iota in H.
  assert (handleAllocationRequest example_processor example_surroundings request_allocate
    example_tuple example_world = (example_allocated, Ok tt)) as E by reflexivity.
  rewrite E in H. unfold allocated in H.
  change (allocation_manager_ example_world) with example_manager in H.
  rewrite example_generated in H.
  destruct H as ([(_ & _ & p & a & _ & Ho & _ & _ & Hsock & He & _) _] & _ & Hs).
  destruct (Hs default_generator_ports_ok example_env_ok (default_generator_suitable _))
    as [Hsuit _].
  exists p, a. unfold port_of. rewrite Ho, Hsock.
  split; [apply lookup_insert_eq|]. split; [reflexivity|]. split; [exact He | exact Hsuit].
Defined.

(** The same request at a later time. *)
Lemma allocate_retransmitted_witness :
  exists m, sent example_allocated = [(m, endpoint example_tuple)] /\
    handleAllocationRequest example_processor example_surroundings request_allocate
      example_tuple example_allocated =
    (send_world m (endpoint example_tuple) example_allocated, Ok tt).
Proof.
  destruct example_allocated_spec as (p & a0 & Hp & _).
  destruct (allocate_retransmitted example_processor example_surroundings request_allocate
    example_tuple example_auth_key example_world p (example_authentic _ _ _) eq_refl
    Hp) as (a & m & Ha & Hs & Hagain).
  exists m. split; [exact Hs|].
  pose proof (Hagain example_surroundings request_allocate example_auth_key
    example_allocated a (example_authentic _ _ _) Hp Ha eq_refl) as H.
  rewrite bool_decide_true in H by reflexivity. exact H.
Defined.

Lemma refresh_functional_witness :
  (handleRefreshRequest example_processor example_surroundings (request_of Refresh)
     example_tuple example_allocated).2 = Ok tt.
Proof.
  destruct example_allocated_spec as (p & a & Hp & Ha & _).
  pose proof (refresh_functional example_processor example_surroundings (request_of Refresh)
    example_tuple example_auth_key example_allocated (example_authentic _ _ _)) as [_ H].
  destruct (proj2 (H p a Hp Ha)) as [Hr _]; [|exact Hr].
  intros f Hf. discriminate Hf.
Defined.

Definition mixed_request : @Decoder requests_codec :=
  example_request CreatePermission example_hmac [example_peer_attr; example_foreign_attr].

(** The first peer is permitted, and the request refused for the second. *)
Lemma createPermission_functional_witness :
  exists p a', objects (allocation_manager_ (handlePermissionRequest example_processor
      example_surroundings mixed_request example_tuple example_allocated).1) !! p
    = Some a' /\ hasPermission peer_b (base a') = true.
Proof.
  destruct example_allocated_spec as (p & a & Hp & Ha & _).
  destruct (createPermission_functional example_processor example_surroundings mixed_request
    example_tuple example_auth_key example_allocated p a (example_authentic _ _ _)
    Hp Ha) as (_ & _ & (a' & Ho & Hperm) & _).
  - discriminate.
  - intros x [->|[->|[]%elem_of_nil]%elem_of_cons]%elem_of_cons; by apply Nat.leb_le.
  - exists p, a'. split; [rewrite Ho; apply lookup_insert_eq|]. apply Hperm. right.
    exists example_peer_attr. split; [|reflexivity].
    cbn [supported_prefix mixed_request get_xor_peers requests_codec example_codec
      plain_stunxx pd_peers example_request xpa_family example_peer_attr].
    rewrite example_supports. left.
Defined.

Lemma channelBind_functional_witness :
  exists p a', objects (allocation_manager_ (handleChannelBindRequest map_to_list
      example_processor example_surroundings (request_of ChannelBind) example_tuple
      example_allocated).1) !! p = Some a' /\
    getPeerByChannel 0x4000 a' =
      Some {| address := peer_b : @Address plain_ip; port := 7000; protocol := UDP |}.
Proof.
  destruct example_allocated_spec as (p & a & Hp & Ha & Hnone & Hfam & _).
  destruct (channelBind_functional map_to_list example_perm example_processor
    example_surroundings (request_of ChannelBind) example_tuple example_auth_key
    example_allocated p a 0x4000 example_peer_attr peer_b (example_authentic _ _ _)
    Hp Ha eq_refl eq_refl (Hfam IPv4) eq_refl) as (_ & _ & H & _).
  destruct H as [(a' & Ho & Hpeer & _) _].
  - right. split; [apply Hnone|]. intros n'. by rewrite Hnone.
  - exists p, a'. split; [rewrite Ho; apply lookup_insert_eq | exact Hpeer].
Defined.

Lemma example_allocated_wf : wf_world example_allocated.
Proof.
  apply (post_handleAllocationRequest map_to_list example_perm example_processor example_surroundings
    (fun _ => True) example_tuple example_world request_allocate (fun _ _ => I)
    (fun _ _ _ _ => I) example_wf).
Qed.

(** A channel that is not bound. *)
Lemma channelData_functional_witness :
  handleChannelData (Message.make [x40; x00; x00; x00]) example_tuple example_allocated
    = (example_allocated, Ok tt).
Proof.
  destruct example_allocated_spec as (p & a & Hp & Ha & Hnone & _).
  destruct (ChannelData_decode (buffer (Message.make [x40; x00; x00; x00]))) as [cd|] eqn:E.
  - pose proof (proj2 (proj2 (channelData_functional (Message.make [x40; x00; x00; x00])
      example_tuple example_allocated example_allocated_wf)) p a cd (channel_payload cd)
      Hp Ha E eq_refl) as H.
    rewrite Hnone in H. exact H.
  - exact (proj1 (channelData_functional _ example_tuple example_allocated
      example_allocated_wf) E).
Defined.

(** The peer has no permission. *)
Lemma sendIndication_functional_witness :
  exists p a a', objects (allocation_manager_ example_allocated) !! p = Some a /\
    hasPermission peer_b (base a) = false /\
    objects (allocation_manager_ (handleSendIndication (request_of Send) example_tuple
      example_allocated).1) !! p = Some a' /\
    length (channel_ a') = S (length (channel_ a)).
Proof.
  destruct example_allocated_spec as (p & a & Hp & Ha & _ & _ & Hperm).
  destruct (sendIndication_functional (request_of Send) example_tuple example_allocated p a
    [x2a] example_peer_attr peer_b [x2a] example_allocated_wf Hp Ha
    eq_refl eq_refl eq_refl eq_refl) as (_ & _ & _ & Ho).
  eexists p, a, _. split; [exact Ha|]. split; [apply Hperm|].
  split; [rewrite Ho; apply lookup_insert_eq|]. cbn. rewrite length_app. cbn. lia.
Defined.
End witnesses.
