(* ===== verification/Server.v ===== *)
(** * The server: server/core/Server

    The socket of the clients with its reader and its writer.  The reader
    receives a datagram into one buffer it keeps, files it under the
    five-tuple of its sender and has it processed; the writer sends what the
    handlers and the allocations handed to [asyncSend], in order.  A handler
    ends with at most one packet that is put into a queue, and when that queue
    is full the reader waits.  The server runs beside the readers and writers
    of the allocations and the timers; their interleavings, with the failures
    of the sockets, are the steps of [step]. *)

From Stdlib Require Import ZArith Lia Strings.Byte.
From stdpp Require Import base gmap list strings relations.
From S2P Require Import Prelude Asio Instances TimedTable.
From S2P Require Import PermissionManager ChannelManager.
From S2P Require Import RelayAddressGenerator ReservationManager.
From S2P Require Import Config OpenSSL Stunxx AuthKey Authenticator.
From S2P Require Import Endpoint Message Allocation AllocationManager StunTurnProcessor.
From S2P Require Import Examples ProcessorFacts RequestFacts.

Section Server.
Context {ip : IpAddress} {sx : Stunxx} {ssl : OpenSSL}.
Context (iteration : gmap Z ChannelManager.ChannelEntry ->
                     list (Z * ChannelManager.ChannelEntry)).

(** The packets the channel of the server holds. *)
Definition channel_capacity : nat := 128.

(** What the reader waits for: that its last packet finds room in the queue
    of an allocation, or in the queue of the server, behind [ahead] others. *)
Inductive suspension : Type :=
| on_relay (p : nat)
| on_socket (ahead : nat).

(** [channel_] is the queue of the writer, as for an allocation, [message]
    the local buffer of the reader.  [reader_running] and [writer_running]
    say that the two coroutines run, [suspended] what the reader waits for. *)
Record Server : Type := {
  local_endpoint : Address * Z;
  channel_ : list (Message * (Address * Z));
  channel_open : bool;
  stun_turn_processor_ : StunTurnProcessor;
  allocation_manager : AllocationManager;
  message : Message;
  reader_running : bool;
  writer_running : bool;
  suspended : option suspension
}.

(** What the operating system answers to the constructor: the result of
    binding the socket, and the port it picks for port 0. *)
Record bind_env : Type := {
  bind_result : error_code;
  picked_port : Z
}.

(** The constructor and [start]; the address of the configuration may not
    parse, it may not be bound, and the random generator may fail. *)
Definition make (os : bind_env) (random : option bytes) (config : Config)
    (am : AllocationManager) : result Server :=
  match make_address (bind_address (network config)) with
  | None => Err (system_error "make_address")
  | Some bind_to =>
      if failed (bind_result os) then Err (system_error "bind")
      else
        let port := bind_port (network config) in
        match StunTurnProcessor.make random config with
        | Err e => Err e
        | Ok processor =>
            Ok {| local_endpoint := (bind_to, if port =? 0 then picked_port os else port);
                  channel_ := []; channel_open := true;
                  stun_turn_processor_ := processor; allocation_manager := am;
                  message := zero_message; reader_running := true;
                  writer_running := true; suspended := None |}
        end
  end.

Definition set_channel (q : list (Message * (Address * Z))) (s : Server) : Server :=
  {| local_endpoint := local_endpoint s; channel_ := q; channel_open := channel_open s;
     stun_turn_processor_ := stun_turn_processor_ s;
     allocation_manager := allocation_manager s; message := message s;
     reader_running := reader_running s; writer_running := writer_running s;
     suspended := suspended s |}.

Definition set_manager (am : AllocationManager) (s : Server) : Server :=
  {| local_endpoint := local_endpoint s; channel_ := channel_ s;
     channel_open := channel_open s; stun_turn_processor_ := stun_turn_processor_ s;
     allocation_manager := am; message := message s;
     reader_running := reader_running s; writer_running := writer_running s;
     suspended := suspended s |}.

Definition set_running (reader writer : bool) (s : Server) : Server :=
  {| local_endpoint := local_endpoint s; channel_ := channel_ s;
     channel_open := channel_open s; stun_turn_processor_ := stun_turn_processor_ s;
     allocation_manager := allocation_manager s; message := message s;
     reader_running := reader; writer_running := writer; suspended := suspended s |}.

Definition set_reader (m : Message) (waits_for : option suspension) (s : Server) : Server :=
  {| local_endpoint := local_endpoint s; channel_ := channel_ s;
     channel_open := channel_open s; stun_turn_processor_ := stun_turn_processor_ s;
     allocation_manager := allocation_manager s; message := m;
     reader_running := reader_running s; writer_running := writer_running s;
     suspended := waits_for |}.

Definition stop (s : Server) : Server :=
  {| local_endpoint := local_endpoint s; channel_ := channel_ s; channel_open := false;
     stun_turn_processor_ := stun_turn_processor_ s;
     allocation_manager := allocation_manager s; message := message s;
     reader_running := false; writer_running := false; suspended := suspended s |}.

(** [asyncSend]: once the queue is closed the packet is dropped. *)
Definition asyncSend (msg : Message) (endpoint : Endpoint) (s : Server) : Server :=
  if negb (channel_open s) then s
  else set_channel (channel_ s ++ [(msg, (address endpoint, port endpoint))]) s.

Definition asyncSend_all (l : list (Message * Endpoint)) (s : Server) : Server :=
  fold_left (fun s x => asyncSend x.1 x.2 s) l s.

(** The queue of an allocation holds no more packets than its channel. *)
Definition has_room (am : AllocationManager) (p : nat) : bool :=
  match objects am !! p with
  | Some a => (length (Allocation.channel_ a) <=? Allocation.channel_capacity)%nat
  | None => true
  end.

(** What the reader waits for after a packet from [key] has been processed:
    [co_await channel_.async_send] of the allocation or of the server does
    not return before there is room. *)
Definition waits_for (key : FiveTuple) (out : list (Message * Endpoint)) (s : Server)
    : option suspension :=
  match AllocationManager.getAllocation key (allocation_manager s) with
  | Some p =>
      if negb (has_room (allocation_manager s) p) then Some (on_relay p)
      else None
  | None => None
  end ∪
  (if negb (bool_decide (out = [])) && (channel_capacity <? length (channel_ s))%nat
   then Some (on_socket (length (channel_ s) - channel_capacity)) else None).

(** The reader has nothing to wait for but the next datagram. *)
Definition ready (s : Server) : bool :=
  reader_running s &&
  match suspended s with
  | None => true
  | Some (on_relay p) => has_room (allocation_manager s) p
  | Some (on_socket ahead) => (ahead =? 0)%nat
  end.

(** One round of [reader].  A receive error makes it return, which cancels
    the writer; an exception of a handler ends the reader only. *)
Definition reader (env : surroundings) (ec : error_code) (datagram : bytes)
    (sender : Address * Z) (s : Server) : Server :=
  if failed ec then set_running false false s
  else
    let m := receive datagram (message s) in
    let key := fromUdp sender (local_endpoint s) in
    let '(w, r) :=
      processPacket iteration (stun_turn_processor_ s) env m key
        {| allocation_manager_ := allocation_manager s; sent := [] |} in
    let s := asyncSend_all (sent w) (set_manager (allocation_manager_ w) s) in
    let s := set_reader m (waits_for key (sent w) s) s in
    match r with
    | Ok _ => s
    | Err _ => set_running false (writer_running s) s
    end.

(** One round of [writer]: the destination and the bytes that are sent, and
    [ec], the result of sending them.  A send error makes the writer return,
    which cancels the reader. *)
Definition writer (ec : error_code) (s : Server)
    : option (Server * ((Address * Z) * bytes)) :=
  match channel_ s with
  | [] => None
  | (msg, endpoint) :: queue =>
      let s := set_channel queue s in
      let s :=
        match suspended s with
        | Some (on_socket ahead) => set_reader (message s) (Some (on_socket (pred ahead))) s
        | _ => s
        end in
      Some (if failed ec then set_running false false s else s, (endpoint, payload msg))
  end.

(** ** Executions *)

(** What happens to an allocation beside the handlers of requests: its
    reader gets a datagram, its writer sends one, a timer of its permissions
    or channels fires, or its socket fails. *)
Inductive background (now : Z) (a : UdpAllocation)
    : UdpAllocation -> list (Message * Endpoint) -> Prop :=
| background_reader tid datagram sender a' out :
    reader_runs a = true ->
    Allocation.reader iteration no_error tid datagram sender a = (a', out) ->
    background now a a' (from_option (fun x => [x]) [] out)
| background_writer a' out :
    writer_runs a = true -> Allocation.writer no_error a = Some (a', out) ->
    background now a a' []
| background_permission pm :
    completes now (permission_manager_ (base a)) pm ->
    background now a (set_base (set_permissions pm (base a)) a) []
| background_channel cm :
    completes now (channel_manager_ a) cm -> background now a (set_channels cm a) []
| background_failure a' : object_failure iteration a a' -> background now a a' [].

(** A packet that is processed: what the surroundings answer at that time,
    from whom it came, and the buffer it was received into. *)
Record arrival : Type := {
  arrival_env : surroundings;
  arrival_tuple : FiveTuple;
  arrival_packet : Message
}.

(** What the steps of an execution are recorded as. *)
Inductive happening : Type :=
| arrived (e : arrival)
| socket_failed.

(** The steps of the server: what it processes, sends and relays, the
    completions of timers, and the errors of its own socket and those of the
    allocations. *)
Inductive step : option happening -> Server -> Server -> Prop :=
| step_receive env datagram sender s :
    ready s = true ->
    step (Some (arrived {| arrival_env := env;
                           arrival_tuple := fromUdp sender (local_endpoint s);
                           arrival_packet := receive datagram (message s) |}))
      s (reader env no_error datagram sender s)
| step_receive_failure env ec datagram sender s :
    ready s = true -> failed ec = true ->
    step (Some socket_failed) s (reader env ec datagram sender s)
| step_write s s' out :
    writer_running s = true -> writer no_error s = Some (s', out) -> step None s s'
| step_write_failure ec s s' out :
    writer_running s = true -> failed ec = true -> writer ec s = Some (s', out) ->
    step (Some socket_failed) s s'
| step_expire now am s :
    completes now (allocation_manager s) am -> step None s (set_manager am s)
| step_reservation now rm s :
    let am := allocation_manager s in
    completes now (reservation_manager_ am) rm ->
    step None s (set_manager (set_reservation_manager rm am) s)
| step_background now p a a' out s :
    let am := allocation_manager s in
    objects am !! p = Some a -> background now a a' out ->
    step None s (asyncSend_all out
      (set_manager (set_objects (<[p := a']> (objects am)) (timer_calls am) am) s)).

(** The executions from [s0] of whose steps [P] holds, with what has
    happened, the last first. *)
Inductive execution (P : Server -> option happening -> Prop) (s0 : Server)
    : list happening -> Server -> Prop :=
| execution_start : execution P s0 [] s0
| execution_step log s h s' :
    execution P s0 log s -> P s h -> step h s s' ->
    execution P s0 (option_list h ++ log) s'.

(** ** Lemmas *)

Lemma asyncSend_all_keeps l : forall s,
  allocation_manager (asyncSend_all l s) = allocation_manager s /\
  message (asyncSend_all l s) = message s /\
  stun_turn_processor_ (asyncSend_all l s) = stun_turn_processor_ s /\
  channel_open (asyncSend_all l s) = channel_open s /\
  (reader_running (asyncSend_all l s) = reader_running s /\
   writer_running (asyncSend_all l s) = writer_running s /\
   suspended (asyncSend_all l s) = suspended s).
Proof.
  unfold asyncSend_all. induction l as [|[m ep] l IH]; intros s; [done|].
  cbn [fold_left fst snd].
  destruct (IH (asyncSend m ep s)) as (-> & -> & -> & -> & -> & -> & ->). unfold asyncSend.
  by destruct (negb _).
Qed.

Context {ipl : IpAddressLaws ip} {sxl : StunxxLaws sx} {laws : OpenSSLLaws ssl}.
Context (iteration_perm : forall m, iteration m ≡ₚ map_to_list m).

Definition world (s : Server) : World :=
  {| allocation_manager_ := allocation_manager s; sent := [] |}.

(** The allocations are well-formed and the buffer is full. *)
Definition serving (s : Server) : Prop :=
  wf_message (message s) /\ wf_world (world s).

Lemma wf_world_sent am l l' :
  wf_world {| allocation_manager_ := am; sent := l |} ->
  wf_world {| allocation_manager_ := am; sent := l' |}.
Proof. intros [H1 H2]. by split. Qed.

(** A background step is a step or a failure of its allocation; it leaves
    the recorded response alone, and the queue of a writer that has ended. *)
Lemma background_object now a a' out :
  background now a a' out ->
  (object_step iteration now a a' \/ object_failure iteration a a') /\
  success_message_ (base a') = success_message_ (base a) /\
  (writer_runs a = false ->
     writer_runs a' = false /\ Allocation.channel_ a' = Allocation.channel_ a).
Proof.
  intros [tid dg sd b out' Hr E | b out' Hr E | pm Hpm | cm Hcm | b Hf].
  - pose proof (object_reader iteration now a tid dg sd Hr) as H. rewrite E in H.
    injection E as <- _. by split; [left|].
  - split; [left; by eapply object_writer|]. apply writer_Some in E as [q ->].
    split; [done|]. congruence.
  - split; [left; by apply object_permission_timer | done].
  - split; [left; by apply object_channel_timer | done].
  - split; [by right|]. destruct Hf as [ec tid dg sd Hr Hec | ec b out' Hr Hec E].
    + unfold Allocation.reader. by rewrite Hec.
    + apply writer_Some in E as [q ->]. split; [done|]. congruence.
Qed.

Lemma wf_world_background now p a a' out am l :
  wf_world {| allocation_manager_ := am; sent := l |} ->
  objects am !! p = Some a -> background now a a' out ->
  wf_world {| allocation_manager_ :=
                set_objects (<[p := a']> (objects am)) (timer_calls am) am; sent := l |}.
Proof.
  intros [Hwf Ha] Hpa Hb. cbn in Hwf, Ha.
  apply background_object in Hb as (Hs & Hm & _).
  pose proof (wf_objects _ Hwf _ _ Hpa) as Hwa.
  assert (Allocation.channel_open a' = Allocation.channel_open a /\
    AllocationManager.well_formed
      (set_objects (<[p := a']> (objects am)) (timer_calls am) am)) as [Ho Hwf'].
  { destruct Hs as [Hs|Hs].
    - split; [|by eapply well_formed_object].
      by destruct (object_step_keeps _ iteration_perm _ _ _ Hs Hwa) as (_ & _ & _ & _ & ? & _).
    - split; [|by eapply well_formed_failure].
      by destruct (object_failure_keeps _ _ _ Hs Hwa) as (_ & _ & _ & _ & ? & _). }
  split; [exact Hwf'|].
  intros ft q b Hq. cbn [objects set_objects allocation_manager_]. rewrite lookup_insert.
  case_decide as Hqp; [|by apply Ha with ft]. intros [= <-].
  destruct (Ha ft p a) as [Hsz Hop]; [by subst q|done|].
  split; [by rewrite Hm | by rewrite <-Hop].
Qed.

Lemma wf_world_completes now am am' l :
  wf_world {| allocation_manager_ := am; sent := l |} -> completes now am am' ->
  wf_world {| allocation_manager_ := am'; sent := l |}.
Proof.
  intros [Hwf Ha] Hc. cbn in Hwf, Ha. split; [by eapply well_formed_completes|].
  destruct (rtc_completes_objects now am am') as [Ho Hsub]; [by apply rtc_once|].
  intros ft p a. cbn [allocation_manager_]. rewrite Ho, getAllocation_lookup. intros Hp.
  apply (Ha ft p). rewrite getAllocation_lookup. by eapply lookup_weaken.
Qed.

Lemma wf_world_reservations now am rm l :
  wf_world {| allocation_manager_ := am; sent := l |} ->
  completes now (reservation_manager_ am) rm ->
  wf_world {| allocation_manager_ := set_reservation_manager rm am; sent := l |}.
Proof.
  intros [Hwf Ha] Hc. split; [|done]. by eapply well_formed_reservation_timer.
Qed.

(** The writer changes no more than its queue and the flags. *)
Lemma server_writer_Some ec s s' out :
  writer ec s = Some (s', out) ->
  allocation_manager s' = allocation_manager s /\ message s' = message s /\
  stun_turn_processor_ s' = stun_turn_processor_ s /\ channel_open s' = channel_open s /\
  (exists x, channel_ s = x :: channel_ s') /\
  reader_running s' = reader_running s && negb (failed ec) /\
  writer_running s' = writer_running s && negb (failed ec) /\
  (forall p, suspended s = Some (on_relay p) -> suspended s' = Some (on_relay p)).
Proof.
  unfold writer. destruct (channel_ s) as [|[m ep] q]; [done|]. intros [= <- _].
  destruct (suspended s) as [[p|n]|] eqn:E, (failed ec); cbn;
    rewrite ?andb_false_r, ?andb_true_r, ?E; split_and!; try done; by eexists.
Qed.

(** A round of the reader, on a datagram. *)
Lemma server_reader_ok env dg sd s :
  let m := receive dg (message s) in
  let key := fromUdp sd (local_endpoint s) in
  let w := (processPacket iteration (stun_turn_processor_ s) env m key (world s)).1 in
  let r := (processPacket iteration (stun_turn_processor_ s) env m key (world s)).2 in
  let s' := reader env no_error dg sd s in
  allocation_manager s' = allocation_manager_ w /\ message s' = m /\
  stun_turn_processor_ s' = stun_turn_processor_ s /\ channel_open s' = channel_open s /\
  channel_ s' = channel_ (asyncSend_all (sent w) (set_manager (allocation_manager_ w) s)) /\
  reader_running s' = reader_running s && is_ok r /\
  writer_running s' = writer_running s.
Proof.
  cbv zeta. unfold reader. cbn [failed bool_decide]. fold (world s).
  unfold failed. rewrite bool_decide_true by done. cbn [negb].
  destruct (processPacket _ _ _ _ _ _) as [w r]. cbn [fst snd].
  destruct (asyncSend_all_keeps (sent w) (set_manager (allocation_manager_ w) s))
    as (Em & _ & Ep & Eo & Er & Ew & _).
  destruct r as [[]|e]; cbn; rewrite Em, Ep, Eo, ?Er, ?Ew; cbn;
    rewrite ?andb_true_r, ?andb_false_r;
    by split_and!.
Qed.

Lemma serving_step h s s' : step h s s' -> serving s -> serving s'.
Proof.
  intros Hs [Hm Hw]. unfold serving, world in *.
  destruct Hs as [env dg sd s Hr | env ec dg sd s Hr Hec | s s' out Hr E
    | ec s s' out Hr Hec E | now am s Hc | now rm s am Hc | now p a a' out s am Ha Hb].
  - destruct (server_reader_ok env dg sd s) as (-> & -> & _).
    pose proof (post_processPacket iteration iteration_perm (stun_turn_processor_ s) env
      (fromUdp sd (local_endpoint s)) (world s) (receive dg (message s)) Hw) as [_ Hwf _ _].
    split; [by apply wf_receive|].
    destruct (processPacket _ _ _ _ _ _) as [[am l] r]. by eapply wf_world_sent.
  - unfold reader. by rewrite Hec.
  - apply server_writer_Some in E as (-> & -> & _). by split.
  - apply server_writer_Some in E as (-> & -> & _). by split.
  - split; [done|]. by eapply wf_world_completes.
  - split; [done|]. by eapply wf_world_reservations.
  - destruct (asyncSend_all_keeps out (set_manager (set_objects (<[p := a']> (objects am))
      (timer_calls am) am) s)) as (-> & -> & _). split; [done|].
    by eapply wf_world_background.
Qed.

Definition is_failure (h : option happening) : bool :=
  match h with Some socket_failed => true | _ => false end.

Lemma not_failed_cons h log :
  (socket_failed ∉ (option_list h ++ log)) <->
  ((socket_failed ∉ log) /\ is_failure h = false).
Proof.
  rewrite not_elem_of_app.
  assert ((socket_failed ∉ option_list h) <-> (is_failure h = false)) as ->; [|tauto].
  destruct h as [[e|]|]; cbn; rewrite ?not_elem_of_cons; split; try done.
  - intros _. split; [done | apply not_elem_of_nil].
  - by intros [[] _].
  - intros _. apply not_elem_of_nil.
Qed.

(** What happened to the server's own coroutines in a step. *)
Lemma coroutines_step h s s' :
  step h s s' -> serving s ->
  writer_running s' = writer_running s && negb (is_failure h) /\
  (reader_running s' = true -> reader_running s = true /\ is_failure h = false) /\
  (reader_running s = true -> reader_running s' = false ->
     is_failure h = true \/
     exists e exn, h = Some (arrived e) /\
       packet_hazard (stun_turn_processor_ s) (arrival_env e) (arrival_packet e) (world s) exn).
Proof.
  intros Hs [Hm Hw].
  destruct Hs as [env dg sd s Hr | env ec dg sd s Hr Hec | s s' out Hr E
    | ec s s' out Hr Hec E | now am s Hc | now rm s am Hc | now p a a' out s am Ha Hb];
    cbn [is_failure negb]; rewrite ?andb_true_r, ?andb_false_r.
  - destruct (server_reader_ok env dg sd s) as (_ & _ & _ & _ & _ & -> & ->).
    split; [done|]. split; [by intros [? _]%andb_true_iff|]. intros -> Hr'. right.
    pose proof (post_processPacket iteration iteration_perm (stun_turn_processor_ s) env
      (fromUdp sd (local_endpoint s)) (world s) (receive dg (message s)) Hw) as [Hx _ _ _].
    destruct (processPacket _ _ _ _ _ _) as [w [[]|e]]; [done|]. eexists _, e.
    split; [done|]. by apply Hx.
  - unfold reader. rewrite Hec. cbn. split_and!; [done|done|by left].
  - apply server_writer_Some in E as (_ & _ & _ & _ & _ & -> & -> & _).
    unfold failed. rewrite bool_decide_true by done. cbn [negb]. rewrite !andb_true_r.
    split_and!; [done|done|congruence].
  - apply server_writer_Some in E as (_ & _ & _ & _ & _ & -> & -> & _).
    rewrite Hec, !andb_false_r. split_and!; [done|done|by left].
  - split_and!; [done|done|cbn; congruence].
  - split_and!; [done|done|cbn; congruence].
  - destruct (asyncSend_all_keeps out (set_manager (set_objects (<[p := a']> (objects am))
      (timer_calls am) am) s)) as (_ & _ & _ & _ & -> & -> & _).
    split_and!; [done|done|cbn; congruence].
Qed.

Lemma serving_make os random config am s0 :
  AllocationManager.make config = Ok am -> make os random config am = Ok s0 ->
  serving s0 /\ reader_running s0 = true /\ writer_running s0 = true /\
  channel_open s0 = true /\ allocation_manager s0 = am.
Proof.
  intros Ham Hs0. unfold make in Hs0. destruct (make_address _); [|done].
  destruct (failed _); [done|].
  destruct (StunTurnProcessor.make _ _); [|done]. injection Hs0 as <-.
  split_and!; try done. split; [apply wf_zero_message|by eapply wf_world_make].
Qed.

Lemma serving_execution P os random config am s0 log s :
  AllocationManager.make config = Ok am -> make os random config am = Ok s0 ->
  execution P s0 log s -> serving s.
Proof.
  intros Ham Hs0. induction 1; [by eapply serving_make | by eapply serving_step].
Qed.

(** *** A reader that waits for a writer that has ended *)

Definition stalled (p : nat) (s : Server) : Prop :=
  suspended s = Some (on_relay p) /\
  exists a, objects (allocation_manager s) !! p = Some a /\ writer_runs a = false /\
    (Allocation.channel_capacity < length (Allocation.channel_ a))%nat.

Lemma stalled_not_ready p s : stalled p s -> ready s = false.
Proof.
  intros (Hsu & a & Ha & _ & Hl). unfold ready, has_room. rewrite Hsu, Ha.
  rewrite (proj2 (Nat.leb_gt _ _) Hl). apply andb_false_r.
Qed.

Lemma stalled_step p h s s' : step h s s' -> stalled p s -> stalled p s'.
Proof.
  intros Hs Hst. pose proof (stalled_not_ready p s Hst) as Hnr.
  destruct Hst as (Hsu & a & Ha & Hw & Hl).
  destruct Hs as [env dg sd s Hr | env ec dg sd s Hr Hec | s s' out Hr E
    | ec s s' out Hr Hec E | now am s Hc | now rm s am Hc | now q b b' out s am Hb Hbk];
    try congruence.
  - apply server_writer_Some in E as (Em & _ & _ & _ & _ & _ & _ & Hk).
    split; [by apply Hk|]. rewrite Em. by exists a.
  - apply server_writer_Some in E as (Em & _ & _ & _ & _ & _ & _ & Hk).
    split; [by apply Hk|]. rewrite Em. by exists a.
  - split; [done|]. exists a. cbn [allocation_manager set_manager].
    destruct (rtc_completes_objects now (allocation_manager s) am) as [-> _];
      [by apply rtc_once|done].
  - split; [done|]. by exists a.
  - destruct (asyncSend_all_keeps out (set_manager (set_objects (<[q := b']> (objects am))
      (timer_calls am) am) s)) as (Em & _ & _ & _ & _ & _ & Es).
    split; [by rewrite Es|]. rewrite Em. cbn. rewrite lookup_insert.
    case_decide as Hq; [subst q|by exists a]. exists b'.
    assert (b = a) as -> by (unfold am in Hb; congruence).
    apply background_object in Hbk as (_ & _ & Hk). destruct (Hk Hw) as [-> ->]. done.
Qed.

(** ** Properties *)

(** No packet with a hazard is processed. *)
Definition unhazardous (s : Server) (h : option happening) : Prop :=
  forall e exn, h = Some (arrived e) ->
    ~ packet_hazard (stun_turn_processor_ s) (arrival_env e) (arrival_packet e) (world s) exn.

(** C8.  What keeps the server going, and what does not.  In every execution,
    whatever datagrams arrive from whom, in whatever interleaving with the
    writers, the peers, the timers and the failures of sockets, its
    allocations stay well-formed, and its writer runs exactly as long as no
    operation on the server's own socket has failed; one failure ends reader
    and writer.  In an execution in which no packet with a hazard is
    processed the same holds of its reader; a hazard may end the reader
    alone.  (A reader that runs may still have to wait for a full queue.) *)
Theorem server_keeps_serving P os random config am s0 log s :
  AllocationManager.make config = Ok am -> make os random config am = Ok s0 ->
  execution P s0 log s ->
  AllocationManager.well_formed (allocation_manager s) /\
  (writer_running s = true <-> socket_failed ∉ log) /\
  (reader_running s = true -> socket_failed ∉ log) /\
  ((forall s1 h, P s1 h -> unhazardous s1 h) ->
     (reader_running s = true <-> socket_failed ∉ log)).
Proof.
  intros Ham Hs0 Hx.
  pose proof (serving_execution P os random config am s0 log s Ham Hs0 Hx) as [_ Hwf].
  split; [apply (wf_manager _ Hwf)|].
  destruct (serving_make os random config am s0 Ham Hs0) as (_ & Hr0 & Hw0 & _).
  clear Hwf. induction Hx as [|log s h s' Hx (IHw & IHr & IHp) HP Hs].
  { assert (socket_failed ∉ []) by apply not_elem_of_nil. by split_and!. }
  pose proof (serving_execution P os random config am s0 log s Ham Hs0 Hx) as Hsv.
  destruct (coroutines_step h s s' Hs Hsv) as (Ew & Er & Eh).
  rewrite not_failed_cons. split_and!.
  - by rewrite Ew, andb_true_iff, IHw, negb_true_iff.
  - intros [? ?]%Er. split; [by apply IHr | done].
  - intros Hp. split; [intros [? ?]%Er; split; [by apply IHr | done]|].
    intros [Hl Hh]. apply IHp in Hl as Hrun; [|done].
    destruct (reader_running s') eqn:E; [done|].
    destruct (Eh Hrun eq_refl) as [?|(e & exn & -> & Hz)]; [congruence|].
    by destruct (Hp s _ HP e exn eq_refl).
Qed.

(** C9.  One dead relay stops the server.  When a send from the relay socket
    of an allocation has failed, the writer of the allocation has ended, and
    its queue only fills; once the reader of the server has to wait for
    room in that queue, it waits for ever: in no continuation, whatever
    happens, is a packet of any client processed again, although neither
    the server's socket nor a handler has failed. *)
Theorem dead_relay_stalls_server P p s log s' :
  stalled p s -> execution P s log s' ->
  ready s' = false /\ (forall e, arrived e ∉ log) /\
  (reader_running s = true -> socket_failed ∉ log -> reader_running s' = true).
Proof.
  intros Hst Hx. assert (stalled p s' /\ (forall e, arrived e ∉ log) /\
    (reader_running s = true -> socket_failed ∉ log -> reader_running s' = true))
    as (Hst' & Hlog & Hrun); [|by split; [eapply stalled_not_ready|]].
  induction Hx as [|log s1 h s2 _ (Hst1 & Hlog & Hrun) _ Hs].
  { split_and!; [done| |done]. intros e. apply not_elem_of_nil. }
  pose proof (stalled_not_ready p s1 Hst1) as Hnr.
  split; [by eapply stalled_step|]. split.
  - intros e [He|He]%elem_of_app; [|by eapply Hlog].
    destruct Hs; cbn in He; try congruence;
      try (by apply elem_of_nil in He); apply list_elem_of_singleton in He; congruence.
  - intros Hr [Hh Hl]%not_elem_of_app. specialize (Hrun Hr Hl).
    destruct Hs as [| | s1 s2 out Hwr E | ec s1 s2 out Hwr Hec E | | | ]; try congruence.
    + apply server_writer_Some in E as (_ & _ & _ & _ & _ & -> & _).
      rewrite Hrun. unfold failed. by rewrite bool_decide_true.
    + destruct Hh. cbn. by apply list_elem_of_singleton.
    + done.
    + done.
    + by destruct (asyncSend_all_keeps out (set_manager (set_objects (<[p0 := a']> (objects am))
        (timer_calls am) am) s0)) as (_ & _ & _ & _ & -> & _).
Qed.

(** The buffer of the reader once it has received [datagram]: the bytes
    behind it are those that were there. *)
Definition overlaid (datagram : bytes) (m : Message) : bytes :=
  datagram ++ drop (length datagram) (buffer m).

Lemma buffer_receive datagram m :
  (length datagram <= buffer_size)%nat ->
  buffer (receive datagram m) = overlaid datagram m.
Proof.
  intros Hd. unfold receive, overlaid. cbn [buffer]. rewrite Nat.min_l by done.
  by rewrite take_ge by done.
Qed.

(** C39.  ChannelData is taken from the whole buffer of the reader, whatever
    number of bytes was received: what is relayed to the peer is the payload
    decoded from the datagram followed by the bytes that earlier datagrams,
    of whatever client, have left in the buffer. *)
Theorem channel_data_relays_stale_bytes self env datagram m ft w p a cd out peer :
  wf_world w -> (length datagram <= buffer_size)%nat ->
  AllocationManager.getAllocation ft (allocation_manager_ w) = Some p ->
  objects (allocation_manager_ w) !! p = Some a ->
  is_turn_channel_data (overlaid datagram m) = true ->
  ChannelData_decode (overlaid datagram m) = Some cd ->
  getPeerByChannel (channel cd) a = Some peer -> ChannelData_encodeData cd = Some out ->
  wp (processPacket iteration self env (receive datagram m) ft)
    (relayed p a {| size := ChannelData_payloadLength cd;
                    buffer := memcpy zero_buffer out |} peer w) w.
Proof.
  intros Hw Hd Hp Hpa Hc Hdec Hpeer Hout. unfold processPacket.
  rewrite buffer_receive by done. rewrite Hc.
  apply channelData_relayed; try done. by rewrite buffer_receive.
Qed.
End Server.

(** ** Witnesses *)

Section witnesses.
#[local] Existing Instance plain_ip.
#[local] Existing Instance plain_ip_laws.
#[local] Existing Instance example_ssl.
#[local] Existing Instance example_ssl_laws.
#[local] Instance server_codec : Stunxx := example_codec example_allocate.
#[local] Instance server_codec_laws : StunxxLaws server_codec := plain_stunxx_laws _.

Definition example_server : Server :=
  {| local_endpoint := (localhost : @Address plain_ip, 3478); channel_ := [];
     channel_open := true; stun_turn_processor_ := example_processor;
     allocation_manager := example_manager; message := zero_message;
     reader_running := true; writer_running := true; suspended := None |}.

Definition example_bind : bind_env := {| bind_result := no_error; picked_port := 40000 |}.

Lemma make_example_server :
  make example_bind (Some [x01; x02; x03]) example_config example_manager
    = Ok example_server.
Proof. reflexivity. Qed.

(** An Allocate request arrives. *)
Definition example_server' : Server :=
  reader map_to_list example_surroundings no_error [x00; x03] (peer_a : @Address plain_ip, 5000)
    example_server.

Lemma example_execution :
  exists log, execution map_to_list unhazardous example_server log example_server' /\
    socket_failed ∉ log.
Proof.
  eexists. split.
  - eapply execution_step; [apply execution_start | | by apply step_receive].
    intros e exn [= <-] (d & _ & Hd & He). injection Hd as <-. by apply example_no_hazard in He.
  - apply not_failed_cons. split; [apply not_elem_of_nil | done].
Qed.

Lemma server_keeps_serving_witness : reader_running example_server' = true.
Proof.
  destruct example_execution as (log & Hlog & Hno).
  destruct (server_keeps_serving map_to_list example_perm unhazardous example_bind
    (Some [x01; x02; x03]) example_config example_manager example_server log example_server'
    make_example make_example_server Hlog) as (_ & _ & _ & H).
  apply H; [done | exact Hno].
Defined.

(** The world in which the user has an allocation and a channel. *)
Definition bind_request : @Decoder requests_codec := request_of ChannelBind.

Definition example_bound : World :=
  (handleChannelBindRequest map_to_list example_processor example_surroundings bind_request
     example_tuple example_allocated).1.

Lemma example_bound_spec :
  wf_world example_bound /\
  exists p a, AllocationManager.getAllocation example_tuple
      (allocation_manager_ example_bound) = Some p /\
    objects (allocation_manager_ example_bound) !! p = Some a /\
    getPeerByChannel 0x4000 a =
      Some {| address := peer_b : @Address plain_ip; port := 7000; protocol := UDP |}.
Proof.
  split.
  { apply (post_handleChannelBindRequest map_to_list example_perm example_processor
      example_surroundings (fun _ => True) example_tuple example_allocated bind_request
      (fun _ _ => I) (fun _ _ _ _ _ => I) example_allocated_wf). }
  destruct example_allocated_spec as (p & a & Hp & Ha & Hnone & Hfam & _).
  destruct (handleChannelBindRequest_spec map_to_list example_perm example_processor
    example_surroundings bind_request example_tuple example_auth_key
    example_allocated p a 0x4000 example_peer_attr peer_b (example_authentic _ _ _)
    Hp Ha eq_refl eq_refl (Hfam IPv4) eq_refl) as (_ & Hs & H & _).
  destruct H as [(a' & Ho & Hpeer & _) _].
  - right. split; [apply Hnone|]. intros n'. by rewrite Hnone.
  - exists p, a'. split.
    + rewrite getAllocation_lookup in *. unfold example_bound. by rewrite Hs.
    + split; [|exact Hpeer]. unfold example_bound. rewrite Ho. apply lookup_insert_eq.
Qed.

(** A datagram of four bytes, over one that ended in 0x73 0x65: these two are
    what the peer gets. *)
Lemma channel_data_relays_stale_bytes_witness :
  let old := {| size := 6;
                buffer := [x40; x00; x00; x02; x73; x65] ++ drop 6 zero_buffer |} in
  exists p a a', objects (allocation_manager_ example_bound) !! p = Some a /\
    objects (allocation_manager_ (processPacket (sx := server_codec) map_to_list
      example_processor example_surroundings (receive [x40; x00; x00; x02] old)
      example_tuple example_bound).1) !! p = Some a' /\
    Allocation.channel_ a' = Allocation.channel_ a ++
      [({| size := 2; buffer := [x73; x65] ++ drop 2 zero_buffer |},
        (peer_b : @Address plain_ip, 7000))].
Proof.
  intros old. destruct example_bound_spec as (Hw & p & a & Hp & Ha & Hpeer).
  destruct (channel_data_relays_stale_bytes (sx := server_codec) map_to_list
    example_processor example_surroundings [x40; x00; x00; x02] old example_tuple
    example_bound p a {| channel := 0x4000; channel_payload := [x73; x65] |} [x73; x65]
    {| address := peer_b : @Address plain_ip; port := 7000; protocol := UDP |} Hw)
    as (_ & _ & _ & Ho).
  - with_strategy transparent [buffer_size] (apply Nat.leb_le; reflexivity).
  - exact Hp.
  - exact Ha.
  - reflexivity.
  - reflexivity.
  - exact Hpeer.
  - reflexivity.
  - eexists p, a, _. split; [exact Ha|].
    split; [rewrite Ho; apply lookup_insert_eq | reflexivity].
Defined.
End witnesses.

(** A client whose peer has port 0 stops the server for everyone. *)
Section stalling.
#[local] Existing Instance plain_ip.
#[local] Existing Instance plain_ip_laws.
#[local] Existing Instance example_ssl.
#[local] Existing Instance example_ssl_laws.
#[local] Instance stalling_codec : Stunxx := plain_stunxx conversation.
#[local] Instance stalling_laws : StunxxLaws stalling_codec := plain_stunxx_laws _.

Definition any_step (s : Server) (h : option happening) : Prop := True.

Definition receives (b : byte) (s : Server) : Server :=
  reader map_to_list example_surroundings no_error [x00; b] (peer_a : @Address plain_ip, 5000) s.

(** The allocation, with the first packet for port 0 in its queue. *)
Definition asked_server : Server := receives x16 (receives x03 example_server).

(** The next packet of an allocation cannot be sent. *)
Definition relay_fails (p : nat) (s : Server) : Server :=
  let am := allocation_manager s in
  match objects am !! p with
  | Some a =>
      match Allocation.writer (other_error 22) a with
      | Some (a', _) => set_manager (set_objects (<[p := a']> (objects am)) (timer_calls am) am) s
      | None => s
      end
  | None => s
  end.

Definition can_fail (p : nat) (s : Server) : bool :=
  match objects (allocation_manager s) !! p with
  | Some a => writer_runs a && bool_decide (Allocation.channel_ a <> [])
  | None => false
  end.

Lemma relay_fails_step p s : can_fail p s = true -> step map_to_list None s (relay_fails p s).
Proof.
  unfold can_fail, relay_fails. destruct (objects _ !! p) as [a|] eqn:Ha; [|done].
  intros [Hw Hq%bool_decide_eq_true]%andb_true_iff.
  destruct (Allocation.writer (other_error 22) a) as [[a' out]|] eqn:E.
  - apply (step_background map_to_list 0 p a a' []); [done|].
    apply background_failure. by apply (failure_writer _ _ (other_error 22) _ out).
  - unfold Allocation.writer in E. by destruct (Allocation.channel_ a) as [|[? ?] ?].
Qed.

Definition dead_server : Server := relay_fails 0 asked_server.

Fixpoint flooded (n : nat) : Server :=
  match n with
  | O => dead_server
  | S n => receives x16 (flooded n)
  end.

Lemma receives_step b s : ready s = true -> exists h, step map_to_list h s (receives b s).
Proof. intros Hr. eexists. by apply step_receive. Qed.

Lemma extend log s h s' :
  execution map_to_list any_step example_server log s -> step map_to_list h s s' ->
  exists log', execution map_to_list any_step example_server log' s'.
Proof. intros Hx Hs. eexists. by eapply execution_step. Qed.

Lemma dead_execution : exists log, execution map_to_list any_step example_server log dead_server.
Proof.
  destruct (receives_step x03 example_server) as [h1 H1]; [by vm_compute|].
  destruct (receives_step x16 (receives x03 example_server)) as [h2 H2]; [by vm_compute|].
  destruct (extend _ _ _ _ (execution_start _ _ _) H1) as [log1 Hx1].
  destruct (extend _ _ _ _ Hx1 H2) as [log2 Hx2]. fold asked_server in Hx2.
  assert (can_fail 0 asked_server = true) as Hf by (vm_compute; reflexivity).
  exact (extend _ _ _ _ Hx2 (relay_fails_step 0 asked_server Hf)).
Qed.

Lemma flooded_execution n :
  forallb (fun k => ready (flooded k)) (seq 0 n) = true ->
  exists log, execution map_to_list any_step example_server log (flooded n).
Proof.
  induction n as [|n IH]; intros Hall; [apply dead_execution|].
  rewrite seq_S, forallb_app in Hall. cbn [forallb plus] in Hall.
  apply andb_true_iff in Hall as [Hn [Hr _]%andb_true_iff].
  destruct (IH Hn) as [log Hx]. destruct (receives_step x16 _ Hr) as [h Hh].
  by eapply extend.
Qed.

Definition stalled_on (p : nat) (s : Server) : bool :=
  match suspended s, objects (allocation_manager s) !! p with
  | Some (on_relay q), Some a =>
      (q =? p)%nat && negb (writer_runs a) &&
      (Allocation.channel_capacity <? length (Allocation.channel_ a))%nat
  | _, _ => false
  end.

Lemma stalled_on_spec p s : stalled_on p s = true -> stalled p s.
Proof.
  unfold stalled_on, stalled. destruct (suspended s) as [[q|n]|]; try done.
  destruct (objects _ !! p) as [a|]; [|done].
  intros [[Hq%Nat.eqb_eq Hw%negb_true_iff]%andb_true_iff Hl%Nat.ltb_lt]%andb_true_iff.
  subst q. split; [done|]. by exists a.
Qed.

Lemma flooded_stalled : stalled 0 (flooded 16).
Proof. apply stalled_on_spec. vm_compute. reflexivity. Qed.

(** Seventeen indications and one failed send are enough. *)
Lemma dead_relay_stalls_server_witness :
  (exists log, execution map_to_list any_step example_server log (flooded 16)) /\
  ready (flooded 16) = false.
Proof.
  split.
  - apply flooded_execution. vm_compute. reflexivity.
  - apply (dead_relay_stalls_server map_to_list any_step 0 (flooded 16) [] (flooded 16)
      flooded_stalled (execution_start _ _ _)).
Defined.
End stalling.
