(* ===== verification/Spec.v ===== *)
(** * An abstract TURN server

    What the server promises, without its heap of objects, timers, waits,
    queues of coroutines, exceptions and message buffers: leases of relayed
    addresses, each with an owner, an expiry, permissions and channel
    bindings that have an expiry of their own, and the packets that wait to be
    sent to its peers.  A packet is served by a function of this state; time
    passes in transitions that forget what has expired.  [Refinement] shows
    that the server implements it.

    The specification is that of the program, not that of the RFC: it says
    which family a Refresh is refused for and that a Send indication needs no
    permission, as the program has it. *)

From Stdlib Require Import ZArith Lia Strings.Byte.
From stdpp Require Import base gmap list strings.
From S2P Require Import Prelude Asio Instances.
From S2P Require Import RelayAddressGenerator ReservationManager.
From S2P Require Import Config OpenSSL Stunxx AuthKey Authenticator.
From S2P Require Import Endpoint Message Allocation StunTurnProcessor.
From S2P Require Import Examples ProcessorFacts RequestFacts.

Section Spec.
Context {ip : IpAddress} {sx : Stunxx}.

(** ** State *)

Record Lease : Type := {
  owner : FiveTuple;
  relayed_socket : socket;
  lease_expiry : Z;
  permission_seconds : Z;
  binding_seconds : Z;
  permits : gmap Address Z;
  bindings : gmap Z (Endpoint * Z);
  outbox : list (Message * (Address * Z));
  granted_response : Message
}.

Record Turn : Type := {
  settings : Config;
  relays : RelayAddressGenerator;
  sessions : gmap FiveTuple nat;
  leases : gmap nat Lease;
  next_lease : nat;
  reserved : gmap ReservationToken socket
}.

(** ** Operations of a lease *)

Definition set_expiry (t : Z) (l : Lease) : Lease :=
  {| owner := owner l; relayed_socket := relayed_socket l; lease_expiry := t;
     permission_seconds := permission_seconds l; binding_seconds := binding_seconds l;
     permits := permits l; bindings := bindings l; outbox := outbox l;
     granted_response := granted_response l |}.

Definition set_permits (m : gmap Address Z) (l : Lease) : Lease :=
  {| owner := owner l; relayed_socket := relayed_socket l; lease_expiry := lease_expiry l;
     permission_seconds := permission_seconds l; binding_seconds := binding_seconds l;
     permits := m; bindings := bindings l; outbox := outbox l;
     granted_response := granted_response l |}.

Definition set_bindings (m : gmap Z (Endpoint * Z)) (l : Lease) : Lease :=
  {| owner := owner l; relayed_socket := relayed_socket l; lease_expiry := lease_expiry l;
     permission_seconds := permission_seconds l; binding_seconds := binding_seconds l;
     permits := permits l; bindings := m; outbox := outbox l;
     granted_response := granted_response l |}.

Definition set_outbox (q : list (Message * (Address * Z))) (l : Lease) : Lease :=
  {| owner := owner l; relayed_socket := relayed_socket l; lease_expiry := lease_expiry l;
     permission_seconds := permission_seconds l; binding_seconds := binding_seconds l;
     permits := permits l; bindings := bindings l; outbox := q;
     granted_response := granted_response l |}.

Definition permit (now : Z) (addr : Address) (l : Lease) : Lease :=
  set_permits (<[addr := now + seconds (permission_seconds l)]> (permits l)) l.

(** A number and a peer that are bound to each other, or both free. *)
Definition can_bind (n : Z) (peer : Endpoint) (l : Lease) : Prop :=
  match bindings l !! n with
  | Some b => b.1 = peer
  | None => map_Forall (fun _ b => b.1 <> peer) (bindings l)
  end.

#[export] Instance can_bind_dec n peer l : Decision (can_bind n peer l).
Proof. unfold can_bind. destruct (bindings l !! n); apply _. Defined.

(** Binding a channel also permits the peer. *)
Definition bind (now n : Z) (peer : Endpoint) (l : Lease) : Lease :=
  permit now (address peer)
    (set_bindings (<[n := (peer, now + seconds (binding_seconds l))]> (bindings l)) l).

Definition send (m : Message) (peer : Endpoint) (l : Lease) : Lease :=
  set_outbox (outbox l ++ [(m, (address peer, port peer))]) l.

Definition family_matches (a : Address) (f : AddressFamily) : bool :=
  match f with
  | IPv4 => is_v4 a
  | IPv6 => is_v6 a
  | other_family _ => false
  end.

(** ** Operations of the server *)

Definition with_leases (s : gmap FiveTuple nat) (m : gmap nat Lease) (t : Turn) : Turn :=
  {| settings := settings t; relays := relays t; sessions := s; leases := m;
     next_lease := next_lease t; reserved := reserved t |}.

Definition update (p : nat) (l : Lease) (t : Turn) : Turn :=
  with_leases (sessions t) (<[p := l]> (leases t)) t.

Definition with_reserved (m : gmap ReservationToken socket) (t : Turn) : Turn :=
  {| settings := settings t; relays := relays t; sessions := sessions t;
     leases := leases t; next_lease := next_lease t; reserved := m |}.

Definition session (ft : FiveTuple) (t : Turn) : option (nat * Lease) :=
  match sessions t !! ft with
  | Some p => (fun l => (p, l)) <$> leases t !! p
  | None => None
  end.

(** A new lease under the five-tuple, with the response that grants it. *)
Definition lease (expires : Z) (ft : FiveTuple) (s : socket) (m : Message) (t : Turn)
    : Turn :=
  {| settings := settings t; relays := relays t;
     sessions := <[ft := next_lease t]> (sessions t);
     leases := <[next_lease t :=
       {| owner := ft; relayed_socket := s; lease_expiry := expires;
          permission_seconds := permission_lifetime (turn (settings t));
          binding_seconds := channel_lifetime (turn (settings t));
          permits := ∅; bindings := ∅; outbox := []; granted_response := m |}]> (leases t);
     next_lease := S (next_lease t);
     reserved := reserved t |}.

(** ** Serving a packet *)

(** What the client is told. *)
Inductive reply : Type :=
| silence
| refusal (ec : StunErrorCode) (key : option AuthKey)
| response (b : StunMessage)
| repeated (m : Message).

(** What the specification leaves open: the verdict on the credentials of a
    request, the relay addresses that could be had (an error where asking for
    them is undefined) and the token drawn. *)
Record oracle : Type := {
  verdict : AuthKey + (StunErrorCode * option AuthKey);
  offer : result (option (RelayAllocation socket));
  token : ReservationToken
}.

Context (conf : Config) (now : Z).
Implicit Types (o : oracle) (d : Decoder) (ft : FiveTuple) (key : AuthKey) (t : Turn).

Definition lifetime_of (d : Decoder) : Z :=
  granted_lifetime (allocation_lifetime (turn conf)) (max_allocation_lifetime (turn conf))
    (get_lifetime d).

(** The response that grants a lease. *)
Definition grant_message (d : Decoder) (ft : FiveTuple) (key : AuthKey) (s : socket)
    (extra : option AddressFamily) (tok : option ReservationToken) : StunMessage :=
  success_response Allocate d
    ([XorRelayedAddr (makeStunAddress (local_address s) (local_port s));
      Lifetime (lifetime_of d);
      XorMappedAddr (makeStunAddress (client_address_ ft) (client_port_ ft))] ++
     (if present extra then [AddressErrorCode IPv6 InsufficientCapacity] else []) ++
     match tok with Some tok => [ReservationTokenAttr tok] | None => [] end) key.

Definition grant (d : Decoder) (ft : FiveTuple) (key : AuthKey) (s : socket)
    (extra : option AddressFamily) (tok : option ReservationToken) (t : Turn)
    : Turn * reply :=
  let m := grant_message d ft key s extra tok in
  (lease (now + seconds (lifetime_of d)) ft s (finalize m) t, response m).

Definition serve_allocate o d ft key t : Turn * reply :=
  match session ft t with
  | Some (_, l) =>
      (t, if bool_decide (transactionId d = take 12 (drop 8 (buffer (granted_response l))))
          then repeated (granted_response l)
          else refusal AllocationMismatch (Some key))
  | None =>
      match first_failing (allocate_checks (family_matches (addr_ (relays t))) d) with
      | Some ec => (t, refusal ec (Some key))
      | None =>
          match get_reservation_token d with
          | Some tok =>
              match reserved t !! tok with
              | Some s =>
                  grant d ft key s None None (with_reserved (delete tok (reserved t)) t)
              | None => (t, refusal InsufficientCapacity (Some key))
              end
          | None =>
              let extra := get_additional_family d in
              match offer o with
              | Err _ => (t, silence)
              | Ok None => (t, refusal InsufficientCapacity (Some key))
              | Ok (Some r) =>
                  match secondary_ r with
                  | Some s =>
                      grant d ft key (primary r) extra (Some (token o))
                        (with_reserved (<[token o := s]> (reserved t)) t)
                  | None => grant d ft key (primary r) extra None t
                  end
              end
          end
      end
  end.

Definition serve_refresh d ft key t : Turn * reply :=
  match session ft t with
  | None => (t, refusal AllocationMismatch (Some key))
  | Some (p, l) =>
      if from_option (family_matches (local_address (relayed_socket l))) false
           (get_requested_family d)
      then (t, refusal AddressFamNotSupported (Some key))
      else (update p (set_expiry (now + seconds (lifetime_of d)) l) t,
            response (success_response Refresh d [Lifetime (lifetime_of d)] key))
  end.

Definition permit_peer (l : Lease) (x : XorPeerAddrAttr) : Lease :=
  match toAsioAddress (xpa_address x) (xpa_family x) with
  | Ok addr => permit now addr l
  | Err _ => l
  end.

Definition serve_permission d ft key t : Turn * reply :=
  match session ft t with
  | None => (t, refusal AllocationMismatch (Some key))
  | Some (p, l) =>
      let peers := get_xor_peers d in
      let allowed := supported_prefix (family_matches (addr_ (relays t))) peers in
      (update p (fold_left permit_peer allowed l) t,
       if bool_decide (peers <> [] /\ allowed = peers)
       then response (success_response CreatePermission d [] key)
       else refusal BadRequest None)
  end.

Definition serve_bind d ft key t : Turn * reply :=
  match session ft t with
  | None => (t, refusal AllocationMismatch (Some key))
  | Some (p, l) =>
      match get_channel_number d, get_xor_peer d with
      | Some n, Some x =>
          if negb (family_matches (local_address (relayed_socket l)) (xpa_family x))
          then (t, refusal AddressFamNotSupported (Some key))
          else
            match make_address (xpa_addressStr x) with
            | None => (t, silence)
            | Some addr =>
                let peer := {| address := addr; port := xpa_port x; protocol := UDP |} in
                if bool_decide (can_bind n peer l)
                then (update p (bind now n peer l) t,
                      response (success_response ChannelBind d [] key))
                else (t, refusal BadRequest (Some key))
            end
      | _, _ => (t, refusal BadRequest None)
      end
  end.

Definition serve_binding d ft t : Turn * reply :=
  (t, response
        {| sm_method := Binding; sm_class := SuccessResp; sm_transaction := transactionId d;
           sm_attrs := [XorMappedAddr (makeStunAddress (client_address_ ft) (client_port_ ft));
                        Software (to_bytes "My STUN server")] |}).

Definition serve_send d ft t : Turn * reply :=
  match session ft t, get_data d, get_xor_peer d with
  | Some (p, l), Some data, Some x =>
      match toAsioAddress (xpa_address x) (xpa_family x), data_encode data with
      | Ok addr, Some out =>
          (update p
             (send {| size := Z.of_nat (length data); buffer := memcpy zero_buffer out |}
                {| address := addr; port := xpa_port x; protocol := UDP |} l) t, silence)
      | _, _ => (t, silence)
      end
  | _, _, _ => (t, silence)
  end.

Definition serve_channel_data (m : Message) ft t : Turn * reply :=
  match ChannelData_decode (buffer m), session ft t with
  | Some cd, Some (p, l) =>
      match bindings l !! channel cd, ChannelData_encodeData cd with
      | Some (peer, _), Some out =>
          (update p
             (send {| size := ChannelData_payloadLength cd;
                      buffer := memcpy zero_buffer out |} peer l) t, silence)
      | _, _ => (t, silence)
      end
  | _, _ => (t, silence)
  end.

(** A request that needs credentials. *)
Definition authenticated o (serve : AuthKey -> Turn -> Turn * reply) t : Turn * reply :=
  match verdict o with
  | inl key => serve key t
  | inr (ec, key) => (t, refusal ec key)
  end.

Definition serve_request o d ft t : Turn * reply :=
  match messageMethod d with
  | Binding => serve_binding d ft t
  | Allocate => authenticated o (serve_allocate o d ft) t
  | Refresh => authenticated o (serve_refresh d ft) t
  | CreatePermission => authenticated o (serve_permission d ft) t
  | ChannelBind => authenticated o (serve_bind d ft) t
  | _ => (t, refusal BadRequest None)
  end.

Definition serve o (m : Message) ft t : Turn * reply :=
  if is_turn_channel_data (buffer m) then serve_channel_data m ft t
  else if is_stun_message (buffer m) then
    match Decoder_parse (payload m) with
    | None => (t, silence)
    | Some d =>
        match messageClass d with
        | Request => serve_request o d ft t
        | Indication =>
            if bool_decide (messageMethod d = Send) then serve_send d ft t else (t, silence)
        | _ => (t, silence)
        end
    end
  else (t, silence).
End Spec.
