(* ===== verification/Refinement.v ===== *)
(** * The request handlers implement the specification

    [view] is the abstraction function from the allocation manager to the
    abstract server of [Spec].  Serving a packet commutes with it: the
    handlers leave the state the specification says and hand over the
    messages it says. *)

From Stdlib Require Import ZArith Lia Strings.Byte.
From stdpp Require Import base gmap list strings relations.
From S2P Require Import Prelude Asio Instances TimedTable.
From S2P Require Import PermissionManager ChannelManager.
From S2P Require Import RelayAddressGenerator ReservationManager.
From S2P Require Import Config OpenSSL Stunxx AuthKey Authenticator.
From S2P Require Import Endpoint Message Allocation AllocationManager StunTurnProcessor.
From S2P Require Import Examples ProcessorFacts RequestFacts Spec.

(** ** The abstraction function *)

Section view.
Context {ip : IpAddress} {sx : Stunxx}.

Definition view_entry (e : ChannelManager.ChannelEntry) : Endpoint * Z :=
  (entry_endpoint e, expiry (entry_timer e)).

Definition view_lease (a : UdpAllocation) : Lease :=
  {| owner := five_tuple_ (base a);
     relayed_socket := Allocation.socket_ a;
     lease_expiry := expiry (timer_ (base a));
     permission_seconds :=
       PermissionManager.lifetime_seconds_ (permission_manager_ (base a));
     binding_seconds := ChannelManager.lifetime_seconds_ (channel_manager_ a);
     permits := expiry <$> permissions_ (permission_manager_ (base a));
     bindings := view_entry <$> channels_ (channel_manager_ a);
     outbox := Allocation.channel_ a;
     granted_response := success_message_ (base a) |}.

Definition view (am : AllocationManager) : Turn :=
  {| settings := AllocationManager.config_ am;
     relays := relay_address_generator_ am;
     sessions := session_map_ am;
     leases := view_lease <$> objects am;
     next_lease := next_object am;
     reserved := ReservationManager.socket_ <$> reservations_ (reservation_manager_ am) |}.

(** The packets a reply amounts to; an error response answers the decoded
    request, and is not sent when it does not fit its buffer. *)
Definition render (self : StunTurnProcessor) {ssl : OpenSSL} (env : surroundings)
    (request : option Decoder) (ft : FiveTuple) (r : reply) : list (Message * Endpoint) :=
  match r with
  | silence => []
  | refusal ec key =>
      match request with
      | Some d =>
          let m := error_message self env d ec key in
          if builder_valid m then [(finalize m, endpoint ft)] else []
      | None => []
      end
  | response b => [(finalize b, endpoint ft)]
  | repeated m => [(m, endpoint ft)]
  end.

Implicit Types (a : UdpAllocation) (am : AllocationManager).

Lemma view_set_object p a l calls am :
  view_lease a = l ->
  view (set_objects (<[p := a]> (objects am)) calls am) = update p l (view am).
Proof. intros <-. unfold view, update, with_leases. cbn. by rewrite fmap_insert. Qed.

Lemma update_id p l t : leases t !! p = Some l -> update p l t = t.
Proof. intros Hl. unfold update, with_leases. destruct t. cbn in *. by rewrite insert_id. Qed.

Lemma update_twice p l l' t : update p l' (update p l t) = update p l' t.
Proof. unfold update, with_leases. cbn. by rewrite insert_insert_eq. Qed.

Lemma lookup_view p am : leases (view am) !! p = view_lease <$> objects am !! p.
Proof. apply lookup_fmap. Qed.

Lemma session_view ft p a am :
  AllocationManager.getAllocation ft am = Some p -> objects am !! p = Some a ->
  session ft (view am) = Some (p, view_lease a).
Proof.
  rewrite getAllocation_lookup. intros Hp Ha. unfold session. cbn [sessions view].
  by rewrite Hp, lookup_view, Ha.
Qed.

Lemma session_view_None ft am :
  AllocationManager.getAllocation ft am = None -> session ft (view am) = None.
Proof.
  rewrite getAllocation_lookup. intros Hp. unfold session. cbn [sessions view]. by rewrite Hp.
Qed.

Lemma view_addPermission now addr a :
  view_lease (set_base (addPermission now addr (base a)) a) = permit now addr (view_lease a).
Proof.
  destruct (PermissionManager.addPermission_permissions now addr
    (permission_manager_ (base a))) as [i Hi].
  pose proof (PermissionManager.lifetime_addPermission now addr
    (permission_manager_ (base a))) as Hl.
  unfold view_lease, permit, Spec.set_permits, addPermission, set_base, set_permissions.
  cbn [base permission_manager_ five_tuple_ timer_ success_message_ Allocation.socket_
    Allocation.channel_ channel_manager_].
  by rewrite Hi, Hl, fmap_insert.
Qed.

Lemma view_send m peer a :
  view_lease (set_queue (Allocation.channel_ a ++ [(m, (address peer, port peer))]) a) =
  send m peer (view_lease a).
Proof. done. Qed.

Lemma view_family f a :
  family_matches (local_address (Allocation.socket_ a)) f = Allocation.supportsFamily f a.
Proof. destruct f; unfold Allocation.supportsFamily; cbn; by rewrite ?orb_false_r. Qed.

Lemma view_manager_family f am :
  family_matches (addr_ (relays (view am))) f = supportsFamily f am.
Proof. by destruct f. Qed.
End view.

(** ** The handlers *)

Section handlers.
Context {ip : IpAddress} {ipl : IpAddressLaws ip} {sx : Stunxx} {sxl : StunxxLaws sx}.
Context {ssl : OpenSSL} {laws : OpenSSLLaws ssl}.
Context (iteration : gmap Z ChannelManager.ChannelEntry ->
                     list (Z * ChannelManager.ChannelEntry)).
Context (iteration_perm : forall m, iteration m ≡ₚ map_to_list m).
Context (self : StunTurnProcessor) (env : surroundings).
Implicit Types (w : World) (d : Decoder) (ft : FiveTuple) (o : oracle) (t : Turn).

(** The outcome of a handler is what the specification says. *)
Definition simulated w0 (request : option Decoder) ft (s : Turn * reply) (r : result unit) (w : World) : Prop :=
  view (allocation_manager_ w) = s.1 /\ sent w = sent w0 ++ render self env request ft s.2.

Lemma sim_error w0 d ft t ec key w :
  view (allocation_manager_ w) = t -> sent w = sent w0 ->
  wp (sendErrorMessage self env d ec (endpoint ft) key)
    (simulated w0 (Some d) ft (t, refusal ec key)) w.
Proof.
  intros Hv Hs. unfold wp, simulated. rewrite sendErrorMessage_eq. cbn [fst snd render].
  destruct (builder_valid _); cbn; by rewrite ?app_nil_r, <-Hs.
Qed.

Lemma sim_send w0 request ft t b w :
  view (allocation_manager_ w) = t -> sent w = sent w0 ->
  wp (sendPacket_ (finalize b) (endpoint ft)) (simulated w0 request ft (t, response b)) w.
Proof. intros Hv Hs. split; [done|]. cbn. by rewrite Hs. Qed.

Lemma sim_ret w0 request ft t w :
  view (allocation_manager_ w) = t -> sent w = sent w0 ->
  wp (mret tt) (simulated w0 request ft (t, silence)) w.
Proof. intros Hv Hs. split; [done|]. cbn. by rewrite app_nil_r. Qed.

(** What a request's credentials are decided to be. *)
Definition verdict_ok d (v : AuthKey + (StunErrorCode * option AuthKey)) : Prop :=
  match v with
  | inl key => authentic self env d key
  | inr (ec, _) => auth_error ec /\ forall key, ~ authentic self env d key
  end.

Lemma verdict_total d (ep0 : Endpoint) w0 :
  decoder_ok d ->
  exists v, verdict_ok d v /\ forall ep w,
    authenticate self env d ep w =
      match v with
      | inl key => (w, Ok (Some key))
      | inr (ec, key) => ((sendErrorMessage self env d ec ep key w).1, Ok None)
      end.
Proof.
  intros Hd. destruct (authenticate_decides self env d) as (v & Hv & Hr & Ha).
  destruct (authenticate_ok self env d ep0 w0 Hd) as [x Hx]. rewrite Hv in Hx.
  destruct v as [key|ec key|e]; [exists (inl key)|exists (inr (ec, key))|done].
  - split; [by apply Ha | done].
  - split.
    + split; [by eapply Hr|]. by intros k ?%Ha.
    + intros ep w. rewrite Hv. cbn. unfold refuse, mbind, M_bind.
      by rewrite sendErrorMessage_eq.
Qed.

Definition follows d (v : AuthKey + (StunErrorCode * option AuthKey)) : Prop :=
  forall ep w, authenticate self env d ep w =
    match v with
    | inl key => (w, Ok (Some key))
    | inr (ec, key) => ((sendErrorMessage self env d ec ep key w).1, Ok None)
    end.

Lemma sim_authenticated d ft o (serve : AuthKey -> Turn -> Turn * reply)
    (k : option AuthKey -> M World unit) w :
  follows d (verdict o) -> k None = mret tt ->
  (forall key, wp (k (Some key)) (simulated w (Some d) ft (serve key (view (allocation_manager_ w)))) w) ->
  wp (authenticate self env d (endpoint ft) ≫= k)
    (simulated w (Some d) ft (authenticated o serve (view (allocation_manager_ w)))) w.
Proof.
  intros Hf Hn Hk. unfold wp, mbind, M_bind, authenticated. rewrite Hf.
  destruct (verdict o) as [key|[ec key]]; [apply Hk|]. rewrite Hn. by apply sim_error.
Qed.

(** The allocation of the five-tuple, on both sides. *)
Lemma session_cases ft w :
  wf_world w ->
  (AllocationManager.getAllocation ft (allocation_manager_ w) = None /\
   session ft (view (allocation_manager_ w)) = None) \/
  (exists p a, AllocationManager.getAllocation ft (allocation_manager_ w) = Some p /\
     objects (allocation_manager_ w) !! p = Some a /\ answers a /\
     session ft (view (allocation_manager_ w)) = Some (p, view_lease a)).
Proof.
  intros Hw. destruct (AllocationManager.getAllocation _ _) as [p|] eqn:E; [right|left].
  - destruct (wf_object w ft p Hw E) as (a & Ha & Hans). exists p, a. split_and!; try done.
    by apply session_view.
  - split; [done|]. by apply session_view_None.
Qed.

Lemma sim_refresh d ft o w :
  wf_world w -> follows d (verdict o) ->
  wp (handleRefreshRequest self env d ft) (simulated w (Some d) ft
    (authenticated o (serve_refresh (StunTurnProcessor.config_ self) (now env) d ft) (view (allocation_manager_ w)))) w.
Proof.
  intros Hw Hf. apply sim_authenticated; [done..|]. intros key. unfold serve_refresh.
  apply wp_getAllocation.
  destruct (session_cases ft w Hw) as [[-> ->] | (p & a & -> & Ha & _ & ->)];
    [by apply sim_error|].
  apply (wp_deref p a); [done|]. cbn [relayed_socket view_lease].
  assert (from_option (family_matches (local_address (Allocation.socket_ a))) false
            (get_requested_family d) =
          match get_requested_family d with
          | Some family => Allocation.supportsFamily family a
          | None => false
          end) as -> by (destruct (get_requested_family d); [apply view_family | done]).
  destruct (match get_requested_family d with Some _ => _ | None => _ end);
    [by apply sim_error|].
  apply wp_get. unfold refresh_udp, refresh. cbn [expires_after]. apply wp_set_manager.
  unfold StunMessageBuilder, add. cbv zeta. cbn [sm_method sm_class sm_transaction sm_attrs app].
  rewrite add_message_integrity_eq.
  assert (computeLifetime self d = lifetime_of (StunTurnProcessor.config_ self) d) as -> by apply lifetime_granted.
  apply sim_send; [|done]. by apply view_set_object.
Qed.

Lemma sim_send_to_peer request ft p a m peer w :
  objects (allocation_manager_ w) !! p = Some a -> answers a ->
  wp (send_to_peer p m peer) (simulated w request ft
    (update p (Spec.send m peer (view_lease a)) (view (allocation_manager_ w)), silence)) w.
Proof.
  intros Ha [_ Ho]. apply (wp_send_to_peer p a); [done..|].
  split; [by apply view_set_object | by cbn; rewrite app_nil_r].
Qed.

Lemma sim_handleSendIndication d ft w :
  decoder_ok d -> wf_world w ->
  wp (handleSendIndication d ft)
    (simulated w (Some d) ft (serve_send d ft (view (allocation_manager_ w)))) w.
Proof.
  intros Hd Hw. unfold handleSendIndication, serve_send. apply wp_getAllocation.
  destruct (session_cases ft w Hw) as [[-> ->] | (p & a & -> & Ha & Hans & ->)];
    [by apply sim_ret|].
  destruct (get_data d) as [data|]; [|by apply sim_ret].
  destruct (get_xor_peer d) as [x|] eqn:Ex; [|by apply sim_ret].
  destruct (toAsioAddress_ok x) as [addr Haddr]; [by apply (ok_peer _ Hd)|].
  apply (wp_of_result addr); [done|]. rewrite Haddr.
  destruct (data_encode data); [|by apply sim_ret]. by apply sim_send_to_peer.
Qed.

Lemma view_getPeerByChannel n a :
  bindings (view_lease a) !! n = view_entry <$> channels_ (channel_manager_ a) !! n.
Proof. apply lookup_fmap. Qed.

Lemma sim_handleChannelData m request ft w :
  wf_world w ->
  wp (handleChannelData m ft)
    (simulated w request ft (serve_channel_data m ft (view (allocation_manager_ w)))) w.
Proof.
  intros Hw. unfold handleChannelData, serve_channel_data.
  destruct (ChannelData_decode _) as [cd|]; [|by apply sim_ret]. apply wp_getAllocation.
  destruct (session_cases ft w Hw) as [[-> ->] | (p & a & -> & Ha & Hans & ->)];
    [by apply sim_ret|].
  apply (wp_deref p a); [done|]. rewrite view_getPeerByChannel.
  unfold getPeerByChannel, getEndpoint.
  destruct (channels_ _ !! channel cd) as [e|]; cbn [fmap option_fmap option_map view_entry];
    [|by apply sim_ret].
  destruct (ChannelData_encodeData cd); [|by apply sim_ret]. by apply sim_send_to_peer.
Qed.

Lemma sim_handleBindingRequest d ft w :
  wp (handleBindingRequest d ft)
    (simulated w (Some d) ft (serve_binding d ft (view (allocation_manager_ w)))) w.
Proof. by apply sim_send. Qed.

(** *** Permissions and channels *)

Lemma sim_install_permissions p : forall xs a w,
  objects (allocation_manager_ w) !! p = Some a ->
  (forall x, x ∈ xs -> address_fits x) ->
  let t := view (allocation_manager_ w) in
  let allowed := supported_prefix (family_matches (addr_ (relays t))) xs in
  wp (install_permissions env p xs) (fun r w' =>
    r = Ok (bool_decide (allowed = xs)) /\ sent w' = sent w /\
    view (allocation_manager_ w') =
      update p (fold_left (permit_peer (now env)) allowed (view_lease a)) t) w.
Proof.
  induction xs as [|x xs IH]; intros a w Ha Hfit t; cbn [install_permissions supported_prefix].
  - split_and!; [done..|]. cbn. rewrite update_id; [done|]. unfold t. by rewrite lookup_view, Ha.
  - apply wp_get. unfold t. rewrite view_manager_family. fold t.
    destruct (supportsFamily (xpa_family x) (allocation_manager_ w)); cbn [negb].
    + destruct (toAsioAddress_ok x) as [addr Hx]; [apply Hfit; left|].
      apply (wp_of_result addr); [done|]. apply (wp_deref p a); [done|]. apply wp_store.
      set (a1 := set_base (addPermission (now env) addr (base a)) a).
      eapply wp_mono; [apply (IH a1)|].
      * cbn. apply lookup_insert_eq.
      * intros y Hy. apply Hfit. by right.
      * cbn [allocation_manager_ sent].
        change (addr_ (relays (view (set_objects _ _ _)))) with (addr_ (relays t)).
        intros r w' (-> & Hs & ->). split_and!; [|done|].
        { f_equal. apply bool_decide_ext. split; [|by intros [=]]. by intros ->. }
        rewrite (view_set_object _ _ (permit (now env) addr (view_lease a)))
          by apply view_addPermission.
        fold t. rewrite update_twice. cbn [fold_left]. unfold permit_peer at 3. rewrite Hx.
        by unfold a1; rewrite view_addPermission.
    + split_and!; [done..|]. cbn. rewrite update_id; [done|]. unfold t.
      by rewrite lookup_view, Ha.
Qed.

Lemma sim_permission d ft o w :
  decoder_ok d -> wf_world w -> follows d (verdict o) ->
  wp (handlePermissionRequest self env d ft) (simulated w (Some d) ft
    (authenticated o (serve_permission (now env) d ft) (view (allocation_manager_ w)))) w.
Proof.
  intros Hd Hw Hf. apply sim_authenticated; [done..|]. intros key. unfold serve_permission.
  apply wp_getAllocation.
  destruct (session_cases ft w Hw) as [[-> ->] | (p & a & -> & Ha & _ & ->)];
    [by apply sim_error|].
  destruct (decide (get_xor_peers d = [])) as [Hnil|Hnil].
  - rewrite Hnil, bool_decide_true by done. rewrite bool_decide_false by by intros [? _].
    apply sim_error; [|done]. cbn. rewrite update_id; [done|]. by rewrite lookup_view, Ha.
  - rewrite bool_decide_false by done. apply wp_bind.
    eapply wp_mono; [apply (sim_install_permissions p _ a); [done | apply Hd]|].
    intros r w' (-> & Hs & Hv). case_bool_decide; cbn [negb].
    + rewrite bool_decide_true by done. unfold StunMessageBuilder.
      rewrite add_message_integrity_eq. by apply sim_send.
    + rewrite bool_decide_false by by intros [_ ?]. by apply sim_error.
Qed.

Lemma view_addChannel n peer a :
  let '(added, a') := addChannel iteration (now env) n peer a in
  added = bool_decide (can_bind n peer (view_lease a)) /\
  view_lease a' = if added then bind (now env) n peer (view_lease a) else view_lease a.
Proof.
  unfold addChannel. pose proof (view_getPeerByChannel n a) as Hb.
  destruct (ChannelManager.addChannel_cases iteration iteration_perm (now env) n peer
    (channel_manager_ a)) as [(e & He & Hne & ->) | [(Hn & [n' (e & He & Hp)] & ->)
    | (Hc & i & cm & -> & Hl & Hch)]]; cbn [negb].
  - rewrite bool_decide_false; [by destruct a|]. unfold can_bind. by rewrite Hb, He.
  - rewrite bool_decide_false; [by destruct a|]. unfold can_bind. rewrite Hb, Hn. intros Hall.
    apply (Hall n' (view_entry e)); [|done]. cbn. by rewrite lookup_fmap, He.
  - split.
    + symmetry. apply bool_decide_eq_true. unfold can_bind. rewrite Hb.
      destruct Hc as [(e & -> & He) | [-> Hno]]; [done|].
      cbn. intros n' b. rewrite lookup_fmap, fmap_Some. intros (e & He & ->) Hp.
      apply (Hno n'). by exists e.
    + rewrite (view_addPermission (now env) (address peer) (set_channels cm a)).
      unfold bind. f_equal. unfold view_lease, Spec.set_bindings, set_channels.
      cbn. by rewrite Hl, Hch, fmap_insert.
Qed.

Lemma sim_bind d ft o w :
  decoder_ok d -> wf_world w -> follows d (verdict o) ->
  wp (handleChannelBindRequest iteration self env d ft) (simulated w (Some d) ft
    (authenticated o (serve_bind (now env) d ft) (view (allocation_manager_ w)))) w.
Proof.
  intros Hd Hw Hf. apply sim_authenticated; [done..|]. intros key. unfold serve_bind.
  apply wp_getAllocation.
  destruct (session_cases ft w Hw) as [[-> ->] | (p & a & -> & Ha & _ & ->)];
    [by apply sim_error|].
  destruct (get_channel_number d) as [n|]; [|by apply sim_error].
  destruct (get_xor_peer d) as [x|] eqn:Ex; [|by apply sim_error].
  apply (wp_deref p a); [done|]. cbn [relayed_socket view_lease]. rewrite view_family.
  destruct (negb _); [by apply sim_error|].
  destruct (ok_peer _ Hd x Ex) as [_ [addr Haddr]]. rewrite Haddr.
  apply (wp_of_option _ addr); [done|].
  pose proof (view_addChannel n {| address := addr; port := xpa_port x; protocol := UDP |} a)
    as Hadd.
  destruct (addChannel _ _ _ _ _) as [added a']. destruct Hadd as [<- Hv]. apply wp_store.
  destruct added; cbn [negb].
  - unfold StunMessageBuilder. rewrite add_message_integrity_eq.
    apply sim_send; [by apply view_set_object | done].
  - apply sim_error; [|done]. cbn [allocation_manager_].
    rewrite (view_set_object _ _ _ _ _ Hv). apply update_id. by rewrite lookup_view, Ha.
Qed.

(** *** Allocate *)

Lemma view_install lifetime ft s am :
  let '(p, am') := install (now env) lifetime ft s am in
  p = next_lease (view am) /\
  view am' = lease (now env + seconds lifetime) ft s zero_message (view am).
Proof.
  unfold install. cbn. split; [done|]. unfold view, lease. cbn. f_equal.
  by rewrite fmap_insert.
Qed.

Lemma view_set_reservations rm am :
  view (set_reservation_manager rm am) =
  with_reserved (ReservationManager.socket_ <$> reservations_ rm) (view am).
Proof. done. Qed.

(** The object of a lease. *)
Lemma lease_object p l am :
  leases (view am) !! p = Some l -> exists a, objects am !! p = Some a /\ view_lease a = l.
Proof. rewrite lookup_view, fmap_Some. intros (a & Ha & ->). by exists a. Qed.

Lemma lookup_lease expires ft s m t :
  leases (lease expires ft s m t) !! next_lease t =
  Some {| owner := ft; relayed_socket := s; lease_expiry := expires;
          permission_seconds := permission_lifetime (turn (settings t));
          binding_seconds := channel_lifetime (turn (settings t));
          permits := ∅; bindings := ∅; outbox := []; granted_response := m |}.
Proof. apply lookup_insert_eq. Qed.

(** The response as the handler builds it. *)
Definition built d ft (key : AuthKey) (extra : option AddressFamily)
    (tok : option ReservationToken) (relayed : Address) (port : Z) : StunMessage :=
  let builder := allocate_builder d ft relayed port (computeLifetime self d) in
  let builder :=
    match extra with
    | Some _ => add (AddressErrorCode IPv6 InsufficientCapacity) builder
    | None => builder
    end in
  add_message_integrity key
    match tok with Some tok => add (ReservationTokenAttr tok) builder | None => builder end.

Lemma built_grant d ft key s extra tok :
  built d ft key extra tok (local_address s) (local_port s) =
  grant_message (StunTurnProcessor.config_ self) d ft key s extra tok.
Proof.
  unfold built, grant_message, present.
  assert (computeLifetime self d = lifetime_of (StunTurnProcessor.config_ self) d) as ->
    by apply lifetime_granted.
  unfold allocate_builder, StunMessageBuilder, add.
  cbn [sm_method sm_class sm_transaction sm_attrs app].
  destruct extra, tok; cbn [sm_method sm_class sm_transaction sm_attrs app];
    by rewrite add_message_integrity_eq.
Qed.

(** The rest of the handler once the lease exists: its response is built
    from the relayed address, recorded and sent. *)
Lemma sim_granted w0 request ft expires s t p w (message : Address -> Z -> StunMessage) b :
  p = next_lease t ->
  view (allocation_manager_ w) = lease expires ft s zero_message t -> sent w = sent w0 ->
  message (local_address s) (local_port s) = b ->
  wp (a ← deref p;
      relayed ← of_option (system_error "make_address") (make_address (address_of a));
      record_success p (message relayed (port_of a)) ft)
    (simulated w0 request ft (lease expires ft s (finalize b) t, response b)) w.
Proof.
  intros -> Hv Hs Hb. destruct (lease_object (next_lease t) _ (allocation_manager_ w)
    ltac:(rewrite Hv; apply lookup_lease)) as (a & Ha & Hl).
  apply (wp_deref _ a); [done|]. eapply wp_of_option; [apply make_address_of|].
  assert (Allocation.socket_ a = s) as Hsock by (injection Hl; done).
  unfold port_of. rewrite Hsock, Hb.
  apply (wp_record_success _ a); [done|]. split; [|cbn; by rewrite Hs].
  cbn [allocation_manager_].
  rewrite (view_set_object _ _ _ _ _ eq_refl), Hv. unfold update, lease, with_leases.
  cbn. rewrite insert_insert_eq. f_equal. f_equal. unfold view_lease in *. cbn.
  injection Hl as -> -> -> -> -> -> -> -> _. done.
Qed.

(** Filing an allocation and answering with it is granting a lease. *)
Lemma sim_grant d ft key s extra tok am w :
  let '(p, am') := install (now env) (computeLifetime self d) ft s am in
  wp (a ← deref p;
      relayed ← of_option (system_error "make_address") (make_address (address_of a));
      record_success p (built d ft key extra tok relayed (port_of a)) ft)
    (simulated w (Some d) ft
      (grant (StunTurnProcessor.config_ self) (now env) d ft key s extra tok (view am)))
    {| allocation_manager_ := am'; sent := sent w |}.
Proof.
  pose proof (view_install (computeLifetime self d) ft s am) as Hi.
  destruct (install _ _ _ _ _) as [p am']. destruct Hi as [-> Hv].
  destruct (lifetime_granted self d) as [Hl _]. rewrite Hl in Hv.
  by eapply sim_granted; [..|apply built_grant].
Qed.

Lemma sim_reserved d ft o key tok w :
  get_reservation_token d = Some tok ->
  session ft (view (allocation_manager_ w)) = None ->
  first_failing (allocate_checks
    (family_matches (addr_ (relays (view (allocation_manager_ w))))) d) = None ->
  wp (allocate_reserved self env d ft key tok) (simulated w (Some d) ft
    (serve_allocate (StunTurnProcessor.config_ self) (now env) o d ft key
       (view (allocation_manager_ w)))) w.
Proof.
  intros Ht Hses Hck. unfold serve_allocate. rewrite Hses, Hck, Ht.
  unfold allocate_reserved. apply wp_get. unfold claimReservation.
  unfold ReservationManager.claimReservation. cbn [reserved view]. rewrite lookup_fmap.
  destruct (reservations_ _ !! tok) as [r|]; cbn [fmap option_fmap option_map].
  - set (rm := set_reservations _ _ _).
    pose proof (sim_grant d ft key (takeSocket r) None None
      (set_reservation_manager rm (allocation_manager_ w)) w) as Hg.
    rewrite view_set_reservations in Hg. unfold rm in Hg at 2.
    cbn [reservations_ set_reservations] in Hg. rewrite fmap_delete in Hg.
    destruct (install _ _ _ _ _) as [p am]. by apply wp_set_manager.
  - apply wp_set_manager. rewrite set_reservation_manager_id. by apply sim_error.
Qed.

Lemma createReservation_view fuel rng now (s : socket) rm tok pos :
  fresh_token fuel rng 0 (reservations_ rm) = Some (tok, pos) ->
  exists rm', createReservation fuel rng 0 now s rm = Some (tok, pos, rm') /\
    ReservationManager.socket_ <$> reservations_ rm' =
      <[tok := s]> (ReservationManager.socket_ <$> reservations_ rm).
Proof.
  intros Hf. assert (exists rm', createReservation fuel rng 0 now s rm = Some (tok, pos, rm'))
    as [rm' E].
  { unfold createReservation. rewrite Hf.
    destruct (new_timer _), (emplace _ _ _), (startTimer _ _ _). by eexists. }
  exists rm'. split; [done|].
  apply createReservation_Some in E as (_ & _ & _ & r & -> & <- & _). by rewrite fmap_insert.
Qed.

(** The oracle says what the generators say. *)
Record oracle_ok d w o : Prop := {
  oracle_offer : offer o = generateUdpRelay (relay env) (policy_of d)
                   (relay_address_generator_ (allocation_manager_ w));
  oracle_token : exists pos, let m := reservations_ (reservation_manager_ (allocation_manager_ w)) in
    fresh_token (base.size m) (rng env) 0 m = Some (token o, pos)
}.

Lemma sim_new d ft o key fam w :
  oracle_ok d w o -> get_reservation_token d = None ->
  session ft (view (allocation_manager_ w)) = None ->
  first_failing (allocate_checks
    (family_matches (addr_ (relays (view (allocation_manager_ w))))) d) = None ->
  wp (allocate_new self env d ft key fam (policy_of d) (get_additional_family d))
    (simulated w (Some d) ft
      (serve_allocate (StunTurnProcessor.config_ self) (now env) o d ft key
         (view (allocation_manager_ w)))) w.
Proof.
  intros [Hoff [pos Htok]] Ht Hses Hck. unfold serve_allocate. rewrite Hses, Hck, Ht, Hoff.
  unfold allocate_new. apply wp_get. unfold createAllocation.
  destruct (generateUdpRelay _ _ _) as [[r|]|e];
    [|by apply wp_set_manager, sim_error|split; [done | cbn; by rewrite app_nil_r]].
  destruct (lifetime_granted self d) as [Hl1 Hl2]. rewrite Hl2, <-Hl1.
  unfold releaseSecondary. destruct (secondary_ r) as [s|].
  - destruct (createReservation_view _ _ (now env) s _ _ _ Htok) as (rm' & -> & Hrm).
    pose proof (sim_grant d ft key (primary r) (get_additional_family d) (Some (token o))
      (set_reservation_manager rm' (allocation_manager_ w)) w) as Hg.
    rewrite view_set_reservations, Hrm in Hg.
    destruct (install _ _ _ _ _) as [p am]. by apply wp_set_manager.
  - pose proof (sim_grant d ft key (primary r) (get_additional_family d) None
      (allocation_manager_ w) w) as Hg.
    destruct (install _ _ _ _ _) as [p am]. by apply wp_set_manager.
Qed.

Lemma sim_allocate_again d ft o key p a w :
  objects (allocation_manager_ w) !! p = Some a -> answers a ->
  session ft (view (allocation_manager_ w)) = Some (p, view_lease a) ->
  wp (allocate_again self env d ft key p) (simulated w (Some d) ft
    (serve_allocate (StunTurnProcessor.config_ self) (now env) o d ft key
       (view (allocation_manager_ w)))) w.
Proof.
  intros Ha [Hsz _] Hses. unfold serve_allocate. rewrite Hses. unfold allocate_again.
  apply (wp_deref p a); [done|]. unfold getTransactionId.
  rewrite (proj2 (Z.ltb_ge _ _)) by lia. eapply wp_of_result; [done|].
  cbn [granted_response view_lease]. case_bool_decide; [done | by apply sim_error].
Qed.

Lemma sim_allocate d ft o w :
  wf_world w -> follows d (verdict o) -> verdict_ok d (verdict o) -> oracle_ok d w o ->
  wp (handleAllocationRequest self env d ft) (simulated w (Some d) ft
    (authenticated o (serve_allocate (StunTurnProcessor.config_ self) (now env) o d ft)
       (view (allocation_manager_ w)))) w.
Proof.
  intros Hw Hf Hv Ho. destruct (session_cases ft w Hw) as
    [[Hp Hses] | (p & a & Hp & Ha & Hans & Hses)].
  - destruct (verdict o) as [key|[ec key]] eqn:Ev; cycle 1.
    { unfold handleAllocationRequest, wp, mbind, M_bind, authenticated.
      rewrite Hf, Ev. by apply sim_error. }
    unfold wp, authenticated. rewrite Ev, (allocate_checked self env d ft key w Hv Hp).
    rewrite (allocate_checks_ext _ (family_matches (addr_ (relays (view
      (allocation_manager_ w)))))) by (intros f; by rewrite view_manager_family).
    destruct (first_failing _) as [ec|] eqn:Hck.
    + unfold serve_allocate. rewrite Hses, Hck. by apply sim_error.
    + destruct (get_reservation_token d) eqn:Ht; [by apply sim_reserved | by apply sim_new].
  - apply sim_authenticated; [done..|]. intros key. apply wp_getAllocation. rewrite Hp.
    by eapply sim_allocate_again.
Qed.

(** ** The refinement *)

(** An oracle for a packet: its verdict is right for the request, its offer
    is what the port generator finds, and its token is not in use. *)
Record foretells (m : Message) w o : Prop := {
  foretold_verdict : forall d, Decoder_parse (payload m) = Some d -> verdict_ok d (verdict o);
  foretold_offer : forall d, Decoder_parse (payload m) = Some d ->
    offer o = generateUdpRelay (relay env) (policy_of d)
                (relays (view (allocation_manager_ w)));
  foretold_token : reserved (view (allocation_manager_ w)) !! token o = None
}.

Lemma sim_dispatch d ft o w :
  decoder_ok d -> wf_world w -> follows d (verdict o) -> verdict_ok d (verdict o) ->
  oracle_ok d w o ->
  wp (dispatch iteration self env d ft) (simulated w (Some d) ft
    (let t := view (allocation_manager_ w) in
     match messageClass d with
     | Request => serve_request (StunTurnProcessor.config_ self) (now env) o d ft t
     | Indication =>
         if bool_decide (messageMethod d = Send) then serve_send d ft t else (t, silence)
     | _ => (t, silence)
     end)) w.
Proof.
  intros Hd Hw Hf Hv Ho. unfold dispatch, serve_request. cbv zeta.
  destruct (messageClass d), (messageMethod d); try by apply sim_ret.
  all: try by apply sim_error.
  - by apply sim_handleBindingRequest.
  - by apply sim_allocate.
  - by apply sim_refresh.
  - by apply sim_permission.
  - by apply sim_bind.
  - rewrite bool_decide_true by done. by apply sim_handleSendIndication.
Qed.

Lemma oracle_exists m (ep : Endpoint) w :
  (forall d, Decoder_parse (payload m) = Some d -> decoder_ok d) -> distinct_tokens env w ->
  exists o, foretells m w o /\
    forall d, Decoder_parse (payload m) = Some d -> follows d (verdict o) /\ oracle_ok d w o.
Proof.
  intros Hd [[tok pos] Htok]%fresh_token_total.
  assert (reserved (view (allocation_manager_ w)) !! tok = None) as Hfree.
  { apply fresh_token_Some in Htok as [Hn _]. cbn. by rewrite lookup_fmap, Hn. }
  destruct (Decoder_parse (payload m)) as [d|] eqn:Ed.
  - destruct (verdict_total d ep w (Hd d eq_refl)) as (v & Hv & Hf).
    exists {| verdict := v; offer := generateUdpRelay (relay env) (policy_of d)
      (relay_address_generator_ (allocation_manager_ w)); token := tok |}.
    split; [split; [..|done]|]; rewrite ?Ed.
    + by intros d' [= <-].
    + by intros d' [= <-].
    + intros d' [= <-]. split; [done|]. split; [done|]. by exists pos.
  - exists {| verdict := inr (BadRequest, None); offer := Ok None; token := tok |}.
    by split; [split; rewrite ?Ed|].
Qed.

Lemma processPacket_simulated w m ft :
  wf_world w -> distinct_tokens env w ->
  (forall d, Decoder_parse (payload m) = Some d -> decoder_ok d) ->
  exists o, foretells m w o /\
    wp (processPacket iteration self env m ft) (simulated w (Decoder_parse (payload m)) ft
      (serve (StunTurnProcessor.config_ self) (now env) o m ft
         (view (allocation_manager_ w)))) w.
Proof.
  intros Hw Hdist Hd. destruct (oracle_exists m (endpoint ft) w Hd Hdist) as (o & Ho & Hall).
  exists o. split; [done|]. unfold processPacket, serve.
  destruct (is_turn_channel_data _); [by apply sim_handleChannelData|].
  destruct (is_stun_message _); [|by apply sim_ret].
  destruct (Decoder_parse _) as [d|] eqn:Ed; [|by apply sim_ret].
  destruct (Hall d eq_refl). pose proof (foretold_verdict _ _ _ Ho d) as Hv.
  rewrite Ed in Hv. apply sim_dispatch; auto.
Qed.

(** C3.  The handlers implement the specification: for every packet there is
    an oracle, right about the credentials and the relay addresses, such
    that [processPacket] leaves the abstract state that serving the packet
    leaves, and hands over exactly the messages of the specified reply. *)
Theorem processPacket_refines w m ft :
  wf_world w -> distinct_tokens env w ->
  (forall d, Decoder_parse (payload m) = Some d -> decoder_ok d) ->
  exists o, foretells m w o /\
    let '(t, answer) := serve (StunTurnProcessor.config_ self) (now env) o m ft
                          (view (allocation_manager_ w)) in
    let w' := (processPacket iteration self env m ft w).1 in
    view (allocation_manager_ w') = t /\
    sent w' = sent w ++ render self env (Decoder_parse (payload m)) ft answer.
Proof.
  intros Hw Hdist Hd. destruct (processPacket_simulated w m ft Hw Hdist Hd) as (o & Ho & Hsim).
  exists o. split; [done|]. by destruct (serve _ _ _ _ _ _).
Qed.
End handlers.

(** ** Witnesses *)

Section witnesses.
#[local] Existing Instance plain_ip.
#[local] Existing Instance plain_ip_laws.
#[local] Existing Instance example_ssl.
#[local] Existing Instance example_ssl_laws.
#[local] Instance refinement_codec : Stunxx := example_codec example_allocate.
#[local] Instance refinement_laws : StunxxLaws refinement_codec := plain_stunxx_laws _.

(** An Allocate request, on both sides. *)
Lemma processPacket_refines_witness :
  exists o, foretells example_processor example_surroundings example_packet example_world o /\
    view (allocation_manager_ (processPacket map_to_list example_processor
      example_surroundings example_packet example_tuple example_world).1) =
    (serve example_config 0 o example_packet example_tuple (view example_manager)).1.
Proof.
  destruct (processPacket_refines map_to_list example_perm example_processor
    example_surroundings example_world example_packet example_tuple example_wf
    example_distinct) as (o & Ho & H);
    [intros d [= <-]; apply (example_decoder_ok (fun _ => Some example_allocate))|].
  exists o. split; [exact Ho|]. change (StunTurnProcessor.config_ example_processor)
    with example_config in H. change (now example_surroundings) with 0 in H.
  change (allocation_manager_ example_world) with example_manager in H.
  destruct (serve example_config 0 o example_packet example_tuple (view example_manager)).
  exact (proj1 H).
Defined.
End witnesses.
