(* ===== verification/ServerRefinement.v ===== *)
(** * The running server implements the specification

    The abstract server of [Spec] in time: packets are served, peers' data
    is relayed, queued packets are transmitted or lost, and what has expired
    is forgotten.  Every step of [Server.step], the failures of sockets
    included, is such a transition, or changes nothing the abstract server
    sees. *)

From Stdlib Require Import ZArith Lia Strings.Byte.
From stdpp Require Import base gmap list strings relations.
From S2P Require Import Prelude Asio Instances TimedTable.
From S2P Require Import PermissionManager ChannelManager.
From S2P Require Import RelayAddressGenerator ReservationManager.
From S2P Require Import Config OpenSSL Stunxx AuthKey Authenticator.
From S2P Require Import Endpoint Message Allocation AllocationManager StunTurnProcessor.
From S2P Require Import Examples ProcessorFacts RequestFacts Spec Refinement Server.

(** ** Transitions *)

Section transitions.
Context {ip : IpAddress} {sx : Stunxx} {ssl : OpenSSL}.
Context (self : StunTurnProcessor).
Implicit Types (t : Turn) (l : Lease).

(** An oracle that is right about an arrival in a state. *)
Record foretells_arrival (e : arrival) t (o : oracle) : Prop := {
  arrival_verdict : forall d, Decoder_parse (payload (arrival_packet e)) = Some d ->
    verdict_ok self (arrival_env e) d (verdict o);
  arrival_offer : forall d, Decoder_parse (payload (arrival_packet e)) = Some d ->
    offer o = generateUdpRelay (relay (arrival_env e)) (policy_of d) (relays t);
  arrival_token : reserved t !! token o = None
}.

Definition udp_peer (sender : Address * Z) : Endpoint :=
  {| address := sender.1; port := sender.2; protocol := UDP |}.

(** What a lease relays to its owner of [data] from [sender]: ChannelData
    when the sender has a channel, a Data indication when only its address
    is permitted, and nothing else. *)
Inductive relays_to_owner l (sender : Address * Z) (data : bytes)
    : list (Message * Endpoint) -> Prop :=
| relay_on_channel n x :
    bindings l !! n = Some (udp_peer sender, x) ->
    let cd := {| channel := n; channel_payload := data |} in
    relays_to_owner l sender data
      (match ChannelData_encode cd with
       | Some written => [({| size := ChannelData_totalSize cd;
                              buffer := memcpy zero_buffer written |}, endpoint (owner l))]
       | None => []
       end)
| relay_permitted tid x :
    (forall n y, bindings l !! n <> Some (udp_peer sender, y)) ->
    permits l !! sender.1 = Some x ->
    relays_to_owner l sender data
      [(finalize {| sm_method := Data; sm_class := Indication; sm_transaction := tid;
          sm_attrs := [XorPeerAddr (makeStunAddress sender.1 sender.2); DataAttr data] |},
        endpoint (owner l))]
| relay_dropped :
    (forall n y, bindings l !! n <> Some (udp_peer sender, y)) ->
    permits l !! sender.1 = None ->
    relays_to_owner l sender data [].

(** A transition, with the packet that is processed in it, if one is, and
    the packets that are handed to the clients. *)
Inductive transition t : option arrival -> list (Message * Endpoint) -> Turn -> Prop :=
| serve_packet e o :
    foretells_arrival e t o ->
    let s := serve (StunTurnProcessor.config_ self) (now (arrival_env e)) o
               (arrival_packet e) (arrival_tuple e) t in
    transition t (Some e)
      (render self (arrival_env e) (Decoder_parse (payload (arrival_packet e)))
         (arrival_tuple e) s.2) s.1
| relay_data p l sender data out :
    leases t !! p = Some l -> relays_to_owner l sender data out ->
    transition t None out t
(* The oldest packet of an outbox leaves it: it is sent, or lost when sending
   it fails. *)
| transmit p l x rest :
    leases t !! p = Some l -> outbox l = x :: rest ->
    transition t None [] (update p (set_outbox rest l) t)
| forget_session now ft p l :
    sessions t !! ft = Some p -> leases t !! p = Some l -> lease_expiry l <= now ->
    transition t None [] (with_leases (delete ft (sessions t)) (leases t) t)
| forget_permission now p l addr x :
    leases t !! p = Some l -> permits l !! addr = Some x -> x <= now ->
    transition t None [] (update p (Spec.set_permits (delete addr (permits l)) l) t)
| forget_binding now p l n b :
    leases t !! p = Some l -> bindings l !! n = Some b -> b.2 <= now ->
    transition t None [] (update p (Spec.set_bindings (delete n (bindings l)) l) t).
End transitions.

(** ** The steps of the server *)

Section simulation.
Context {ip : IpAddress} {ipl : IpAddressLaws ip} {sx : Stunxx} {sxl : StunxxLaws sx}.
Context {ssl : OpenSSL} {laws : OpenSSLLaws ssl}.
Context (iteration : gmap Z ChannelManager.ChannelEntry ->
                     list (Z * ChannelManager.ChannelEntry)).
Context (iteration_perm : forall m, iteration m ≡ₚ map_to_list m).
Implicit Types (s : Server) (a : UdpAllocation) (am : AllocationManager).

(** A packet as it is queued for the socket. *)
Definition wire (x : Message * Endpoint) : Message * (Address * Z) :=
  (x.1, (address x.2, port x.2)).

Lemma asyncSend_all_queue l : forall s,
  channel_open s = true ->
  channel_ (asyncSend_all l s) = channel_ s ++ (wire <$> l) /\
  channel_open (asyncSend_all l s) = true.
Proof.
  induction l as [|[m ep] l IH]; intros s Ho; [by rewrite app_nil_r|].
  change (asyncSend_all ((m, ep) :: l) s) with (asyncSend_all l (asyncSend m ep s)).
  assert (asyncSend m ep s = set_channel (channel_ s ++ [wire (m, ep)]) s) as ->
    by by unfold asyncSend; rewrite Ho.
  destruct (IH (set_channel (channel_ s ++ [wire (m, ep)]) s) Ho) as [-> ->].
  split; [|done]. cbn. by rewrite <-app_assoc.
Qed.

Lemma bindings_bound a n peer :
  (exists x, bindings (view_lease a) !! n = Some (peer, x)) <->
  ChannelManager.bound (channel_manager_ a) n peer.
Proof.
  rewrite view_getPeerByChannel. unfold ChannelManager.bound. split.
  - intros [x (e & He & [= -> ->])%fmap_Some]. by exists e.
  - intros (e & -> & <-). by exists (expiry (entry_timer e)).
Qed.

Lemma permits_has addr a :
  is_Some (permits (view_lease a) !! addr) <-> hasPermission addr (base a) = true.
Proof.
  cbn. rewrite lookup_fmap, fmap_is_Some. unfold hasPermission.
  by rewrite PermissionManager.hasPermission_spec.
Qed.

(** The reader of an allocation relays as its lease does. *)
Lemma sim_reader tid datagram sender a a' out :
  Allocation.well_formed a ->
  Allocation.reader iteration no_error tid datagram sender a = (a', out) ->
  view_lease a' = view_lease a /\
  relays_to_owner (view_lease a) sender (payload (receive datagram (reader_message a)))
    (from_option (fun x => [x]) [] out).
Proof.
  intros Hwf [= <- <-]. split; [done|]. unfold processPeerMessage.
  fold (udp_peer sender).
  pose proof (ChannelManager.channelByAddress_bound iteration iteration_perm
    (channel_manager_ a) (udp_peer sender)) as Hby.
  assert (ChannelManager.channelByAddress iteration (udp_peer sender) (channel_manager_ a)
    = None -> forall n y, bindings (view_lease a) !! n <> Some (udp_peer sender, y)) as Hno.
  { intros Hnone n y Hn. assert (ChannelManager.bound (channel_manager_ a) n (udp_peer sender))
      as Hb%Hby by (apply bindings_bound; eauto); [congruence|].
    by apply wf_channels_one_to_one. }
  destruct (ChannelManager.channelByAddress _ _ _) as [n|].
  - pose proof (proj1 (Hby n (wf_channels_one_to_one _ Hwf)) eq_refl) as Hb.
    apply bindings_bound in Hb as [x Hx].
    pose proof (relay_on_channel _ sender (payload (receive datagram (reader_message a)))
      _ _ Hx) as Hr. cbv zeta in Hr.
    by destruct (ChannelData_encode _).
  - specialize (Hno eq_refl). destruct (hasPermission _ _) eqn:Hp.
    + apply permits_has in Hp as [x Hx]. by eapply relay_permitted.
    + apply relay_dropped; [done|]. apply eq_None_not_Some. intros Hx%permits_has.
      cbn [udp_peer address] in Hp. congruence.
Qed.

(** A permission timer forgets an expired permission at most. *)
Lemma sim_permission_timer now a pm :
  completes now (permission_manager_ (base a)) pm ->
  let a' := set_base (set_permissions pm (base a)) a in
  view_lease a' = view_lease a \/
  exists addr x, permits (view_lease a) !! addr = Some x /\ x <= now /\
    view_lease a' = Spec.set_permits (delete addr (permits (view_lease a))) (view_lease a).
Proof.
  intros (w & ec & _ & _ & ->)%completes_inv a'.
  pose proof (PermissionManager.lifetime_run_wait now w ec (permission_manager_ (base a))) as Hl.
  pose proof (timers_run_wait now w ec (permission_manager_ (base a))) as Ht.
  cbn [timers PermissionManager.permission_table] in Ht.
  unfold a', view_lease, Spec.set_permits, set_base, set_permissions.
  cbn [base permission_manager_ five_tuple_ timer_ success_message_ Allocation.socket_
    Allocation.channel_ channel_manager_ permits permission_seconds binding_seconds
    bindings outbox granted_response owner relayed_socket lease_expiry].
  rewrite Hl. destruct Ht as [-> | (t & Hk & Hexp & ->)]; [by left|right].
  exists (wait_key w), (expiry t). rewrite lookup_fmap, Hk. split_and!; [done..|].
  by rewrite fmap_delete.
Qed.

(** A channel timer forgets an expired binding at most. *)
Lemma sim_channel_timer now a cm :
  completes now (channel_manager_ a) cm ->
  view_lease (set_channels cm a) = view_lease a \/
  exists n b, bindings (view_lease a) !! n = Some b /\ b.2 <= now /\
    view_lease (set_channels cm a) =
      Spec.set_bindings (delete n (bindings (view_lease a))) (view_lease a).
Proof.
  intros (w & ec & _ & _ & ->)%completes_inv.
  set (cm := run_wait now w ec (channel_manager_ a)).
  assert (ChannelManager.lifetime_seconds_ cm =
          ChannelManager.lifetime_seconds_ (channel_manager_ a) /\
    (channels_ cm = channels_ (channel_manager_ a) \/
     exists e, channels_ (channel_manager_ a) !! wait_key w = Some e /\
       expiry (entry_timer e) <= now /\
       channels_ cm = delete (wait_key w) (channels_ (channel_manager_ a)))) as [Hl Hc].
  { unfold cm, run_wait. cbn. unfold ChannelManager.on_timer, removeChannel. cbn.
    destruct (failed ec); [by split; [|left]|].
    destruct (channels_ (channel_manager_ a) !! wait_key w) as [e|]; [|by split; [|left]].
    destruct (Z.leb_spec (expiry (entry_timer e)) now); cbn; split; try done; [|by left].
    right. by exists e. }
  unfold view_lease, Spec.set_bindings, set_channels.
  cbn [base permission_manager_ five_tuple_ timer_ success_message_ Allocation.socket_
    Allocation.channel_ channel_manager_ permits permission_seconds binding_seconds
    bindings outbox granted_response owner relayed_socket lease_expiry].
  rewrite Hl. destruct Hc as [-> | (e & He & Hexp & ->)]; [by left|right].
  exists (wait_key w), (view_entry e). rewrite lookup_fmap, He. split_and!; [done..|].
  by rewrite fmap_delete.
Qed.

(** The packet that is processed in a step. *)
Definition processed (h : option happening) : option arrival :=
  match h with Some (arrived e) => Some e | _ => None end.

(** What a step of the server is for its specification: a transition whose
    messages join the queue of the socket, or nothing but the transmission
    of the oldest message of that queue. *)
Definition implements (e : option arrival) s s' : Prop :=
  (exists out, transition (stun_turn_processor_ s) (view (allocation_manager s)) e out
                 (view (allocation_manager s')) /\
     channel_ s' = channel_ s ++ (wire <$> out)) \/
  (e = None /\ view (allocation_manager s') = view (allocation_manager s) /\
   (channel_ s' = channel_ s \/ exists x, channel_ s = x :: channel_ s')).

Lemma sim_background now p a a' out s :
  let am := allocation_manager s in
  channel_open s = true -> Allocation.well_formed a -> objects am !! p = Some a ->
  background iteration now a a' out ->
  implements None s (asyncSend_all out
    (set_manager (set_objects (<[p := a']> (objects am)) (timer_calls am) am) s)).
Proof.
  intros am Ho Hwf Ha Hb. set (s1 := set_manager _ s).
  destruct (asyncSend_all_queue out s1 Ho) as [Hq _].
  destruct (asyncSend_all_keeps out s1) as (Hm & _).
  unfold implements. rewrite Hq, Hm. unfold s1. cbn [allocation_manager set_manager channel_].
  assert (leases (view am) !! p = Some (view_lease a)) as Hl by by rewrite lookup_view, Ha.
  assert (forall l, view_lease a' = l ->
    view (set_objects (<[p:=a']> (objects am)) (timer_calls am) am) = update p l (view am))
    as Hv by by intros l; apply view_set_object.
  assert (forall ec a1 o, Allocation.writer ec a = Some (a1, o) -> a1 = a' ->
    transition (stun_turn_processor_ s) (view am) None []
      (view (set_objects (<[p:=a']> (objects am)) (timer_calls am) am))) as Hwr.
  { intros ec a1 o Hw <-. unfold Allocation.writer in Hw.
    destruct (Allocation.channel_ a) as [|[m ep] q] eqn:Eq; [done|]. injection Hw as <- _.
    rewrite (Hv (set_outbox q (view_lease a))) by by destruct (failed ec).
    eapply (transmit _ _ p (view_lease a) (m, ep)); [done|]. exact Eq. }
  destruct Hb as [tid datagram sender a' out Hrun Hr | a' out Hrun Hw | pm Hpm | cm Hcm
    | a' [ec tid dg sd Hrun Hec | ec a1 out Hrun Hec Hw]].
  - destruct (sim_reader _ _ _ _ _ _ Hwf Hr) as [Ea Hrel]. left. exists (from_option
      (fun x => [x]) [] out). split; [|done]. rewrite (Hv _ Ea), update_id by done.
    by eapply relay_data.
  - left. exists []. split; [|done]. by eapply Hwr.
  - destruct (sim_permission_timer now a pm Hpm) as [E | (addr & x & Hx & Hle & E)].
    + right. split_and!; [done|by rewrite (Hv _ E), update_id | left; by rewrite app_nil_r].
    + left. exists []. split; [|done]. rewrite (Hv _ E). by eapply forget_permission.
  - destruct (sim_channel_timer now a cm Hcm) as [E | (n & b & Hb & Hle & E)].
    + right. split_and!; [done|by rewrite (Hv _ E), update_id | left; by rewrite app_nil_r].
    + left. exists []. split; [|done]. rewrite (Hv _ E). by eapply forget_binding.
  - right. split_and!; [done| |left; by rewrite app_nil_r].
    rewrite (Hv (view_lease a)), update_id; [done|done|].
    unfold Allocation.reader. by rewrite Hec.
  - left. exists []. split; [|done]. by eapply Hwr.
Qed.

(** An expiry callback forgets an expired session at most. *)
Lemma sim_expire now am am' :
  AllocationManager.well_formed am -> completes now am am' ->
  view am' = view am \/
  exists ft p l, sessions (view am) !! ft = Some p /\ leases (view am) !! p = Some l /\
    lease_expiry l <= now /\
    view am' = with_leases (delete ft (sessions (view am))) (leases (view am)) (view am).
Proof.
  intros Hwf (w & ec & _ & _ & ->)%completes_inv.
  change (run_wait now w ec am) with (expireAllocation now (wait_key w)
    (set_objects (objects am) (take_wait w (timer_calls am)) am)).
  unfold expireAllocation. cbn [session_map_ objects set_objects].
  destruct (session_map_ am !! wait_key w) as [p|] eqn:Ep; [|by left].
  destruct (objects am !! p) as [a|] eqn:Ea; [|by left]. unfold expired.
  destruct (Z.leb_spec (expiry (timer_ (base a))) now); [|by left].
  right. exists (wait_key w), p, (view_lease a). by rewrite lookup_view, Ea.
Qed.

(** What the simulation of an arrival assumes: the decoder keeps its promises
    about the packet, and the tokens drawn are distinct. *)
Definition benign s (h : option happening) : Prop :=
  forall e, h = Some (arrived e) ->
    (forall d, Decoder_parse (payload (arrival_packet e)) = Some d -> decoder_ok d) /\
    distinct_tokens (arrival_env e) (world s).

(** The invariant of the executions the simulation needs. *)
Definition connected (self : StunTurnProcessor) s : Prop :=
  serving s /\ channel_open s = true /\ stun_turn_processor_ s = self.

Lemma connected_step h s s' self :
  step iteration h s s' -> connected self s -> connected self s'.
Proof.
  intros Hs (Hsv & Ho & Hp).
  split; [by eapply serving_step|]. clear Hsv.
  destruct Hs as [env dg sd s Hr | env ec dg sd s Hr Hec | s s' out Hr E
    | ec s s' out Hr Hec E | now am s Hc | now rm s am Hc | now p a a' out s am Ha Hb]; try done.
  - destruct (server_reader_ok iteration env dg sd s) as (_ & _ & -> & -> & _). done.
  - unfold reader. by rewrite Hec.
  - apply server_writer_Some in E as (_ & _ & -> & -> & _). done.
  - apply server_writer_Some in E as (_ & _ & -> & -> & _). done.
  - destruct (asyncSend_all_keeps out (set_manager (set_objects (<[p := a']> (objects am))
      (timer_calls am) am) s)) as (_ & _ & -> & -> & _). done.
Qed.

Lemma connected_execution P os random config am s0 log s :
  AllocationManager.make config = Ok am -> make os random config am = Ok s0 ->
  execution iteration P s0 log s -> connected (stun_turn_processor_ s0) s.
Proof.
  intros Ham Hs0. destruct (serving_make os random config am s0 Ham Hs0) as (Hsv & _ & _ & Ho & _).
  induction 1 as [|log s h s' _ IH _ Hs]; [done|]. by eapply connected_step.
Qed.

(** Sending the oldest message of the queue, or trying to. *)
Lemma sim_write ec s s' out :
  writer ec s = Some (s', out) -> implements None s s'.
Proof.
  intros (Em & _ & _ & _ & Hq & _)%server_writer_Some. right. rewrite Em.
  split_and!; [done|done|by right].
Qed.

Lemma sim_receive env dg sd s :
  serving s -> channel_open s = true ->
  (forall d, Decoder_parse (payload (receive dg (message s))) = Some d -> decoder_ok d) ->
  distinct_tokens env (world s) ->
  implements (Some {| arrival_env := env; arrival_tuple := fromUdp sd (local_endpoint s);
                      arrival_packet := receive dg (message s) |})
    s (reader iteration env no_error dg sd s).
Proof.
  intros [Hm Hw] Ho Hd Hdist. left.
  destruct (processPacket_simulated iteration iteration_perm (stun_turn_processor_ s) env
    (world s) (receive dg (message s)) (fromUdp sd (local_endpoint s)) Hw Hdist Hd)
    as (o & [Ho1 Ho2 Ho3] & Hv & Hsent).
  destruct (server_reader_ok iteration env dg sd s) as (Em & _ & _ & _ & Eq & _).
  destruct (processPacket _ _ _ _ _ _) as [w r]. cbn [fst snd] in *.
  exists (sent w). rewrite Em, Eq.
  destruct (asyncSend_all_queue (sent w) (set_manager (allocation_manager_ w) s) Ho) as [-> _].
  split; [|done]. rewrite Hv, Hsent. cbn [sent world app].
  by apply (serve_packet (stun_turn_processor_ s) (view (allocation_manager s))
    {| arrival_env := env; arrival_tuple := fromUdp sd (local_endpoint s);
       arrival_packet := receive dg (message s) |} o).
Qed.

Lemma sim_step h s s' :
  serving s -> channel_open s = true -> benign s h -> step iteration h s s' ->
  implements (processed h) s s'.
Proof.
  intros Hsv Ho Hben Hs. pose proof Hsv as [_ Hw].
  destruct Hs as [env dg sd s Hr | env ec dg sd s Hr Hec | s s' out Hr E
    | ec s s' out Hr Hec E | now am s Hc | now rm s am Hc | now p a a' out s am Ha Hb];
    cbn [processed].
  - destruct (Hben _ eq_refl) as [Hd Hdist]. by apply sim_receive.
  - right. unfold reader. rewrite Hec. by split_and!; [| |left].
  - by eapply sim_write.
  - by eapply sim_write.
  - unfold implements. cbn [allocation_manager set_manager channel_].
    destruct (sim_expire now (allocation_manager s) am (wf_manager _ Hw) Hc)
      as [E | (ft & p & l & Hp & Hl & Hle & E)].
    + right. split_and!; [done|done|by left].
    + left. exists []. rewrite E, app_nil_r. split; [|done].
      by eapply forget_session.
  - right. split_and!; [done| |by left]. cbn [allocation_manager set_manager].
    rewrite view_set_reservations.
    destruct (unowned_completes now _ rm (wf_unowned _ (wf_manager _ Hw)) Hc) as [-> _]. done.
  - eapply sim_background; [done| |done..]. exact (wf_objects _ (wf_manager _ Hw) _ _ Ha).
Qed.

(** C2.  The running server implements the specification: from every reachable
    state, whatever packets, failures of sockets and timers led there, every
    step, a failure included, is a transition of the abstract server whose
    messages join the queue of the socket, or leaves the abstract server
    alone and at most takes the oldest message off that queue.  Of a step
    that processes a packet it is assumed that the decoder keeps its promises
    and the tokens drawn are distinct. *)
Theorem server_refines P os random config am s0 log s h s' :
  AllocationManager.make config = Ok am -> make os random config am = Ok s0 ->
  execution iteration P s0 log s -> benign s h -> step iteration h s s' ->
  implements (processed h) s s'.
Proof.
  intros Ham Hs0 Hr Hben Hs.
  destruct (connected_execution P os random config am s0 log s Ham Hs0 Hr) as (Hsv & Ho & _).
  by apply sim_step.
Qed.
End simulation.

(** ** Witnesses *)

Section witnesses.
#[local] Existing Instance plain_ip.
#[local] Existing Instance plain_ip_laws.
#[local] Existing Instance example_ssl.
#[local] Existing Instance example_ssl_laws.
#[local] Instance serving_codec : Stunxx := example_codec example_allocate.
#[local] Instance serving_laws : StunxxLaws serving_codec := plain_stunxx_laws _.

(** The server receives an Allocate request. *)
Lemma server_refines_witness :
  exists e, implements (Some e) example_server example_server'.
Proof.
  eexists. eapply (server_refines map_to_list example_perm any_step example_bind
    (Some [x01; x02; x03]) example_config example_manager example_server [] example_server
    (Some (arrived _)) _ make_example make_example_server (execution_start _ _ _)).
  2: by apply step_receive.
  intros e [= <-]. split; [|exact example_distinct].
  intros d [= <-]. apply (example_decoder_ok (fun _ => Some example_allocate)).
Defined.
End witnesses.
