(* ===== verification/Authorisation.v ===== *)
(** * Who gets data through the server

    The server relays data of a peer to a client only on the client's word:
    in every execution, what an allocation relays comes from a peer whose
    address the owner of the allocation has named in an authentic request,
    and the owner has asked for the allocation in one.  The proof is an
    invariant of the transitions of the abstract server, which the server
    refines. *)

From Stdlib Require Import ZArith Lia Strings.Byte.
From stdpp Require Import base gmap list strings relations.
From S2P Require Import Prelude Asio Instances TimedTable.
From S2P Require Import PermissionManager ChannelManager.
From S2P Require Import RelayAddressGenerator ReservationManager.
From S2P Require Import Config OpenSSL Stunxx AuthKey Authenticator.
From S2P Require Import Endpoint Message Allocation AllocationManager StunTurnProcessor.
From S2P Require Import Examples ProcessorFacts RequestFacts Server.
From S2P Require Import Spec Refinement ServerRefinement.

(** ** Requests of an execution *)

Section requests.
Context {ip : IpAddress} {sx : Stunxx} {ssl : OpenSSL}.
Context (self : StunTurnProcessor).
Implicit Types (e : arrival) (d : Decoder) (ft : FiveTuple) (addr : Address)
  (log : list arrival) (l : Lease) (t : Turn).

(** The packet [e] is an authentic request of the client at [ft]. *)
Record requested e ft (method : StunMethod) d : Prop := {
  requested_from : arrival_tuple e = ft;
  requested_decodes : Decoder_parse (payload (arrival_packet e)) = Some d;
  requested_class : messageClass d = Request;
  requested_method : messageMethod d = method;
  requested_authentic : exists key, authentic self (arrival_env e) d key
}.

Definition asks_allocation e ft : Prop := exists d, requested e ft Allocate d.

(** The request names the peer for a channel. *)
Definition asks_channel e ft (n : Z) (peer : Endpoint) : Prop :=
  exists d x, requested e ft ChannelBind d /\ get_channel_number d = Some n /\
    get_xor_peer d = Some x /\ make_address (xpa_addressStr x) = Some (address peer) /\
    port peer = xpa_port x.

(** The request names the address, for a permission or for a channel. *)
Definition asks_permission e ft addr : Prop :=
  (exists d, requested e ft CreatePermission d /\ grants (get_xor_peers d) addr) \/
  (exists n peer, asks_channel e ft n peer /\ address peer = addr).

(** ** The invariant *)

Record authorised_lease log l : Prop := {
  lease_asked : exists e, e ∈ log /\ asks_allocation e (owner l);
  permits_asked : forall addr x, permits l !! addr = Some x ->
    exists e, e ∈ log /\ asks_permission e (owner l) addr /\
      x = now (arrival_env e) + seconds (permission_seconds l);
  bindings_asked : forall n peer x, bindings l !! n = Some (peer, x) ->
    exists e, e ∈ log /\ asks_channel e (owner l) n peer /\
      x = now (arrival_env e) + seconds (binding_seconds l)
}.

(** A lease has the lifetimes of the configuration. *)
Definition configured (conf : Config) l : Prop :=
  permission_seconds l = permission_lifetime (turn conf) /\
  binding_seconds l = channel_lifetime (turn conf).

Record authorised (conf : Config) log t : Prop := {
  auth_settings : settings t = conf;
  auth_leases : forall p l, leases t !! p = Some l ->
    authorised_lease log l /\ configured conf l;
  auth_sessions : forall ft p, sessions t !! ft = Some p ->
    exists l, leases t !! p = Some l /\ owner l = ft;
  auth_fresh : forall p, is_Some (leases t !! p) -> (p < next_lease t)%nat
}.

Lemma authorised_lease_mono log log' l :
  (forall e, e ∈ log -> e ∈ log') -> authorised_lease log l -> authorised_lease log' l.
Proof.
  intros Hsub [(e & He & Ha) Hp Hb]. split; [eauto| |].
  - intros addr x (e' & ? & ?)%Hp. eauto.
  - intros n peer x (e' & ? & ?)%Hb. eauto.
Qed.

Lemma authorised_mono conf log log' t :
  (forall e, e ∈ log -> e ∈ log') -> authorised conf log t -> authorised conf log' t.
Proof.
  intros Hsub [Hs Hl Hse Hf]. split; try done.
  intros p l [Ha Hc]%Hl. split; [by eapply authorised_lease_mono | done].
Qed.

(** Replacing a lease by one of the same owner. *)
Lemma authorised_update conf log t p l l' :
  authorised conf log t -> leases t !! p = Some l -> owner l' = owner l ->
  configured conf l' -> authorised_lease log l' -> authorised conf log (update p l' t).
Proof.
  intros [Hs Hl Hse Hf] Hp Ho Hc Ha. split; cbn; [done| | |].
  - intros q m. rewrite lookup_insert. case_decide; [by intros [= <-] | apply Hl].
  - intros ft q (m & Hm & Hft)%Hse. destruct (decide (q = p)) as [->|Hne].
    + exists l'. rewrite lookup_insert_eq. split; [done|]. rewrite Ho. congruence.
    + exists m. by rewrite lookup_insert_ne.
  - intros q. rewrite lookup_insert_is_Some'. intros [<-|?]; [|by apply Hf].
    apply Hf. by exists l.
Qed.

Lemma authorised_session conf log t ft p l :
  authorised conf log t -> session ft t = Some (p, l) ->
  leases t !! p = Some l /\ owner l = ft /\ authorised_lease log l /\ configured conf l.
Proof.
  intros Ha. unfold session. destruct (sessions t !! ft) as [q|] eqn:Eq; [|done].
  destruct (auth_sessions _ _ _ Ha _ _ Eq) as (m & Hm & Ho). rewrite Hm. intros [= -> ->].
  split; [done|]. split; [done|]. by eapply auth_leases.
Qed.

(** ** Operations of a lease *)

Lemma authorised_permit log e addr l :
  e ∈ log -> asks_permission e (owner l) addr -> authorised_lease log l ->
  authorised_lease log (permit (now (arrival_env e)) addr l).
Proof.
  intros He Hask [Ha Hp Hb]. split; [done| |done]. cbn. intros addr' x.
  rewrite lookup_insert. case_decide; [|apply Hp]. intros [= <-]. subst. by exists e.
Qed.

Lemma authorised_bind log e n peer l :
  e ∈ log -> asks_channel e (owner l) n peer -> authorised_lease log l ->
  authorised_lease log (bind (now (arrival_env e)) n peer l).
Proof.
  intros He Hask [Ha Hp Hb]. apply authorised_permit; [done|right; by exists n, peer|].
  split; [done|done|]. cbn. intros n' peer' x.
  rewrite lookup_insert. case_decide; [|apply Hb]. intros [= <- <-]. subst. by exists e.
Qed.

Lemma authorised_permit_peers conf log e xs : forall l,
  e ∈ log -> (forall addr, grants xs addr -> asks_permission e (owner l) addr) ->
  configured conf l -> authorised_lease log l ->
  let l' := fold_left (permit_peer (now (arrival_env e))) xs l in
  authorised_lease log l' /\ owner l' = owner l /\ configured conf l'.
Proof.
  induction xs as [|x xs IH]; intros l He Hask Hc Ha; [done|]. cbn [fold_left].
  assert (forall addr, grants xs addr -> grants (x :: xs) addr) as Hsub.
  { intros addr (y & Hy & Ey). exists y. split; [by right | done]. }
  destruct (IH (permit_peer (now (arrival_env e)) l x)) as (? & Ho & ?); [done| | | |].
  - unfold permit_peer. destruct (toAsioAddress _ _); intros addr' ?; by apply Hask, Hsub.
  - unfold permit_peer. by destruct (toAsioAddress _ _).
  - unfold permit_peer. destruct (toAsioAddress _ _) as [addr|] eqn:Ex; [|done].
    apply authorised_permit; [done| |done]. apply Hask. exists x. split; [left | done].
  - split_and!; [done| |done]. rewrite Ho. unfold permit_peer.
    by destruct (toAsioAddress _ _).
Qed.

Lemma grants_prefix supported xs addr :
  grants (supported_prefix supported xs) addr -> grants xs addr.
Proof.
  intros (x & Hx & E). exists x. split; [|done]. clear E. induction xs as [|y xs IH]; [done|].
  cbn in Hx. destruct (supported (xpa_family y)); [|by apply elem_of_nil in Hx].
  apply elem_of_cons in Hx as [->|Hx]; [left | right; by apply IH].
Qed.
End requests.

(** ** Transitions *)

Section invariant.
Context {ip : IpAddress} {sx : Stunxx} {ssl : OpenSSL}.
Context (self : StunTurnProcessor) (conf : Config).
Implicit Types (e : arrival) (d : Decoder) (ft : FiveTuple) (log : list arrival)
  (l : Lease) (t : Turn) (o : oracle).

Local Abbreviation authorised := (authorised self conf).

Lemma authorised_lease_new log e ft expires s m t :
  e ∈ log -> asks_allocation self e ft -> authorised log t ->
  authorised log (lease expires ft s m t).
Proof.
  intros He Hask [Hs Hl Hse Hf].
  assert (leases t !! next_lease t = None) as Hnone.
  { destruct (leases t !! next_lease t) as [l|] eqn:El; [|done].
    specialize (Hf (next_lease t) ltac:(by exists l)). lia. }
  split; cbn; [done| | |].
  - intros p l. rewrite lookup_insert. case_decide; [|apply Hl]. intros [= <-].
    split; [split; cbn|by rewrite <-Hs]; [by exists e|by intros|by intros].
  - intros ft' p. rewrite lookup_insert. case_decide as Hft.
    + intros [= <-]. rewrite lookup_insert_eq. by eexists.
    + intros (l & Hp & Ho)%Hse. exists l. rewrite lookup_insert_ne by congruence. done.
  - intros p. rewrite lookup_insert_is_Some'. intros [<-|Hp]; [lia|].
    apply Hf in Hp. lia.
Qed.

Lemma authorised_reserved log m t : authorised log t -> authorised log (with_reserved m t).
Proof. by intros [Hs Hl Hse Hf]. Qed.

(** An update that neither grants nor binds. *)
Lemma authorised_keeps log t p l l' :
  authorised log t -> leases t !! p = Some l -> owner l' = owner l ->
  permission_seconds l' = permission_seconds l -> binding_seconds l' = binding_seconds l ->
  (forall addr x, permits l' !! addr = Some x -> permits l !! addr = Some x) ->
  (forall n b, bindings l' !! n = Some b -> bindings l !! n = Some b) ->
  authorised log (update p l' t).
Proof.
  intros Ha Hp Ho Hps Hbs Hpe Hbi.
  destruct (auth_leases _ _ _ _ Ha _ _ Hp) as [[Hl Hper Hbind] Hc].
  eapply authorised_update; [done..| |].
  - unfold configured in *. by rewrite Hps, Hbs.
  - split; rewrite Ho, ?Hps, ?Hbs; [done|eauto|eauto].
Qed.

Lemma authorised_grant log e d ft key s extra tok t :
  e ∈ log -> asks_allocation self e ft -> authorised log t ->
  authorised log
    (grant (StunTurnProcessor.config_ self) (now (arrival_env e)) d ft key s extra tok t).1.
Proof. intros. by eapply authorised_lease_new. Qed.

Section serving.
Context (log : list arrival) (e : arrival) (He : e ∈ log).

Lemma authorised_allocate o d key t :
  requested self e (arrival_tuple e) Allocate d -> authorised log t ->
  authorised log (serve_allocate (StunTurnProcessor.config_ self) (now (arrival_env e)) o d
    (arrival_tuple e) key t).1.
Proof.
  intros Hr Ha. assert (asks_allocation self e (arrival_tuple e)) as Hask by by exists d.
  unfold serve_allocate. destruct (session _ _) as [[p l]|]; [done|].
  destruct (first_failing _); [done|]. destruct (get_reservation_token d).
  - destruct (reserved t !! _); [|done]. by apply authorised_grant, authorised_reserved.
  - destruct (offer o) as [[r|]|e']; [|done..].
    destruct (secondary_ r); [by apply authorised_grant, authorised_reserved|].
    by apply authorised_grant.
Qed.

Lemma authorised_refresh d key t :
  authorised log t ->
  authorised log (serve_refresh (StunTurnProcessor.config_ self) (now (arrival_env e)) d
    (arrival_tuple e) key t).1.
Proof.
  intros Ha. unfold serve_refresh. destruct (session _ _) as [[p l]|] eqn:Es; [|done].
  destruct (from_option _ _ _); [done|].
  apply (authorised_session _ _ _ _ _ _ _ Ha) in Es as (Hp & _).
  by eapply authorised_keeps.
Qed.

Lemma authorised_permission d key t :
  requested self e (arrival_tuple e) CreatePermission d -> authorised log t ->
  authorised log (serve_permission (now (arrival_env e)) d (arrival_tuple e) key t).1.
Proof.
  intros Hr Ha. unfold serve_permission. destruct (session _ _) as [[p l]|] eqn:Es; [|done].
  apply (authorised_session _ _ _ _ _ _ _ Ha) in Es as (Hp & Ho & Hl & Hc).
  edestruct (authorised_permit_peers self conf log e
    (supported_prefix (family_matches (addr_ (relays t))) (get_xor_peers d)) l)
    as (Hl' & Ho' & Hc'); [done| |done|done|by eapply authorised_update].
  intros addr Hg%grants_prefix. left. exists d. by rewrite Ho.
Qed.

Lemma authorised_channel d key t :
  requested self e (arrival_tuple e) ChannelBind d -> authorised log t ->
  authorised log (serve_bind (now (arrival_env e)) d (arrival_tuple e) key t).1.
Proof.
  intros Hr Ha. unfold serve_bind. destruct (session _ _) as [[p l]|] eqn:Es; [|done].
  apply (authorised_session _ _ _ _ _ _ _ Ha) in Es as (Hp & Ho & Hl & Hc).
  destruct (get_channel_number d) as [n|] eqn:En; [|done].
  destruct (get_xor_peer d) as [x|] eqn:Ex; [|done]. destruct (negb _); [done|].
  destruct (make_address _) as [addr|] eqn:Ea; [|done].
  destruct (bool_decide _); [|done]. eapply authorised_update; [done..|].
  apply authorised_bind; [done| |done]. exists d, x. by rewrite Ho.
Qed.

Lemma authorised_outbox p l q t :
  authorised log t -> leases t !! p = Some l -> authorised log (update p (set_outbox q l) t).
Proof. intros. by eapply authorised_keeps. Qed.

Lemma authorised_serve o t :
  foretells_arrival self e t o -> authorised log t ->
  authorised log (serve (StunTurnProcessor.config_ self) (now (arrival_env e)) o
    (arrival_packet e) (arrival_tuple e) t).1.
Proof.
  intros [Hv _ _] Ha. unfold serve. destruct (is_turn_channel_data _).
  { unfold serve_channel_data. destruct (ChannelData_decode _); [|done].
    destruct (session _ _) as [[p l]|] eqn:Es; [|done].
    apply (authorised_session _ _ _ _ _ _ _ Ha) in Es as (Hp & _).
    destruct (bindings l !! _) as [[]|]; [|done].
    destruct (ChannelData_encodeData _); [|done]. by apply authorised_outbox. }
  destruct (is_stun_message _); [|done].
  destruct (Decoder_parse _) as [d|] eqn:Ed; [|done]. specialize (Hv d eq_refl).
  destruct (messageClass d) eqn:Ec; try done.
  - assert (forall method k, messageMethod d = method ->
      (forall key, requested self e (arrival_tuple e) method d -> authorised log (k key t).1) ->
      authorised log (authenticated o k t).1) as Hauth.
    { intros method k Hm Hk. unfold authenticated. unfold verdict_ok in Hv.
      destruct (verdict o) as [key|[ec key]]; [|done]. apply Hk. by split; [..|exists key]. }
    unfold serve_request. destruct (messageMethod d) eqn:Em; try done.
    + apply (Hauth Allocate); [done|]. intros. by apply authorised_allocate.
    + apply (Hauth Refresh); [done|]. intros. by apply authorised_refresh.
    + apply (Hauth CreatePermission); [done|]. intros. by apply authorised_permission.
    + apply (Hauth ChannelBind); [done|]. intros. by apply authorised_channel.
  - case_bool_decide; [|done]. unfold serve_send.
    destruct (session _ _) as [[p l]|] eqn:Es; [|done].
    apply (authorised_session _ _ _ _ _ _ _ Ha) in Es as (Hp & _).
    destruct (get_data d); [|done]. destruct (get_xor_peer d); [|done].
    destruct (toAsioAddress _ _); [|done]. destruct (data_encode _); [|done].
    by apply authorised_outbox.
Qed.
End serving.

Lemma authorised_transition log t (happened : option arrival) out t' :
  transition self t happened out t' -> authorised log t ->
  authorised (option_list happened ++ log) t'.
Proof.
  intros Ht Ha. destruct Ht as [e o Ho s|p l sender data out Hp Hr|p l x rest Hp Hq
    |now ft p l Hse Hp Hx|now p l addr x Hp Hx Hle|now p l n b Hp Hb Hle]; cbn [option_list app].
  - apply authorised_serve; [left|done|]. eapply authorised_mono; [|done].
    intros e'. by right.
  - done.
  - by eapply authorised_keeps.
  - destruct Ha as [Hs Hl Hses Hf]. split; cbn; [done|done| |done].
    intros ft' q [_ Hq]%lookup_delete_Some. by apply Hses.
  - eapply authorised_keeps; [done..| |done]. cbn. by intros addr' y [_ ?]%lookup_delete_Some.
  - eapply authorised_keeps; [done..|]. cbn. by intros n' c [_ ?]%lookup_delete_Some.
Qed.
End invariant.

(** ** Executions *)

Section executions.
Context {ip : IpAddress} {ipl : IpAddressLaws ip} {sx : Stunxx} {sxl : StunxxLaws sx}.
Context {ssl : OpenSSL} {laws : OpenSSLLaws ssl}.
Context (iteration : gmap Z ChannelManager.ChannelEntry ->
                     list (Z * ChannelManager.ChannelEntry)).
Context (iteration_perm : forall m, iteration m ≡ₚ map_to_list m).

Lemma authorised_make self config am :
  AllocationManager.make config = Ok am -> authorised self config [] (view am).
Proof.
  unfold AllocationManager.make. destruct (RelayAddressGenerator.make _ _ _); [|done].
  intros [= <-]. split; cbn; [done| |by intros|].
  - intros p l. by rewrite fmap_empty, lookup_empty.
  - intros p. rewrite fmap_empty, lookup_empty. by intros [? ?].
Qed.

(** The packets that have been processed. *)
Definition arrivals (log : list happening) : list arrival :=
  omap (fun h => processed (Some h)) log.

Lemma elem_of_arrivals e log : e ∈ arrivals log <-> arrived e ∈ log.
Proof.
  unfold arrivals. rewrite list_elem_of_omap. split.
  - intros ([e'|] & Hin & E); [|done]. injection E as ->. exact Hin.
  - intros Hin. by exists (arrived e).
Qed.

Lemma arrivals_cons h log :
  arrivals (option_list h ++ log) = option_list (processed h) ++ arrivals log.
Proof. by destruct h as [[e|]|]. Qed.

Lemma authorised_execution os random config am s0 log s :
  AllocationManager.make config = Ok am -> make os random config am = Ok s0 ->
  execution iteration benign s0 log s ->
  authorised (stun_turn_processor_ s0) config (arrivals log) (view (allocation_manager s)).
Proof.
  intros Ham Hs0 Hx. induction Hx as [|log s h s' Hx IH Hben Hs].
  - destruct (serving_make os random config am s0 Ham Hs0) as (_ & _ & _ & _ & ->).
    by apply authorised_make.
  - destruct (connected_execution iteration iteration_perm benign os random config am s0 log s
      Ham Hs0 Hx) as (Hsv & Ho & Hp).
    rewrite arrivals_cons.
    destruct (sim_step iteration iteration_perm h s s' Hsv Ho Hben Hs)
      as [(out & Ht & _) | (-> & -> & _)]; [|done].
    rewrite Hp in Ht. by eapply authorised_transition.
Qed.

(** C1.  Data of a peer reaches a client only on the client's word.  In every
    execution, failures of sockets included, when an allocation relays a
    datagram, the client it goes to has asked for the allocation in an
    authentic Allocate request, and has named the address of the peer in an
    authentic CreatePermission or ChannelBind request; and once the timer
    handlers that are due have run, that request is no older than a
    permission or a channel lives.  Of the packets that are processed it is
    assumed that the decoder keeps its promises and the tokens drawn are
    distinct. *)
Theorem relayed_data_authorised os random config am s0 log s p a tid datagram sender a' m dest :
  AllocationManager.make config = Ok am -> make os random config am = Ok s0 ->
  execution iteration benign s0 log s ->
  objects (allocation_manager s) !! p = Some a ->
  Allocation.reader iteration no_error tid datagram sender a = (a', Some (m, dest)) ->
  let self := stun_turn_processor_ s0 in
  let client := five_tuple_ (base a) in
  dest = endpoint client /\
  (exists e, arrived e ∈ log /\ asks_allocation self e client) /\
  exists e, arrived e ∈ log /\ asks_permission self e client sender.1 /\
    forall time, quiescent time (permission_manager_ (base a)) ->
      quiescent time (channel_manager_ a) ->
      time < now (arrival_env e) +
        seconds (Z.max (permission_lifetime (turn config)) (channel_lifetime (turn config))).
Proof.
  intros Ham Hs0 Hx Hpa Hr self client.
  destruct (connected_execution iteration iteration_perm benign os random config am s0 log s
    Ham Hs0 Hx) as ((_ & Hw) & _ & _).
  pose proof (wf_objects _ (wf_manager _ Hw) _ _ Hpa) as Hwa.
  destruct (auth_leases _ _ _ _ (authorised_execution os random config am s0 log s Ham Hs0 Hx)
    p (view_lease a)) as [[Hask Hper Hbind] [Hps Hbs]]; [by rewrite lookup_view, Hpa|].
  assert (exists e, arrived e ∈ log /\ asks_allocation self e client) as Hask'
    by (destruct Hask as (e & He%elem_of_arrivals & Hask); by exists e). clear Hask.
  destruct (sim_reader iteration iteration_perm _ _ _ _ _ _ Hwa Hr) as [_ Hrel].
  cbn [from_option] in Hrel. remember [(m, dest)] as out eqn:Hout.
  assert (forall x b, x <= Z.max (permission_lifetime (turn config))
    (channel_lifetime (turn config)) -> b + seconds x <= b + seconds (Z.max
    (permission_lifetime (turn config)) (channel_lifetime (turn config)))) as Hmax
    by (unfold seconds; lia).
  destruct Hrel as [n x Hn cd | tid' x Hno Hx' | Hno Hx']; [| |done].
  - destruct (ChannelData_encode cd); [|done]. injection Hout as _ <-.
    destruct (Hbind n _ x Hn) as (e & He%elem_of_arrivals & Hch & Hex).
    split; [done|]. split; [done|]. exists e. split; [done|].
    split; [right; by exists n, (udp_peer sender)|]. intros time _ Hq.
    rewrite view_getPeerByChannel in Hn. apply fmap_Some in Hn as (en & Hen & [= _ Hexp]).
    pose proof (quiescent_unexpired time (channel_manager_ a) n (entry_timer en)
      (proj2 (proj2 Hwa)) Hq) as Hlt. cbn [timers ChannelManager.channel_table] in Hlt.
    rewrite lookup_fmap, Hen in Hlt. specialize (Hlt eq_refl).
    specialize (Hmax (channel_lifetime (turn config)) (now (arrival_env e)) ltac:(lia)).
    rewrite Hbs in Hex. lia.
  - injection Hout as _ <-. destruct (Hper _ x Hx') as (e & He%elem_of_arrivals & Hp & Hex).
    split; [done|]. split; [done|]. exists e. split; [done|]. split; [done|].
    intros time Hq _. cbn [permits view_lease] in Hx'.
    rewrite lookup_fmap in Hx'. apply fmap_Some in Hx' as (t & Ht & ->).
    pose proof (quiescent_unexpired time (permission_manager_ (base a)) sender.1 t
      (proj1 Hwa) Hq Ht) as Hlt.
    specialize (Hmax (permission_lifetime (turn config)) (now (arrival_env e)) ltac:(lia)).
    rewrite Hps in Hex. lia.
Qed.
End executions.

(** ** Witnesses *)

Section witnesses.
#[local] Existing Instance plain_ip.
#[local] Existing Instance plain_ip_laws.
#[local] Existing Instance example_ssl.
#[local] Existing Instance example_ssl_laws.

#[local] Instance conversation_codec : Stunxx := plain_stunxx conversation.
#[local] Instance conversation_laws : StunxxLaws conversation_codec := plain_stunxx_laws _.

Definition permitted_server : Server := receives x08 (receives x03 example_server).

Lemma conversation_ok b d : conversation b = Some d -> decoder_ok d.
Proof.
  unfold conversation. destruct b as [|? [|[] ?]]; try done; intros [= <-];
    try apply example_decoder_ok. split; [by intros o|by intros o|..].
  - intros x Hx%list_elem_of_singleton. subst x. by apply Nat.leb_le.
  - intros x [= <-]. split; [by apply Nat.leb_le | by eexists].
Qed.

Lemma receives_benign b s :
  base.size (reservations_ (reservation_manager_ (allocation_manager s))) = 0%nat ->
  ready s = true ->
  exists h, benign s h /\ step map_to_list h s (receives b s).
Proof.
  intros Hz Hr. eexists. split; [|by apply step_receive]. intros e [= <-].
  split; [intros d; apply conversation_ok|]. intros i j Hij.
  cbn [allocation_manager_ world] in Hij. rewrite Hz in Hij. lia.
Qed.

Lemma permitted_execution :
  exists log, execution map_to_list benign example_server log permitted_server.
Proof.
  destruct (receives_benign x03 example_server) as (h1 & B1 & H1); [by vm_compute..|].
  destruct (receives_benign x08 (receives x03 example_server)) as (h2 & B2 & H2);
    [by vm_compute..|].
  pose proof (execution_step _ _ _ _ _ _ _ (execution_start _ benign example_server) B1 H1) as X1.
  eexists. exact (execution_step _ _ _ _ _ _ _ X1 B2 H2).
Qed.

Definition permitted_allocation : option UdpAllocation :=
  objects (allocation_manager permitted_server) !! 0%nat.

(** The permitted peer sends a byte. *)
Definition peer_data (a : UdpAllocation) : option (Message * Endpoint) :=
  (Allocation.reader map_to_list no_error (replicate 12 x00) [x2a]
     (peer_b : @Address plain_ip, 7000) a).2.

Lemma permitted_allocation_relays :
  match permitted_allocation with
  | Some a => bool_decide (five_tuple_ (base a) = example_tuple) &&
              match peer_data a with Some _ => true | None => false end
  | None => false
  end = true.
Proof. vm_compute. reflexivity. Qed.

(** The client has asked for what it gets. *)
Lemma relayed_data_authorised_witness :
  exists a m dest (log : list happening) e,
    permitted_allocation = Some a /\ peer_data a = Some (m, dest) /\
    arrived e ∈ log /\ asks_permission example_processor e example_tuple (peer_b : @Address plain_ip).
Proof.
  destruct permitted_execution as [log Hx]. pose proof permitted_allocation_relays as Hrel.
  destruct permitted_allocation as [a|] eqn:Ea; [|discriminate Hrel].
  apply andb_true_iff in Hrel as [Hft Hdata]. apply bool_decide_eq_true in Hft.
  destruct (peer_data a) as [[m dest]|] eqn:Ed; [|discriminate Hdata].
  destruct (relayed_data_authorised map_to_list example_perm example_bind (Some [x01; x02; x03])
    example_config example_manager example_server log permitted_server 0 a (replicate 12 x00)
    [x2a] (peer_b : @Address plain_ip, 7000)
    (Allocation.reader map_to_list no_error (replicate 12 x00) [x2a]
       (peer_b : @Address plain_ip, 7000) a).1 m dest make_example make_example_server
    Hx Ea) as (_ & _ & e & He & Hask & _).
  - apply injective_projections; [reflexivity | exact Ed].
  - exists a, m, dest, log, e. rewrite Hft in Hask. split_and!; [done..|exact Hask].
Defined.
End witnesses.
